(* ===== verification/_CoqProject ===== *)
-Q . S2P
Prelude.v
Bytes.v
Sorting.v
Encoding.v
Sha256.v
BigRat.v
Json.v
JsonTerm.v
JsonStruct.v
GoTime.v
GoClock.v
GoNet.v
GoPath.v
GoGlob.v
Config.v
ConfigProps.v
Event.v
Syncv1.v
Reconcile.v
Queue.v
QueueInv.v
QueueSpec.v
FileEmbed.v
Batch.v
SqlClient.v
SQLServer.v
SQLServerProps.v
Legacy.v
LegacyProps.v
Capture.v
CaptureProps.v
MySQL.v
MySQLProps.v
FileWatch.v
Delivery.v
GrpcDelivery.v
CaptureController.v
ServerConfig.v
ServerValidate.v
Schema.v
Target.v
TargetInv.v
TargetPaging.v
TargetSpec.v
TargetProps.v
Lease.v
Disk.v
Filestore.v
FilestoreProps.v
Destinations.v
FileWatchProps.v
ServerReconcile.v
ServerSession.v
Service.v
Watch.v
App.v
AppProps.v
WinService.v
WinServiceProps.v
Commands.v
CommandsProps.v
WalPlugin.v
WalPluginProps.v
System.v
