(* ===== verification/Prelude.v ===== *)
(** * A verification development for go-sync

    go-sync replicates changes.  A collector reads a source (PostgreSQL, MySQL, SQL
    Server by change data capture or by an outbox, or a directory tree), stages whole
    source transactions in a durable local queue and publishes them with the source
    checkpoint; it delivers published messages over HTTP, or over a gRPC stream to the
    server, which stores them in PostgreSQL transactions and applies complete batches
    to the target tables and to a file destination.  The server can compare digests of
    source and target tables and ask the collector for a repair.

    ** Conventions

    Definitions are translated from the Go sources and keep their names.  A function
    that returns an error returns a [result]; the texts of errors are the format
    strings of the source.  Integers are [Z], with the wrap-around of their width
    written out where it can happen ([u64], [i64], [u32]).  A Go string or byte slice
    is a [string] of bytes.  State is passed explicitly or by a small monad ([staging]
    in Batch, [legacy] in Legacy, the operations of Target, [disk] in Disk, [call] in
    WinService); goroutines and processes that interleave are step relations.  Code
    outside the repository (databases, drivers, object stores, the Windows service
    manager, zip archives, TLS) is an argument, or an interface with named laws where
    the properties need to know something of it; the witnesses instantiate it.

    ** Files

    Shared: Prelude (results, errors, integers, tactics), Bytes, Sorting, Encoding,
    Sha256, BigRat, Json, JsonTerm, JsonStruct, GoTime, GoClock, GoNet, GoPath, GoGlob
    (the Go standard library as far as the sources use it, with the round trips),
    SqlClient (answers of a database), Disk (files whose calls fail, are torn or are
    cut off by the end of the process, with a logic for such computations).

    Collector:
    - Config, ConfigProps: src/internal/config, loading, validation, fingerprint.
    - Event: src/internal/event, the messages and their JSON.
    - Queue, QueueInv, QueueSpec: src/internal/queue, every operation of the store.
    - Batch: the batchers of src/internal/capture, mysql, sqlserver, sqlserverlegacy.
    - Capture, CaptureProps: src/internal/capture (PostgreSQL).
    - MySQL, MySQLProps: src/internal/mysql.
    - SQLServer, SQLServerProps: src/internal/sqlserver.
    - Legacy, LegacyProps: src/internal/sqlserverlegacy.
    - FileWatch, FileWatchProps: src/internal/filewatch; FileEmbed:
      src/internal/fileembed.
    - Delivery, GrpcDelivery: src/internal/delivery.
    - CaptureController, App, AppProps: src/internal/app.
    - WalPlugin, WalPluginProps: src/internal/walplugin.

    Server:
    - ServerConfig, ServerValidate: src/internal/serverconfig.
    - Schema, Target, TargetInv, TargetPaging, TargetSpec, TargetProps, Lease:
      src/internal/server/schema.go and target.go.
    - ServerReconcile, ServerSession, Service, Watch: src/internal/server/reconcile.go
      and server.go.
    - Filestore, FilestoreProps: src/internal/filestore; Destinations: where the syncers
      of an accepted configuration write.

    Both: Reconcile (src/internal/reconcile, row digests), Syncv1 (the frames of
    src/internal/rpc/syncv1), WinService and WinServiceProps (src/internal/winservice,
    serverwinservice), Commands and CommandsProps (src/cmd and src/internal/logging),
    System (collector and server connected by a stream).

    ** What the theorems show

    - The queue refines a transactional outbox and keeps its invariant
      ([queue_refines_outbox], [queue_invariant]), also when it is closed and opened
      again; over HTTP the receiver sees the messages in order, each until it is
      acknowledged, against the interface of the queue ([http_in_order]).
    - The collectors queue whole transactions, once and in order, and confirm only
      what is durable ([transaction_captured], [confirmed_durable],
      [consume_terminates], [binlog_captured], [cdc_captured], [fence_snapshot],
      [legacy_exactly_once], [statement_captured]); files are queued
      whole, and replaying what was published gives the scanned tree
      ([file_captured], [changes_published], [embedded_content]).
    - The target refines an abstract replica ([store_refines]); after any history of
      arrivals, failures and repairs it has accepted the messages of its generation once
      and in order ([target_invariant]); duplicates are harmless, transactions and snapshots are
      applied as a whole ([store_idempotent], [transaction_applied],
      [snapshot_replaces], [empty_transaction_rejected]); column types come from the
      allowlist ([safeTargetType_allowed]); a target has one owner,
      and a failed query can leave its lock behind ([lease_exclusive]); none is used
      after it was closed ([no_use_after_close]); two syncers of a configuration write
      to different places ([accepted_disjoint]); changes of the configuration are
      reloaded once they are quiet ([watch_reloads]).
    - Files reach their destination unchanged, and atomically but for a gap on Windows
      ([file_transferred], [file_on_disk], [put_atomic], [emptied_directory_blocks]).
    - Over the stream, the target has stored exactly the received prefix of the
      collector's log, progress is made while nothing fails, and a lost acknowledgement
      is not made up for ([exactly_once], [round_delivers], [lost_ack_stuck]).
    - Reconciliation: digests do not depend on order and equal a reference definition,
      and the source is scanned only when nothing is captured ([digests_reference],
      [reconcile_agreement], [scan_quiescent]).
    - The processes: a capture is not continued with another scope ([run_scope]), only
      verified plugins are installed, whole and without overwriting
      ([ensure_verified], [plugin_published]), waiting for a service is bounded
      ([wait_bounded]) and which names of services are refused ([collector_names]).

    ** Bounds and fuel

    A fixpoint whose recursion is not structural has fuel, chosen from its input.  The
    readers of JSON and of patterns take at least one byte per step, so the length of
    the input is enough; that printed documents parse back (Json) and that the loop
    over a stream of records ends ([consume_terminates]) is proved.  The paged loops of
    the target end after as many pages as there are rows (TargetPaging), copying a file
    takes at most a step per byte ([put_succeeds] in FilestoreProps), and waiting for a
    service polls at most 120 times ([wait_bounded]): more fuel makes no difference.

    ** Not modelled

    - src/internal/telemetry, src/internal/server/metrics.go and
      src/internal/sqlserver/observability.go: counters of the Prometheus library, which
      only observe; logging, except for the choice of its outputs.
    - Listening, TLS and dialling (Run of src/internal/server/server.go, the start of
      connect in delivery/grpc.go): calls of libraries; a failed send is a lost frame
      and the end of the stream.
    - src/internal/testpg, testmysql and testsqlserver: helpers of the tests; the
      reflection code generated for src/internal/rpc/syncv1.
    - Of the statements of Target: a statement or a commit that fails by itself (Target
      has the errors the data causes; the failure of a transaction as a whole is the
      fault of store_message in ServerSession), errors of the temporary file in
      applyFile, and defaults of target columns (a column that an insert leaves out is
      null).  An update or a delete whose keys match several tuples takes the first.
    - Symbolic links and the loss of power in Disk; upper and lower case beyond ASCII;
      the difference between a nil and an empty slice; the decimal text of a float64,
      which is a parameter; the upgrade of an existing metadata schema (migrate is
      modelled on a fresh one).  Paths are those of Unix except in WalPlugin and
      WinService, where the path functions are arguments. *)

From stdpp Require Export base gmap strings list sorting numbers.
From Stdlib Require Export Ascii Lia.
From stdpp Require Export strings.

#[global] Arguments String.append : simpl nomatch.

Open Scope string_scope.
Open Scope list_scope.
Open Scope Z_scope.

(** ** Results of fallible Go code *)

(** The codes of [google.golang.org/grpc/codes] the program uses. *)
Inductive code :=
  | OK
  | Unknown
  | InvalidArgument
  | AlreadyExists
  | PermissionDenied
  | ResourceExhausted
  | FailedPrecondition
  | Unavailable
  | Unauthenticated.

#[global] Instance code_eq_dec : EqDecision code.
Proof. solve_decision. Defined.

(** The errors of a database client that the program tells apart: an error of the
    server with its number, and the ways a connection fails. *)
Inductive cause :=
  | ServerError (number : Z)
  | NetOpError
  | ErrBadConn
  | io_EOF
  | io_ErrUnexpectedEOF
  | DeadlineExceeded
  | OtherCause (text : string).

#[global] Instance cause_eq_dec : EqDecision cause.
Proof. solve_decision. Defined.

(** The sentinel errors of the packages, the errors of a gRPC status, the errors of
    a database with their cause, errors that wrap others ([%w], [errors.Join]), and
    every other error by its text ([errors.New], [fmt.Errorf]). *)
Inductive error :=
  | ErrFull
  | ErrEmpty
  | ErrNotDrained
  | ErrNoRows
  | errSchemaMismatch
  | errFileChanged
  | errRetentionGap
  | errTargetLeaseHeld
  | ErrRepairRestart
  | ErrCanceled
  | status_Error (c : code) (text : string)
  | databaseError (c : cause)
  | wrapf (prefix : string) (e : error)
  | errors_Join (a b : error)
  | errors_New (text : string).

#[global] Instance error_eq_dec : EqDecision error.
Proof. solve_decision. Defined.

(** A Go function returning [(T, error)]. *)
Inductive result (A : Type) :=
  | Ok (a : A)
  | Err (e : error).
Arguments Ok {A} _.
Arguments Err {A} _.

#[global] Instance result_ret : MRet result := λ A a, Ok a.
#[global] Instance result_bind : MBind result := λ A B f r,
  match r with Ok a => f a | Err e => Err e end.
#[global] Instance result_fmap : FMap result := λ A B f r,
  match r with Ok a => Ok (f a) | Err e => Err e end.

#[global] Instance result_eq_dec `{EqDecision A} : EqDecision (result A).
Proof. solve_decision. Defined.

Declare Scope go_scope.
Delimit Scope go_scope with go.
Open Scope go_scope.

(** [if b { return e }] *)
Definition fail_if (b : bool) (e : error) : result unit :=
  if b then Err e else Ok tt.

(** The value of an optional lookup, or an error. *)
Definition or_err {A} (o : option A) (e : error) : result A :=
  match o with Some a => Ok a | None => Err e end.

Definition is_ok {A} (r : result A) : bool :=
  match r with Ok _ => true | Err _ => false end.

Notation "'errorf' s" := (errors_New s%string) (at level 10, s at level 9) : go_scope.

(** ** Fixed-width integers *)

Definition two64 : Z := 2 ^ 64.
Definition max_int64 : Z := 2 ^ 63 - 1.

(** Conversion to [uint64], and the wrap-around of its arithmetic. *)
Definition u64 (z : Z) : Z := z mod 2 ^ 64.
(** Conversion to [int64]. *)
Definition i64 (z : Z) : Z := (z + 2 ^ 63) mod 2 ^ 64 - 2 ^ 63.
(** Conversion to [uint32]. *)
Definition u32 (z : Z) : Z := z mod 2 ^ 32.

#[global] Arguments u64 : simpl never.
#[global] Arguments i64 : simpl never.
#[global] Arguments u32 : simpl never.

Lemma u64_small z : 0 ≤ z < 2 ^ 64 → u64 z = z.
Proof. apply Z.mod_small. Qed.

Lemma u32_small z : 0 ≤ z < 2 ^ 32 → u32 z = z.
Proof. apply Z.mod_small. Qed.

Lemma i64_small z : - 2 ^ 63 ≤ z < 2 ^ 63 → i64 z = z.
Proof. intros. unfold i64. rewrite Z.mod_small; lia. Qed.

Lemma u64_range z : 0 ≤ u64 z < 2 ^ 64.
Proof. apply Z.mod_pos_bound. lia. Qed.

Lemma i64_range z : - 2 ^ 63 ≤ i64 z < 2 ^ 63.
Proof. unfold i64. pose proof (Z.mod_pos_bound (z + 2 ^ 63) (2 ^ 64)). lia. Qed.

Lemma i64_wrap a : ∃ k, i64 a = a + k * 2 ^ 64.
Proof.
  unfold i64. exists (- ((a + 2 ^ 63) / 2 ^ 64)).
  rewrite Z.mod_eq by lia. ring.
Qed.

Lemma i64_add_mul a k : i64 (a + k * 2 ^ 64) = i64 a.
Proof.
  unfold i64. replace (a + k * 2 ^ 64 + 2 ^ 63) with (a + 2 ^ 63 + k * 2 ^ 64) by ring.
  by rewrite Z.mod_add by lia.
Qed.

(** Counters kept modulo 2^64 commute with the arithmetic. *)
Lemma i64_add_l a b : i64 (i64 a + b) = i64 (a + b).
Proof.
  destruct (i64_wrap a) as [k ->]. replace (a + k * 2 ^ 64 + b) with (a + b + k * 2 ^ 64) by ring.
  apply i64_add_mul.
Qed.

Lemma i64_sub_l a b : i64 (i64 a - b) = i64 (a - b).
Proof. unfold Z.sub. apply i64_add_l. Qed.

Lemma i64_idemp a : i64 (i64 a) = i64 a.
Proof. apply i64_small, i64_range. Qed.

(** ** Sums *)

Definition sumZ : list Z → Z := foldr Z.add 0.

Lemma sumZ_app a b : sumZ (a ++ b) = sumZ a + sumZ b.
Proof. induction a; cbn; lia. Qed.

Lemma sumZ_perm a b : a ≡ₚ b → sumZ a = sumZ b.
Proof. induction 1; cbn; lia. Qed.

Lemma sumZ_nonneg l : Forall (Z.le 0) l → 0 ≤ sumZ l.
Proof. induction 1; cbn; lia. Qed.

(** ** Lemmas on results *)

Lemma bind_Ok {A B} (r : result A) (f : A → result B) b :
  (r ≫= f) = Ok b ↔ ∃ a, r = Ok a ∧ f a = Ok b.
Proof. destruct r; cbn; naive_solver. Qed.

Lemma bind_Err {A B} (r : result A) (f : A → result B) e :
  (r ≫= f) = Err e ↔ r = Err e ∨ ∃ a, r = Ok a ∧ f a = Err e.
Proof. destruct r; cbn; naive_solver. Qed.

Lemma fail_if_Ok b e u : fail_if b e = Ok u ↔ b = false.
Proof. destruct b, u; cbn; naive_solver. Qed.

Lemma or_err_Ok {A} (o : option A) e a : or_err o e = Ok a ↔ o = Some a.
Proof. destruct o; cbn; naive_solver. Qed.

Lemma bind_Ok_l {A B} (a : A) (f : A → result B) : (Ok a ≫= f) = f a.
Proof. done. Qed.

Lemma bind_Err_l {A B} e (f : A → result B) : (Err e ≫= f) = Err e.
Proof. done. Qed.

Lemma or_err_Some {A} (a : A) e : or_err (Some a) e = Ok a.
Proof. done. Qed.

Lemma or_err_None {A} e : or_err (@None A) e = Err e.
Proof. done. Qed.

Lemma fail_if_bind {A} b e (f : unit → result A) :
  (fail_if b e ≫= f) = if b then Err e else f tt.
Proof. by destruct b. Qed.

#[export] Hint Rewrite @bind_Ok_l @bind_Err_l @or_err_Some @or_err_None @fail_if_bind : go.

(** ** Tactics *)

(** Run the steps of a result computation whose outcome is known. *)
Ltac go := autorewrite with go.

(** Case analysis on every test that a hypothesis [… = Ok _] went through. *)
Ltac result_inv H :=
  lazymatch type of H with
  | (_ ≫= _) = Ok _ =>
      let a := fresh "a" in let H1 := fresh "H" in let H2 := fresh "H" in
      apply bind_Ok in H as (a & H1 & H2); result_inv H1; result_inv H2
  | fail_if _ _ = Ok _ => apply fail_if_Ok in H
  | or_err _ _ = Ok _ => apply or_err_Ok in H
  | Ok _ = Ok _ => injection H as H; subst
  | Err _ = Ok _ => discriminate H
  | (let '(_, _) := ?x in _) = Ok _ =>
      let E := fresh "E" in destruct x eqn:E; result_inv H
  | (match ?x with _ => _ end) = Ok _ =>
      let E := fresh "E" in destruct x eqn:E; try discriminate H; result_inv H
  | _ => idtac
  end.

(** Boolean tests of the code as propositions. *)
Ltac bool_prop :=
  repeat match goal with
  | H : _ && _ = true |- _ => apply andb_true_iff in H as [? ?]
  | H : _ || _ = false |- _ => apply orb_false_iff in H as [? ?]
  | H : negb _ = true |- _ => apply negb_true_iff in H
  | H : negb _ = false |- _ => apply negb_false_iff in H
  | H : (_ =? _) = true |- _ => apply Z.eqb_eq in H
  | H : (_ =? _) = false |- _ => apply Z.eqb_neq in H
  | H : (_ <? _) = true |- _ => apply Z.ltb_lt in H
  | H : (_ <? _) = false |- _ => apply Z.ltb_ge in H
  | H : (_ <=? _) = true |- _ => apply Z.leb_le in H
  | H : (_ <=? _) = false |- _ => apply Z.leb_gt in H
  | H : bool_decide _ = true |- _ => apply bool_decide_eq_true in H
  | H : bool_decide _ = false |- _ => apply bool_decide_eq_false in H
  | H : String.eqb _ _ = true |- _ => apply String.eqb_eq in H
  | H : String.eqb _ _ = false |- _ => apply String.eqb_neq in H
  end.

(** Split the first conditional of the goal. *)
Ltac case_if :=
  match goal with
  | |- context [if ?b then _ else _] => let E := fresh "E" in destruct b eqn:E; bool_prop
  end.

(** Linear arithmetic with division and remainder by constants. *)
Ltac zdiv := Z.to_euclidean_division_equations; lia.

Create HintDb gosync.
