(* ===== verification/Bytes.v ===== *)
(** * Byte strings

    A Go [string] or [[]byte] is a [String.string], a sequence of bytes.  The file
    holds the functions of [strings] and [io] the sources call ([strings.HasPrefix],
    [strings.Split], [strings.Fields], [io.LimitReader], ...) with their lemmas. *)

From Stdlib Require Import DecimalString DecimalN DecimalFacts.
From S2P Require Import Prelude.


(** ** Strings *)

Lemma append_assoc (a b c : string) : (a +:+ b) +:+ c = a +:+ (b +:+ c).
Proof. induction a; cbn; congruence. Qed.

Lemma append_nil_r (a : string) : a +:+ "" = a.
Proof. induction a; cbn; congruence. Qed.

Lemma length_append (a b : string) :
  String.length (a +:+ b) = (String.length a + String.length b)%nat.
Proof. induction a; cbn; congruence. Qed.

Lemma append_inj_length (a a' b b' : string) :
  String.length a = String.length a' → a +:+ b = a' +:+ b' → a = a' ∧ b = b'.
Proof.
  revert a'. induction a as [|c a IH]; intros [|c' a']; cbn; try discriminate; auto.
  intros [= Hl] [= -> Heq]. destruct (IH a' Hl Heq) as [-> ->]. auto.
Qed.

(** [len(s)] *)
Definition slen (s : string) : Z := Z.of_nat (String.length s).

Lemma slen_nonneg s : 0 ≤ slen s.
Proof. unfold slen. lia. Qed.

Lemma slen_append a b : slen (a +:+ b) = slen a + slen b.
Proof. unfold slen. rewrite length_append. lia. Qed.

#[export] Hint Resolve slen_nonneg : gosync.

(** The value of a byte, and the byte of a value. *)
Definition byte_val (c : ascii) : Z := Z.of_N (N_of_ascii c).
Definition byte_of (z : Z) : ascii := ascii_of_N (Z.to_N (z mod 256)).

Lemma byte_val_range c : 0 ≤ byte_val c < 256.
Proof. unfold byte_val. pose proof (N_ascii_bounded c). lia. Qed.

Lemma byte_of_val c : byte_of (byte_val c) = c.
Proof.
  pose proof (byte_val_range c). unfold byte_of. rewrite Z.mod_small by lia.
  unfold byte_val. rewrite N2Z.id. apply ascii_N_embedding.
Qed.

Lemma byte_val_of z : byte_val (byte_of z) = z mod 256.
Proof.
  unfold byte_val, byte_of. pose proof (Z.mod_pos_bound z 256).
  rewrite N_ascii_embedding by lia. lia.
Qed.

Lemma byte_val_inj a b : byte_val a = byte_val b → a = b.
Proof. intros H. rewrite <-(byte_of_val a), <-(byte_of_val b). by rewrite H. Qed.

(** A byte slice as the list of its values. *)
Definition bytes (s : string) : list Z := byte_val <$> String.list_ascii_of_string s.
Definition of_bytes (l : list Z) : string := String.string_of_list_ascii (byte_of <$> l).

Lemma of_bytes_bytes s : of_bytes (bytes s) = s.
Proof.
  unfold of_bytes, bytes. rewrite <-list_fmap_compose.
  rewrite (list_fmap_ext _ id), list_fmap_id.
  - apply String.string_of_list_ascii_of_string.
  - intros. apply byte_of_val.
Qed.

Lemma bytes_of_bytes l : Forall (λ b, 0 ≤ b < 256) l → bytes (of_bytes l) = l.
Proof.
  intros Hl. unfold of_bytes, bytes. rewrite String.list_ascii_of_string_of_list_ascii.
  rewrite <-list_fmap_compose. induction Hl as [|b l Hb Hl IH]; [done|]. cbn [fmap list_fmap].
  unfold compose at 1. rewrite byte_val_of, Z.mod_small by lia. f_equal. apply IH.
Qed.

Lemma bytes_range s : Forall (λ b, 0 ≤ b < 256) (bytes s).
Proof. unfold bytes. apply Forall_fmap, Forall_true. intros. apply byte_val_range. Qed.

Lemma length_bytes s : length (bytes s) = String.length s.
Proof. unfold bytes. rewrite length_fmap. induction s; cbn; congruence. Qed.

Lemma bytes_app a b : bytes (a +:+ b) = bytes a ++ bytes b.
Proof. unfold bytes. induction a; cbn; congruence. Qed.

(** [strings.HasPrefix], [strings.TrimPrefix] *)
Fixpoint has_prefix (p s : string) : bool :=
  match p, s with
  | EmptyString, _ => true
  | String c p', String d s' => Ascii.eqb c d && has_prefix p' s'
  | String _ _, EmptyString => false
  end.

Definition HasPrefix (s p : string) : bool := has_prefix p s.

Fixpoint drop_string (n : nat) (s : string) : string :=
  match n, s with
  | O, _ => s
  | S n', String _ r => drop_string n' r
  | S _, EmptyString => EmptyString
  end.

Fixpoint take_string (n : nat) (s : string) : string :=
  match n, s with
  | S n', String c r => String c (take_string n' r)
  | _, _ => EmptyString
  end.

Definition TrimPrefix (s p : string) : string :=
  if HasPrefix s p then drop_string (String.length p) s else s.

Lemma HasPrefix_spec s p : HasPrefix s p = true ↔ ∃ r, s = p +:+ r.
Proof.
  unfold HasPrefix. revert s. induction p as [|c p IH]; intros s; cbn.
  - split; [eauto|done].
  - destruct s as [|c' s]; cbn.
    + split; [done|]. intros [r Hr]. discriminate.
    + destruct (Ascii.eqb_spec c c') as [->|Hne]; cbn.
      * rewrite IH. split; intros [r Hr]; exists r; [by subst|]. congruence.
      * split; [done|]. intros [r Hr]. congruence.
Qed.

Lemma drop_append (p r : string) : drop_string (String.length p) (p +:+ r) = r.
Proof. induction p; cbn; auto. Qed.

Lemma take_append (p r : string) : take_string (String.length p) (p +:+ r) = p.
Proof. induction p; cbn; congruence. Qed.

Lemma take_drop_string n s : take_string n s +:+ drop_string n s = s.
Proof. revert s; induction n; intros [|c s]; cbn; congruence. Qed.

Lemma TrimPrefix_append p r : TrimPrefix (p +:+ r) p = r.
Proof.
  unfold TrimPrefix. replace (HasPrefix (p +:+ r) p) with true; [apply drop_append|].
  symmetry. apply HasPrefix_spec. eauto.
Qed.

(** [strings.ToLower] on ASCII letters *)
Definition lower_byte (c : ascii) : ascii :=
  let n := byte_val c in
  if (65 <=? n) && (n <=? 90) then byte_of (n + 32) else c.

Fixpoint ToLower (s : string) : string :=
  match s with
  | EmptyString => EmptyString
  | String c r => String (lower_byte c) (ToLower r)
  end.

(** [strings.ToUpper] on ASCII letters *)
Definition upper_byte (c : ascii) : ascii :=
  let n := byte_val c in
  if (97 <=? n) && (n <=? 122) then byte_of (n - 32) else c.

Fixpoint ToUpper (s : string) : string :=
  match s with
  | EmptyString => EmptyString
  | String c r => String (upper_byte c) (ToUpper r)
  end.

(** [strings.EqualFold] with an ASCII text *)
Definition EqualFold (s t : string) : bool := String.eqb (ToLower s) (ToLower t).

(** [strings.ReplaceAll(s, c, c + c)] *)
Fixpoint double_byte (c : ascii) (s : string) : string :=
  match s with
  | EmptyString => EmptyString
  | String d r => if Ascii.eqb d c then String d (String d (double_byte c r)) else String d (double_byte c r)
  end.

(** [strings.Split] on a one-byte separator *)
Fixpoint Split (s : string) (sep : ascii) : list string :=
  match s with
  | EmptyString => [EmptyString]
  | String c r =>
      let rest := Split r sep in
      if ascii_dec c sep then EmptyString :: rest
      else match rest with
           | w :: ws => String c w :: ws
           | [] => [String c EmptyString]
           end
  end.

Fixpoint string_elem (c : ascii) (s : string) : bool :=
  match s with
  | EmptyString => false
  | String c' r => if ascii_dec c' c then true else string_elem c r
  end.

Lemma Split_no_sep s sep : string_elem sep s = false → Split s sep = [s].
Proof.
  induction s as [|c s IH]; cbn; [done|].
  destruct (ascii_dec c sep); [done|]. intros H. by rewrite IH.
Qed.

Lemma Split_append s t sep :
  string_elem sep s = false → Split (s +:+ String sep t) sep = s :: Split t sep.
Proof.
  induction s as [|c s IH]; cbn.
  - intros _. by destruct (ascii_dec sep sep).
  - destruct (ascii_dec c sep); [done|]. intros H. by rewrite IH.
Qed.

Lemma string_elem_append c s t :
  string_elem c (s +:+ t) = string_elem c s || string_elem c t.
Proof. induction s; cbn; [done|]. by destruct (ascii_dec _ _). Qed.

(** [strings.Contains] *)
Fixpoint Contains (s p : string) : bool :=
  HasPrefix s p || match s with EmptyString => false | String _ r => Contains r p end.

(** [strings.Trim] and [strings.TrimSpace] *)
Fixpoint trim_left (f : ascii → bool) (s : string) : string :=
  match s with
  | String c r => if f c then trim_left f r else s
  | EmptyString => EmptyString
  end.

Fixpoint rev_string (s acc : string) : string :=
  match s with
  | String c r => rev_string r (String c acc)
  | EmptyString => acc
  end.

Definition Trim (f : ascii → bool) (s : string) : string :=
  rev_string (trim_left f (rev_string (trim_left f s) "")) "".

Definition is_space (c : ascii) : bool :=
  let n := byte_val c in (n =? 32) || ((9 <=? n) && (n <=? 13)).

Definition TrimSpace : string → string := Trim is_space.

(** [io.ReadAll(io.LimitReader(r, n))] *)
Fixpoint limit_string (n : Z) (s : string) : string :=
  match s with
  | String c r => if 0 <? n then String c (limit_string (n - 1) r) else ""
  | EmptyString => ""
  end.

Lemma limit_string_all n s : slen s ≤ n → limit_string n s = s.
Proof.
  unfold slen. revert n. induction s as [|c s IH]; intros n Hn; cbn [limit_string String.length] in *;
    [done|]. rewrite (proj2 (Z.ltb_lt _ _)), IH by lia. done.
Qed.

Lemma limit_string_short n s : slen (limit_string n s) < n → limit_string n s = s.
Proof.
  unfold slen. revert n. induction s as [|c s IH]; intros n; cbn [limit_string]; [done|].
  destruct (Z.ltb_spec 0 n); cbn [String.length]; [|lia]. intros Hn. rewrite IH; [done|lia].
Qed.

(** [strings.Fields]: the words between white space; [word] was read so far. *)
Fixpoint words (s word : string) : list string :=
  match s with
  | "" => if String.eqb word "" then [] else [word]
  | String c r =>
      if is_space c then (if String.eqb word "" then words r "" else word :: words r "")
      else words r (word +:+ String c "")
  end.
Definition Fields (s : string) : list string := words s "".

Lemma Fields_nonempty s w : w ∈ Fields s → w ≠ "".
Proof.
  unfold Fields. generalize "" at 1 as word. induction s as [|c s IH]; intros word; cbn [words].
  - destruct (String.eqb_spec word ""); [by intros ?%elem_of_nil|]. by intros ->%list_elem_of_singleton.
  - destruct (is_space c); [|apply IH]. destruct (String.eqb_spec word ""); [apply IH|].
    intros [->|H]%elem_of_cons; [done|by apply (IH "")].
Qed.

(** [strings.Join] *)
Definition Join (l : list string) (sep : string) : string := String.concat sep l.
