(* ===== verification/Sorting.v ===== *)
(** * Sorting by a boolean order

    The order of query results and of sorted slices: a stable insertion sort by a
    strict order, lists that increase strictly, and what filtering and paging do
    to them.  Strings are ordered bytewise, as Go and PostgreSQL's C collation
    order them. *)

From Stdlib Require Import Permutation.
From S2P Require Import Prelude Bytes.

(** [ORDER BY], [sort.Slice]: a stable sort by the order of the keys. *)
Fixpoint insert_by {A} (lt : A → A → bool) (x : A) (l : list A) : list A :=
  match l with
  | [] => [x]
  | y :: l' => if lt y x then y :: insert_by lt x l' else x :: l
  end.

Definition order_by {A} (lt : A → A → bool) (l : list A) : list A := foldr (insert_by lt) [] l.

Class StrictLt {A} (lt : A → A → bool) := {
  lt_irrefl x : lt x x = false;
  lt_trans x y z : lt x y = true → lt y z = true → lt x z = true
}.

Section sorted.
Context {A : Type} (lt : A → A → bool) `{!StrictLt lt}.

Definition increasing (l : list A) : Prop := StronglySorted (λ x y, lt x y = true) l.

Lemma lt_asym x y : lt x y = true → lt y x = false.
Proof.
  intros Hxy. apply not_true_iff_false. intros Hyx. pose proof (lt_trans _ _ _ Hxy Hyx) as Hxx.
  by rewrite lt_irrefl in Hxx.
Qed.

Lemma insert_by_least x l : Forall (λ y, lt x y = true) l → insert_by lt x l = x :: l.
Proof.
  destruct l as [|y l]; intros Hl; cbn; [done|]. apply Forall_cons in Hl as [Hy _].
  by rewrite lt_asym.
Qed.

Lemma order_by_increasing l : increasing l → order_by lt l = l.
Proof.
  unfold order_by. induction 1 as [|x l _ IH Hx]; [done|]. cbn [foldr]. rewrite IH.
  by apply insert_by_least.
Qed.

Lemma increasing_filter (P : A → bool) l : increasing l → increasing (List.filter P l).
Proof.
  induction 1 as [|x l _ IH Hx]; cbn; [constructor|]. destruct (P x); [|done].
  constructor; [done|]. rewrite Forall_forall in *. intros y [Hy _]%list_elem_of_In%filter_In.
  apply Hx. by apply list_elem_of_In.
Qed.

Lemma increasing_app l k : increasing (l ++ k) ↔
  increasing l ∧ increasing k ∧ ∀ x y, x ∈ l → y ∈ k → lt x y = true.
Proof.
  unfold increasing. split.
  - induction l as [|x l IH]; cbn; intros Hs.
    + split_and!; [constructor|done|]. intros x y []%not_elem_of_nil.
    + apply StronglySorted_inv in Hs as [Hs Hx]. destruct (IH Hs) as (H1 & H2 & H3).
      apply Forall_app in Hx as [Hx1 Hx2]. split_and!; [by constructor|done|].
      intros a b [->|Ha]%elem_of_cons Hb; [|by apply H3]. rewrite Forall_forall in Hx2. by apply Hx2.
  - intros (Hl & Hk & Hlk). induction Hl as [|x l _ IH Hx]; [done|]. cbn. constructor.
    + apply IH. intros u v Hu Hv. apply Hlk; set_solver.
    + apply Forall_app. split; [done|]. apply Forall_forall. intros y Hy. apply Hlk; set_solver.
Qed.

(** What lies beyond the last element of a page. *)
Lemma filter_beyond a b x : increasing ((a ++ [x]) ++ b) →
  List.filter (λ y, lt x y) ((a ++ [x]) ++ b) = b.
Proof.
  intros Hs. apply increasing_app in Hs as (Ha & Hb & Hab).
  rewrite List.filter_app.
  assert (List.filter (λ y, lt x y) (a ++ [x]) = []) as ->.
  { apply increasing_app in Ha as (_ & _ & Ha). rewrite List.filter_app. cbn.
    rewrite lt_irrefl, app_nil_r. clear Hab Hb.
    induction a as [|y a IH]; [done|]. cbn. rewrite lt_asym by (apply Ha; set_solver).
    apply IH. intros u v Hu Hv. apply Ha; [by apply elem_of_cons; right|done]. }
  cbn. assert (∀ y, y ∈ b → lt x y = true) as Hx by (intros y Hy; apply Hab; set_solver).
  clear Hab Ha Hb. induction b as [|y b IH]; [done|]. cbn.
  rewrite Hx by set_solver. f_equal. apply IH. set_solver.
Qed.
End sorted.

Lemma order_by_elem {A} (lt : A → A → bool) x l : x ∈ l → x ∈ order_by lt l.
Proof.
  assert (∀ y k, x = y ∨ x ∈ k → x ∈ insert_by lt y k) as Hins.
  { intros y k. induction k as [|z k IH]; cbn; [set_solver|]. destruct (lt z y); set_solver. }
  unfold order_by. induction l as [|y l IH]; cbn; [set_solver|].
  intros [->|Hx]%elem_of_cons; apply Hins; auto.
Qed.

(** ** Filters *)

Lemma filter_filter {A} (P Q : A → bool) l :
  List.filter P (List.filter Q l) = List.filter (λ x, Q x && P x) l.
Proof. induction l as [|x l IH]; cbn; [done|]. destruct (Q x); cbn; [|done]. by rewrite IH. Qed.

Lemma filter_ext_in {A} (P Q : A → bool) l : (∀ x, x ∈ l → P x = Q x) → List.filter P l = List.filter Q l.
Proof.
  intros Hpq. induction l as [|x l IH]; cbn; [done|]. rewrite (Hpq x) by set_solver.
  rewrite IH by set_solver. done.
Qed.

Lemma mapM_app_Some {A B} (f : A → option B) a b l : mapM f (a ++ b) = Some l →
  ∃ l1 l2, mapM f a = Some l1 ∧ mapM f b = Some l2 ∧ l = l1 ++ l2.
Proof.
  revert l. induction a as [|x a IH]; intros l; cbn.
  - intros E. exists [], l. done.
  - destruct (f x) as [y|]; [|done]. cbn. destruct (mapM f (a ++ b)) as [l'|] eqn:E; [|done].
    cbn. intros [= <-]. destruct (IH l' eq_refl) as (l1 & l2 & -> & -> & ->). exists (y :: l1), l2. done.
Qed.

Lemma mapM_length {A B} (f : A → option B) a l : mapM f a = Some l → length l = length a.
Proof. intros E. symmetry. by apply length_mapM in E. Qed.

Lemma filter_all {A} (P : A → bool) l : Forall (λ x, P x = true) l → List.filter P l = l.
Proof. induction 1 as [|x l Hx _ IH]; cbn; [done|]. by rewrite Hx, IH. Qed.

Lemma filter_none {A} (P : A → bool) l : Forall (λ x, P x = false) l → List.filter P l = [].
Proof. induction 1 as [|x l Hx _ IH]; cbn; [done|]. by rewrite Hx. Qed.


(** ** Sorted permutations *)

Section perm.
Context {A : Type} (lt : A → A → bool).

Lemma insert_by_perm x l : insert_by lt x l ≡ₚ x :: l.
Proof. induction l as [|y l IH]; cbn; [done|]. destruct (lt y x); [|done]. rewrite IH. apply perm_swap. Qed.

Lemma order_by_perm l : order_by lt l ≡ₚ l.
Proof. unfold order_by. induction l as [|x l IH]; cbn; [done|]. by rewrite insert_by_perm, IH. Qed.

Context `{!StrictLt lt}.

Lemma insert_by_increasing x l : increasing lt l → (∀ y, y ∈ l → lt x y = true ∨ lt y x = true) →
  increasing lt (insert_by lt x l).
Proof.
  induction 1 as [|y l Hl IH Hy]; intros Htot; cbn; [by repeat constructor|].
  destruct (lt y x) eqn:E.
  - constructor.
    + apply IH. intros z Hz. apply Htot. set_solver.
    + rewrite Forall_forall in *. intros z. rewrite insert_by_perm. intros [->|Hz]%elem_of_cons; auto.
  - assert (lt x y = true) as Hxy by (destruct (Htot y); [set_solver|done|congruence]).
    repeat constructor; try done. eapply Forall_impl; [exact Hy|]. intros z Hz. by eapply lt_trans.
Qed.

(** Sorting a list whose elements are pairwise comparable. *)
Lemma order_by_sorted l : (∀ x y, x ∈ l → y ∈ l → x = y ∨ lt x y = true ∨ lt y x = true) → NoDup l →
  increasing lt (order_by lt l).
Proof.
  unfold order_by. induction l as [|x l IH]; intros Htot Hnd; cbn; [constructor|].
  apply NoDup_cons in Hnd as [Hx Hnd]. apply insert_by_increasing.
  - apply IH; [|done]. intros; apply Htot; set_solver.
  - intros y Hy. change (foldr (insert_by lt) [] l) with (order_by lt l) in Hy. rewrite order_by_perm in Hy.
    destruct (Htot x y) as [->|]; [set_solver..|done|done].
Qed.

Lemma increasing_perm_unique l k : increasing lt l → increasing lt k → l ≡ₚ k → l = k.
Proof.
  intros Hl. revert k. induction Hl as [|x l Hl IH Hx]; intros k Hk Hp.
  { symmetry. by apply Permutation_nil. }
  destruct k as [|y k]; [by apply Permutation_sym, Permutation_nil in Hp|].
  apply StronglySorted_inv in Hk as [Hk Hy]. rewrite Forall_forall in Hx, Hy.
  assert (x = y) as ->.
  { assert (x ∈ y :: k) as Hxk by (rewrite <- Hp; left).
    assert (y ∈ x :: l) as Hyl by (rewrite Hp; left).
    apply elem_of_cons in Hxk as [|Hxk]; [done|]. apply elem_of_cons in Hyl as [|Hyl]; [done|].
    exfalso. pose proof (lt_asym lt _ _ (Hx _ Hyl)). specialize (Hy _ Hxk). congruence. }
  f_equal. apply IH; [done|]. by apply (Permutation_cons_inv Hp).
Qed.

(** Sorting does not depend on the order of the input. *)
Lemma order_by_perm_eq l k : (∀ x y, x ∈ l → y ∈ l → x = y ∨ lt x y = true ∨ lt y x = true) → NoDup l →
  l ≡ₚ k → order_by lt l = order_by lt k.
Proof.
  intros Htot Hnd Hp. apply increasing_perm_unique.
  - by apply order_by_sorted.
  - apply order_by_sorted; [|by rewrite <- Hp]. intros x y. rewrite <- Hp. apply Htot.
  - by rewrite !order_by_perm.
Qed.
End perm.

(** ** Strings *)

Lemma ascii_compare_trans a b c : Ascii.compare a b = Lt → Ascii.compare b c = Lt → Ascii.compare a c = Lt.
Proof. unfold Ascii.compare. rewrite !N.compare_lt_iff. lia. Qed.

Lemma ltb_cons a x b y : String.ltb (String a x) (String b y) = true ↔
  Ascii.compare a b = Lt ∨ (a = b ∧ String.ltb x y = true).
Proof.
  unfold String.ltb. cbn. destruct (Ascii.compare a b) eqn:E.
  - apply Ascii.compare_eq_iff in E as ->. naive_solver.
  - naive_solver.
  - split; [done|]. intros [|[-> _]]; [done|]. unfold Ascii.compare in E. by rewrite N.compare_refl in E.
Qed.

Lemma string_ltb_irrefl x : String.ltb x x = false.
Proof.
  induction x as [|a x IH]; [done|]. apply not_true_iff_false. rewrite ltb_cons. intros [E|[_ E]].
  - unfold Ascii.compare in E. by rewrite N.compare_refl in E.
  - congruence.
Qed.

Lemma string_ltb_trans x y z : String.ltb x y = true → String.ltb y z = true → String.ltb x z = true.
Proof.
  revert y z. induction x as [|a x IH]; intros [|b y] [|c z]; try done.
  rewrite !ltb_cons. intros [H1|[-> H1]] [H2|[-> H2]].
  - left. by eapply ascii_compare_trans.
  - by left.
  - by left.
  - right. split; [done|]. by eapply IH.
Qed.

Lemma string_ltb_total x y : x = y ∨ String.ltb x y = true ∨ String.ltb y x = true.
Proof.
  revert y. induction x as [|a x IH]; intros [|b y]; [by left|by right; left|by right; right|].
  rewrite !ltb_cons. destruct (Ascii.compare a b) eqn:E.
  - apply Ascii.compare_eq_iff in E as ->. destruct (IH y) as [->|[|]]; auto.
  - auto.
  - right. right. left. unfold Ascii.compare in *. apply N.compare_gt_iff in E. by apply N.compare_lt_iff.
Qed.

(** Elements ordered by a string. *)
#[global] Instance by_string_strict {A} (f : A → string) : StrictLt (λ x y, String.ltb (f x) (f y)).
Proof. split; intros; [apply string_ltb_irrefl|by eapply string_ltb_trans]. Qed.
