(* ===== verification/Encoding.v ===== *)
(** * Text and binary encodings of the Go standard library

    Decimal text ([strconv], [fmt]), hexadecimal text ([encoding/hex]), base64
    text ([encoding/base64]), and big-endian integers ([encoding/binary]) with
    the byte order [bytes.Compare] gives them. *)

From Stdlib Require Import DecimalString DecimalN DecimalFacts.
From S2P Require Import Prelude Bytes.

(** ** Decimal *)

(** [strconv.FormatUint(z, 10)], and [%d] of an unsigned value *)
Definition dec (z : Z) : string := NilEmpty.string_of_uint (N.to_uint (Z.to_N z)).

(** [strconv.FormatInt(z, 10)] *)
Definition FormatInt (z : Z) : string := if z <? 0 then "-" +:+ dec (- z) else dec z.

(** The digits of an unsigned decimal; the empty text is not a number. *)
Definition parse_dec (s : string) : option Z :=
  match s with
  | EmptyString => None
  | _ => d ← NilEmpty.uint_of_string s; Some (Z.of_N (N.of_uint d))
  end.

(** [strconv.ParseUint(s, 10, bits)] *)
Definition ParseUint (s : string) (bits : Z) : option Z :=
  z ← parse_dec s; if z <? 2 ^ bits then Some z else None.

(** [strconv.ParseInt(s, 10, bits)] *)
Definition ParseInt (s : string) (bits : Z) : option Z :=
  match s with
  | String c r =>
      if Ascii.eqb c "-" then z ← parse_dec r; if z <=? 2 ^ (bits - 1) then Some (- z) else None
      else if Ascii.eqb c "+" then z ← parse_dec r; if z <? 2 ^ (bits - 1) then Some z else None
      else z ← parse_dec s; if z <? 2 ^ (bits - 1) then Some z else None
  | EmptyString => None
  end.

(** [n] zeros *)
Fixpoint zeros (n : nat) : string :=
  match n with O => EmptyString | S n' => String "0" (zeros n') end.

(** [fmt.Sprintf("%0wd", z)] of a value that is not negative *)
Definition dec_pad (w : nat) (z : Z) : string :=
  zeros (w - String.length (dec z)) +:+ dec z.

Lemma to_uint_norm n : Decimal.unorm (N.to_uint n) = N.to_uint n.
Proof. by rewrite <-DecimalN.Unsigned.to_of, DecimalN.Unsigned.of_to. Qed.

Lemma to_uint_cons n : N.to_uint n ≠ Decimal.Nil.
Proof. intros H. pose proof (to_uint_norm n) as E. rewrite H in E. done. Qed.

Lemma string_of_uint_nonempty d : d ≠ Decimal.Nil → NilEmpty.string_of_uint d ≠ "".
Proof. by destruct d. Qed.

Lemma dec_nonempty z : dec z ≠ "".
Proof. apply string_of_uint_nonempty, to_uint_cons. Qed.

Lemma parse_dec_uint d : d ≠ Decimal.Nil →
  parse_dec (NilEmpty.string_of_uint d) = Some (Z.of_N (N.of_uint d)).
Proof.
  intros Hd. pose proof (NilEmpty.usu d) as E. unfold parse_dec.
  destruct (NilEmpty.string_of_uint d) eqn:Es.
  - by apply string_of_uint_nonempty in Hd.
  - rewrite E. done.
Qed.

Lemma parse_dec_dec z : 0 ≤ z → parse_dec (dec z) = Some z.
Proof.
  intros Hz. unfold dec. rewrite parse_dec_uint by apply to_uint_cons.
  rewrite DecimalN.Unsigned.of_to. f_equal. lia.
Qed.

Lemma dec_inj a b : 0 ≤ a → 0 ≤ b → dec a = dec b → a = b.
Proof.
  intros Ha Hb H. apply (f_equal parse_dec) in H.
  rewrite !parse_dec_dec in H by done. congruence.
Qed.

Lemma ParseUint_dec z bits : 0 ≤ z < 2 ^ bits → ParseUint (dec z) bits = Some z.
Proof.
  intros [Hz Hb]. unfold ParseUint. rewrite parse_dec_dec by done. cbn.
  apply Z.ltb_lt in Hb. by rewrite Hb.
Qed.

Lemma parse_dec_zeros n d : d ≠ Decimal.Nil →
  parse_dec (zeros n +:+ NilEmpty.string_of_uint d) = Some (Z.of_N (N.of_uint d)).
Proof.
  revert d. induction n as [|n IH]; intros d Hd.
  - by apply parse_dec_uint.
  - replace (zeros (S n) +:+ NilEmpty.string_of_uint d)
      with (zeros n +:+ NilEmpty.string_of_uint (Decimal.D0 d)).
    + rewrite IH by done. done.
    + clear. induction n; cbn; [done|]. cbn in IHn. by rewrite IHn.
Qed.

Lemma parse_dec_pad w z : 0 ≤ z → parse_dec (dec_pad w z) = Some z.
Proof.
  intros Hz. unfold dec_pad, dec at 2. rewrite parse_dec_zeros by apply to_uint_cons.
  rewrite DecimalN.Unsigned.of_to. f_equal. lia.
Qed.

Definition is_digit (c : ascii) : bool :=
  let n := byte_val c in (48 <=? n) && (n <=? 57).

Fixpoint all_bytes (f : ascii → bool) (s : string) : bool :=
  match s with EmptyString => true | String c r => f c && all_bytes f r end.

Lemma dec_digits z : all_bytes is_digit (dec z) = true.
Proof. unfold dec. induction (N.to_uint (Z.to_N z)); cbn in *; auto. Qed.

Lemma zeros_digits n : all_bytes is_digit (zeros n) = true.
Proof. induction n; cbn; auto. Qed.

Lemma all_bytes_append f a b : all_bytes f (a +:+ b) = all_bytes f a && all_bytes f b.
Proof. induction a; cbn; [done|]. by rewrite IHa, andb_assoc. Qed.

Lemma all_bytes_elem f c s : f c = false → all_bytes f s = true → string_elem c s = false.
Proof.
  intros Hc. induction s as [|c' s IH]; cbn; [done|]. intros [H1 H2]%andb_true_iff.
  destruct (ascii_dec c' c) as [->|]; [congruence|auto].
Qed.

(** A decimal has no leading zero, except the number zero. *)
Lemma dec_head z : ∃ c r, dec z = String c r ∧ is_digit c = true ∧
  (c = "0"%char → r = "").
Proof.
  unfold dec. pose proof (to_uint_norm (Z.to_N z)) as E.
  destruct (N.to_uint (Z.to_N z)) as [|d|d|d|d|d|d|d|d|d|d] eqn:Ed; cbn;
    try (do 2 eexists; split_and!; [reflexivity|reflexivity|done]).
  - by apply to_uint_cons in Ed.
  - do 2 eexists; split_and!; [reflexivity|reflexivity|]. intros _.
    unfold Decimal.unorm in E. cbn in E.
    destruct (Decimal.nzhead d) eqn:En; try (injection E as E; subst; done).
    all: pose proof (DecimalFacts.nzhead_nonzero d) as Hn; try congruence.
Qed.

Lemma uint_of_digit c : is_digit c = true → ∃ f, ∀ d, NilEmpty.uint_of_string (String c d) = f <$> NilEmpty.uint_of_string d.
Proof.
  intros Hc. cbn. destruct c as [[] [] [] [] [] [] [] []]; try discriminate Hc; clear Hc;
    eexists; intros d; destruct (NilEmpty.uint_of_string d); cbn; reflexivity.
Qed.

Lemma uint_of_digits s : all_bytes is_digit s = true → ∃ d, NilEmpty.uint_of_string s = Some d.
Proof.
  induction s as [|c s IH]; intros Hs; [by exists Decimal.Nil|].
  apply andb_true_iff in Hs as [Hc Hs]. destruct (IH Hs) as [d Hd], (uint_of_digit c Hc) as [f Hf].
  rewrite Hf, Hd. by eexists.
Qed.

(** Digits without a leading zero are the decimal of the number they denote. *)
Lemma dec_parse_dec c s : is_digit c = true → c ≠ "0"%char → all_bytes is_digit s = true →
  ∃ z, parse_dec (String c s) = Some z ∧ 0 ≤ z ∧ dec z = String c s.
Proof.
  intros Hc H0 Hs. destruct (uint_of_digits (String c s)) as [d Hd]; [cbn; by rewrite Hc|].
  exists (Z.of_N (N.of_uint d)). unfold parse_dec. rewrite Hd. split_and!; [done|lia|].
  pose proof (NilEmpty.sus _ _ Hd) as E. unfold dec. rewrite N2Z.id, DecimalN.Unsigned.to_of.
  destruct d; try done; cbn in E; congruence.
Qed.

Lemma is_digit_not_sign c : is_digit c = true → Ascii.eqb c "-" = false ∧ Ascii.eqb c "+" = false.
Proof. intros H. split; apply Ascii.eqb_neq; by intros ->. Qed.

Lemma ParseInt_FormatInt z bits : - 2 ^ (bits - 1) ≤ z < 2 ^ (bits - 1) →
  ParseInt (FormatInt z) bits = Some z.
Proof.
  intros [Hl Hu]. unfold FormatInt. case_if.
  - cbn. rewrite parse_dec_dec by lia. cbn. rewrite (proj2 (Z.leb_le _ _)) by lia. f_equal; lia.
  - destruct (dec_head z) as (c & r & Ed & Hc & _). pose proof (parse_dec_dec z ltac:(lia)) as Hp.
    rewrite Ed in *. cbn [ParseInt]. destruct (is_digit_not_sign c Hc) as [-> ->].
    rewrite Hp. cbn. by rewrite (proj2 (Z.ltb_lt _ _)).
Qed.

Lemma FormatInt_inj a b : FormatInt a = FormatInt b → a = b.
Proof.
  intros E. set (n := Z.abs a + Z.abs b + 2).
  assert (n - 1 < 2 ^ (n - 1)) by (apply Z.pow_gt_lin_r; lia).
  pose proof (ParseInt_FormatInt a n ltac:(lia)) as Ha. pose proof (ParseInt_FormatInt b n ltac:(lia)) as Hb.
  congruence.
Qed.

(** ** Hexadecimal *)

Definition hex_digit (n : Z) : ascii :=
  if n <? 10 then byte_of (48 + n) else byte_of (87 + n).

Definition hex_val (c : ascii) : option Z :=
  let n := byte_val c in
  if (48 <=? n) && (n <=? 57) then Some (n - 48)
  else if (97 <=? n) && (n <=? 102) then Some (n - 87)
  else if (65 <=? n) && (n <=? 70) then Some (n - 55)
  else None.

(** [hex.EncodeToString] *)
Fixpoint hex_encode (s : string) : string :=
  match s with
  | EmptyString => EmptyString
  | String c r =>
      String (hex_digit (byte_val c / 16)) (String (hex_digit (byte_val c mod 16)) (hex_encode r))
  end.

(** [hex.DecodeString]: an odd length or a byte that is no digit is an error *)
Fixpoint hex_decode (s : string) : option string :=
  match s with
  | EmptyString => Some EmptyString
  | String _ EmptyString => None
  | String a (String b r) =>
      h ← hex_val a; l ← hex_val b; t ← hex_decode r;
      Some (String (byte_of (16 * h + l)) t)
  end.

Lemma hex_val_digit n : 0 ≤ n < 16 → hex_val (hex_digit n) = Some n.
Proof.
  intros Hn. unfold hex_val, hex_digit.
  destruct (n <? 10) eqn:E; bool_prop; rewrite byte_val_of, Z.mod_small by lia.
  - rewrite (proj2 (Z.leb_le 48 (48 + n))), (proj2 (Z.leb_le (48 + n) 57)) by lia.
    cbn. f_equal. lia.
  - rewrite (proj2 (Z.leb_le 48 (87 + n))), (proj2 (Z.leb_gt (87 + n) 57)) by lia.
    rewrite (proj2 (Z.leb_le 97 (87 + n))), (proj2 (Z.leb_le (87 + n) 102)) by lia.
    cbn. f_equal. lia.
Qed.

Lemma hex_decode_encode s : hex_decode (hex_encode s) = Some s.
Proof.
  induction s as [|c s IH]; cbn; [done|]. pose proof (byte_val_range c).
  rewrite !hex_val_digit by (split; [apply Z.div_pos || apply Z.mod_pos_bound|
    try apply Z.div_lt_upper_bound; try apply Z.mod_pos_bound]; lia).
  cbn. rewrite IH. cbn. rewrite <-Z.div_mod by lia. by rewrite byte_of_val.
Qed.

Lemma hex_encode_length s : String.length (hex_encode s) = (2 * String.length s)%nat.
Proof. induction s; cbn; lia. Qed.

Lemma hex_encode_inj a b : hex_encode a = hex_encode b → a = b.
Proof.
  intros H. apply (f_equal hex_decode) in H. rewrite !hex_decode_encode in H. congruence.
Qed.

Lemma hex_decode_length s b : hex_decode s = Some b → String.length s = (2 * String.length b)%nat.
Proof.
  revert s. induction b as [|c b IH]; intros [|x [|y s]]; cbn; try done;
    destruct (hex_val x), (hex_val y), (hex_decode s) eqn:E; cbn; try done.
  intros [= _ ->]. apply IH in E. lia.
Qed.

(** ** Base64 *)

(** The alphabet of [base64.StdEncoding] and, with [url], of
    [base64.RawURLEncoding]. *)
Definition b64_char (url : bool) (n : Z) : ascii :=
  if n <? 26 then byte_of (65 + n)
  else if n <? 52 then byte_of (71 + n)
  else if n <? 62 then byte_of (n - 4)
  else if n =? 62 then (if url then "-"%char else "+"%char)
  else (if url then "_"%char else "/"%char).

Definition b64_val (url : bool) (c : ascii) : option Z :=
  let n := byte_val c in
  if (65 <=? n) && (n <=? 90) then Some (n - 65)
  else if (97 <=? n) && (n <=? 122) then Some (n - 71)
  else if (48 <=? n) && (n <=? 57) then Some (n + 4)
  else if ascii_dec c (if url then "-"%char else "+"%char) then Some 62
  else if ascii_dec c (if url then "_"%char else "/"%char) then Some 63
  else None.

(** The value of three bytes, and its four six-bit digits. *)
Definition group24 (a b c : Z) : Z := a * 65536 + b * 256 + c.

Fixpoint b64_encode (url : bool) (s : string) : string :=
  let d := b64_char url in
  match s with
  | EmptyString => EmptyString
  | String a EmptyString =>
      let v := group24 (byte_val a) 0 0 in
      String (d (v / 262144)) (String (d (v / 4096 mod 64))
        (if url then EmptyString else "=="))
  | String a (String b EmptyString) =>
      let v := group24 (byte_val a) (byte_val b) 0 in
      String (d (v / 262144)) (String (d (v / 4096 mod 64)) (String (d (v / 64 mod 64))
        (if url then EmptyString else "=")))
  | String a (String b (String c r)) =>
      let v := group24 (byte_val a) (byte_val b) (byte_val c) in
      String (d (v / 262144)) (String (d (v / 4096 mod 64)) (String (d (v / 64 mod 64))
        (String (d (v mod 64)) (b64_encode url r))))
  end.

(** [base64.StdEncoding.EncodeToString], [base64.RawURLEncoding.EncodeToString] *)
Definition base64_encode : string → string := b64_encode false.
Definition base64_raw_url_encode : string → string := b64_encode true.

Definition of_group (v : Z) (n : nat) (rest : string) : string :=
  match n with
  | 1%nat => String (byte_of (v / 65536)) rest
  | 2%nat => String (byte_of (v / 65536)) (String (byte_of (v / 256)) rest)
  | _ => String (byte_of (v / 65536)) (String (byte_of (v / 256)) (String (byte_of v) rest))
  end.

#[local] Arguments of_group : simpl never.

(** [base64.StdEncoding.DecodeString] of a text without line breaks *)
Fixpoint base64_decode (s : string) : option string :=
  match s with
  | EmptyString => Some EmptyString
  | String c1 (String c2 (String c3 (String c4 r))) =>
      n1 ← b64_val false c1; n2 ← b64_val false c2;
      if ascii_dec c3 "="%char then
        if ascii_dec c4 "="%char then
          match r with
          | EmptyString => Some (of_group (n1 * 262144 + n2 * 4096) 1 EmptyString)
          | _ => None
          end
        else None
      else
        n3 ← b64_val false c3;
        if ascii_dec c4 "="%char then
          match r with
          | EmptyString => Some (of_group (n1 * 262144 + n2 * 4096 + n3 * 64) 2 EmptyString)
          | _ => None
          end
        else
          n4 ← b64_val false c4;
          t ← base64_decode r;
          Some (of_group (n1 * 262144 + n2 * 4096 + n3 * 64 + n4) 3 t)
  | _ => None
  end.

(** [base64.RawURLEncoding.DecodeString]: no padding *)
Fixpoint base64_raw_url_decode (s : string) : option string :=
  match s with
  | EmptyString => Some EmptyString
  | String _ EmptyString => None
  | String c1 (String c2 EmptyString) =>
      n1 ← b64_val true c1; n2 ← b64_val true c2;
      Some (of_group (n1 * 262144 + n2 * 4096) 1 EmptyString)
  | String c1 (String c2 (String c3 EmptyString)) =>
      n1 ← b64_val true c1; n2 ← b64_val true c2; n3 ← b64_val true c3;
      Some (of_group (n1 * 262144 + n2 * 4096 + n3 * 64) 2 EmptyString)
  | String c1 (String c2 (String c3 (String c4 r))) =>
      n1 ← b64_val true c1; n2 ← b64_val true c2; n3 ← b64_val true c3; n4 ← b64_val true c4;
      t ← base64_raw_url_decode r;
      Some (of_group (n1 * 262144 + n2 * 4096 + n3 * 64 + n4) 3 t)
  end.

Lemma b64_table url : forallb (λ n,
    bool_decide (b64_val url (b64_char url n) = Some n) &&
    negb (Ascii.eqb (b64_char url n) "=") && negb (Ascii.eqb (b64_char url n) ":")) (seqZ 0 64) = true.
Proof. by destruct url; vm_compute. Qed.

Lemma b64_digit url n : 0 ≤ n < 64 → b64_val url (b64_char url n) = Some n ∧
    b64_char url n ≠ "="%char ∧ b64_char url n ≠ ":"%char.
Proof.
  intros Hn. pose proof (b64_table url) as T. rewrite forallb_forall in T.
  specialize (T n). rewrite <-list_elem_of_In, elem_of_seqZ in T.
  specialize (T ltac:(lia)). bool_prop.
  split_and!; [done|by apply Ascii.eqb_neq..].
Qed.

Lemma group24_split a b c :
  0 ≤ a < 256 → 0 ≤ b < 256 → 0 ≤ c < 256 → let v := group24 a b c in
  0 ≤ v / 262144 < 64 ∧ 0 ≤ v / 4096 mod 64 < 64 ∧ 0 ≤ v / 64 mod 64 < 64 ∧ 0 ≤ v mod 64 < 64 ∧
  v / 262144 * 262144 + v / 4096 mod 64 * 4096 + v / 64 mod 64 * 64 + v mod 64 = v.
Proof. intros Ha Hb Hc v. unfold v, group24. zdiv. Qed.

Lemma of_group_bytes a b c n r : let v := group24 (byte_val a) (byte_val b) (byte_val c) in
  of_group v n r = match n with
  | 1%nat => String a r
  | 2%nat => String a (String b r)
  | _ => String a (String b (String c r))
  end.
Proof.
  intros v. pose proof (byte_val_range a). pose proof (byte_val_range b).
  pose proof (byte_val_range c).
  assert (byte_of (v / 65536) = a ∧ byte_of (v / 256) = b ∧ byte_of v = c) as (E1 & E2 & E3).
  { split_and!; apply byte_val_inj; rewrite byte_val_of; unfold v, group24; zdiv. }
  unfold of_group. by rewrite E1, E2, E3.
Qed.

(** Induction by groups of three bytes. *)
Lemma string_ind3 (P : string → Prop) :
  P "" → (∀ a, P (String a "")) → (∀ a b, P (String a (String b ""))) →
  (∀ a b c r, P r → P (String a (String b (String c r)))) → ∀ s, P s.
Proof.
  intros H0 H1 H2 H3. refine (fix IH s := _).
  destruct s as [|a [|b [|c r]]]; [exact H0|apply H1|apply H2|apply H3, IH].
Qed.

Ltac b64_step :=
  match goal with
  | |- context [b64_val ?u (b64_char ?u ?n)] => rewrite (proj1 (b64_digit u n ltac:(lia)))
  | |- context [ascii_dec (b64_char ?u ?n) "="%char] =>
      destruct (ascii_dec (b64_char u n) "="%char) as [E|_];
      [by apply (proj1 (proj2 (b64_digit u n ltac:(lia)))) in E|]
  end.

Ltac b64_colon :=
  match goal with
  | |- context [ascii_dec (b64_char ?u ?n) ":"%char] =>
      destruct (ascii_dec (b64_char u n) ":"%char) as [E|_];
      [by apply (proj2 (proj2 (b64_digit u n ltac:(lia)))) in E|]
  end.

Ltac b64_group a b c :=
  let H := fresh in
  pose proof (group24_split (byte_val a) (byte_val b) (byte_val c)
    (byte_val_range a) (byte_val_range b) (byte_val_range c)) as H;
  cbn zeta in H; destruct H as (? & ? & ? & ? & ?).

Lemma byte_val_zero : byte_val "000"%char = 0.
Proof. done. Qed.

Lemma of_group_eq a b c n r v :
  v = group24 (byte_val a) (byte_val b) (byte_val c) →
  of_group v n r = match n with
  | 1%nat => String a r
  | 2%nat => String a (String b r)
  | _ => String a (String b (String c r))
  end.
Proof. intros ->. apply of_group_bytes. Qed.

Lemma base64_decode_encode s : base64_decode (base64_encode s) = Some s.
Proof.
  unfold base64_encode. induction s as [|a|a b|a b c r IH] using string_ind3;
    cbn [b64_encode base64_decode].
  - done.
  - b64_group a "000"%char "000"%char. rewrite byte_val_zero in *.
    repeat (b64_step; cbn [mbind option_bind]). cbn.
    rewrite (of_group_eq a "000" "000"); [done|]. rewrite byte_val_zero. unfold group24 in *. zdiv.
  - b64_group a b "000"%char. rewrite byte_val_zero in *.
    repeat (b64_step; cbn [mbind option_bind]). cbn.
    rewrite (of_group_eq a b "000"); [done|]. rewrite byte_val_zero. unfold group24 in *. zdiv.
  - b64_group a b c.
    repeat (b64_step; cbn [mbind option_bind]). rewrite IH. cbn [mbind option_bind].
    rewrite (of_group_eq a b c); [done|]. lia.
Qed.

Lemma base64_raw_url_decode_encode s :
  base64_raw_url_decode (base64_raw_url_encode s) = Some s.
Proof.
  unfold base64_raw_url_encode. induction s as [|a|a b|a b c r IH] using string_ind3;
    cbn [b64_encode base64_raw_url_decode].
  - done.
  - b64_group a "000"%char "000"%char. rewrite byte_val_zero in *.
    repeat (b64_step; cbn [mbind option_bind]).
    rewrite (of_group_eq a "000" "000"); [done|]. rewrite byte_val_zero. unfold group24 in *. zdiv.
  - b64_group a b "000"%char. rewrite byte_val_zero in *.
    repeat (b64_step; cbn [mbind option_bind]).
    rewrite (of_group_eq a b "000"); [done|]. rewrite byte_val_zero. unfold group24 in *. zdiv.
  - b64_group a b c. 
    repeat (b64_step; cbn [mbind option_bind]). rewrite IH. cbn [mbind option_bind].
    rewrite (of_group_eq a b c); [done|]. lia.
Qed.

Lemma raw_url_no_colon s : string_elem ":" (base64_raw_url_encode s) = false.
Proof.
  unfold base64_raw_url_encode. induction s as [|a|a b|a b c r IH] using string_ind3;
    cbn [b64_encode string_elem]; [done| | |].
  - b64_group a "000"%char "000"%char. rewrite byte_val_zero in *.
    by repeat b64_colon.
  - b64_group a b "000"%char. rewrite byte_val_zero in *.
    by repeat b64_colon.
  - b64_group a b c. rewrite IH.
    by repeat b64_colon.
Qed.

Lemma b64_char_ascii url n : 0 ≤ n < 64 → byte_val (b64_char url n) <? 128 = true.
Proof.
  intros Hn. apply Z.ltb_lt. unfold b64_char. repeat case_if; rewrite ?byte_val_of, ?Z.mod_small by lia;
    (lia || by destruct url).
Qed.

Lemma b64_encode_ascii url s : all_bytes (λ c, byte_val c <? 128) (b64_encode url s) = true.
Proof.
  induction s as [|a|a b|a b c r IH] using string_ind3; cbn [b64_encode all_bytes]; [done| | |].
  - b64_group a "000"%char "000"%char. rewrite byte_val_zero in *. rewrite !b64_char_ascii by done. by destruct url.
  - b64_group a b "000"%char. rewrite byte_val_zero in *. rewrite !b64_char_ascii by done. by destruct url.
  - b64_group a b c. by rewrite IH, !b64_char_ascii.
Qed.

(** ** Big-endian integers *)

(** [binary.BigEndian.PutUint64] and the like, on [n] bytes *)
Fixpoint big_endian (n : nat) (z : Z) : list Z :=
  match n with
  | O => []
  | S n' => (z / 256 ^ Z.of_nat n') mod 256 :: big_endian n' z
  end.

(** [binary.BigEndian.Uint64] and the like *)
Definition from_big_endian (l : list Z) : Z := foldl (λ acc b, acc * 256 + b) 0 l.

Lemma length_big_endian n z : length (big_endian n z) = n.
Proof. induction n; cbn; congruence. Qed.

Lemma big_endian_range n z : Forall (λ b, 0 ≤ b < 256) (big_endian n z).
Proof. induction n; cbn; constructor; auto. apply Z.mod_pos_bound. lia. Qed.

Lemma foldl_big_endian n z acc :
  foldl (λ acc b, acc * 256 + b) acc (big_endian n z)
    = acc * 256 ^ Z.of_nat n + z mod 256 ^ Z.of_nat n.
Proof.
  revert acc. induction n as [|n IH]; intros acc; cbn [big_endian foldl].
  - rewrite Z.pow_0_r, Z.mod_1_r. lia.
  - rewrite IH, Nat2Z.inj_succ, Z.pow_succ_r by lia.
    assert (0 < 256 ^ Z.of_nat n) by (apply Z.pow_pos_nonneg; lia).
    rewrite (Z.mul_comm 256 (256 ^ _)), Z.rem_mul_r by lia. lia.
Qed.

Lemma from_to_big_endian n z : 0 ≤ z < 256 ^ Z.of_nat n →
  from_big_endian (big_endian n z) = z.
Proof. intros Hz. unfold from_big_endian. rewrite foldl_big_endian, Z.mod_small; lia. Qed.

(** [bytes.Compare] *)
Fixpoint bytes_compare (a b : list Z) : comparison :=
  match a, b with
  | [], [] => Eq
  | [], _ => Lt
  | _, [] => Gt
  | x :: a', y :: b' =>
      match Z.compare x y with Eq => bytes_compare a' b' | c => c end
  end.

Lemma bytes_compare_fold l1 l2 a b :
  length l1 = length l2 → Forall (λ x, 0 ≤ x < 256) l1 → Forall (λ x, 0 ≤ x < 256) l2 →
  Z.compare (foldl (λ acc x, acc * 256 + x) a l1) (foldl (λ acc x, acc * 256 + x) b l2)
  = match Z.compare a b with Eq => bytes_compare l1 l2 | c => c end.
Proof.
  revert l2 a b. induction l1 as [|x l1 IH]; intros [|y l2] a b Hl H1 H2; try done.
  - cbn. by destruct (a ?= b).
  - cbn [foldl]. apply Forall_cons in H1 as [Hx H1]. apply Forall_cons in H2 as [Hy H2].
    rewrite IH by auto. cbn [bytes_compare].
    destruct (Z.compare_spec a b) as [->|Hab|Hab].
    + rewrite Z.add_compare_mono_l. done.
    + rewrite (proj2 (Z.compare_lt_iff _ _)); [done|]. lia.
    + rewrite (proj2 (Z.compare_gt_iff _ _)); [done|]. lia.
Qed.

(** The byte order of equally long big-endian texts is the numeric order. *)
Lemma big_endian_compare n a b :
  0 ≤ a < 256 ^ Z.of_nat n → 0 ≤ b < 256 ^ Z.of_nat n →
  bytes_compare (big_endian n a) (big_endian n b) = Z.compare a b.
Proof.
  intros Ha Hb.
  pose proof (bytes_compare_fold (big_endian n a) (big_endian n b) 0 0) as H.
  rewrite !length_big_endian in H. specialize (H eq_refl (big_endian_range n a) (big_endian_range n b)).
  rewrite Z.compare_refl in H. rewrite <-H. fold (from_big_endian (big_endian n a)).
  fold (from_big_endian (big_endian n b)). by rewrite !from_to_big_endian.
Qed.
