(* ===== verification/Sha256.v ===== *)
(** * SHA-256 (crypto/sha256)

    The digest of FIPS 180-4 on byte strings, executable, with 32-bit words as
    integers modulo 2^32.  It is what the server compares payloads and files
    with and what reconciliation hashes rows with.  The standard's test vectors
    are checked by evaluation; that a digest has 32 bytes is a lemma. *)

From S2P Require Import Prelude Bytes Encoding.

Definition rotr (n x : Z) : Z :=
  Z.lor (Z.shiftr x n) (Z.land (Z.shiftl x (32 - n)) 4294967295).

Definition not32 (x : Z) : Z := Z.lxor x 4294967295.

Definition Ch (x y z : Z) : Z := Z.lxor (Z.land x y) (Z.land (not32 x) z).
Definition Maj (x y z : Z) : Z := Z.lxor (Z.lxor (Z.land x y) (Z.land x z)) (Z.land y z).
Definition Sigma0 (x : Z) : Z := Z.lxor (Z.lxor (rotr 2 x) (rotr 13 x)) (rotr 22 x).
Definition Sigma1 (x : Z) : Z := Z.lxor (Z.lxor (rotr 6 x) (rotr 11 x)) (rotr 25 x).
Definition sigma0 (x : Z) : Z := Z.lxor (Z.lxor (rotr 7 x) (rotr 18 x)) (Z.shiftr x 3).
Definition sigma1 (x : Z) : Z := Z.lxor (Z.lxor (rotr 17 x) (rotr 19 x)) (Z.shiftr x 10).

(** The constants of the standard are the first 32 bits of the fractional parts
    of the square and cube roots of the first primes. *)
Definition is_prime (n : Z) : bool := forallb (λ d, negb (n mod d =? 0)) (seqZ 2 (n - 2)).

Definition primes : list Z := List.filter is_prime (seqZ 2 310).

(** The largest [x] with [x ^ k <= n] that extends [x] by [bits] binary digits. *)
Fixpoint root (k n : Z) (bits : nat) (x : Z) : Z :=
  match bits with
  | O => x
  | S b => let y := x + 2 ^ Z.of_nat b in root k n b (if y ^ k <=? n then y else x)
  end.

Definition frac_root (k p : Z) : Z := u32 (root k (p * 2 ^ (32 * k)) 40 0).

Definition K : list Z := Eval vm_compute in frac_root 3 <$> take 64 primes.

Definition H_init : list Z := Eval vm_compute in frac_root 2 <$> take 8 primes.

Record Words := mkWords { wa : Z; wb : Z; wc : Z; wd : Z; we : Z; wf : Z; wg : Z; wh : Z }.

Definition H0 : Words :=
  let h i := nth i H_init 0 in mkWords (h 0%nat) (h 1%nat) (h 2%nat) (h 3%nat) (h 4%nat) (h 5%nat) (h 6%nat) (h 7%nat).

Definition round (k w : Z) (s : Words) : Words :=
  let t1 := u32 (wh s + Sigma1 (we s) + Ch (we s) (wf s) (wg s) + k + w) in
  let t2 := u32 (Sigma0 (wa s) + Maj (wa s) (wb s) (wc s)) in
  mkWords (u32 (t1 + t2)) (wa s) (wb s) (wc s) (u32 (wd s + t1)) (we s) (wf s) (wg s).

(** The rounds, extending the message schedule on the way: [ws] are the sixteen
    words of the window. *)
Fixpoint rounds (ks ws : list Z) (s : Words) : Words :=
  match ks, ws with
  | k :: ks', w :: ws' =>
      let next := u32 (sigma1 (nth 13 ws' 0) + nth 8 ws' 0 + sigma0 (nth 0 ws' 0) + w) in
      rounds ks' (ws' ++ [next]) (round k w s)
  | _, _ => s
  end.

Definition add_words (s t : Words) : Words :=
  mkWords (u32 (wa s + wa t)) (u32 (wb s + wb t)) (u32 (wc s + wc t)) (u32 (wd s + wd t))
    (u32 (we s + we t)) (u32 (wf s + wf t)) (u32 (wg s + wg t)) (u32 (wh s + wh t)).

Fixpoint words_of (n : nat) (b : list Z) : list Z :=
  match n with
  | O => []
  | S n' => from_big_endian (take 4 b) :: words_of n' (drop 4 b)
  end.

Definition block (s : Words) (b : list Z) : Words := add_words s (rounds K (words_of 16 b) s).

Fixpoint blocks (n : nat) (b : list Z) (s : Words) : Words :=
  match n with
  | O => s
  | S n' => blocks n' (drop 64 b) (block s (take 64 b))
  end.

(** The message followed by 0x80, zeros and its length in bits. *)
Definition pad (b : list Z) : list Z :=
  let n := Z.of_nat (length b) in
  b ++ [128] ++ replicate (Z.to_nat ((55 - n) mod 64)) 0 ++ big_endian 8 (n * 8).

Definition word_bytes (s : Words) : list Z :=
  big_endian 4 (wa s) ++ big_endian 4 (wb s) ++ big_endian 4 (wc s) ++ big_endian 4 (wd s) ++
  big_endian 4 (we s) ++ big_endian 4 (wf s) ++ big_endian 4 (wg s) ++ big_endian 4 (wh s).

(** [sha256.Sum256] *)
Definition Sum256 (b : list Z) : list Z :=
  let p := pad b in
  word_bytes (blocks (length p / 64) p H0).

Definition sha256 (s : string) : string := of_bytes (Sum256 (bytes s)).

#[global] Arguments Sum256 : simpl never.
#[global] Arguments sha256 : simpl never.

(** ** Lemmas *)

Lemma Sum256_length b : length (Sum256 b) = 32%nat.
Proof.
  unfold Sum256. generalize (blocks (length (pad b) / 64) (pad b) H0). intros s.
  unfold word_bytes. by rewrite !length_app, !length_big_endian.
Qed.

(** The test vectors of the standard. *)
Example sha256_empty :
  hex_encode (sha256 "") = "e3b0c44298fc1c149afbf4c8996fb92427ae41e4649b934ca495991b7852b855".
Proof. vm_compute. reflexivity. Qed.

Example sha256_abc :
  hex_encode (sha256 "abc") = "ba7816bf8f01cfea414140de5dae2223b00361a396177a9cb410ff61f20015ad".
Proof. vm_compute. reflexivity. Qed.

Example sha256_two_blocks :
  hex_encode (sha256 "abcdbcdecdefdefgefghfghighijhijkijkljklmklmnlmnomnopnopq") =
    "248d6a61d20638b8e5c026930c3e6039a33ce45964ff2167f6ecedd419db06c1".
Proof. vm_compute. reflexivity. Qed.
