(* ===== verification/BigRat.v ===== *)
(** * Rational numbers (math/big)

    [Rat.SetString] and [Rat.RatString], with which reconciliation compares
    decimal values: a signed fraction, or a floating-point number with an
    optional exponent, in base 10 or with a base prefix, as the scanner of
    math/big reads them.  The theorem at the end shows that [RatString] is a
    canonical form: two numbers have the same text exactly when they are equal. *)

From S2P Require Import Prelude Bytes Encoding.

(** ** Scanning *)

Definition digit_value (c : ascii) : Z :=
  let n := byte_val c in
  if (48 <=? n) && (n <=? 57) then n - 48
  else if (97 <=? n) && (n <=? 122) then n - 87
  else if (65 <=? n) && (n <=? 90) then n - 55
  else 63.

(** What [nat.scan] has read. *)
Record scanned := mkScanned {
  sc_value : Z;
  sc_count : Z;            (** digits read *)
  sc_point : option Z;     (** digits before the radix point *)
  sc_prev : ascii;         (** the last character: a digit is ["0"] *)
  sc_invalid : bool;       (** a misplaced separator *)
  sc_rest : string
}.

(** The loop of [nat.scan] in base [b]. *)
Fixpoint scan_digits (b : Z) (fracOk : bool) (a : scanned) (s : string) : scanned :=
  match s with
  | EmptyString => mkScanned (sc_value a) (sc_count a) (sc_point a) (sc_prev a) (sc_invalid a) ""
  | String c r =>
      if Ascii.eqb c "." && fracOk then
        scan_digits b false
          (mkScanned (sc_value a) (sc_count a) (Some (sc_count a)) "."
             (sc_invalid a || Ascii.eqb (sc_prev a) "_") r) r
      else if Ascii.eqb c "_" then
        scan_digits b fracOk
          (mkScanned (sc_value a) (sc_count a) (sc_point a) "_"
             (sc_invalid a || negb (Ascii.eqb (sc_prev a) "0")) r) r
      else if b <=? digit_value c then
        mkScanned (sc_value a) (sc_count a) (sc_point a) (sc_prev a) (sc_invalid a) s
      else
        scan_digits b fracOk
          (mkScanned (sc_value a * b + digit_value c) (sc_count a + 1) (sc_point a) "0" (sc_invalid a) r) r
  end.

(** The base a prefix selects, whether it is the octal prefix ["0"], and what
    follows it; [None] when there is no prefix. *)
Definition base_prefix (fracOk : bool) (s : string) : option (Z * bool * string) :=
  match s with
  | String z (String c r) =>
      if Ascii.eqb z "0" then
        if Ascii.eqb c "b" || Ascii.eqb c "B" then Some (2, false, r)
        else if Ascii.eqb c "o" || Ascii.eqb c "O" then Some (8, false, r)
        else if Ascii.eqb c "x" || Ascii.eqb c "X" then Some (16, false, r)
        else if negb fracOk then Some (8, true, String c r) else None
      else None
  | _ => None
  end.

(** [nat.scan] with base 0: the value, the base, the count of digits (negated
    and counting the fractional ones when there is a radix point) and the rest. *)
Definition scan (s : string) (fracOk : bool) : option (Z * Z * Z * string) :=
  let '(b, octal, a, r) :=
    match base_prefix fracOk s with
    | Some (b, octal, r) => (b, octal, mkScanned 0 0 None "0" false r, r)
    | None => (10, false, mkScanned 0 0 None "." false s, s)
    end in
  let x := scan_digits b fracOk a r in
  if sc_invalid x || Ascii.eqb (sc_prev x) "_" then None
  else if sc_count x =? 0 then if octal then Some (0, 10, 1, sc_rest x) else None
  else
    let count := match sc_point x with Some p => p - sc_count x | None => sc_count x end in
    Some (sc_value x, b, count, sc_rest x).

Definition scan_sign (s : string) : bool * string :=
  match s with
  | String c r => if Ascii.eqb c "-" then (true, r) else if Ascii.eqb c "+" then (false, r) else (false, s)
  | EmptyString => (false, s)
  end.

(** The digits of an exponent: the digits, whether separators are misplaced and
    the rest. *)
Fixpoint exponent_digits (prev : ascii) (invalid : bool) (s : string) : string * ascii * bool * string :=
  match s with
  | String c r =>
      if is_digit c then
        let '(ds, p, i, rest) := exponent_digits "0" invalid r in (String c ds, p, i, rest)
      else if Ascii.eqb c "_" then exponent_digits "_" (invalid || negb (Ascii.eqb prev "0")) r
      else ("", prev, invalid, s)
  | EmptyString => ("", prev, invalid, "")
  end.

(** [scanExponent(r, true, true)]: the exponent, its base and the rest. *)
Definition scan_exponent (s : string) : option (Z * Z * string) :=
  match s with
  | String c r =>
      let base := if Ascii.eqb c "e" || Ascii.eqb c "E" then 10
                  else if Ascii.eqb c "p" || Ascii.eqb c "P" then 2 else 0 in
      if base =? 0 then Some (0, 10, s)
      else
        let '(neg, r) := scan_sign r in
        let '(ds, prev, invalid, rest) := exponent_digits "." false r in
        if String.eqb ds "" || invalid || Ascii.eqb prev "_" then None
        else
          e ← ParseInt ((if neg then "-" else "") +:+ ds) 64;
          Some (e, base, rest)
  | EmptyString => Some (0, 10, "")
  end.

(** ** Rationals in lowest terms *)

Record Rat := mkRat { num_ : Z; den : Z }.

Definition rat_ok (q : Rat) : Prop := 0 < den q ∧ Z.gcd (num_ q) (den q) = 1.

(** [Rat.norm] of [a/b] *)
Definition norm (a b : Z) : Rat := let g := Z.gcd a b in mkRat (Z.quot a g) (Z.quot b g).

Fixpoint index_slash (s : string) : option (string * string) :=
  match s with
  | String c r =>
      if Ascii.eqb c "/" then Some ("", r)
      else '(a, b) ← index_slash r; Some (String c a, b)
  | EmptyString => None
  end.

(** [Int.SetString(s, 0)] *)
Definition int_of_string (s : string) : option Z :=
  let '(neg, r) := scan_sign s in
  '(v, _, _, rest) ← scan r false;
  if String.eqb rest "" then Some (if neg : bool then - v else v) else None.

(** The powers of two and of five a number is scaled by; the limits keep the
    numbers from growing without bound. *)
Definition scale_rat (neg : bool) (v exp2 exp5 : Z) : option Rat :=
  if (Z.abs exp5 <=? 1000000) && (Z.abs exp2 <=? 10000000) then
    let a := v * 5 ^ Z.max 0 exp5 * 2 ^ Z.max 0 exp2 in
    let b := 5 ^ Z.max 0 (- exp5) * 2 ^ Z.max 0 (- exp2) in
    Some (norm (if neg then - a else a) b)
  else None.

(** [Rat.SetString] *)
Definition SetString (s : string) : option Rat :=
  if String.eqb s "" then None
  else
    match index_slash s with
    | Some (a, b) =>
        n ← int_of_string a;
        '(d, _, _, rest) ← scan b false;
        if String.eqb rest "" && negb (d =? 0) then Some (norm n d) else None
    | None =>
        let '(neg, r) := scan_sign s in
        '(v, base, count, r) ← scan r true;
        '(exp, ebase, rest) ← scan_exponent r;
        if negb (String.eqb rest "") then None
        else if v =? 0 then Some (mkRat 0 1)
        else
          let d := Z.min 0 count in
          let exp5 := (if base =? 10 then d else 0) + (if ebase =? 10 then exp else 0) in
          let exp2 := (if (base =? 10) || (base =? 2) then d else if base =? 8 then d * 3 else d * 4) + exp in
          scale_rat neg v exp2 exp5
    end.

(** [Rat.RatString] *)
Definition RatString (q : Rat) : string :=
  if den q =? 1 then FormatInt (num_ q) else FormatInt (num_ q) +:+ "/" +:+ FormatInt (den q).

(** ** Lemmas *)

Lemma norm_ok a b : 0 < b → rat_ok (norm a b).
Proof.
  intros Hb. unfold rat_ok, norm. cbn. set (g := Z.gcd a b).
  assert (0 < g) as Hg by (pose proof (Z.gcd_nonneg a b); destruct (Z.eq_dec g 0) as [E|];
    [apply Z.gcd_eq_0 in E|]; lia).
  pose proof (Z.gcd_divide_l a b) as [x Hx]. pose proof (Z.gcd_divide_r a b) as [y Hy].
  fold g in Hx, Hy. rewrite Hx, Hy at 1. rewrite !Z.quot_mul by lia. split; [nia|].
  rewrite Hy, Z.quot_mul by lia.
  assert (g * Z.gcd x y = g) as E; [|nia].
  rewrite <- Z.gcd_mul_mono_l_nonneg by lia. unfold g at 3. f_equal; lia.
Qed.

Lemma norm_value a b : 0 < b → num_ (norm a b) * b = a * den (norm a b).
Proof.
  intros Hb. unfold norm. cbn. set (g := Z.gcd a b).
  assert (0 < g) as Hg by (pose proof (Z.gcd_nonneg a b); destruct (Z.eq_dec g 0) as [E|];
    [apply Z.gcd_eq_0 in E|]; lia).
  pose proof (Z.gcd_divide_l a b) as [x Hx]. pose proof (Z.gcd_divide_r a b) as [y Hy].
  fold g in Hx, Hy. rewrite Hx, Hy. rewrite !Z.quot_mul by lia. ring.
Qed.

(** Equal fractions in lowest terms are the same. *)
Lemma rat_unique p q : rat_ok p → rat_ok q → num_ p * den q = num_ q * den p → p = q.
Proof.
  intros [Hp Gp] [Hq Gq] E. destruct p as [a b], q as [c d]. cbn in *.
  assert ((b | d) ∧ (d | b)) as [Hbd Hdb].
  { split; [apply (Z.gauss b a d)|apply (Z.gauss d c b)]; rewrite ?(Z.gcd_comm b), ?(Z.gcd_comm d); try done.
    - exists c. lia.
    - exists a. lia. }
  assert (b = d) as -> by (apply Z.divide_antisym_nonneg; done || lia). f_equal. nia.
Qed.

Lemma scan_digits_nonneg b fracOk a s : 0 ≤ b → 0 ≤ sc_value a → 0 ≤ sc_value (scan_digits b fracOk a s).
Proof.
  intros Hb. revert fracOk a. induction s as [|c s IH]; intros fracOk a Ha; cbn; [done|].
  destruct (_ && _); [by apply IH|]. destruct (Ascii.eqb c "_"); [by apply IH|].
  destruct (b <=? digit_value c); [done|]. apply IH. cbn.
  assert (0 ≤ digit_value c); [|nia]. unfold digit_value. pose proof (byte_val_range c).
  repeat case_match; bool_prop; lia.
Qed.

Lemma scan_nonneg s fracOk v b n r : scan s fracOk = Some (v, b, n, r) → 0 ≤ v.
Proof.
  unfold scan. destruct (base_prefix fracOk s) as [[[b' o] r']|] eqn:E.
  - assert (0 ≤ b').
    { unfold base_prefix in E. destruct s as [|z [|c s]]; try done.
      repeat case_match; simplify_eq; lia. }
    repeat case_match; intros; simplify_eq; try lia; by apply scan_digits_nonneg.
  - repeat case_match; intros; simplify_eq; try lia; by apply scan_digits_nonneg.
Qed.

(** What is read is in lowest terms. *)
Lemma SetString_ok s q : SetString s = Some q → rat_ok q.
Proof.
  unfold SetString. destruct (String.eqb s ""); [done|]. destruct (index_slash s) as [[a b]|].
  - destruct (int_of_string a) as [n|]; [|done]. cbn. destruct (scan b false) as [[[[d ?] ?] rest]|] eqn:E; [|done].
    cbn. destruct (String.eqb rest "" && _) eqn:Ed; [|done]. intros [= <-]. apply scan_nonneg in E.
    apply norm_ok. bool_prop. lia.
  - destruct (scan_sign s) as [neg r]. destruct (scan r true) as [[[[v base] count] r']|]; [|done]. cbn.
    destruct (scan_exponent r') as [[[e eb] rest]|]; [|done]. cbn.
    destruct (negb _); [done|]. destruct (v =? 0); [intros [= <-]; by split|].
    unfold scale_rat. destruct (_ && _); [|done]. intros [= <-]. apply norm_ok.
    apply Z.mul_pos_pos; apply Z.pow_pos_nonneg; lia.
Qed.

Lemma FormatInt_no_slash z : string_elem "/" (FormatInt z) = false.
Proof.
  assert (∀ y, string_elem "/" (dec y) = false) as Hd by (intros; by eapply all_bytes_elem, dec_digits).
  unfold FormatInt. destruct (z <? 0); [|done]. cbn. by rewrite Hd.
Qed.

(** [RatString] is canonical. *)
Lemma RatString_inj p q : rat_ok p → rat_ok q → RatString p = RatString q → p = q.
Proof.
  intros _ _. unfold RatString.
  change ("/" +:+ FormatInt (den p)) with (String "/" (FormatInt (den p))).
  change ("/" +:+ FormatInt (den q)) with (String "/" (FormatInt (den q))).
  destruct (Z.eqb_spec (den p) 1) as [Hp|Hp], (Z.eqb_spec (den q) 1) as [Hq|Hq]; intros E;
    apply (f_equal (λ s, Split s "/")) in E;
    rewrite ?Split_append, ?(Split_no_sep (FormatInt _)) in E by apply FormatInt_no_slash; try done.
  - injection E as E%FormatInt_inj. destruct p, q; cbn in *; congruence.
  - injection E as E1%FormatInt_inj E2%FormatInt_inj. destruct p, q; cbn in *; congruence.
Qed.

(** Texts of the same number have the same canonical text, others do not. *)
Lemma SetString_canonical a b p q : SetString a = Some p → SetString b = Some q →
  RatString p = RatString q ↔ num_ p * den q = num_ q * den p.
Proof.
  intros Ha%SetString_ok Hb%SetString_ok. split.
  - intros E%RatString_inj; [|done..]. by subst.
  - intros E. by rewrite (rat_unique p q).
Qed.

Example SetString_decimal : RatString <$> SetString "-12.500" = Some "-25/2".
Proof. reflexivity. Qed.

Example SetString_exponent : RatString <$> SetString "1.2e3" = Some "1200".
Proof. reflexivity. Qed.
