(* ===== verification/Json.v ===== *)
(** * [encoding/json]

    JSON documents, the compact text [json.Marshal] prints for them (with its
    escapes: control bytes, HTML characters, the line separators U+2028 and
    U+2029, and U+FFFD for bytes that are not UTF-8) and the parser
    [json.Unmarshal] runs.  A number keeps its lexeme, so no value passes
    through a float.  The theorem of the file is that a printed document parses
    back to itself. *)

From S2P Require Import Prelude Bytes Encoding.

Inductive json :=
  | JNull
  | JBool (b : bool)
  | JNum (lexeme : string)
  | JStr (s : string)
  | JArr (l : list json)
  | JObj (l : list (string * json)).

#[global] Instance json_eq_dec : EqDecision json.
Proof.
  unfold EqDecision, Decision. fix go 1. intros x y.
  destruct x as [|b|l|s|l|l], y as [|b'|l'|s'|l'|l']; try (right; discriminate).
  - by left.
  - destruct (decide (b = b')); [left|right]; congruence.
  - destruct (decide (l = l')); [left|right]; congruence.
  - destruct (decide (s = s')); [left|right]; congruence.
  - destruct (@list_eq_dec json go l l'); [left|right]; congruence.
  - destruct (@list_eq_dec (string * json) (@prod_eq_dec _ _ _ go) l l'); [left|right]; congruence.
Defined.

Definition dquote : ascii := "034"%char.

(** ** UTF-8 *)

Definition in_range (lo hi : Z) (c : ascii) : bool := (lo <=? byte_val c) && (byte_val c <=? hi).
Definition cont : ascii → bool := in_range 128 191.

(** The length of the well-formed rune a string starts with, 0 if there is
    none ([utf8.DecodeRuneInString]). *)
Definition rune_len (s : string) : nat :=
  match s with
  | EmptyString => 0%nat
  | String c0 r =>
      if byte_val c0 <? 128 then 1%nat
      else if in_range 194 223 c0 then
        match r with String c1 _ => if cont c1 then 2%nat else 0%nat | _ => 0%nat end
      else if in_range 224 239 c0 then
        match r with
        | String c1 (String c2 _) =>
            if in_range (if byte_val c0 =? 224 then 160 else 128)
                        (if byte_val c0 =? 237 then 159 else 191) c1 && cont c2 then 3%nat else 0%nat
        | _ => 0%nat
        end
      else if in_range 240 244 c0 then
        match r with
        | String c1 (String c2 (String c3 _)) =>
            if in_range (if byte_val c0 =? 240 then 144 else 128)
                        (if byte_val c0 =? 244 then 143 else 191) c1 && cont c2 && cont c3
            then 4%nat else 0%nat
        | _ => 0%nat
        end
      else 0%nat
  end.

(** [utf8.ValidString] *)
Fixpoint utf8_runes (fuel : nat) (s : string) : bool :=
  match s, fuel with
  | EmptyString, _ => true
  | _, O => false
  | _, S f => match rune_len s with O => false | n => utf8_runes f (drop_string n s) end
  end.

Definition utf8_valid (s : string) : bool := utf8_runes (String.length s) s.

(** [utf8.AppendRune] *)
Definition utf8_encode (n : Z) : string :=
  if n <? 128 then of_bytes [n]
  else if n <? 2048 then of_bytes [192 + n / 64; 128 + n mod 64]
  else if n <? 65536 then of_bytes [224 + n / 4096; 128 + n / 64 mod 64; 128 + n mod 64]
  else of_bytes [240 + n / 262144; 128 + n / 4096 mod 64; 128 + n / 64 mod 64; 128 + n mod 64].

Definition replacement : string := utf8_encode 65533.

(** ** Printing *)

Definition esc_ascii (c : ascii) : string :=
  let n := byte_val c in
  if n =? 34 then String "\" (String dquote "")
  else if n =? 92 then "\\"
  else if n =? 8 then "\b"
  else if n =? 12 then "\f"
  else if n =? 10 then "\n"
  else if n =? 13 then "\r"
  else if n =? 9 then "\t"
  else if (n <? 32) || (n =? 60) || (n =? 62) || (n =? 38) then
    String "\" "u00" +:+ String (hex_digit (n / 16)) (String (hex_digit (n mod 16)) "")
  else String c "".

Fixpoint escape (fuel : nat) (s : string) : string :=
  match fuel, s with
  | S f, String c r =>
      match rune_len s with
      | 0%nat => String "\" "ufffd" +:+ escape f r
      | 1%nat => esc_ascii c +:+ escape f r
      | n =>
          let rune := take_string n s in
          (if String.eqb rune (utf8_encode 8232) then String "\" "u2028"
           else if String.eqb rune (utf8_encode 8233) then String "\" "u2029"
           else rune) +:+ escape f (drop_string n s)
      end
  | _, _ => EmptyString
  end.

Definition print_string (s : string) : string :=
  String dquote (escape (String.length s) s +:+ String dquote "").

Fixpoint print (v : json) : string :=
  match v with
  | JNull => "null"
  | JBool b => if b then "true" else "false"
  | JNum l => l
  | JStr s => print_string s
  | JArr [] => "[]"
  | JArr (x :: r) =>
      "[" +:+ print x +:+
        (fix tail l := match l with [] => "]" | y :: l' => "," +:+ print y +:+ tail l' end) r
  | JObj [] => "{}"
  | JObj ((k, x) :: r) =>
      "{" +:+ print_string k +:+ ":" +:+ print x +:+
        (fix tail l := match l with
          | [] => "}"
          | (k', y) :: l' => "," +:+ print_string k' +:+ ":" +:+ print y +:+ tail l'
          end) r
  end.

Definition print_elems : list json → string :=
  fix tail l := match l with [] => "]" | y :: l' => "," +:+ print y +:+ tail l' end.

Definition print_members : list (string * json) → string :=
  fix tail l := match l with
    | [] => "}"
    | (k', y) :: l' => "," +:+ print_string k' +:+ ":" +:+ print y +:+ tail l'
    end.

(** ** Parsing *)

Definition is_ws (c : ascii) : bool :=
  let n := byte_val c in (n =? 32) || (n =? 9) || (n =? 10) || (n =? 13).

Definition skip_ws : string → string := trim_left is_ws.

Definition prepend (p : string) (o : option (string * string)) : option (string * string) :=
  '(t, r) ← o; Some (p +:+ t, r).

Definition hex4 (a b c d : ascii) : option Z :=
  x ← hex_val a; y ← hex_val b; z ← hex_val c; w ← hex_val d;
  Some (x * 4096 + y * 256 + z * 16 + w).

Definition surrogate (n : Z) : bool := (55296 <=? n) && (n <? 57344).

(** [utf16.DecodeRune] of a surrogate pair *)
Definition decode_pair (a b : Z) : option Z :=
  if (55296 <=? a) && (a <? 56320) && (56320 <=? b) && (b <? 57344)
  then Some ((a - 55296) * 1024 + (b - 56320) + 65536) else None.

(** The body of a string literal up to its closing quote. *)
Fixpoint unquote (fuel : nat) (s : string) : option (string * string) :=
  match fuel with
  | O => None
  | S f =>
    match s with
    | EmptyString => None
    | String c r =>
      if Ascii.eqb c dquote then Some ("", r)
      else if Ascii.eqb c "\" then
        match r with
        | String "u" (String a (String b (String d (String e r')))) =>
            n ← hex4 a b d e;
            if surrogate n then
              match r' with
              | String "\" (String "u" (String a' (String b' (String d' (String e' r''))))) =>
                  match hex4 a' b' d' e' ≫= decode_pair n with
                  | Some m => prepend (utf8_encode m) (unquote f r'')
                  | None => prepend replacement (unquote f r')
                  end
              | _ => prepend replacement (unquote f r')
              end
            else prepend (utf8_encode n) (unquote f r')
        | String e r' =>
            if Ascii.eqb e dquote || Ascii.eqb e "\" || Ascii.eqb e "/" then
              prepend (String e "") (unquote f r')
            else if Ascii.eqb e "b" then prepend (of_bytes [8]) (unquote f r')
            else if Ascii.eqb e "f" then prepend (of_bytes [12]) (unquote f r')
            else if Ascii.eqb e "n" then prepend (of_bytes [10]) (unquote f r')
            else if Ascii.eqb e "r" then prepend (of_bytes [13]) (unquote f r')
            else if Ascii.eqb e "t" then prepend (of_bytes [9]) (unquote f r')
            else None
        | EmptyString => None
        end
      else if byte_val c <? 32 then None
      else match rune_len s with
           | O => prepend replacement (unquote f r)
           | n => prepend (take_string n s) (unquote f (drop_string n s))
           end
    end
  end.

Fixpoint span_digits (s : string) : string * string :=
  match s with
  | String c r =>
      if is_digit c then let '(d, r') := span_digits r in (String c d, r') else ("", s)
  | EmptyString => ("", "")
  end.

(** A digit string with a leading zero is not a number. *)
Definition leading_zero (i : string) : bool :=
  match i with
  | String c (String _ _) => Ascii.eqb c "0"
  | _ => false
  end.

(** The fraction of a number, if there is one. *)
Definition scan_fraction (r : string) : option (string * string) :=
  match r with
  | String c r' =>
      if Ascii.eqb c "." then
        let '(d, r'') := span_digits r' in
        if String.eqb d "" then None else Some (String c d, r'')
      else Some ("", r)
  | EmptyString => Some ("", r)
  end.

(** The exponent of a number, if there is one. *)
Definition scan_exponent (r : string) : option (string * string) :=
  match r with
  | String c r' =>
      if Ascii.eqb c "e" || Ascii.eqb c "E" then
        let '(sg, r2) := match r' with
                         | String x t =>
                             if Ascii.eqb x "+" || Ascii.eqb x "-" then (String x "", t) else ("", r')
                         | EmptyString => ("", r')
                         end in
        let '(d, r3) := span_digits r2 in
        if String.eqb d "" then None else Some (String c (sg +:+ d), r3)
      else Some ("", r)
  | EmptyString => Some ("", r)
  end.

(** The unsigned part of a number: integer part, fraction, exponent. *)
Definition scan_unsigned (s : string) : option (string * string) :=
  let '(i, r) := span_digits s in
  if String.eqb i "" || leading_zero i then None
  else
    '(fr, r1) ← scan_fraction r;
    '(ex, r2) ← scan_exponent r1;
    Some (i +:+ fr +:+ ex, r2).

Definition scan_number (s : string) : option (string * string) :=
  match s with
  | String c r =>
      if Ascii.eqb c "-" then '(n, r') ← scan_unsigned r; Some (String c n, r')
      else scan_unsigned s
  | EmptyString => None
  end.

Fixpoint parse_value (fuel : nat) (s : string) : option (json * string) :=
  match fuel with
  | O => None
  | S f =>
    match skip_ws s with
    | EmptyString => None
    | String c r =>
      if Ascii.eqb c "[" then
        match skip_ws r with
        | String "]" r' => Some (JArr [], r')
        | _ => '(l, r') ← parse_elems f r; Some (JArr l, r')
        end
      else if Ascii.eqb c "{" then
        match skip_ws r with
        | String "}" r' => Some (JObj [], r')
        | _ => '(l, r') ← parse_members f r; Some (JObj l, r')
        end
      else if Ascii.eqb c dquote then
        '(t, r') ← unquote (S (String.length r)) r; Some (JStr t, r')
      else if Ascii.eqb c "n" then
        if HasPrefix r "ull" then Some (JNull, drop_string 3 r) else None
      else if Ascii.eqb c "t" then
        if HasPrefix r "rue" then Some (JBool true, drop_string 3 r) else None
      else if Ascii.eqb c "f" then
        if HasPrefix r "alse" then Some (JBool false, drop_string 4 r) else None
      else '(n, r') ← scan_number (String c r); Some (JNum n, r')
    end
  end
with parse_elems (fuel : nat) (s : string) : option (list json * string) :=
  match fuel with
  | O => None
  | S f =>
      '(v, r) ← parse_value f s;
      match skip_ws r with
      | String "," r' => '(vs, r'') ← parse_elems f r'; Some (v :: vs, r'')
      | String "]" r' => Some ([v], r')
      | _ => None
      end
  end
with parse_members (fuel : nat) (s : string) : option (list (string * json) * string) :=
  match fuel with
  | O => None
  | S f =>
    match skip_ws s with
    | String q r =>
      if Ascii.eqb q dquote then
        '(k, r1) ← unquote (S (String.length r)) r;
        match skip_ws r1 with
        | String ":" r2 =>
            '(v, r3) ← parse_value f r2;
            match skip_ws r3 with
            | String "," r4 => '(ms, r5) ← parse_members f r4; Some ((k, v) :: ms, r5)
            | String "}" r4 => Some ([(k, v)], r4)
            | _ => None
            end
        | _ => None
        end
      else None
    | EmptyString => None
    end
  end.

(** The document of a text, which must hold nothing else ([json.Valid]). *)
Definition parse (s : string) : option json :=
  '(v, r) ← parse_value (2 * String.length s + 2) s;
  match skip_ws r with EmptyString => Some v | _ => None end.

(** ** Strings round trip *)

Lemma rune_len_cases s n : rune_len s = S n →
  (n = 0%nat ∧ ∃ c r, s = String c r ∧ byte_val c < 128) ∨
  ((n = 1 ∨ n = 2 ∨ n = 3)%nat ∧ ∃ c r, s = String c r ∧ 128 ≤ byte_val c).
Proof.
  destruct s as [|c r]; cbn [rune_len]; [done|].
  destruct (byte_val c <? 128) eqn:E; bool_prop; [intros [= <-]; eauto 6|].
  intros H. right. split; [|eauto].
  repeat (case_match; try discriminate); injection H as <-; auto.
Qed.

(** The test for a rune reads only the bytes of the rune. *)
Lemma rune_len_local s t n : rune_len s = S n → rune_len (take_string (S n) s +:+ t) = S n.
Proof.
  destruct s as [|c0 r]; cbn [rune_len]; [done|].
  destruct (byte_val c0 <? 128) eqn:E.
  { intros [= <-]. cbn [take_string String.append rune_len]. by rewrite E. }
  destruct (in_range 194 223 c0) eqn:E2.
  { destruct r as [|c1 r]; [done|]. destruct (cont c1) eqn:C1; [|done]. intros [= <-].
    cbn [take_string String.append rune_len]. by rewrite E, E2, C1. }
  destruct (in_range 224 239 c0) eqn:E3.
  { destruct r as [|c1 [|c2 r]]; [done|done|].
    destruct (_ && cont c2) eqn:C; [|done]. intros [= <-].
    cbn [take_string String.append rune_len]. by rewrite E, E2, E3, C. }
  destruct (in_range 240 244 c0) eqn:E4; [|done].
  destruct r as [|c1 [|c2 [|c3 r]]]; [done|done|done|].
  destruct (_ && cont c3) eqn:C; [|done]. intros [= <-].
  cbn [take_string String.append rune_len]. by rewrite E, E2, E3, E4, C.
Qed.

Lemma rune_len_le s : (rune_len s ≤ String.length s)%nat.
Proof.
  destruct s as [|c0 [|c1 [|c2 [|c3 r]]]]; cbn [rune_len String.length];
    repeat case_match; lia.
Qed.

Lemma length_take_string n s : (n ≤ String.length s)%nat → String.length (take_string n s) = n.
Proof. revert s; induction n; intros [|c s]; cbn; intros; auto with lia. Qed.

Lemma length_drop_string n s : String.length (drop_string n s) = (String.length s - n)%nat.
Proof. revert s; induction n; intros [|c s]; cbn; auto with lia. Qed.

Lemma unquote_esc f c t : byte_val c < 128 →
  unquote (S f) (esc_ascii c +:+ t) = prepend (String c "") (unquote f t).
Proof.
  intros Hc. destruct c as [[] [] [] [] [] [] [] []]; try (exfalso; revert Hc; vm_compute; congruence);
    reflexivity.
Qed.

Lemma unquote_rune f s t n : rune_len s = S n → 128 ≤ byte_val (match s with String c _ => c | _ => "000"%char end) →
  unquote (S f) (take_string (S n) s +:+ t) = prepend (take_string (S n) s) (unquote f t).
Proof.
  intros Hr Hc. pose proof (rune_len_local s t n Hr) as Hl.
  pose proof (rune_len_le s) as Hlen. rewrite Hr in Hlen.
  pose proof (length_take_string (S n) s Hlen) as Htl.
  destruct s as [|c r]; [done|]. cbn [take_string] in *. cbn [String.append unquote].
  assert (Ascii.eqb c dquote = false) as ->.
  { apply Ascii.eqb_neq. intros ->. revert Hc. vm_compute. congruence. }
  assert (Ascii.eqb c "\" = false) as ->.
  { apply Ascii.eqb_neq. intros ->. revert Hc. vm_compute. congruence. }
  assert (byte_val c <? 32 = false) as -> by (apply Z.ltb_ge; lia).
  change (String c (take_string n r +:+ t)) with (String c (take_string n r) +:+ t) in *.
  rewrite Hl. replace (S n) with (String.length (String c (take_string n r))) by done.
  by rewrite take_append, drop_append.
Qed.

Lemma unquote_separator (n : Z) hexes f t : n = 8232 ∧ hexes = "2028" ∨ n = 8233 ∧ hexes = "2029" →
  unquote (S f) (String "\" (String "u" hexes) +:+ t) = prepend (utf8_encode n) (unquote f t).
Proof. intros [[-> ->]|[-> ->]]; reflexivity. Qed.

Lemma unquote_escape g f s rest : utf8_runes g s = true → (String.length s < f)%nat →
  unquote f (escape g s +:+ String dquote rest) = Some (s, rest).
Proof.
  revert f s. induction g as [|g IH]; intros f s Hv Hf.
  - destruct s; [|done]. destruct f; [lia|]. done.
  - destruct s as [|c r]; [destruct f; [cbn in Hf; lia|done]|].
    destruct f as [|f]; [lia|].
    cbn [utf8_runes] in Hv. destruct (rune_len (String c r)) as [|n] eqn:Hr; [done|].
    pose proof (rune_len_le (String c r)) as Hle. rewrite Hr in Hle.
    specialize (IH f (drop_string (S n) (String c r)) Hv).
    rewrite length_drop_string in IH. specialize (IH ltac:(lia)).
    pose proof (take_drop_string (S n) (String c r)) as Htd.
    destruct (rune_len_cases _ _ Hr) as [(-> & c' & r' & [= <- <-] & Hc)|(Hn & c' & r' & [= <- <-] & Hc)].
    + cbn [escape]. rewrite Hr. rewrite append_assoc, unquote_esc by done.
      cbn [drop_string] in IH. rewrite IH. done.
    + cbn [escape]. rewrite Hr.
      destruct n as [|n]; [lia|]. rewrite append_assoc.
      destruct (String.eqb _ (utf8_encode 8232)) eqn:E1; bool_prop.
      { rewrite (unquote_separator 8232 "2028") by auto. rewrite IH. cbn [prepend mbind option_bind]. rewrite <-E1. by rewrite Htd. }
      destruct (String.eqb _ (utf8_encode 8233)) eqn:E2; bool_prop.
      { rewrite (unquote_separator 8233 "2029") by auto. rewrite IH. cbn [prepend mbind option_bind]. rewrite <-E2. by rewrite Htd. }
      rewrite unquote_rune by done. rewrite IH. cbn [prepend mbind option_bind]. by rewrite Htd.
Qed.

Lemma escape_length g s : utf8_runes g s = true → (String.length s ≤ String.length (escape g s))%nat.
Proof.
  revert s. induction g as [|g IH]; intros s Hv.
  { by destruct s. }
  destruct s as [|c r]; [done|]. cbn [utf8_runes] in Hv.
  destruct (rune_len (String c r)) as [|n] eqn:Hr; [done|]. specialize (IH _ Hv).
  rewrite length_drop_string in IH. pose proof (rune_len_le (String c r)) as Hle. rewrite Hr in Hle.
  cbn [escape]. rewrite Hr.
  destruct (rune_len_cases _ _ Hr) as [(-> & _)|(Hn & _)].
  - rewrite length_append. cbn [drop_string String.length] in *.
    assert (1 ≤ String.length (esc_ascii c))%nat; [|lia].
    unfold esc_ascii. repeat case_match; cbn; lia.
  - destruct n as [|n]; [lia|]. rewrite length_append.
    assert (S (S n) ≤ String.length (if String.eqb (take_string (S (S n)) (String c r)) (utf8_encode 8232)
      then String "\" "u2028" else if String.eqb (take_string (S (S n)) (String c r)) (utf8_encode 8233)
      then String "\" "u2029" else take_string (S (S n)) (String c r)))%nat; [|lia].
    repeat case_match; cbn [String.length]; try lia. by rewrite length_take_string.
Qed.

Lemma unquote_print s rest : utf8_valid s = true →
  unquote (S (String.length (escape (String.length s) s +:+ String dquote rest)))
    (escape (String.length s) s +:+ String dquote rest) = Some (s, rest).
Proof.
  intros Hv. apply unquote_escape; [done|]. rewrite length_append. cbn [String.length].
  pose proof (escape_length _ _ Hv). lia.
Qed.

(** ** Documents round trip *)

(** The lexeme of an integer. *)
Definition uint_lexeme (l : string) : bool :=
  negb (String.eqb l "") && negb (leading_zero l) && all_bytes is_digit l.

Definition int_lexeme (l : string) : bool :=
  match l with
  | String c r => if Ascii.eqb c "-" then uint_lexeme r else uint_lexeme l
  | EmptyString => false
  end.

(** Documents whose strings are UTF-8 and whose numbers are integers. *)
Fixpoint json_ok (v : json) : bool :=
  match v with
  | JNull | JBool _ => true
  | JNum l => int_lexeme l
  | JStr s => utf8_valid s
  | JArr l => forallb json_ok l
  | JObj l => forallb (λ kv, utf8_valid kv.1 && json_ok kv.2) l
  end.

(** What follows a number in a document. *)
Definition boundary (rest : string) : bool :=
  match rest with
  | EmptyString => true
  | String c _ => negb (is_digit c || Ascii.eqb c "." || Ascii.eqb c "e" || Ascii.eqb c "E")
  end.

Lemma uint_lexeme_dec z : uint_lexeme (dec z) = true.
Proof.
  unfold uint_lexeme. rewrite dec_digits, andb_true_r.
  destruct (dec_head z) as (c & r & -> & Hc & H0). cbn.
  destruct r as [|c' r]; [done|]. destruct (Ascii.eqb_spec c "0") as [E|]; [|done].
  by specialize (H0 E).
Qed.

Lemma int_lexeme_dec z : int_lexeme (dec z) = true.
Proof.
  pose proof (uint_lexeme_dec z) as Hu. unfold int_lexeme.
  destruct (dec_head z) as (c & r & E & Hc & _). rewrite E in *.
  destruct (Ascii.eqb_spec c "-") as [->|]; done.
Qed.

Lemma int_lexeme_FormatInt z : int_lexeme (FormatInt z) = true.
Proof.
  unfold FormatInt. case_if; [|apply int_lexeme_dec]. apply (uint_lexeme_dec (- z)).
Qed.

Lemma span_digits_all d rest : all_bytes is_digit d = true →
  match rest with EmptyString => True | String c _ => is_digit c = false end →
  span_digits (d +:+ rest) = (d, rest).
Proof.
  induction d as [|c d IH]; cbn; intros Hd Hr.
  - destruct rest as [|c r]; [done|]. cbn. by rewrite Hr.
  - bool_prop. rewrite H. rewrite IH by done. done.
Qed.

Lemma scan_unsigned_lexeme l rest : uint_lexeme l = true → boundary rest = true →
  scan_unsigned (l +:+ rest) = Some (l, rest).
Proof.
  intros Hl Hb. unfold uint_lexeme in Hl. bool_prop.
  assert (scan_fraction rest = Some ("", rest) ∧ scan_exponent rest = Some ("", rest)) as [Hf He].
  { destruct rest as [|c t]; [done|]. cbn in Hb.
    apply negb_true_iff, orb_false_iff in Hb as [[[_ E1]%orb_false_iff E2]%orb_false_iff E3].
    cbn. by rewrite E1, E2, E3. }
  unfold scan_unsigned. rewrite span_digits_all; [|done|].
  - rewrite (proj2 (String.eqb_neq l "")) by done. rewrite H1. cbn [orb]. rewrite Hf. cbn [mbind option_bind].
    rewrite He. cbn. by rewrite append_nil_r.
  - destruct rest; [done|]. cbn in Hb. bool_prop. done.
Qed.

Lemma scan_number_lexeme l rest : int_lexeme l = true → boundary rest = true →
  scan_number (l +:+ rest) = Some (l, rest).
Proof.
  intros Hl Hb. destruct l as [|c l]; [done|]. cbn [int_lexeme] in Hl.
  cbn [String.append scan_number]. destruct (Ascii.eqb c "-").
  - by rewrite scan_unsigned_lexeme.
  - by rewrite <-(scan_unsigned_lexeme _ _ Hl Hb).
Qed.

(** The first byte of a printed document, which is not white space. *)
Lemma uint_lexeme_head l : uint_lexeme l = true → ∃ c r, l = String c r ∧ is_digit c = true.
Proof.
  unfold uint_lexeme. destruct l as [|c r]; [done|]. intros H. exists c, r. split; [done|].
  bool_prop. cbn in H0. by bool_prop.
Qed.

Lemma digit_not_special c : is_digit c = true →
  is_ws c = false ∧ Ascii.eqb c "[" = false ∧ Ascii.eqb c "{" = false ∧ Ascii.eqb c dquote = false ∧
  Ascii.eqb c "n" = false ∧ Ascii.eqb c "t" = false ∧ Ascii.eqb c "f" = false ∧ Ascii.eqb c "]" = false.
Proof. destruct c as [[] [] [] [] [] [] [] []]; vm_compute; try done; repeat split. Qed.

Lemma int_lexeme_head l : int_lexeme l = true → ∃ c r, l = String c r ∧
  is_ws c = false ∧ Ascii.eqb c "[" = false ∧ Ascii.eqb c "{" = false ∧ Ascii.eqb c dquote = false ∧
  Ascii.eqb c "n" = false ∧ Ascii.eqb c "t" = false ∧ Ascii.eqb c "f" = false ∧ Ascii.eqb c "]" = false.
Proof.
  intros Hl. destruct l as [|c r]; [done|]. exists c, r. split; [done|].
  cbn [int_lexeme] in Hl.
  destruct (Ascii.eqb c "-") eqn:E; [apply Ascii.eqb_eq in E as ->; repeat split|].
  apply digit_not_special.
  by apply uint_lexeme_head in Hl as (? & ? & [= <- <-] & ?).
Qed.

Lemma print_head v : json_ok v = true → ∃ c r, print v = String c r ∧ is_ws c = false ∧ c ≠ "]"%char.
Proof.
  destruct v as [|[]|l|s|[|x l]|[|[k x] l]]; cbn [json_ok print]; intros H; try (do 2 eexists; split_and!; [reflexivity|reflexivity|discriminate]).
  apply int_lexeme_head in H as (c & r & -> & H). exists c, r. split; [done|].
  destruct_and!. split; [done|]. by apply Ascii.eqb_neq.
Qed.

Lemma skip_ws_id c r : is_ws c = false → skip_ws (String c r) = String c r.
Proof. unfold skip_ws. cbn. by intros ->. Qed.

Lemma print_arr x l : print (JArr (x :: l)) = "[" +:+ print x +:+ print_elems l.
Proof. done. Qed.

Lemma print_obj k x l :
  print (JObj ((k, x) :: l)) = "{" +:+ print_string k +:+ ":" +:+ print x +:+ print_members l.
Proof. done. Qed.

Lemma print_elems_cons y l : print_elems (y :: l) = "," +:+ print y +:+ print_elems l.
Proof. done. Qed.

Lemma print_members_cons k y l :
  print_members ((k, y) :: l) = "," +:+ print_string k +:+ ":" +:+ print y +:+ print_members l.
Proof. done. Qed.

Lemma print_members_app k y l rest :
  print_members ((k, y) :: l) +:+ rest =
    String "," (print_string k +:+ ":" +:+ print y +:+ print_members l +:+ rest).
Proof. by rewrite print_members_cons, !append_assoc. Qed.

Lemma boundary_elems l rest : boundary (print_elems l +:+ rest) = true.
Proof. by destruct l. Qed.

Lemma boundary_members l rest : boundary (print_members l +:+ rest) = true.
Proof. by destruct l as [|[]]. Qed.

Lemma print_string_app s rest :
  print_string s +:+ rest = String dquote (escape (String.length s) s +:+ String dquote rest).
Proof. unfold print_string. cbn [String.append]. by rewrite append_assoc. Qed.

(** One step of the parser on the first byte of an array, object, string or
    member. *)
Lemma parse_value_str n r :
  parse_value (S n) (String dquote r) =
    ('(t, r') ← unquote (S (String.length r)) r; Some (JStr t, r')).
Proof. reflexivity. Qed.

Lemma parse_value_obj n r :
  parse_value (S n) (String "{" (String dquote r)) =
    ('(l, r') ← parse_members n (String dquote r); Some (JObj l, r')).
Proof. reflexivity. Qed.

Lemma parse_value_arr n c r : is_ws c = false → c ≠ "]"%char →
  parse_value (S n) (String "[" (String c r)) =
    ('(l, r') ← parse_elems n (String c r); Some (JArr l, r')).
Proof.
  intros Hw Hc. cbn [parse_value]. rewrite skip_ws_id by done. cbn [Ascii.eqb Bool.eqb].
  rewrite skip_ws_id by done. repeat case_match; done.
Qed.

Lemma parse_elems_S n s :
  parse_elems (S n) s =
    ('(v, r) ← parse_value n s;
     match skip_ws r with
     | String "," r' => '(vs, r'') ← parse_elems n r'; Some (v :: vs, r'')
     | String "]" r' => Some ([v], r')
     | _ => None
     end).
Proof. reflexivity. Qed.

Lemma parse_members_str n r :
  parse_members (S n) (String dquote r) =
    ('(k, r1) ← unquote (S (String.length r)) r;
     match skip_ws r1 with
     | String ":" r2 =>
         '(v, r3) ← parse_value n r2;
         match skip_ws r3 with
         | String "," r4 => '(ms, r5) ← parse_members n r4; Some ((k, v) :: ms, r5)
         | String "}" r4 => Some ([(k, v)], r4)
         | _ => None
         end
     | _ => None
     end).
Proof. reflexivity. Qed.

Section parse_print.
Variable n : nat.
Hypothesis IHv : ∀ v rest, json_ok v = true → boundary rest = true →
  (2 * String.length (print v) ≤ n)%nat → parse_value n (print v +:+ rest) = Some (v, rest).
Hypothesis IHe : ∀ x l rest, json_ok x = true → forallb json_ok l = true →
  (2 * String.length (print x +:+ print_elems l) ≤ n)%nat →
  parse_elems n (print x +:+ print_elems l +:+ rest) = Some (x :: l, rest).
Hypothesis IHm : ∀ k x l rest, utf8_valid k = true → json_ok x = true →
  forallb (λ kv, utf8_valid kv.1 && json_ok kv.2) l = true →
  (2 * String.length (print_string k +:+ ":" +:+ print x +:+ print_members l) ≤ n)%nat →
  parse_members n (print_string k +:+ ":" +:+ print x +:+ print_members l +:+ rest)
    = Some ((k, x) :: l, rest).

Lemma parse_value_step v rest : json_ok v = true → boundary rest = true →
  (2 * String.length (print v) ≤ S n)%nat → parse_value (S n) (print v +:+ rest) = Some (v, rest).
Proof using IHe IHm.
  intros Hok Hb Hn. destruct v as [|b|l|s|[|x l]|[|[k x] l]].
  - done.
  - by destruct b.
  - cbn [json_ok print] in *.
    destruct (int_lexeme_head _ Hok) as (c & r & E & Hws & H1 & H2 & H3 & H4 & H5 & H6 & _).
    pose proof (scan_number_lexeme l rest Hok Hb) as Hs. rewrite E in *.
    cbn [String.append parse_value] in *. rewrite skip_ws_id by done.
    rewrite H1, H2, H3, H4, H5, H6, Hs. done.
  - cbn [json_ok print] in *. by rewrite print_string_app, parse_value_str, unquote_print.
  - done.
  - rewrite print_arr in *. cbn [json_ok forallb] in Hok. apply andb_true_iff in Hok as [Hx Hl].
    destruct (print_head x Hx) as (c & r & E & Hws & Hc).
    specialize (IHe x l rest Hx Hl). rewrite length_append in Hn. cbn [String.length] in Hn.
    specialize (IHe ltac:(lia)). rewrite !append_assoc. rewrite E in *.
    cbn [String.append] in *. by rewrite parse_value_arr, IHe.
  - done.
  - rewrite print_obj in *. cbn [json_ok forallb] in Hok. apply andb_true_iff in Hok as [[Hk Hx]%andb_true_iff Hl].
    specialize (IHm k x l rest Hk Hx Hl). rewrite length_append in Hn. cbn [String.length] in Hn.
    specialize (IHm ltac:(lia)). rewrite !append_assoc.
    rewrite print_string_app in *. cbn [String.append] in *. by rewrite parse_value_obj, IHm.
Qed.

Lemma parse_elems_step x l rest : json_ok x = true → forallb json_ok l = true →
  (2 * String.length (print x +:+ print_elems l) ≤ S n)%nat →
  parse_elems (S n) (print x +:+ print_elems l +:+ rest) = Some (x :: l, rest).
Proof using IHv IHe.
  intros Hx Hl Hn. rewrite length_append in Hn. rewrite parse_elems_S.
  destruct l as [|y l].
  - cbn in Hn. rewrite IHv by (done || lia). done.
  - rewrite print_elems_cons in *. rewrite IHv; [|done|done|cbn in Hn; lia].
    cbn [forallb] in Hl. apply andb_true_iff in Hl as [Hy Hl].
    cbn [mbind option_bind String.append]. rewrite skip_ws_id by done. cbn.
    rewrite append_assoc. rewrite IHe; [done|done|done|].
    rewrite !length_append in *. cbn [String.length] in Hn. lia.
Qed.

Lemma parse_members_step k x l rest : utf8_valid k = true → json_ok x = true →
  forallb (λ kv, utf8_valid kv.1 && json_ok kv.2) l = true →
  (2 * String.length (print_string k +:+ ":" +:+ print x +:+ print_members l) ≤ S n)%nat →
  parse_members (S n) (print_string k +:+ ":" +:+ print x +:+ print_members l +:+ rest)
    = Some ((k, x) :: l, rest).
Proof using IHv IHm.
  intros Hk Hx Hl Hn. rewrite print_string_app, parse_members_str, unquote_print by done.
  cbn [mbind option_bind String.append]. rewrite skip_ws_id by done.
  rewrite !length_append in Hn. cbn [String.length] in Hn.
  destruct l as [|[k' y] l].
  - rewrite IHv; [done|done|done|lia].
  - rewrite IHv; [|done|done|lia].
    cbn [forallb] in Hl. apply andb_true_iff in Hl as [[Hk' Hy]%andb_true_iff Hl].
    cbn [mbind option_bind]. rewrite print_members_app, skip_ws_id by done.
    rewrite IHm; [done|done|done|done|].
    rewrite print_members_cons in Hn. rewrite !length_append in *. cbn [String.length] in *. lia.
Qed.
End parse_print.

Lemma parse_print_fuel n :
  (∀ v rest, json_ok v = true → boundary rest = true →
    (2 * String.length (print v) ≤ n)%nat → parse_value n (print v +:+ rest) = Some (v, rest)) ∧
  (∀ x l rest, json_ok x = true → forallb json_ok l = true →
    (2 * String.length (print x +:+ print_elems l) ≤ n)%nat →
    parse_elems n (print x +:+ print_elems l +:+ rest) = Some (x :: l, rest)) ∧
  (∀ k x l rest, utf8_valid k = true → json_ok x = true →
    forallb (λ kv, utf8_valid kv.1 && json_ok kv.2) l = true →
    (2 * String.length (print_string k +:+ ":" +:+ print x +:+ print_members l) ≤ n)%nat →
    parse_members n (print_string k +:+ ":" +:+ print x +:+ print_members l +:+ rest)
      = Some ((k, x) :: l, rest)).
Proof.
  induction n as [|n (IHv & IHe & IHm)].
  - split_and!; intros; exfalso.
    + destruct (print_head v) as (c & r & E & _); [done|]. rewrite E in *. cbn in *. lia.
    + rewrite length_append in *. destruct (print_head x) as (c & r & E & _); [done|].
      rewrite E in *. cbn in *. lia.
    + cbn in *. lia.
  - split_and!; intros; [by apply parse_value_step|by apply parse_elems_step|by apply parse_members_step].
Qed.

(** A printed document parses back to itself. *)
Lemma parse_print v : json_ok v = true → parse (print v) = Some v.
Proof.
  intros Hok. unfold parse.
  destruct (parse_print_fuel (2 * String.length (print v) + 2)) as (H & _ & _).
  specialize (H v "" Hok eq_refl ltac:(lia)). rewrite append_nil_r in H. by rewrite H.
Qed.

(** ** Validity of joined texts *)

Lemma rune_len_append a b n : rune_len a = S n →
  rune_len (a +:+ b) = S n ∧ drop_string (S n) (a +:+ b) = drop_string (S n) a +:+ b ∧
  (String.length (drop_string (S n) a) + S n = String.length a)%nat.
Proof.
  destruct a as [|c0 r]; cbn [rune_len String.append]; [done|].
  destruct (byte_val c0 <? 128); [intros [= <-]; cbn; split_and!; done || lia|].
  destruct (in_range 194 223 c0).
  { destruct r as [|c1 r]; cbn; [done|]. destruct (cont c1); [|done].
    intros [= <-]. cbn. split_and!; done || lia. }
  destruct (in_range 224 239 c0).
  { destruct r as [|c1 [|c2 r]]; cbn; [done..|]. destruct (_ && cont c2); [|done].
    intros [= <-]. cbn. split_and!; done || lia. }
  destruct (in_range 240 244 c0); [|done].
  destruct r as [|c1 [|c2 [|c3 r]]]; cbn; [done..|]. destruct (_ && cont c3); [|done].
  intros [= <-]. cbn. split_and!; done || lia.
Qed.

Lemma utf8_runes_mono f g s : (f ≤ g)%nat → utf8_runes f s = true → utf8_runes g s = true.
Proof.
  revert g s. induction f as [|f IH]; intros g s Hg H.
  - destruct s; [by destruct g|done].
  - destruct s as [|c r]; [by destruct g|]. destruct g as [|g]; [lia|]. cbn [utf8_runes] in *.
    destruct (rune_len (String c r)) as [|n]; [done|]. apply (IH g); [lia|done].
Qed.

Lemma utf8_runes_append g f a b : utf8_runes g a = true → utf8_valid b = true →
  (String.length a + String.length b ≤ f)%nat → utf8_runes f (a +:+ b) = true.
Proof.
  revert f a. induction g as [|g IH]; intros f a Ha Hb Hf.
  - destruct a; [|done]. cbn. eapply utf8_runes_mono; [|done]. cbn in Hf. lia.
  - destruct (decide (a = "")) as [->|Hne].
    { cbn. eapply utf8_runes_mono; [|done]. cbn in Hf. lia. }
    assert (∃ n, rune_len a = S n ∧ utf8_runes g (drop_string (S n) a) = true) as (n & Hn & Hg).
    { destruct a as [|c r]; [done|]. cbn [utf8_runes] in Ha.
      destruct (rune_len (String c r)) as [|n]; [done|]. eauto. }
    destruct (rune_len_append a b n Hn) as (Hn' & Hd & Hl).
    destruct f as [|f]; [destruct a; cbn in *; [done|lia]|].
    destruct (a +:+ b) as [|c r] eqn:E; [done|]. cbn [utf8_runes]. rewrite Hn'. rewrite Hd.
    apply IH; [done|done|]. lia.
Qed.

Lemma utf8_valid_append a b : utf8_valid a = true → utf8_valid b = true → utf8_valid (a +:+ b) = true.
Proof.
  intros Ha Hb. unfold utf8_valid at 1. eapply utf8_runes_append; [exact Ha|done|].
  rewrite length_append. lia.
Qed.

Lemma utf8_valid_ascii s : all_bytes (λ c, byte_val c <? 128) s = true → utf8_valid s = true.
Proof.
  unfold utf8_valid. induction s as [|c s IH]; [done|]. cbn [all_bytes]. intros [Hc Hs]%andb_true_iff.
  cbn [String.length utf8_runes]. cbn [rune_len]. rewrite Hc. by apply IH.
Qed.
