(* ===== verification/JsonTerm.v ===== *)
(** * Reading JSON consumes its input

    Every value the parser reads takes at least one byte, so a loop that reads
    values until the end of its input, as the decoders of streams do, ends. *)

From S2P Require Import Prelude Bytes Encoding Json.

Lemma prepend_Some p o t r : prepend p o = Some (t, r) → ∃ t', o = Some (t', r).
Proof. unfold prepend. destruct o as [[t' r']|]; [|done]. intros [= _ <-]. by exists t'. Qed.

Lemma skip_ws_le s : (String.length (skip_ws s) ≤ String.length s)%nat.
Proof. unfold skip_ws. induction s as [|c s IH]; cbn; [done|]. destruct (is_ws c); cbn; lia. Qed.

Section unquote.
Variable f : nat.
Hypothesis IH : ∀ s t r, unquote f s = Some (t, r) → (String.length r < String.length s)%nat.

Lemma prepend_shorter p s t r : prepend p (unquote f s) = Some (t, r) → (String.length r < String.length s)%nat.
Proof using IH. intros [t' H]%prepend_Some. by eapply IH. Qed.

Ltac next H := apply prepend_shorter in H; cbn [String.length] in *; lia.

(** An escape of a code point, perhaps the first of a pair. *)
Lemma unquote_pair n r' t r :
  match r' with
  | String "\" (String "u" (String a' (String b' (String d' (String e' r''))))) =>
      match hex4 a' b' d' e' ≫= decode_pair n with
      | Some m => prepend (utf8_encode m) (unquote f r'')
      | None => prepend replacement (unquote f r')
      end
  | _ => prepend replacement (unquote f r')
  end = Some (t, r) → (String.length r < String.length r')%nat.
Proof using IH.
  intros H. destruct r' as [|x r1]; [next H|].
  destruct x as [[][][][][][][][]]; try (next H).
  destruct r1 as [|y r2]; [next H|].
  destruct y as [[][][][][][][][]]; try (next H).
  destruct r2 as [|a [|b [|d [|e r3]]]]; try (next H).
  destruct (hex4 a b d e ≫= decode_pair n); next H.
Qed.

Lemma unquote_escape_shorter r0 t r :
  match r0 with
  | String "u" (String a (String b (String d (String e r')))) =>
      n ← hex4 a b d e;
      if surrogate n then
        match r' with
        | String "\" (String "u" (String a' (String b' (String d' (String e' r''))))) =>
            match hex4 a' b' d' e' ≫= decode_pair n with
            | Some m => prepend (utf8_encode m) (unquote f r'')
            | None => prepend replacement (unquote f r')
            end
        | _ => prepend replacement (unquote f r')
        end
      else prepend (utf8_encode n) (unquote f r')
  | String e r' =>
      if Ascii.eqb e dquote || Ascii.eqb e "\" || Ascii.eqb e "/" then prepend (String e "") (unquote f r')
      else if Ascii.eqb e "b" then prepend (of_bytes [8]) (unquote f r')
      else if Ascii.eqb e "f" then prepend (of_bytes [12]) (unquote f r')
      else if Ascii.eqb e "n" then prepend (of_bytes [10]) (unquote f r')
      else if Ascii.eqb e "r" then prepend (of_bytes [13]) (unquote f r')
      else if Ascii.eqb e "t" then prepend (of_bytes [9]) (unquote f r')
      else None
  | EmptyString => None
  end = Some (t, r) → (String.length r < String.length r0)%nat.
Proof using IH.
  intros H. destruct r0 as [|e r1]; [done|].
  destruct e as [[][][][][][][][]]; cbn [Ascii.eqb Bool.eqb andb orb dquote] in H; try discriminate; try (next H).
  destruct r1 as [|a [|b [|d [|e r2]]]]; try discriminate; try (next H).
  destruct (hex4 a b d e) as [n|]; [|discriminate]. cbn [mbind option_bind] in H.
  destruct (surrogate n); [|next H]. apply unquote_pair in H. cbn [String.length]. lia.
Qed.
End unquote.

Lemma unquote_shorter f s t r : unquote f s = Some (t, r) → (String.length r < String.length s)%nat.
Proof.
  revert s t r. induction f as [|f IH]; intros s t r H; cbn [unquote] in H; [discriminate|].
  destruct s as [|c s]; [discriminate|]. destruct (Ascii.eqb c dquote).
  { injection H as _ <-. cbn. lia. }
  destruct (Ascii.eqb c "\").
  { apply unquote_escape_shorter in H; [|exact IH]. cbn. lia. }
  destruct (byte_val c <? 32); [discriminate|]. destruct (rune_len (String c s)) as [|n].
  - apply (prepend_shorter f IH) in H. cbn. lia.
  - apply (prepend_shorter f IH) in H. rewrite length_drop_string in H. cbn in *. lia.
Qed.

Lemma span_digits_length s d r : span_digits s = (d, r) → String.length s = (String.length d + String.length r)%nat.
Proof.
  revert d r. induction s as [|c s IH]; intros d r; cbn [span_digits]; [by intros [= <- <-]|].
  destruct (is_digit c); [|by intros [= <- <-]]. destruct (span_digits s) as [d' r'] eqn:E.
  intros [= <- <-]. cbn. by rewrite (IH d' r').
Qed.

Lemma scan_fraction_le s t r : scan_fraction s = Some (t, r) → (String.length r ≤ String.length s)%nat.
Proof.
  unfold scan_fraction. destruct s as [|c s]; [by intros [= _ <-]|]. destruct (Ascii.eqb c "."); [|by intros [= _ <-]].
  destruct (span_digits s) as [d r'] eqn:E. apply span_digits_length in E.
  destruct (String.eqb d ""); [done|]. intros [= _ <-]. cbn. lia.
Qed.

Lemma scan_exponent_le s t r : scan_exponent s = Some (t, r) → (String.length r ≤ String.length s)%nat.
Proof.
  unfold scan_exponent. destruct s as [|c s]; [by intros [= _ <-]|]. destruct (_ || _); [|by intros [= _ <-]].
  destruct (match s with String x t => _ | EmptyString => _ end) as [sg r2] eqn:E2.
  assert (String.length r2 ≤ String.length s)%nat as H2.
  { destruct s as [|x s']; [by injection E2 as _ <-|]. destruct (_ || _); injection E2 as _ <-; cbn; lia. }
  destruct (span_digits r2) as [d r3] eqn:E3. apply span_digits_length in E3.
  destruct (String.eqb d ""); [done|]. intros [= _ <-]. cbn. lia.
Qed.

Lemma scan_unsigned_shorter s t r : scan_unsigned s = Some (t, r) → (String.length r < String.length s)%nat.
Proof.
  unfold scan_unsigned. destruct (span_digits s) as [i r0] eqn:E. apply span_digits_length in E.
  destruct (String.eqb_spec i "") as [|Hi]; [done|]. destruct (leading_zero i); [done|]. cbn [orb].
  destruct (scan_fraction r0) as [[fr r1]|] eqn:E1; [|done]. apply scan_fraction_le in E1. cbn.
  destruct (scan_exponent r1) as [[ex r2]|] eqn:E2; [|done]. apply scan_exponent_le in E2. cbn.
  intros [= _ <-]. destruct i; [done|]. cbn in E. lia.
Qed.

Lemma scan_number_shorter s t r : scan_number s = Some (t, r) → (String.length r < String.length s)%nat.
Proof.
  unfold scan_number. destruct s as [|c s]; [done|]. destruct (Ascii.eqb c "-"); [|apply scan_unsigned_shorter].
  destruct (scan_unsigned s) as [[n r']|] eqn:E; [|done]. apply scan_unsigned_shorter in E. intros [= _ <-]. cbn. lia.
Qed.

(** The first byte after white space, and what it leaves. *)
Lemma skip_ws_cons s c r : skip_ws s = String c r → (String.length r < String.length s)%nat.
Proof. intros E. pose proof (skip_ws_le s) as H. rewrite E in H. cbn in H. lia. Qed.

(** Case analysis on the next byte. *)
Lemma case_close_bracket {A} (x : string) (f : string → A) (g y : A) :
  match x with String "]" r => f r | _ => g end = y → (∃ r, x = String "]" r ∧ f r = y) ∨ g = y.
Proof. destruct x as [|c r]; [by right|]. destruct c as [[][][][][][][][]]; (by right) || (left; by exists r). Qed.

Lemma case_close_brace {A} (x : string) (f : string → A) (g y : A) :
  match x with String "}" r => f r | _ => g end = y → (∃ r, x = String "}" r ∧ f r = y) ∨ g = y.
Proof. destruct x as [|c r]; [by right|]. destruct c as [[][][][][][][][]]; (by right) || (left; by exists r). Qed.

Lemma case_colon {A} (x : string) (f : string → option A) y :
  match x with String ":" r => f r | _ => None end = Some y → ∃ r, x = String ":" r ∧ f r = Some y.
Proof. destruct x as [|c r]; [done|]. destruct c as [[][][][][][][][]]; try done. by exists r. Qed.

Lemma case_elem {A} (x : string) (f g : string → option A) y :
  match x with String "," r => f r | String "]" r => g r | _ => None end = Some y →
  ∃ c r, x = String c r ∧ (f r = Some y ∨ g r = Some y).
Proof. destruct x as [|c r]; [done|]. intros H. exists c, r. split; [done|]. destruct c as [[][][][][][][][]]; auto; done. Qed.

Lemma case_member {A} (x : string) (f g : string → option A) y :
  match x with String "," r => f r | String "}" r => g r | _ => None end = Some y →
  ∃ c r, x = String c r ∧ (f r = Some y ∨ g r = Some y).
Proof. destruct x as [|c r]; [done|]. intros H. exists c, r. split; [done|]. destruct c as [[][][][][][][][]]; auto; done. Qed.

Lemma drop_string_le n s : (String.length (drop_string n s) ≤ String.length s)%nat.
Proof. rewrite length_drop_string. lia. Qed.

(** A result of an optional computation. *)
Ltac some_inv H x r E :=
  match type of H with (?o ≫= _) = Some _ => destruct o as [[x r]|] eqn:E; [cbn [mbind option_bind] in H|done] end.

Section parse.
Variable n : nat.
Hypothesis IHv : ∀ s v r, parse_value n s = Some (v, r) → (String.length r < String.length s)%nat.
Hypothesis IHe : ∀ s l r, parse_elems n s = Some (l, r) → (String.length r < String.length s)%nat.
Hypothesis IHm : ∀ s l r, parse_members n s = Some (l, r) → (String.length r < String.length s)%nat.

Lemma parse_value_shorter_step s v r : parse_value (S n) s = Some (v, r) → (String.length r < String.length s)%nat.
Proof using IHe IHm.
  cbn [parse_value]. destruct (skip_ws s) as [|c s1] eqn:Es; [done|]. apply skip_ws_cons in Es.
  destruct (Ascii.eqb c "[").
  { intros [(r1 & E & [= _ <-])|H]%case_close_bracket; [apply skip_ws_cons in E; lia|].
    some_inv H l r1 E. injection H as _ <-. apply IHe in E. lia. }
  destruct (Ascii.eqb c "{").
  { intros [(r1 & E & [= _ <-])|H]%case_close_brace; [apply skip_ws_cons in E; lia|].
    some_inv H l r1 E. injection H as _ <-. apply IHm in E. lia. }
  destruct (Ascii.eqb c dquote).
  { intros H. some_inv H t r1 E. injection H as _ <-. apply unquote_shorter in E. lia. }
  assert (∀ (b : bool) k (x : json), (if b then Some (x, drop_string k s1) else None) = Some (v, r) →
    (String.length r < String.length s)%nat) as Hword.
  { intros [] k x H; [|done]. assert (drop_string k s1 = r) as <- by congruence. pose proof (drop_string_le k s1). lia. }
  do 3 (destruct (Ascii.eqb c _); [apply Hword|]).
  intros H. some_inv H t r1 E. injection H as _ <-. apply scan_number_shorter in E. cbn in E. lia.
Qed.

Lemma parse_elems_shorter_step s l r : parse_elems (S n) s = Some (l, r) → (String.length r < String.length s)%nat.
Proof using IHv IHe.
  cbn [parse_elems]. intros H. some_inv H v r1 E. apply IHv in E.
  apply case_elem in H as (c & r2 & E2 & [H|[= _ <-]]); apply skip_ws_cons in E2; [|lia].
  some_inv H vs r3 E3. injection H as _ <-. apply IHe in E3. lia.
Qed.

Lemma parse_members_shorter_step s l r : parse_members (S n) s = Some (l, r) → (String.length r < String.length s)%nat.
Proof using IHv IHm.
  cbn [parse_members]. destruct (skip_ws s) as [|q s1] eqn:Es; [done|]. apply skip_ws_cons in Es.
  destruct (Ascii.eqb q dquote); [|done]. intros H. some_inv H k r1 E. apply unquote_shorter in E.
  apply case_colon in H as (r2 & E2 & H). apply skip_ws_cons in E2. some_inv H v r3 E3. apply IHv in E3.
  apply case_member in H as (c & r4 & E4 & [H|[= _ <-]]); apply skip_ws_cons in E4; [|lia].
  some_inv H ms r5 E5. injection H as _ <-. apply IHm in E5. lia.
Qed.
End parse.

Lemma parse_shorter n :
  (∀ s v r, parse_value n s = Some (v, r) → (String.length r < String.length s)%nat) ∧
  (∀ s l r, parse_elems n s = Some (l, r) → (String.length r < String.length s)%nat) ∧
  (∀ s l r, parse_members n s = Some (l, r) → (String.length r < String.length s)%nat).
Proof.
  induction n as [|n (IHv & IHe & IHm)]; [by split_and!|].
  split_and!; [by apply parse_value_shorter_step|by apply parse_elems_shorter_step|by apply parse_members_shorter_step].
Qed.
