(* ===== verification/JsonStruct.v ===== *)
(** * Go structs as JSON objects

    How [encoding/json] maps a struct with field tags to an object and back:
    [omitempty] fields are left out, decoding looks members up by their
    case-folded name, [null] leaves a scalar field alone and clears a pointer or
    a slice, an unknown member is skipped, and a member of the wrong type makes
    the whole decoding fail.  The components define their structs with these
    combinators; the lemmas give the struct round trips without a case analysis
    over the omitted fields. *)

From S2P Require Import Prelude Bytes Encoding Json.

(** ** Encoding *)

(** A field by its tag; [None] for a field [omitempty] leaves out. *)
Definition fields := list (string * option json).

Definition present (fs : fields) : list (string * json) :=
  omap (λ f, (f.1,.) <$> f.2) fs.

Definition struct_json (fs : fields) : json := JObj (present fs).

Definition str (s : string) : option json := Some (JStr s).
Definition num (z : Z) : option json := Some (JNum (FormatInt z)).
Definition omit_str (s : string) : option json := if String.eqb s "" then None else str s.
Definition omit_num (z : Z) : option json := if z =? 0 then None else num z.
Definition omit_list {A} (f : A → json) (l : list A) : option json :=
  match l with [] => None | _ => Some (JArr (f <$> l)) end.
Definition null_str (o : option string) : option json :=
  Some (match o with None => JNull | Some s => JStr s end).
Definition omit_strptr (o : option string) : option json := JStr <$> o.
(** A nil slice without [omitempty] is written [null]. *)
Definition null_list {A} (f : A → json) (l : list A) : option json :=
  Some (match l with [] => JNull | _ => JArr (f <$> l) end).

(** ** Decoding *)

(** Decode every member called [name] in order, starting from the field's
    present value. *)
Fixpoint obj_fold {A} (name : string) (d : A → json → option A) (a : A)
    (ms : list (string * json)) : option A :=
  match ms with
  | [] => Some a
  | (k, v) :: ms' =>
      if String.eqb (ToLower k) name then a' ← d a v; obj_fold name d a' ms'
      else obj_fold name d a ms'
  end.

Definition dec_str (old : string) (v : json) : option string :=
  match v with JNull => Some old | JStr s => Some s | _ => None end.

Definition dec_bool (old : bool) (v : json) : option bool :=
  match v with JNull => Some old | JBool b => Some b | _ => None end.

Definition dec_uint (bits : Z) (old : Z) (v : json) : option Z :=
  match v with JNull => Some old | JNum l => ParseUint l bits | _ => None end.

Definition dec_int (bits : Z) (old : Z) (v : json) : option Z :=
  match v with JNull => Some old | JNum l => ParseInt l bits | _ => None end.

Definition dec_strptr (old : option string) (v : json) : option (option string) :=
  match v with JNull => Some None | JStr s => Some (Some s) | _ => None end.

Definition dec_list {A} (f : json → option A) (old : list A) (v : json) : option (list A) :=
  match v with JNull => Some [] | JArr l => mapM f l | _ => None end.

Definition dec_ptr {A} (f : json → option A) (old : option A) (v : json) : option (option A) :=
  match v with JNull => Some None | _ => Some <$> f v end.

(** [json.RawMessage] keeps the document it is given. *)
Definition dec_raw (old : option json) (v : json) : option (option json) := Some (Some v).

Definition dec_struct {A} (zero : A) (f : list (string * json) → option A) (v : json) : option A :=
  match v with JNull => Some zero | JObj ms => f ms | _ => None end.

(** ** Round trips *)

Fixpoint field (name : string) (fs : fields) : option json :=
  match fs with
  | [] => None
  | (k, v) :: fs' => if String.eqb k name then v else field name fs'
  end.

(** Field names are lower case and distinct. *)
Fixpoint names_ok (names : list string) : bool :=
  match names with
  | [] => true
  | k :: names' =>
      String.eqb (ToLower k) k && forallb (λ k', negb (String.eqb k' k)) names' && names_ok names'
  end.

Lemma obj_fold_absent {A} name (d : A → json → option A) a fs :
  names_ok fs.*1 = true → forallb (λ k', negb (String.eqb k' name)) fs.*1 = true →
  obj_fold name d a (present fs) = Some a.
Proof.
  unfold present. revert a. induction fs as [|[k [v|]] fs IH]; intros a; cbn; [done|..];
    intros [[Hl ?]%andb_true_iff Hn]%andb_true_iff [Hk Hr]%andb_true_iff; [|by apply IH].
  apply String.eqb_eq in Hl. rewrite Hl. apply negb_true_iff in Hk. rewrite Hk. by apply IH.
Qed.

Lemma obj_fold_present {A} name (d : A → json → option A) a fs :
  names_ok fs.*1 = true →
  obj_fold name d a (present fs) =
    match field name fs with Some v => d a v | None => Some a end.
Proof.
  revert a. induction fs as [|[k v] fs IH]; intros a; [done|].
  cbn [fmap list_fmap fst names_ok field]. intros Hall.
  apply andb_true_iff in Hall as [[Hl Hd]%andb_true_iff Hn].
  apply String.eqb_eq in Hl. destruct v as [v|].
  - change (present ((k, Some v) :: fs)) with ((k, v) :: present fs).
    cbn [obj_fold]. rewrite Hl. destruct (String.eqb_spec k name) as [->|]; [|by apply IH].
    destruct (d a v); [|done]. cbn. by apply obj_fold_absent.
  - change (present ((k, None) :: fs)) with (present fs).
    destruct (String.eqb_spec k name) as [->|]; [|by apply IH]. by apply obj_fold_absent.
Qed.

Lemma json_ok_struct fs :
  json_ok (struct_json fs) =
    forallb (λ f, match f.2 with Some v => utf8_valid f.1 && json_ok v | None => true end) fs.
Proof.
  unfold struct_json, present. cbn [json_ok].
  induction fs as [|[k [v|]] fs IH]; cbn; [done|by rewrite IH|done].
Qed.

Lemma forallb_true {A} (l : list A) : forallb (λ _, true) l = true.
Proof. by induction l. Qed.

(** The scalar fields read back what was written. *)
Section scalars.
Implicit Types (s : string) (z : Z).

Lemma dec_omit_str s : (match omit_str s with Some v => dec_str "" v | None => Some "" end) = Some s.
Proof. unfold omit_str. by destruct (String.eqb_spec s "") as [->|]. Qed.

Lemma dec_num bits old z : 0 ≤ z < 2 ^ bits → dec_uint bits old (JNum (FormatInt z)) = Some z.
Proof.
  intros Hz. unfold dec_uint, FormatInt. rewrite (proj2 (Z.ltb_ge z 0)) by lia.
  by apply ParseUint_dec.
Qed.

Lemma dec_omit_num bits z : 0 ≤ z < 2 ^ bits →
  (match omit_num z with Some v => dec_uint bits 0 v | None => Some 0 end) = Some z.
Proof.
  intros. unfold omit_num, num. destruct (Z.eqb_spec z 0) as [->|]; [done|]. by apply dec_num.
Qed.

Lemma dec_omit_strptr o :
  (match omit_strptr o with Some v => dec_strptr None v | None => Some None end) = Some o.
Proof. by destruct o. Qed.

Lemma dec_null_str o :
  (match null_str o with Some v => dec_strptr None v | None => Some None end) = Some o.
Proof. by destruct o. Qed.

Lemma dec_int_num bits old z : - 2 ^ (bits - 1) ≤ z < 2 ^ (bits - 1) →
  dec_int bits old (JNum (FormatInt z)) = Some z.
Proof. apply ParseInt_FormatInt. Qed.

Lemma dec_omit_int bits z : - 2 ^ (bits - 1) ≤ z < 2 ^ (bits - 1) →
  (match omit_num z with Some v => dec_int bits 0 v | None => Some 0 end) = Some z.
Proof.
  intros. unfold omit_num, num. destruct (Z.eqb_spec z 0) as [->|]; [done|]. by apply dec_int_num.
Qed.
End scalars.

Lemma mapM_fmap {A} (f : A → json) (g : json → option A) (P : A → bool) l :
  (∀ x, P x = true → g (f x) = Some x) → forallb P l = true → mapM g (f <$> l) = Some l.
Proof.
  intros H. induction l as [|x l IH]; cbn; [done|].
  intros [Hx Hl]%andb_true_iff. rewrite (H _ Hx). cbn. by rewrite (IH Hl).
Qed.

Lemma dec_omit_list {A} (f : A → json) g (P : A → bool) l :
  (∀ x, P x = true → g (f x) = Some x) → forallb P l = true →
  (match omit_list f l with Some v => dec_list g [] v | None => Some [] end) = Some l.
Proof.
  intros. destruct l as [|x l]; [done|]. unfold omit_list, dec_list. by apply (mapM_fmap f g P).
Qed.

Lemma dec_null_list {A} (f : A → json) g (P : A → bool) l :
  (∀ x, P x = true → g (f x) = Some x) → forallb P l = true →
  (match null_list f l with Some v => dec_list g [] v | None => Some [] end) = Some l.
Proof.
  intros. destruct l as [|x l]; [done|]. unfold null_list, dec_list. by apply (mapM_fmap f g P).
Qed.

Lemma json_ok_list {A} (f : A → json) (P : A → bool) l :
  (∀ x, P x = true → json_ok (f x) = true) → forallb P l = true →
  json_ok (JArr (f <$> l)) = true.
Proof.
  intros H. cbn. induction l as [|x l IH]; cbn; [done|].
  intros [Hx Hl]%andb_true_iff. by rewrite (H _ Hx), (IH Hl).
Qed.
