(* ===== verification/GoTime.v ===== *)
(** * Time stamps of the standard library

    [time.Time] in UTC as the nanoseconds since the Unix epoch, with the
    [time.RFC3339Nano] format and parser the queue writes and reads
    ([time.Now().UTC().Format], [time.Parse]) and [time.Since].  The parser is
    the strict RFC 3339 grammar; the spellings only the general layout parser
    accepts (a one-digit hour, a decimal comma) are refused.  A formatted time
    parses back to itself. *)

From S2P Require Import Prelude Bytes Encoding Json.

(** ** The proleptic Gregorian calendar *)

Definition is_leap (y : Z) : bool :=
  (y mod 4 =? 0) && (negb (y mod 100 =? 0) || (y mod 400 =? 0)).

Definition days_in (m y : Z) : Z :=
  if m =? 2 then (if is_leap y then 29 else 28)
  else if (m =? 4) || (m =? 6) || (m =? 9) || (m =? 11) then 30 else 31.

(** Days since 1970-01-01 of a date, counting years from March. *)
Definition days_of_civil (y m d : Z) : Z :=
  let y' := if m <=? 2 then y - 1 else y in
  let yoe := y' mod 400 in
  let doy := (153 * ((m + 9) mod 12) + 2) / 5 + d - 1 in
  y' / 400 * 146097 + (yoe * 365 + yoe / 4 - yoe / 100 + doy) - 719468.

(** The year of a 400-year era and the day of that year, cutting off centuries,
    four-year cycles and years. *)
Definition year_of_era (doe : Z) : Z * Z :=
  let c := Z.min 3 (doe / 36524) in
  let doc := doe - c * 36524 in
  let q := doc / 1461 in
  let doq := doc - q * 1461 in
  let yr := Z.min 3 (doq / 365) in
  (100 * c + 4 * q + yr, doq - yr * 365).

(** The month and day of a day of a year that starts in March. *)
Definition month_of_year (doy : Z) : Z * Z :=
  let mp := (5 * doy + 2) / 153 in
  (if mp <? 10 then mp + 3 else mp - 9, doy - (153 * mp + 2) / 5 + 1).

Definition civil_of_days (days : Z) : Z * Z * Z :=
  let z := days + 719468 in
  let '(yoe, doy) := year_of_era (z mod 146097) in
  let '(m, d) := month_of_year doy in
  let y := yoe + z / 146097 * 400 in
  ((if m <=? 2 then y + 1 else y), m, d).

(** ** Fixed-width digits *)

Definition digit_char (d : Z) : ascii := byte_of (48 + d).

Fixpoint digits (n : nat) (z : Z) : string :=
  match n with
  | O => ""
  | S n' => digits n' (z / 10) +:+ String (digit_char (z mod 10)) ""
  end.

Fixpoint num_of (acc : Z) (s : string) : option Z :=
  match s with
  | EmptyString => Some acc
  | String c r => if is_digit c then num_of (10 * acc + (byte_val c - 48)) r else None
  end.

(** [n] digits with a value in [lo..hi], and the rest of the text. *)
Definition parse_digits (n : nat) (lo hi : Z) (s : string) : option (Z * string) :=
  let p := take_string n s in
  if Nat.eqb (String.length p) n then
    z ← num_of 0 p;
    if (lo <=? z) && (z <=? hi) then Some (z, drop_string n s) else None
  else None.

Definition expect (c : ascii) (s : string) : option string :=
  match s with String d r => if Ascii.eqb d c then Some r else None | EmptyString => None end.

(** ** Formatting *)

Definition second : Z := 1000000000.
Definition day : Z := 86400 * second.

Fixpoint trim_zeros (s : string) : string :=
  match s with
  | EmptyString => ""
  | String c r =>
      let r' := trim_zeros r in
      if String.eqb r' "" && Ascii.eqb c "0" then "" else String c r'
  end.

(** The [.999999999] part of the layout: no trailing zeros, nothing for zero. *)
Definition format_fraction (ns : Z) : string :=
  let f := trim_zeros (digits 9 ns) in
  if String.eqb f "" then "" else String "." f.

(** [t.UTC().Format(time.RFC3339Nano)] *)
Definition Format (t : Z) : string :=
  let '(y, m, d) := civil_of_days (t / day) in
  let r := t mod day in
  let s := r / second in
  digits 4 y +:+ String "-" (digits 2 m +:+ String "-" (digits 2 d +:+ String "T"
    (digits 2 (s / 3600) +:+ String ":" (digits 2 (s / 60 mod 60) +:+ String ":"
      (digits 2 (s mod 60) +:+ format_fraction (r mod second) +:+ "Z"))))).

(** ** Parsing *)

(** The digits after a decimal point, to the nanosecond. *)
Definition parse_fraction (s : string) : Z * string :=
  match s with
  | String c r =>
      let '(f, r') := span_digits r in
      if Ascii.eqb c "." && negb (String.eqb f "") then
        (default 0 (num_of 0 (take_string 9 (f +:+ zeros 9))), r')
      else (0, s)
  | EmptyString => (0, s)
  end.

(** [Z] or an offset, in seconds. *)
Definition parse_zone (s : string) : option Z :=
  if String.eqb s "Z" then Some 0
  else
    match s with
    | String c r =>
        if Ascii.eqb c "+" || Ascii.eqb c "-" then
          '(hh, r) ← parse_digits 2 0 23 r;
          r ← expect ":" r;
          '(mm, r) ← parse_digits 2 0 59 r;
          if String.eqb r "" then
            let off := (hh * 60 + mm) * 60 in Some (if Ascii.eqb c "-" then - off else off)
          else None
        else None
    | EmptyString => None
    end.

(** [time.Parse(time.RFC3339Nano, s)] *)
Definition Parse (s : string) : option Z :=
  '(y, s) ← parse_digits 4 0 9999 s;
  s ← expect "-" s;
  '(m, s) ← parse_digits 2 1 12 s;
  s ← expect "-" s;
  '(d, s) ← parse_digits 2 1 (days_in m y) s;
  s ← expect "T" s;
  '(hh, s) ← parse_digits 2 0 23 s;
  s ← expect ":" s;
  '(mm, s) ← parse_digits 2 0 59 s;
  s ← expect ":" s;
  '(ss, s) ← parse_digits 2 0 59 s;
  let '(ns, s) := parse_fraction s in
  off ← parse_zone s;
  Some (days_of_civil y m d * day + (hh * 3600 + mm * 60 + ss - off) * second + ns).

(** [time.Since(created)]: the difference as a [time.Duration], saturating. *)
Definition Since (now created : Z) : Z :=
  Z.max (- 2 ^ 63) (Z.min (2 ^ 63 - 1) (now - created)).

(** ** The calendar round trip *)

Lemma year_of_era_spec doe yoe doy : 0 ≤ doe < 146097 → year_of_era doe = (yoe, doy) →
  0 ≤ yoe < 400 ∧ 0 ≤ doy ≤ 365 ∧ doe = yoe * 365 + yoe / 4 - yoe / 100 + doy ∧
  (doy = 365 → is_leap (yoe + 1) = true).
Proof.
  unfold year_of_era. intros Hd [= Hy Hdoy].
  set (c := Z.min 3 (doe / 36524)) in *.
  set (doc := doe - c * 36524) in *. set (q := doc / 1461) in *.
  set (doq := doc - q * 1461) in *. set (yr := Z.min 3 (doq / 365)) in *.
  assert (0 ≤ c ≤ 3 ∧ 0 ≤ doc ≤ 36524 ∧ (c < 3 → doc < 36524)) by (unfold doc, c; zdiv).
  assert (0 ≤ q ≤ 24 ∧ 0 ≤ doq ≤ 1460) by (unfold doq, q; zdiv).
  assert (0 ≤ yr ≤ 3 ∧ 0 ≤ doq - yr * 365 ≤ 365 ∧ (doq - yr * 365 = 365 → yr = 3 ∧ doq = 1460))
    by (unfold yr; zdiv).
  assert (doc = doq + q * 1461 ∧ doe = doc + c * 36524) by (unfold doq, doc; lia).
  clearbody yr doq q doc c.
  assert (yoe / 4 = 25 * c + q) as -> by zdiv.
  assert (yoe / 100 = c) as -> by zdiv.
  split_and!; try lia. intros ->. unfold is_leap.
  assert ((yoe + 1) mod 4 = 0) as -> by zdiv. cbn.
  destruct (decide (q = 24)) as [Hq|].
  - assert ((yoe + 1) mod 400 = 0) as -> by zdiv. cbn. by rewrite orb_true_r.
  - assert ((yoe + 1) mod 100 ≠ 0) as Hn by zdiv. apply Z.eqb_neq in Hn. by rewrite Hn.
Qed.

Definition month_ok (doy : Z) : bool :=
  let '(m, d) := month_of_year doy in
  (1 <=? m) && (m <=? 12) && (1 <=? d) &&
  ((153 * ((m + 9) mod 12) + 2) / 5 + d - 1 =? doy) &&
  (d <=? (if doy =? 365 then 29 else days_in m 1)) && ((doy <? 365) || (m =? 2)).

Fixpoint all_below (n : nat) (z : Z) (P : Z → bool) : bool :=
  match n with O => true | S n' => P z && all_below n' (z + 1) P end.

Lemma all_below_spec n z P : all_below n z P = true → ∀ x, z ≤ x < z + Z.of_nat n → P x = true.
Proof.
  revert z. induction n as [|n IH]; intros z H x Hx; [lia|]. cbn in H. bool_prop.
  destruct (decide (x = z)) as [->|]; [done|]. eapply IH; [done|]. lia.
Qed.

Lemma months_ok : all_below 366 0 month_ok = true.
Proof. vm_compute. reflexivity. Qed.

Lemma days_in_common m y : days_in m 1 ≤ days_in m y.
Proof. unfold days_in. repeat case_if; done. Qed.

Lemma civil_round days y m d : civil_of_days days = (y, m, d) →
  days_of_civil y m d = days ∧ 1 ≤ m ≤ 12 ∧ 1 ≤ d ≤ days_in m y.
Proof.
  unfold civil_of_days. pose proof (Z.mod_pos_bound (days + 719468) 146097 ltac:(lia)) as Hb.
  destruct (year_of_era _) as [yoe doy] eqn:Ey.
  apply year_of_era_spec in Ey as (Hyoe & Hdoy & Hdoe & Hleap); [|done].
  pose proof (all_below_spec _ _ _ months_ok doy ltac:(lia)) as Hm. unfold month_ok in Hm.
  destruct (month_of_year doy) as [m' d'].
  apply andb_true_iff in Hm as [[[[[H1 H2]%andb_true_iff H3]%andb_true_iff H4]%andb_true_iff
    H5]%andb_true_iff H6].
  bool_prop. intros [= <- <- <-].
  set (e := (days + 719468) / 146097) in *.
  pose proof (Z.div_mod (days + 719468) 146097 ltac:(lia)) as Hdm. fold e in Hdm.
  split_and!; try done.
  - unfold days_of_civil. rewrite H4.
    assert ((if m' <=? 2 then (if m' <=? 2 then yoe + e * 400 + 1 else yoe + e * 400) - 1
             else if m' <=? 2 then yoe + e * 400 + 1 else yoe + e * 400) = yoe + e * 400) as ->
      by (destruct (m' <=? 2); lia).
    rewrite Z.mod_add, Z.div_add, Z.mod_small, Z.div_small by lia. lia.
  - destruct (Z.eqb_spec doy 365) as [E|].
    + apply orb_true_iff in H6 as [?|?]; bool_prop; [lia|]. subst m'. cbn [Z.leb Z.compare Pos.compare].
      unfold days_in. cbn.
      assert (is_leap (yoe + e * 400 + 1) = is_leap (yoe + 1)) as ->; [|by rewrite Hleap].
      unfold is_leap. replace (yoe + e * 400 + 1) with (yoe + 1 + e * 400) by lia.
      assert ((yoe + 1 + e * 400) mod 4 = (yoe + 1) mod 4) as -> by zdiv.
      assert ((yoe + 1 + e * 400) mod 100 = (yoe + 1) mod 100) as -> by zdiv.
      by assert ((yoe + 1 + e * 400) mod 400 = (yoe + 1) mod 400) as -> by zdiv.
    + etrans; [done|]. apply days_in_common.
Qed.

(** ** The text round trip *)

Lemma digit_char_ok d : 0 ≤ d < 10 → is_digit (digit_char d) = true ∧ byte_val (digit_char d) - 48 = d.
Proof.
  intros Hd. unfold is_digit, digit_char. rewrite byte_val_of, Z.mod_small by lia.
  split; [|lia]. apply andb_true_iff. split; apply Z.leb_le; lia.
Qed.

Lemma num_of_app a b acc : num_of acc (a +:+ b) = (x ← num_of acc a; num_of x b).
Proof. revert acc. induction a as [|c a IH]; intros acc; cbn; [done|]. by case_if. Qed.

Lemma num_of_digits n z acc : 0 ≤ z < 10 ^ Z.of_nat n →
  num_of acc (digits n z) = Some (acc * 10 ^ Z.of_nat n + z).
Proof.
  revert z acc. induction n as [|n IH]; intros z acc Hz.
  - cbn in *. f_equal. lia.
  - rewrite Nat2Z.inj_succ, Z.pow_succ_r in * by lia. cbn [digits]. rewrite num_of_app, IH by zdiv.
    destruct (digit_char_ok (z mod 10) ltac:(zdiv)) as [E1 E2]. cbn. rewrite E1, E2. f_equal.
    pose proof (Z.div_mod z 10). lia.
Qed.

Lemma digits_length n z : String.length (digits n z) = n.
Proof. revert z. induction n; intros; cbn; [done|]. rewrite length_append, IHn. cbn. lia. Qed.

Lemma digits_all n z : all_bytes is_digit (digits n z) = true.
Proof.
  revert z. induction n as [|n IH]; intros z; cbn; [done|].
  rewrite all_bytes_append, IH. cbn. rewrite (proj1 (digit_char_ok (z mod 10) ltac:(zdiv))). done.
Qed.

Lemma parse_digits_app n lo hi z rest : 0 ≤ z < 10 ^ Z.of_nat n → lo ≤ z ≤ hi →
  parse_digits n lo hi (digits n z +:+ rest) = Some (z, rest).
Proof.
  intros Hz Hr. unfold parse_digits.
  pose proof (take_append (digits n z) rest) as Ht. pose proof (drop_append (digits n z) rest) as Hd.
  rewrite digits_length in Ht, Hd. rewrite Ht, Hd, digits_length, Nat.eqb_refl, num_of_digits by done.
  cbn [mbind option_bind]. rewrite Z.mul_0_l, Z.add_0_l.
  by rewrite (proj2 (Z.leb_le lo z)), (proj2 (Z.leb_le z hi)) by lia.
Qed.

Lemma expect_cons c r : expect c (String c r) = Some r.
Proof. cbn. by rewrite Ascii.eqb_refl. Qed.

Lemma trim_zeros_spec s : ∃ k, s = trim_zeros s +:+ zeros k.
Proof.
  induction s as [|c s [k Hk]]; [by exists 0%nat|]. cbn.
  destruct (String.eqb (trim_zeros s) "" && Ascii.eqb c "0") eqn:E; [|by exists k; cbn; congruence].
  apply andb_true_iff in E as [E1%String.eqb_eq E2%Ascii.eqb_eq]. subst c.
  exists (S k). rewrite E1 in Hk. cbn in *. congruence.
Qed.

Lemma zeros_app a b : zeros (a + b) = zeros a +:+ zeros b.
Proof. induction a; cbn; congruence. Qed.

Lemma zeros_length n : String.length (zeros n) = n.
Proof. induction n; cbn; congruence. Qed.

(** Padding a trimmed fraction to its width gives it back. *)
Lemma pad_trim s : take_string (String.length s) (trim_zeros s +:+ zeros (String.length s)) = s.
Proof.
  destruct (trim_zeros_spec s) as [k Hk].
  assert (String.length s = (k + String.length (trim_zeros s)))%nat as E.
  { rewrite Hk at 1. rewrite length_append, zeros_length. lia. }
  rewrite E at 2. rewrite zeros_app, <- append_assoc, <- Hk. apply take_append.
Qed.

Lemma trim_zeros_all s : all_bytes is_digit s = true → all_bytes is_digit (trim_zeros s) = true.
Proof.
  destruct (trim_zeros_spec s) as [k Hk]. rewrite Hk at 1. rewrite all_bytes_append.
  by intros [? _]%andb_true_iff.
Qed.

Lemma parse_fraction_format ns : 0 ≤ ns < second →
  parse_fraction (format_fraction ns +:+ "Z") = (ns, "Z").
Proof.
  intros Hns. unfold format_fraction. set (s := digits 9 ns).
  assert (String.length s = 9%nat) as Hl by apply digits_length.
  pose proof (pad_trim s) as Hp. rewrite Hl in Hp.
  pose proof (num_of_digits 9 ns 0 ltac:(unfold second in *; lia)) as Hn. fold s in Hn.
  case_if.
  - rewrite E in Hp. rewrite <- Hp in Hn. vm_compute in Hn. injection Hn as <-. done.
  - cbn [String.append parse_fraction].
    rewrite span_digits_all by (done || apply trim_zeros_all, digits_all).
    apply String.eqb_neq in E. rewrite E. cbn [Ascii.eqb Bool.eqb negb andb].
    by rewrite Hp, Hn.
Qed.

(** The times whose year has four digits. *)
Definition time_ok (t : Z) : Prop := 0 ≤ t < 253402300800 * second.

Lemma year_range t y m d : time_ok t → civil_of_days (t / day) = (y, m, d) → 0 ≤ y < 10 ^ 4.
Proof.
  unfold time_ok, day, second. intros Ht. unfold civil_of_days.
  assert (0 ≤ t / (86400 * 1000000000) < 2932897) as Hd by zdiv.
  set (days := t / _) in *. clearbody days.
  pose proof (Z.mod_pos_bound (days + 719468) 146097 ltac:(lia)) as Hb.
  destruct (year_of_era _) as [yoe doy] eqn:Ey.
  apply year_of_era_spec in Ey as (Hyoe & Hdoy & Hdoe & Hleap); [|done].
  destruct (month_of_year doy) as [m' d'] eqn:Em. intros [= <- <- <-].
  assert (4 ≤ (days + 719468) / 146097 ≤ 24) by zdiv.
  pose proof (Z.div_mod (days + 719468) 146097 ltac:(lia)).
  split; [case_if; lia|]. cbn.
  destruct (m' <=? 2) eqn:E; bool_prop; [|lia].
  destruct (decide (yoe + (days + 719468) / 146097 * 400 = 9999)); [exfalso|lia].
  assert (yoe = 399 ∧ (days + 719468) / 146097 = 24) as [-> He] by lia.
  rewrite He in *. change (399 / 4) with 99 in Hdoe. change (399 / 100) with 3 in Hdoe.
  unfold month_of_year in Em. injection Em as Em _.
  assert (doy < 306) by lia. revert Em. case_if; zdiv.
Qed.

Lemma Parse_Format t : time_ok t → Parse (Format t) = Some t.
Proof.
  intros Ht. unfold Format, Parse. destruct (civil_of_days (t / day)) as [[y m] d] eqn:Ec.
  pose proof (year_range _ _ _ _ Ht Ec) as Hy. apply civil_round in Ec as (Hc & Hm & Hd).
  assert (days_in m y ≤ 31) by (unfold days_in; repeat case_if; lia).
  set (r := t mod day). set (s := r / second).
  assert (0 ≤ r < day) by (apply Z.mod_pos_bound; done).
  assert (0 ≤ s < 86400) by (unfold s, day, second in *; zdiv).
  rewrite parse_digits_app by (cbn in *; lia). cbn [mbind option_bind]. rewrite expect_cons.
  cbn [mbind option_bind]. rewrite parse_digits_app by (cbn; lia). cbn [mbind option_bind].
  rewrite expect_cons. cbn [mbind option_bind]. rewrite parse_digits_app by (cbn; lia).
  cbn [mbind option_bind]. rewrite expect_cons. cbn [mbind option_bind].
  rewrite parse_digits_app by (cbn; zdiv). cbn [mbind option_bind]. rewrite expect_cons.
  cbn [mbind option_bind]. rewrite parse_digits_app by (cbn; zdiv). cbn [mbind option_bind].
  rewrite expect_cons. cbn [mbind option_bind]. rewrite parse_digits_app by (cbn; zdiv).
  cbn [mbind option_bind]. rewrite parse_fraction_format by (apply Z.mod_pos_bound; done).
  cbn. rewrite Hc. f_equal. pose proof (Z.div_mod t day ltac:(done)). fold r in H1.
  pose proof (Z.div_mod r second ltac:(done)). fold s in H2.
  assert (s / 3600 * 3600 + s / 60 mod 60 * 60 + s mod 60 = s) by zdiv. lia.
Qed.
