(* ===== verification/GoClock.v ===== *)
(** * Durations, clock times and locations (time)

    [time.ParseDuration] with its overflow checks and the float64 arithmetic of
    fractions, [time.Parse("15:04", …)], and the part of [time.Date], [In] and
    [AddDate] a daily schedule uses.  A location is its table of offsets. *)

From S2P Require Import Prelude Bytes Encoding GoTime.

(** ** Positive float64 values *)

(** A mantissa and an exponent of two. *)
Record float64 := mkFloat { mantissa : Z; exponent : Z }.

(** The quotient of two positive numbers rounded to 53 bits, ties to even. *)
Definition round_quotient (n d : Z) : float64 :=
  let e0 := Z.log2 n - Z.log2 d - 53 in
  let scaled e := (n * 2 ^ Z.max 0 (- e), d * 2 ^ Z.max 0 e) in
  let e := if 2 ^ 53 <=? (scaled e0).1 / (scaled e0).2 then e0 + 1 else e0 in
  let '(num, den) := scaled e in
  let q := num / den in
  let r := num - q * den in
  let up := (den <? 2 * r) || ((den =? 2 * r) && Z.odd q) in
  mkFloat (if up then q + 1 else q) e.

Definition float_of (z : Z) : float64 := round_quotient z 1.

Definition float_mul (a b : float64) : float64 :=
  let e := exponent a + exponent b in
  round_quotient (mantissa a * mantissa b * 2 ^ Z.max 0 e) (2 ^ Z.max 0 (- e)).

(** [uint64(f)] *)
Definition float_trunc (f : float64) : Z :=
  u64 (mantissa f * 2 ^ Z.max 0 (exponent f) / 2 ^ Z.max 0 (- exponent f)).

(** ** Durations *)

(** [leadingInt]: the digits at the front, [None] when they overflow. *)
Fixpoint leadingInt (x : Z) (s : string) : option (Z * string) :=
  match s with
  | String c r =>
      if is_digit c then
        if 2 ^ 63 / 10 <? x then None
        else
          let x' := x * 10 + (byte_val c - 48) in
          if 2 ^ 63 <? x' then None else leadingInt x' r
      else Some (x, s)
  | EmptyString => Some (x, s)
  end.

(** [leadingFraction]: the digits after the point and the power of ten they are
    scaled by; digits that would overflow are skipped. *)
Fixpoint leadingFraction (x scale : Z) (overflow : bool) (s : string) : Z * Z * string :=
  match s with
  | String c r =>
      if is_digit c then
        if overflow then leadingFraction x scale true r
        else if (2 ^ 63 - 1) / 10 <? x then leadingFraction x scale true r
        else
          let y := x * 10 + (byte_val c - 48) in
          if 2 ^ 63 <? y then leadingFraction x scale true r
          else leadingFraction y (scale * 10) false r
      else (x, scale, s)
  | EmptyString => (x, scale, s)
  end.

(** The unit at the front: up to the next digit or point. *)
Fixpoint leadingUnit (s : string) : string * string :=
  match s with
  | String c r =>
      if is_digit c || Ascii.eqb c "." then ("", s)
      else let '(u, rest) := leadingUnit r in (String c u, rest)
  | EmptyString => ("", "")
  end.

Definition micro_sign : string := of_bytes [194; 181].
Definition greek_mu : string := of_bytes [206; 188].

Definition unitMap (u : string) : option Z :=
  if String.eqb u "ns" then Some 1
  else if String.eqb u "us" || String.eqb u (micro_sign +:+ "s") || String.eqb u (greek_mu +:+ "s")
  then Some 1000
  else if String.eqb u "ms" then Some 1000000
  else if String.eqb u "s" then Some second
  else if String.eqb u "m" then Some (60 * second)
  else if String.eqb u "h" then Some (3600 * second)
  else None.

(** One number with its unit. *)
Definition duration_part (s : string) : option (Z * string) :=
  '(v, s1) ← leadingInt 0 s;
  let pre := negb (String.eqb s1 s) in
  let '(f, scale, s2, post) :=
    match s1 with
    | String "." r => let '(f, scale, s2) := leadingFraction 0 1 false r in
                      (f, scale, s2, negb (String.eqb s2 r))
    | _ => (0, 1, s1, false)
    end in
  if negb pre && negb post then None
  else
    let '(u, s3) := leadingUnit s2 in
    if String.eqb u "" then None
    else
      unit ← unitMap u;
      if 2 ^ 63 / unit <? v then None
      else
        let v := v * unit in
        if 0 <? f then
          let v := u64 (v + float_trunc (float_mul (float_of f) (round_quotient unit scale))) in
          if 2 ^ 63 <? v then None else Some (v, s3)
        else Some (v, s3).

Fixpoint duration_parts (fuel : nat) (d : Z) (s : string) : option Z :=
  match s, fuel with
  | EmptyString, _ => Some d
  | _, O => None
  | _, S fuel' =>
      '(v, r) ← duration_part s;
      let d' := u64 (d + v) in
      if 2 ^ 63 <? d' then None else duration_parts fuel' d' r
  end.

Definition ParseDuration (s : string) : option Z :=
  let '(neg, s) :=
    match s with
    | String "-" r => (true, r)
    | String "+" r => (false, r)
    | _ => (false, s)
    end in
  if String.eqb s "0" then Some 0
  else if String.eqb s "" then None
  else
    d ← duration_parts (String.length s) 0 s;
    if neg then Some (i64 (- d))
    else if 2 ^ 63 - 1 <? d then None else Some d.

Lemma ParseDuration_examples :
  ParseDuration "1.5h" = Some (5400 * second) ∧ ParseDuration "-1m30s" = Some (-90 * second) ∧
  ParseDuration "0.1ms" = Some 100000 ∧ ParseDuration "1" = None ∧
  ParseDuration "9223372036854775808ns" = None.
Proof. vm_compute. done. Qed.

(** A parsed duration fits an [int64]. *)
Lemma ParseDuration_range s d : ParseDuration s = Some d → - 2 ^ 63 ≤ d < 2 ^ 63.
Proof.
  assert (∀ n x t r, 0 ≤ x ≤ 2 ^ 63 → duration_parts n x t = Some r → 0 ≤ r ≤ 2 ^ 63) as Hp.
  { induction n as [|n IH]; intros x t r Hx; destruct t as [|c t]; cbn [duration_parts];
      [by intros [= <-]|done|by intros [= <-]|].
    destruct (duration_part _) as [[v rest]|]; cbn [mbind option_bind]; [|done]. pose proof (u64_range (x + v)).
    case_match eqn:E; [done|]. apply Z.ltb_ge in E. apply IH. lia. }
  unfold ParseDuration. destruct (match s with String _ _ => _ | _ => _ end) as [neg t].
  case_match; [intros [= <-]; lia|]. case_match; [done|].
  destruct (duration_parts _ _ _) as [r|] eqn:Er; cbn [mbind option_bind]; [|done]. apply Hp in Er; [|lia].
  destruct neg.
  - intros [= <-]. apply i64_range.
  - case_match eqn:E; [done|]. intros [= <-]. apply Z.ltb_ge in E. lia.
Qed.

(** ** Clock times *)

(** [getnum]: one or two digits, or exactly two. *)
Definition getnum (s : string) (fixed : bool) : option (Z * string) :=
  match s with
  | String a r =>
      if negb (is_digit a) then None
      else
        match r with
        | String b r' =>
            if is_digit b then Some ((byte_val a - 48) * 10 + (byte_val b - 48), r')
            else if fixed then None else Some (byte_val a - 48, r)
        | EmptyString => if fixed then None else Some (byte_val a - 48, r)
        end
  | EmptyString => None
  end.

(** [time.Parse("15:04", s)]: the hour and the minute. *)
Definition ParseClock (s : string) : option (Z * Z) :=
  '(hour, s) ← getnum s false;
  if 24 <=? hour then None
  else
    s ← expect ":" s;
    '(minute, s) ← getnum s true;
    if (60 <=? minute) || negb (String.eqb s "") then None else Some (hour, minute).

(** ** Locations *)

(** [lookup]: the offset from UTC in seconds in force at a Unix time, and the
    interval of Unix times it is in force. *)
Definition Location := Z → Z * Z * Z.

Definition offset (l : Location) (unix : Z) : Z := let '(o, _, _) := l unix in o.

(** The seconds of a time, rounded down. *)
Definition unix_seconds (t : Z) : Z := t / second.

(** [t.In(l).Date()] *)
Definition local_date (l : Location) (t : Z) : Z * Z * Z :=
  civil_of_days ((unix_seconds t + offset l (unix_seconds t)) / 86400).

(** [t.In(l).Clock()] as the seconds of the day. *)
Definition local_clock (l : Location) (t : Z) : Z :=
  (unix_seconds t + offset l (unix_seconds t)) mod 86400.

(** [time.Date(y, m, d, 0, 0, clock, nsec, l)] for a normalized month. *)
Definition Date (l : Location) (y m d clock nsec : Z) : Z :=
  let unix := days_of_civil y m d * 86400 + clock in
  let '(o, start, stop) := l unix in
  let utc := unix - o in
  let o' := if (o =? 0) || ((start <=? utc) && (utc <? stop)) then o else offset l utc in
  (unix - o') * second + nsec.

(** [t.AddDate(0, 0, n)] *)
Definition AddDays (l : Location) (t n : Z) : Z :=
  let '(y, m, d) := local_date l t in
  Date l y m (d + n) (local_clock l t) (t mod second).

(** A location without transitions. *)
Definition FixedZone (o : Z) : Location := λ _, (o, - 2 ^ 63, 2 ^ 63 - 1).

Lemma Date_fixed o y m d clock nsec :
  - 2 ^ 63 ≤ days_of_civil y m d * 86400 + clock - o < 2 ^ 63 - 1 →
  Date (FixedZone o) y m d clock nsec = (days_of_civil y m d * 86400 + clock - o) * second + nsec.
Proof.
  intros Hr. unfold Date, FixedZone. destruct (o =? 0) eqn:E; [done|]. cbn [orb].
  rewrite (proj2 (Z.leb_le _ _)), (proj2 (Z.ltb_lt _ _)) by lia. done.
Qed.

Lemma days_of_civil_day y m d n : days_of_civil y m (d + n) = days_of_civil y m d + n.
Proof. unfold days_of_civil. lia. Qed.

Lemma getnum_nonneg s fixed z r : getnum s fixed = Some (z, r) → 0 ≤ z.
Proof.
  assert (∀ c, is_digit c = true → 0 ≤ byte_val c - 48) as Hd.
  { intros c [Ec%Z.leb_le _]%andb_true_iff. lia. }
  unfold getnum. destruct s as [|a s]; [done|]. destruct (is_digit a) eqn:Ea; [|done]. cbn [negb].
  apply Hd in Ea. destruct s as [|b s]; [by destruct fixed; [|intros [= <- <-]]|].
  destruct (is_digit b) eqn:Eb; [|by destruct fixed; [|intros [= <- <-]]].
  apply Hd in Eb. intros [= <- <-]. lia.
Qed.

Lemma ParseClock_range s hour minute : default (0, 0) (ParseClock s) = (hour, minute) →
  0 ≤ hour * 3600 + minute * 60 < 86400.
Proof.
  unfold ParseClock. destruct (getnum s false) as [[h s1]|] eqn:Eh; cbn [mbind option_bind]; [|by intros [= <- <-]].
  apply getnum_nonneg in Eh.
  destruct (24 <=? h) eqn:E24; [by intros [= <- <-]|]. apply Z.leb_gt in E24.
  destruct (expect _ _) as [s2|]; cbn [mbind option_bind]; [|by intros [= <- <-]].
  destruct (getnum s2 true) as [[mi s3]|] eqn:Em; cbn [mbind option_bind]; [|by intros [= <- <-]].
  apply getnum_nonneg in Em. destruct (_ || _) eqn:E60; [by intros [= <- <-]|].
  apply orb_false_iff in E60 as [E60%Z.leb_gt _]. intros [= <- <-]. lia.
Qed.

(** In a location without transitions a local date and clock time is reached
    once. *)
Lemma local_date_fixed o t y m d : local_date (FixedZone o) t = (y, m, d) →
  days_of_civil y m d = (t / second + o) / 86400.
Proof. intros H%civil_round. apply H. Qed.

Lemma AddDays_fixed o days clk n :
  0 ≤ clk < 86400 → - 2 ^ 63 ≤ (days + n) * 86400 + clk - o < 2 ^ 63 - 1 →
  AddDays (FixedZone o) ((days * 86400 + clk - o) * second) n = ((days + n) * 86400 + clk - o) * second.
Proof.
  intros Hc Hr. unfold AddDays. destruct (local_date _ _) as [[y m] d] eqn:Ed.
  apply local_date_fixed in Ed. unfold local_clock, offset, unix_seconds. cbn [FixedZone].
  rewrite Z.div_mul in * by done. replace (days * 86400 + clk - o + o) with (clk + days * 86400) in * by lia.
  rewrite Z.div_add, Z.div_small in Ed by lia. rewrite Z.mod_add, (Z.mod_small clk) by lia.
  rewrite Z.mod_mul by done. rewrite Date_fixed; rewrite days_of_civil_day, Ed; lia.
Qed.
