(* ===== verification/GoNet.v ===== *)
(** * Addresses, URLs, environment variables and name patterns

    What the configuration code uses of [net], [net/url], [os], [regexp] and
    [unicode/utf16]: [net.SplitHostPort], the parts of [url.Parse] that decide
    whether a URL is accepted and what its scheme and host are, [os.ExpandEnv],
    and the patterns of names as predicates. *)

From S2P Require Import Prelude Bytes Encoding Json.

(** ** Searching *)

(** The text before and after the first occurrence of a byte. *)
Fixpoint cut (c : ascii) (s : string) : option (string * string) :=
  match s with
  | EmptyString => None
  | String d r =>
      if Ascii.eqb d c then Some ("", r) else '(a, b) ← cut c r; Some (String d a, b)
  end.

(** The text before and after the last occurrence of a byte. *)
Fixpoint cut_last (c : ascii) (s : string) : option (string * string) :=
  match s with
  | EmptyString => None
  | String d r =>
      match cut_last c r with
      | Some (a, b) => Some (String d a, b)
      | None => if Ascii.eqb d c then Some ("", r) else None
      end
  end.

Definition ContainsAny (s chars : string) : bool := negb (all_bytes (λ c, negb (string_elem c chars)) s).

Definition crlf : string := of_bytes [13; 10].

(** ** [net.SplitHostPort] *)

Definition SplitHostPort (hostport : string) : option (string * string) :=
  '(before, port) ← cut_last ":" hostport;
  match before with
  | String "[" inner =>
      '(host, rest) ← cut "]" inner;
      if negb (String.eqb rest "") then None
      else if string_elem "[" host || string_elem "[" port || string_elem "]" port then None
      else Some (host, port)
  | _ =>
      if string_elem ":" before || string_elem "[" hostport || string_elem "]" hostport then None
      else Some (before, port)
  end.

Lemma SplitHostPort_examples :
  SplitHostPort "127.0.0.1:80" = Some ("127.0.0.1", "80") ∧ SplitHostPort ":80" = Some ("", "80") ∧
  SplitHostPort "[::1]:80" = Some ("::1", "80") ∧ SplitHostPort "::1:80" = None ∧
  SplitHostPort "host" = None ∧ SplitHostPort "[::1]" = None.
Proof. vm_compute. done. Qed.

(** ** [url.Parse] *)

(** The scheme in lower case, the host, and whether there is user information. *)
Record URL := mkURL { Scheme : string; Host : string; User : bool }.

Definition is_letter (c : ascii) : bool := in_range 65 90 c || in_range 97 122 c.
Definition is_alnum (c : ascii) : bool := is_letter c || is_digit c.
Definition is_hex (c : ascii) : bool := match hex_val c with Some _ => true | None => false end.

(** [getScheme]: [None] is an error, [Some None] is no scheme. *)
Fixpoint get_scheme (first : bool) (s : string) : option (option (string * string)) :=
  match s with
  | EmptyString => Some None
  | String c r =>
      if is_letter c then
        match get_scheme false r with
        | Some (Some (a, b)) => Some (Some (String c a, b))
        | x => x
        end
      else if is_digit c || string_elem c "+-." then
        if first then Some None
        else
          match get_scheme false r with
          | Some (Some (a, b)) => Some (Some (String c a, b))
          | x => x
          end
      else if Ascii.eqb c ":" then if first then None else Some (Some ("", r))
      else Some None
  end.

(** A byte that may stand unescaped in a host. *)
Definition host_byte (c : ascii) : bool :=
  is_alnum c || (128 <=? byte_val c) || string_elem c "-_.~!$&'()*+,;=:[]<>" || Ascii.eqb c dquote.

(** [unescape]: whether every escape is well formed, and in a host also allowed. *)
Fixpoint escapes_ok (host : bool) (s : string) : bool :=
  match s with
  | EmptyString => true
  | String c r =>
      if Ascii.eqb c "%" then
        match r with
        | String a (String b r') =>
            is_hex a && is_hex b &&
            (negb host || (8 <=? default 0 (hex_val a)) || (Ascii.eqb a "2" && Ascii.eqb b "5")) &&
            escapes_ok host r'
        | _ => false
        end
      else (negb host || host_byte c) && escapes_ok host r
  end.

(** [unescape] of the zone of an address. *)
Fixpoint zone_ok (s : string) : bool :=
  match s with
  | EmptyString => true
  | String c r =>
      if Ascii.eqb c "%" then
        match r with
        | String a (String b r') =>
            match hex_val a, hex_val b with
            | Some x, Some y =>
                let v := byte_of (16 * x + y) in
                ((Ascii.eqb a "2" && Ascii.eqb b "5") || Ascii.eqb v " " ||
                 (host_byte v && (byte_val v <? 128))) && zone_ok r'
            | _, _ => false
            end
        | _ => false
        end
      else host_byte c && zone_ok r
  end.

Definition validOptionalPort (s : string) : bool :=
  match s with
  | EmptyString => true
  | String c r => Ascii.eqb c ":" && all_bytes is_digit r
  end.

(** The text before the first occurrence of [%25], and from there on. *)
Fixpoint cut_zone (s : string) : option (string * string) :=
  if HasPrefix s "%25" then Some ("", s)
  else match s with
       | EmptyString => None
       | String c r => '(a, b) ← cut_zone r; Some (String c a, b)
       end.

Definition host_ok (host : string) : bool :=
  match host with
  | String "[" _ =>
      match cut_last "]" host with
      | None => false
      | Some (before, port) =>
          validOptionalPort port &&
          match cut_zone before with
          | Some (a, zone) => escapes_ok true a && zone_ok zone && escapes_ok true ("]" +:+ port)
          | None => escapes_ok true host
          end
      end
  | _ =>
      match cut_last ":" host with
      | Some (_, port) => all_bytes is_digit port
      | None => true
      end && escapes_ok true host
  end.

Definition validUserinfo (s : string) : bool :=
  all_bytes (λ c, is_alnum c || string_elem c "-._:~!$&'()*+,;=%@") s && escapes_ok false s.

(** Whether there is user information, and the host. *)
Definition parse_authority (a : string) : option (bool * string) :=
  match cut_last "@" a with
  | Some (user, host) => if host_ok host && validUserinfo user then Some (true, host) else None
  | None => if host_ok a then Some (false, a) else None
  end.

Definition before (c : ascii) (s : string) : string := match cut c s with Some (a, _) => a | None => s end.

Definition url_Parse (raw : string) : option URL :=
  let u := before "#" raw in
  let frag := match cut "#" raw with Some (_, f) => f | None => "" end in
  if negb (all_bytes (λ c, (32 <=? byte_val c) && negb (byte_val c =? 127)) u) then None
  else if negb (escapes_ok false frag) then None
  else if String.eqb u "*" then Some (mkURL "" "" false)
  else
    s ← get_scheme true u;
    let '(scheme, rest) := match s with Some (a, b) => (ToLower a, b) | None => ("", u) end in
    let rest := before "?" rest in
    if negb (HasPrefix rest "/") then
      if negb (String.eqb scheme "") then Some (mkURL scheme "" false)
      else if string_elem ":" (before "/" rest) then None
      else if escapes_ok false rest then Some (mkURL scheme "" false) else None
    else if (negb (String.eqb scheme "") || negb (HasPrefix rest "///")) && HasPrefix rest "//" then
      let authority := before "/" (drop_string 2 rest) in
      let path := drop_string (2 + String.length authority) rest in
      '(user, host) ← parse_authority authority;
      if escapes_ok false path then Some (mkURL scheme host user) else None
    else if escapes_ok false rest then Some (mkURL scheme "" false) else None.

(** The test the configurations make of a URL. *)
Definition http_url (raw : string) : bool :=
  match url_Parse raw with
  | Some u => negb (String.eqb (Host u) "") && (String.eqb (Scheme u) "http" || String.eqb (Scheme u) "https") &&
              negb (User u)
  | None => false
  end.

Lemma http_url_examples :
  http_url "https://example.com:8443/x?y=1#z" = true ∧ http_url "HTTP://[::1]:80/" = true ∧
  http_url "https://user@example.com/" = false ∧ http_url "ftp://example.com" = false ∧
  http_url "http:///path" = false ∧ http_url "http://a b/" = false ∧ http_url "example.com" = false.
Proof. vm_compute. done. Qed.

(** *** The parts of an accepted URL *)

(** What [unescape] makes of a text whose escapes are well formed. *)
Fixpoint unescape (s : string) : string :=
  match s with
  | String c r =>
      match c, r with
      | "%"%char, String a (String b r') =>
          String (byte_of (16 * default 0 (hex_val a) + default 0 (hex_val b))) (unescape r')
      | _, _ => String c (unescape r)
      end
  | EmptyString => ""
  end.

Definition after (c : ascii) (s : string) : string := match cut c s with Some (_, b) => b | None => "" end.

(** The scheme's colon is the first one: what follows is the rest of the URL. *)
Definition url_rest (raw : string) : string := before "?" (after ":" (before "#" raw)).

Definition url_RawQuery (raw : string) : string := after "?" (before "#" raw).
Definition url_Fragment (raw : string) : string := unescape (after "#" raw).

(** The authority, with the path after it, of a URL with a scheme and a host. *)
Definition url_authority (raw : string) : string := before "/" (drop_string 2 (url_rest raw)).
Definition url_Path (raw : string) : string :=
  unescape (drop_string (2 + String.length (url_authority raw)) (url_rest raw)).

Definition url_userinfo (raw : string) : string :=
  match cut_last "@" (url_authority raw) with Some (u, _) => u | None => "" end.
Definition url_Username (raw : string) : string := unescape (before ":" (url_userinfo raw)).
Definition url_Password (raw : string) : string := unescape (after ":" (url_userinfo raw)).

(** [URL.Hostname] and [URL.Port] *)
Definition splitHostPort (hostport : string) : string * string :=
  let '(host, port) :=
    match cut_last ":" hostport with
    | Some (h, p) => if all_bytes is_digit p then (h, p) else (hostport, "")
    | None => (hostport, "")
    end in
  (match host with
   | String "[" inner => match cut_last "]" inner with Some (h, "") => h | _ => host end
   | _ => host
   end, port).

(** [net.JoinHostPort] *)
Definition JoinHostPort (host port : string) : string :=
  if string_elem ":" host then "[" +:+ host +:+ "]:" +:+ port else host +:+ ":" +:+ port.

(** ** [os.ExpandEnv] *)

Definition isShellSpecialVar (c : ascii) : bool := string_elem c "*#$@!?-0123456789".

Fixpoint span_name (s : string) : string :=
  match s with
  | String c r => if is_alnum c || Ascii.eqb c "_" then String c (span_name r) else ""
  | EmptyString => ""
  end.

(** The name after a dollar sign and the number of bytes it takes. *)
Definition getShellName (s : string) : string * nat :=
  match s with
  | String "{" r =>
      let braced :=
        match cut "}" r with
        | Some (name, _) => if String.eqb name "" then ("", 2%nat) else (name, S (S (String.length name)))
        | None => ("", 1%nat)
        end in
      match r with
      | String c (String "}" _) => if isShellSpecialVar c then (String c "", 3%nat) else braced
      | _ => braced
      end
  | String c _ =>
      if isShellSpecialVar c then (String c "", 1%nat)
      else let name := span_name s in (name, String.length name)
  | EmptyString => ("", 0%nat)
  end.

Fixpoint expand (fuel : nat) (env : string → string) (s : string) : string :=
  match fuel, s with
  | S f, String c r =>
      if Ascii.eqb c "$" && negb (String.eqb r "") then
        let '(name, w) := getShellName r in
        let value :=
          if String.eqb name "" then (if (0 <? Z.of_nat w) then "" else "$") else env name in
        value +:+ expand f env (drop_string w r)
      else String c (expand f env r)
  | _, _ => s
  end.

Definition ExpandEnv (env : string → string) (s : string) : string := expand (String.length s) env s.

Lemma ExpandEnv_examples (env : string → string) :
  ExpandEnv env "a$X-${Y}b$" = "a" +:+ env "X" +:+ "-" +:+ env "Y" +:+ "b$" ∧ ExpandEnv env "${}x" = "x".
Proof. split; reflexivity. Qed.

(** ** Patterns of names *)

Definition length_between (lo hi : Z) (s : string) : bool := (lo <=? slen s) && (slen s <=? hi).

(** [^[A-Za-z0-9_.-]{1,128}$] *)
Definition match_id (s : string) : bool :=
  length_between 1 128 s && all_bytes (λ c, is_alnum c || string_elem c "_.-") s.

(** [^[a-z0-9_]{1,63}$] *)
Definition match_slot (s : string) : bool :=
  length_between 1 63 s && all_bytes (λ c, in_range 97 122 c || is_digit c || Ascii.eqb c "_") s.

(** [^[A-Za-z_][A-Za-z0-9_<extra>]{0,<n>}$] *)
Definition match_identifier (extra : string) (n : Z) (s : string) : bool :=
  match s with
  | String c r =>
      (is_letter c || Ascii.eqb c "_") && (slen r <=? n) &&
      all_bytes (λ c, is_alnum c || Ascii.eqb c "_" || string_elem c extra) r
  | EmptyString => false
  end.

(** ** UTF-16 *)

(** [len(utf16.Encode([]rune(s)))]: an invalid byte is one replacement rune. *)
Fixpoint utf16_units (fuel : nat) (s : string) : Z :=
  match fuel, s with
  | S f, String _ r =>
      match rune_len s with
      | 0%nat => 1 + utf16_units f r
      | 4%nat => 2 + utf16_units f (drop_string 4 s)
      | n => 1 + utf16_units f (drop_string n s)
      end
  | _, _ => 0
  end.

Definition utf16_len (s : string) : Z := utf16_units (String.length s) s.
