(* ===== verification/GoPath.v ===== *)
(** * Slash-separated paths (path, path/filepath on Unix)

    [path.Clean], [path.Join] and [filepath.IsLocal], which the file collector,
    the file destinations and the server's file messages rely on to stay inside
    a directory. *)

From S2P Require Import Prelude Bytes.

Definition slash : ascii := "/"%char.

Definition IsAbs (s : string) : bool := HasPrefix s "/".

(** The components that remain after removing empty ones and dots and resolving
    double dots; [stack] holds the result so far, last component first. *)
Fixpoint clean (rooted : bool) (parts stack : list string) : list string :=
  match parts with
  | [] => reverse stack
  | p :: parts' =>
      if String.eqb p "" || String.eqb p "." then clean rooted parts' stack
      else if String.eqb p ".." then
        match stack with
        | [] => if rooted then clean rooted parts' [] else clean rooted parts' [".."]
        | x :: stack' =>
            if String.eqb x ".." then clean rooted parts' (".." :: stack)
            else clean rooted parts' stack'
        end
      else clean rooted parts' (p :: stack)
  end.

Definition clean_parts (s : string) : list string := clean (IsAbs s) (Split s slash) [].

Definition Clean (s : string) : string :=
  let out := Join (clean_parts s) "/" in
  if IsAbs s then "/" +:+ out else if String.eqb out "" then "." else out.

(** [path.Join] of two elements *)
Definition Join2 (a b : string) : string :=
  if String.eqb a "" then (if String.eqb b "" then "" else Clean b)
  else if String.eqb b "" then Clean a
  else Clean (a +:+ "/" +:+ b).

(** [filepath.IsLocal] *)
Definition IsLocal (s : string) : bool :=
  negb (String.eqb s "") && negb (IsAbs s) &&
  match clean_parts s with p :: _ => negb (String.eqb p "..") | [] => true end.

(** [strings.ContainsRune(s, 0)] *)
Fixpoint contains_nul (s : string) : bool :=
  match s with
  | EmptyString => false
  | String c r => (byte_val c =? 0) || contains_nul r
  end.

(** [filepath.Abs] in the working directory [cwd] *)
Definition Abs (cwd s : string) : string := if IsAbs s then Clean s else Join2 cwd s.

(** What remains of two lists after their common prefix. *)
Fixpoint strip_common (a b : list string) : list string * list string :=
  match a, b with
  | x :: a', y :: b' => if String.eqb x y then strip_common a' b' else (a, b)
  | _, _ => (a, b)
  end.

(** [filepath.Rel] *)
Definition Rel (base targ : string) : option string :=
  if String.eqb (Clean base) (Clean targ) then Some "."
  else if negb (eqb (IsAbs base) (IsAbs targ)) then None
  else
    let '(b, t) := strip_common (clean_parts base) (clean_parts targ) in
    match b with
    | ".." :: _ => None
    | _ => Some (Join (replicate (length b) ".." ++ t) "/")
    end.

(** [pathsOverlap] of the configurations: one path is the other or below it. *)
Definition path_contains (parent child : string) : bool :=
  match Rel parent child with
  | Some rel => negb (String.eqb rel "..") && negb (HasPrefix rel "../")
  | None => false
  end.

(** ** Components *)

Definition no_slash (s : string) : Prop := string_elem slash s = false.

(** A component of a cleaned absolute path. *)
Definition proper (s : string) : Prop := no_slash s ∧ s ≠ "" ∧ s ≠ "..".

Lemma Split_no_slash s : Forall no_slash (Split s slash).
Proof.
  unfold no_slash. induction s as [|c s IH]; cbn; [by repeat constructor|].
  destruct (ascii_dec c slash) as [->|Hc]; [by constructor|].
  destruct (Split s slash) as [|w ws]; inversion IH; constructor; cbn; (try done);
    by destruct (ascii_dec c slash).
Qed.

Lemma Split_Join l : l ≠ [] → Forall no_slash l → Split (Join l "/") slash = l.
Proof.
  unfold Join. intros Hl. induction 1 as [|x l Hx Hf IH]; [done|]. destruct l as [|y l]; cbn [String.concat].
  - by apply Split_no_sep.
  - change (Split (x +:+ String slash (Join (y :: l) "/")) slash = x :: y :: l).
    rewrite Split_append by done. unfold Join. by rewrite IH.
Qed.

Lemma Join_inj a b : Forall proper a → Forall proper b → Join a "/" = Join b "/" → a = b.
Proof.
  assert (∀ l, Forall proper l → l = [] ∨ l ≠ [] ∧ Forall no_slash l ∧ Join l "/" ≠ "") as Hc.
  { intros [|x l] Hl; [by left|right]. split_and!; [done| |].
    - eapply Forall_impl; [done|]. by intros ? [].
    - apply Forall_cons in Hl as [(_ & Hx & _) _]. unfold Join. destruct x, l; by cbn. }
  intros [->|(Ha & Hfa & Hja)]%Hc [->|(Hb & Hfb & Hjb)]%Hc E; [done|done|done|].
  by rewrite <-(Split_Join a), <-(Split_Join b), E.
Qed.

Lemma clean_proper parts stack : Forall no_slash parts → Forall proper stack → Forall proper (clean true parts stack).
Proof.
  intros Hp. revert stack. induction Hp as [|p parts Hp _ IH]; intros stack Hs; cbn.
  { by apply Forall_reverse. }
  destruct (String.eqb_spec p "") as [|Hne]; cbn; [by apply IH|].
  destruct (String.eqb p "."); cbn; [by apply IH|].
  destruct (String.eqb_spec p "..") as [|Hdd]; [|by apply IH; constructor].
  destruct stack as [|x stack]; [by apply IH|]. apply Forall_cons in Hs as [(Hx1 & Hx2 & Hx3) Hs].
  destruct (String.eqb_spec x ".."); [done|]. by apply IH.
Qed.

Lemma clean_parts_proper s : IsAbs s = true → Forall proper (clean_parts s).
Proof. intros H. unfold clean_parts. rewrite H. apply clean_proper; [apply Split_no_slash|constructor]. Qed.

Lemma strip_common_spec a b : let '(x, y) := strip_common a b in
  ∃ p, a = p ++ x ∧ b = p ++ y ∧ (∀ u v x' y', x = u :: x' → y = v :: y' → u ≠ v).
Proof.
  revert b. induction a as [|u a IH]; intros [|v b]; cbn [strip_common]; try (by exists []; split_and!; naive_solver).
  destruct (String.eqb_spec u v) as [->|Hne].
  - specialize (IH b). destruct (strip_common a b) as [x y]. destruct IH as (p & -> & -> & H).
    by exists (v :: p).
  - exists []. split_and!; [done..|]. intros ? ? ? ? [= <- <-] [= <- <-]. done.
Qed.

Lemma Split_Join_head p l : no_slash p → head (Split (Join (p :: l) "/") slash) = Some p.
Proof.
  intros Hp. destruct l as [|x l].
  - change (head (Split p slash) = Some p). by rewrite Split_no_sep.
  - change (head (Split (p +:+ String slash (Join (x :: l) "/")) slash) = Some p). by rewrite Split_append.
Qed.

(** A relative path leaves its base exactly if it starts with a double dot. *)
Lemma Join_outside p l : no_slash p →
  negb (String.eqb (Join (p :: l) "/") "..") && negb (HasPrefix (Join (p :: l) "/") "../") = negb (String.eqb p "..").
Proof.
  intros Hp. pose proof (Split_Join_head p l Hp) as Hh.
  destruct (String.eqb_spec p "..") as [->|Hne].
  { destruct l as [|x l]; [done|]. unfold Join, HasPrefix. by cbn. }
  destruct (String.eqb_spec (Join (p :: l) "/") "..") as [E|_].
  { rewrite E in Hh. by injection Hh as <-. }
  destruct (HasPrefix _ "../") eqn:E; [|done]. apply HasPrefix_spec in E as [r E]. rewrite E in Hh.
  by injection Hh as <-.
Qed.

(** Between absolute paths, containment is a prefix of the cleaned components. *)
Lemma path_contains_spec a b : IsAbs a = true → IsAbs b = true →
  path_contains a b = true ↔ clean_parts a `prefix_of` clean_parts b.
Proof.
  intros Ha Hb. pose proof (clean_parts_proper a Ha) as Pa. pose proof (clean_parts_proper b Hb) as Pb.
  unfold path_contains, Rel, Clean. rewrite Ha, Hb. cbn [eqb negb].
  destruct (String.eqb_spec ("/" +:+ Join (clean_parts a) "/") ("/" +:+ Join (clean_parts b) "/")) as [E|E].
  { injection E as E. apply Join_inj in E as ->; [|done..]. split; [intros _; reflexivity|done]. }
  pose proof (strip_common_spec (clean_parts a) (clean_parts b)) as Hs.
  destruct (strip_common _ _) as [x y]. destruct Hs as (p & Hxa & Hyb & Hne). rewrite Hxa, Hyb in *.
  apply Forall_app in Pa as [_ Px], Pb as [_ Py]. destruct x as [|u x].
  - rewrite app_nil_r in *. split; [intros _; by apply prefix_app_r|intros _].
    destruct y as [|v y]; [by rewrite app_nil_r in E|]. apply Forall_cons in Py as [(Hv1 & Hv2 & Hv3) _].
    cbn [replicate length app]. rewrite Join_outside by done. by destruct (String.eqb_spec v "..").
  - apply Forall_cons in Px as [(Hu1 & _ & Hu3) _].
    assert (∀ r : option string, match u :: x with ".." :: _ => None | _ => r end = r) as ->.
    { intros r. destruct (String.eqb_spec u "..") as [|Hu]; [done|]. clear -Hu3. repeat (case_match; try done). }
    cbn [replicate length app]. rewrite Join_outside by done. split; [done|].
    intros [k Hk]. rewrite <-app_assoc in Hk. apply app_inv_head in Hk. destruct y as [|v y]; [done|].
    injection Hk as -> _. by destruct (Hne u u x y).
Qed.

(** Cleaning adds no byte other than dots and slashes. *)
Lemma Split_no_byte c s sep : string_elem c s = false → Forall (λ p, string_elem c p = false) (Split s sep).
Proof.
  induction s as [|d s IH]; cbn; [by repeat constructor|].
  destruct (ascii_dec d c) as [|Hd]; [done|]. intros Hs. specialize (IH Hs).
  destruct (ascii_dec d sep); [by constructor|].
  destruct (Split s sep) as [|w ws]; inversion IH; constructor; cbn; (try done); by destruct (ascii_dec d c).
Qed.

Lemma Join_no_byte c l : c ≠ slash → Forall (λ p, string_elem c p = false) l → string_elem c (Join l "/") = false.
Proof.
  intros Hc. unfold Join. induction 1 as [|x l Hx Hl IH]; [done|]. destruct l as [|y l]; [done|].
  change (string_elem c (x +:+ String slash (Join (y :: l) "/")) = false). rewrite string_elem_append, Hx. cbn [orb string_elem].
  by destruct (ascii_dec slash c).
Qed.

Lemma clean_Forall (P : string → Prop) r parts stack : P ".." → Forall P parts → Forall P stack →
  Forall P (clean r parts stack).
Proof.
  intros Hd Hp. revert stack. induction Hp as [|p parts Hp _ IH]; intros stack Hs; cbn.
  { by apply Forall_reverse. }
  destruct (_ || _); [by apply IH|]. destruct (String.eqb p ".."); [|by apply IH; constructor].
  destruct stack as [|x stack]; [destruct r; apply IH; by repeat constructor|].
  destruct (String.eqb x ".."); apply IH; [by constructor|]. by apply Forall_cons in Hs as [].
Qed.

Lemma Clean_no_byte c s : c ≠ slash → c ≠ "."%char → string_elem c s = false → string_elem c (Clean s) = false.
Proof.
  intros H1 H2 Hs. unfold Clean.
  assert (string_elem c (Join (clean_parts s) "/") = false) as Hj.
  { apply Join_no_byte; [done|]. apply clean_Forall; [|by apply Split_no_byte|constructor].
    cbn [string_elem]. by destruct (ascii_dec "." c). }
  destruct (IsAbs s).
  - cbn [String.append string_elem]. by destruct (ascii_dec "/" c).
  - destruct (String.eqb _ _); [|done]. cbn [string_elem]. by destruct (ascii_dec "." c).
Qed.

Lemma Join2_no_byte c a b : c ≠ slash → c ≠ "."%char → string_elem c a = false → string_elem c b = false →
  string_elem c (Join2 a b) = false.
Proof.
  intros H1 H2 Ha Hb. unfold Join2. repeat case_match; try done; apply Clean_no_byte; try done.
  rewrite string_elem_append, Ha. cbn [orb String.append string_elem]. by destruct (ascii_dec "/" c).
Qed.

Lemma contains_nul_elem s : contains_nul s = string_elem "000"%char s.
Proof.
  induction s as [|c s IH]; cbn; [done|]. rewrite IH. destruct (ascii_dec c "000") as [->|Hc]; [done|].
  destruct (Z.eqb_spec (byte_val c) 0) as [E|]; [|done]. by destruct Hc; apply byte_val_inj.
Qed.
