(* ===== verification/GoGlob.v ===== *)
(** * Shell patterns ([filepath.Match] on Unix)

    The matcher of the standard library, chunk by chunk, with its errors for
    malformed patterns.  The recursions consume their pattern or their name, so a
    fuel of its length is enough. *)

From S2P Require Import Prelude Bytes Encoding Json.

(** [utf8.DecodeRuneInString]: the rune and its width. *)
Definition DecodeRune (s : string) : Z * nat :=
  let b i := match String.get i s with Some c => byte_val c | None => 0 end in
  match rune_len s, s with
  | 0%nat, EmptyString => (65533, 0%nat)
  | 0%nat, _ => (65533, 1%nat)
  | 1%nat, _ => (b 0%nat, 1%nat)
  | 2%nat, _ => (Z.land (b 0%nat) 31 * 64 + Z.land (b 1%nat) 63, 2%nat)
  | 3%nat, _ => (Z.land (b 0%nat) 15 * 4096 + Z.land (b 1%nat) 63 * 64 + Z.land (b 2%nat) 63, 3%nat)
  | n, _ => (Z.land (b 0%nat) 7 * 262144 + Z.land (b 1%nat) 63 * 4096 + Z.land (b 2%nat) 63 * 64 +
             Z.land (b 3%nat) 63, n)
  end.

(** The stars in front of a chunk. *)
Fixpoint skip_stars (p : string) : bool * string :=
  match p with
  | String "*" p' => (true, (skip_stars p').2)
  | _ => (false, p)
  end.

(** A chunk ends at the first star outside of brackets. *)
Fixpoint scan (inrange : bool) (p : string) : string * string :=
  match p with
  | EmptyString => ("", "")
  | String "\" (String c p') => let '(a, b) := scan inrange p' in (String "\" (String c a), b)
  | String c p' =>
      if Ascii.eqb c "*" && negb inrange then ("", p)
      else
        let inrange := if Ascii.eqb c "[" then true else if Ascii.eqb c "]" then false else inrange in
        let '(a, b) := scan inrange p' in (String c a, b)
  end.

Definition scanChunk (pattern : string) : bool * string * string :=
  let '(star, p) := skip_stars pattern in
  let '(chunk, rest) := scan false p in
  (star, chunk, rest).

(** A possibly escaped rune of a character class; something must follow it. *)
Definition getEsc (chunk : string) : option (Z * string) :=
  let rune s :=
    let '(r, n) := DecodeRune s in
    let rest := drop_string n s in
    if ((r =? 65533) && (n =? 1)%nat) || String.eqb rest "" then None else Some (r, rest) in
  match chunk with
  | EmptyString => None
  | String c r =>
      if Ascii.eqb c "-" || Ascii.eqb c "]" then None
      else if Ascii.eqb c "\" then (if String.eqb r "" then None else rune r)
      else rune chunk
  end.

(** The ranges of a character class: whether one holds [r], and what follows. *)
Fixpoint class_ranges (fuel : nat) (first : bool) (r : Z) (found : bool) (chunk : string) : option (bool * string) :=
  match fuel with
  | O => None
  | S f =>
      match chunk, first with
      | String "]" rest, false => Some (found, rest)
      | _, _ =>
          '(lo, c1) ← getEsc chunk;
          '(hi, c2) ← (match c1 with String "-" c1' => getEsc c1' | _ => Some (lo, c1) end);
          class_ranges f false r (found || ((lo <=? r) && (r <=? hi))) c2
      end
  end.

(** [None]: a malformed pattern; [Some None]: no match; [Some (Some rest)]: the
    chunk matches a prefix and [rest] remains.  After a mismatch the chunk is
    still read to its end for its syntax. *)
Fixpoint matchChunk (fuel : nat) (failed : bool) (chunk s : string) : option (option string) :=
  match fuel, chunk with
  | _, EmptyString => Some (if failed then None else Some s)
  | O, _ => None
  | S f, String c chunk' =>
      let failed := failed || String.eqb s "" in
      if Ascii.eqb c "[" then
        let '(r, n) := if failed then (0, 0%nat) else DecodeRune s in
        let '(negated, chunk') :=
          match chunk' with String "^" chunk'' => (true, chunk'') | _ => (false, chunk') end in
        '(found, rest) ← class_ranges (S (String.length chunk')) true r false chunk';
        matchChunk f (failed || Bool.eqb found negated) rest (drop_string n s)
      else if Ascii.eqb c "?" then
        if failed then matchChunk f true chunk' s
        else matchChunk f (HasPrefix s "/") chunk' (drop_string (DecodeRune s).2 s)
      else
        match (if Ascii.eqb c "\" then chunk' else chunk) with
        | EmptyString => None
        | String d chunk'' =>
            if failed then matchChunk f true chunk'' s
            else match s with
                 | String x s' => matchChunk f (negb (Ascii.eqb d x)) chunk'' s'
                 | EmptyString => None
                 end
        end
  end.

Definition match_chunk (chunk s : string) : option (option string) :=
  matchChunk (String.length chunk) false chunk s.

(** The syntax of what a failed match leaves unread. *)
Fixpoint check_rest (fuel : nat) (pattern : string) : option bool :=
  match fuel, pattern with
  | S f, String _ _ =>
      let '(_, chunk, rest) := scanChunk pattern in
      _ ← match_chunk chunk ""; check_rest f rest
  | _, _ => Some false
  end.

(** The chunk after a star, tried behind each further byte that is no separator. *)
Fixpoint skip_match (last : bool) (chunk name : string) : option (option string) :=
  match name with
  | EmptyString => Some None
  | String c name' =>
      if Ascii.eqb c "/" then Some None
      else
        r ← match_chunk chunk name';
        match r with
        | Some t => if last && negb (String.eqb t "") then skip_match last chunk name' else Some (Some t)
        | None => skip_match last chunk name'
        end
  end.

Fixpoint Match_loop (fuel : nat) (pattern name : string) : option bool :=
  match fuel, pattern with
  | _, EmptyString => Some (String.eqb name "")
  | O, _ => None
  | S f, _ =>
      let '(star, chunk, rest) := scanChunk pattern in
      if star && String.eqb chunk "" then Some (all_bytes (λ c, negb (Ascii.eqb c "/")) name)
      else
        let last := String.eqb rest "" in
        r ← match_chunk chunk name;
        let here := match r with Some t => if String.eqb t "" || negb last then r else None | None => None end in
        match here with
        | Some t => Match_loop f rest t
        | None =>
            k ← (if star then skip_match last chunk name else Some None);
            match k with
            | Some t => Match_loop f rest t
            | None => check_rest (String.length rest) rest
            end
        end
  end.

(** [None] is [ErrBadPattern]. *)
Definition Match (pattern name : string) : option bool := Match_loop (S (String.length pattern)) pattern name.

Lemma Match_examples :
  Match "*.txt" "a.txt" = Some true ∧ Match "*.txt" "d/a.txt" = Some false ∧
  Match "[a-c]?[^x]" "bz1" = Some true ∧ Match "a*b*c" "axxbyyc" = Some true ∧
  Match "\*" "*" = Some true ∧ Match "[" "a" = None ∧ Match "a[" "probe" = None ∧
  Match "a\" "probe" = None ∧ Match "[]a]" "a" = None ∧ Match "*" "" = Some true ∧
  Match "[x-]" "x" = None ∧ Match "a*[" "probe" = None ∧ Match "ab*" "ab/c" = Some false.
Proof. vm_compute. repeat split. Qed.
