(* ===== verification/Config.v ===== *)
(** * The configuration of a collector (internal/config)

    The records of the configuration with their JSON decoding, [Load],
    [Validate] in the order of its tests, the [Fingerprint] a queue is tied to,
    and the helpers [Engine] and [DeliveryTransport].  The contents of the file,
    the environment and the working directory are arguments. *)

From S2P Require Import Prelude Bytes Sorting Encoding Sha256 Json JsonStruct GoTime GoClock GoNet GoPath GoGlob.

(** ** Decoding with defaults *)

(** A struct decoded over its old value with [DisallowUnknownFields]. *)
Definition dec_strict {A} (names : list string) (f : list (string * json) → option A) (old : A) (v : json) : option A :=
  match v with
  | JNull => Some old
  | JObj ms => if forallb (λ m, existsb (String.eqb (ToLower m.1)) names) ms then f ms else None
  | _ => None
  end.

(** A slice: an element is decoded over the one that was at its place. *)
Fixpoint dec_over {A} (zero : A) (d : A → json → option A) (old : list A) (l : list json) : option (list A) :=
  match l with
  | [] => Some []
  | v :: l' =>
      x ← d (hd zero old) v;
      r ← dec_over zero d (tail old) l';
      Some (x :: r)
  end.

Definition dec_slice {A} (zero : A) (d : A → json → option A) (old : list A) (v : json) : option (list A) :=
  match v with
  | JNull => Some []
  | JArr l => dec_over zero d old l
  | _ => None
  end.

(** A map of strings: members are added to the old map. *)
Definition dec_strmap (old : gmap string string) (v : json) : option (gmap string string) :=
  match v with
  | JNull => Some ∅
  | JObj ms => foldl (λ acc m, acc ← acc; x ← dec_str "" m.2; Some (<[m.1 := x]> acc)) (Some old) ms
  | _ => None
  end.

Module config.

(** ** Records *)

Module Table.
Record t := mk {
  Schema : string;
  Name : string
}.

#[global] Instance eq_dec : EqDecision t.
Proof. solve_decision. Defined.

Definition zero : t :=
  mk "" "".

Definition dec (old : t) (v : json) : option t :=
  dec_strict
    ["schema"; "name"]
    (λ ms,
      x0 ← obj_fold "schema" dec_str (Schema old) ms;
      x1 ← obj_fold "name" dec_str (Name old) ms;
      Some (mk x0 x1)) old v.

Definition String (x : t) : string := Schema x +:+ "." +:+ Name x.

Definition to_json (x : t) : json := struct_json [("schema", str (Schema x)); ("name", str (Name x))].
End Table.

Module FileColumn.
Record t := mk {
  Schema : string;
  Table : string;
  Column : string;
  RootDir : string;
  MaxBytes : Z
}.

#[global] Instance eq_dec : EqDecision t.
Proof. solve_decision. Defined.

Definition zero : t :=
  mk "" "" "" "" 0.

Definition dec (old : t) (v : json) : option t :=
  dec_strict
    ["schema"; "table"; "column"; "root_dir"; "max_bytes"]
    (λ ms,
      x0 ← obj_fold "schema" dec_str (Schema old) ms;
      x1 ← obj_fold "table" dec_str (Table old) ms;
      x2 ← obj_fold "column" dec_str (Column old) ms;
      x3 ← obj_fold "root_dir" dec_str (RootDir old) ms;
      x4 ← obj_fold "max_bytes" (dec_int 64) (MaxBytes old) ms;
      Some (mk x0 x1 x2 x3 x4)) old v.

Definition to_json (x : t) : json :=
  struct_json [("schema", str (Schema x)); ("table", str (Table x)); ("column", str (Column x));
               ("root_dir", str (RootDir x)); ("max_bytes", num (MaxBytes x))].
End FileColumn.

Module Log.
Record t := mk {
  File : string;
  Level : string;
  MaxSizeMB : Z;
  MaxBackups : Z;
  MaxAgeDays : Z;
  Compress : bool
}.

#[global] Instance eq_dec : EqDecision t.
Proof. solve_decision. Defined.

Definition zero : t :=
  mk "" "" 0 0 0 false.

Definition dec (old : t) (v : json) : option t :=
  dec_strict
    ["file"; "level"; "max_size_mb"; "max_backups"; "max_age_days"; "compress"]
    (λ ms,
      x0 ← obj_fold "file" dec_str (File old) ms;
      x1 ← obj_fold "level" dec_str (Level old) ms;
      x2 ← obj_fold "max_size_mb" (dec_int 64) (MaxSizeMB old) ms;
      x3 ← obj_fold "max_backups" (dec_int 64) (MaxBackups old) ms;
      x4 ← obj_fold "max_age_days" (dec_int 64) (MaxAgeDays old) ms;
      x5 ← obj_fold "compress" dec_bool (Compress old) ms;
      Some (mk x0 x1 x2 x3 x4 x5)) old v.
End Log.

Module GRPCTLS.
Record t := mk {
  CAFile : string;
  ServerName : string
}.

#[global] Instance eq_dec : EqDecision t.
Proof. solve_decision. Defined.

Definition zero : t :=
  mk "" "".

Definition dec (old : t) (v : json) : option t :=
  dec_strict
    ["ca_file"; "server_name"]
    (λ ms,
      x0 ← obj_fold "ca_file" dec_str (CAFile old) ms;
      x1 ← obj_fold "server_name" dec_str (ServerName old) ms;
      Some (mk x0 x1)) old v.
End GRPCTLS.

Module GRPC.
Record t := mk {
  Address : string;
  Token : string;
  TLS : GRPCTLS.t;
  MetricsInterval : string
}.

#[global] Instance eq_dec : EqDecision t.
Proof. solve_decision. Defined.

Definition zero : t :=
  mk "" "" GRPCTLS.zero "".

Definition dec (old : t) (v : json) : option t :=
  dec_strict
    ["address"; "token"; "tls"; "metrics_interval"]
    (λ ms,
      x0 ← obj_fold "address" dec_str (Address old) ms;
      x1 ← obj_fold "token" dec_str (Token old) ms;
      x2 ← obj_fold "tls" GRPCTLS.dec (TLS old) ms;
      x3 ← obj_fold "metrics_interval" dec_str (MetricsInterval old) ms;
      Some (mk x0 x1 x2 x3)) old v.
End GRPC.

Module Replay.
Record t := mk {
  MaxAge : string;
  MaxBytes : Z
}.

#[global] Instance eq_dec : EqDecision t.
Proof. solve_decision. Defined.

Definition zero : t :=
  mk "" 0.

Definition dec (old : t) (v : json) : option t :=
  dec_strict
    ["max_age"; "max_bytes"]
    (λ ms,
      x0 ← obj_fold "max_age" dec_str (MaxAge old) ms;
      x1 ← obj_fold "max_bytes" (dec_int 64) (MaxBytes old) ms;
      Some (mk x0 x1)) old v.
End Replay.

Module FileWatch.
Record t := mk {
  RootDir : string;
  ScanInterval : string;
  Include : list string;
  Exclude : list string;
  Events : list string;
  MaxFileBytes : Z;
  ChunkBytes : Z
}.

#[global] Instance eq_dec : EqDecision t.
Proof. solve_decision. Defined.

Definition zero : t :=
  mk "" "" [] [] [] 0 0.

Definition dec (old : t) (v : json) : option t :=
  dec_strict
    ["root_dir"; "scan_interval"; "include"; "exclude"; "events"; "max_file_bytes"; "chunk_bytes"]
    (λ ms,
      x0 ← obj_fold "root_dir" dec_str (RootDir old) ms;
      x1 ← obj_fold "scan_interval" dec_str (ScanInterval old) ms;
      x2 ← obj_fold "include" (dec_slice "" dec_str) (Include old) ms;
      x3 ← obj_fold "exclude" (dec_slice "" dec_str) (Exclude old) ms;
      x4 ← obj_fold "events" (dec_slice "" dec_str) (Events old) ms;
      x5 ← obj_fold "max_file_bytes" (dec_int 64) (MaxFileBytes old) ms;
      x6 ← obj_fold "chunk_bytes" (dec_int 64) (ChunkBytes old) ms;
      Some (mk x0 x1 x2 x3 x4 x5 x6)) old v.

Definition to_json (x : t) : json :=
  struct_json [("root_dir", str (RootDir x)); ("scan_interval", omit_str (ScanInterval x));
               ("include", omit_list JStr (Include x)); ("exclude", omit_list JStr (Exclude x));
               ("events", omit_list JStr (Events x)); ("max_file_bytes", omit_num (MaxFileBytes x));
               ("chunk_bytes", omit_num (ChunkBytes x))].
End FileWatch.

Module SQLServer.
Record t := mk {
  AllowSnapshotLocks : bool;
  FenceTable : Table.t;
  PollInterval : string;
  QueryTimeout : string;
  SnapshotTimeout : string;
  FenceTimeout : string
}.

#[global] Instance eq_dec : EqDecision t.
Proof. solve_decision. Defined.

Definition zero : t :=
  mk false Table.zero "" "" "" "".

Definition dec (old : t) (v : json) : option t :=
  dec_strict
    ["allow_snapshot_locks"; "fence_table"; "poll_interval"; "query_timeout"; "snapshot_timeout";
     "fence_timeout"]
    (λ ms,
      x0 ← obj_fold "allow_snapshot_locks" dec_bool (AllowSnapshotLocks old) ms;
      x1 ← obj_fold "fence_table" Table.dec (FenceTable old) ms;
      x2 ← obj_fold "poll_interval" dec_str (PollInterval old) ms;
      x3 ← obj_fold "query_timeout" dec_str (QueryTimeout old) ms;
      x4 ← obj_fold "snapshot_timeout" dec_str (SnapshotTimeout old) ms;
      x5 ← obj_fold "fence_timeout" dec_str (FenceTimeout old) ms;
      Some (mk x0 x1 x2 x3 x4 x5)) old v.
End SQLServer.

Module SQLServerLegacy.
Record t := mk {
  AutoInstall : bool;
  AllowSnapshotLocks : bool;
  Owner : string;
  Prefix : string;
  PollInterval : string;
  QueryTimeout : string;
  SnapshotTimeout : string
}.

#[global] Instance eq_dec : EqDecision t.
Proof. solve_decision. Defined.

Definition zero : t :=
  mk false false "" "" "" "" "".

Definition dec (old : t) (v : json) : option t :=
  dec_strict
    ["auto_install"; "allow_snapshot_locks"; "owner"; "prefix"; "poll_interval"; "query_timeout";
     "snapshot_timeout"]
    (λ ms,
      x0 ← obj_fold "auto_install" dec_bool (AutoInstall old) ms;
      x1 ← obj_fold "allow_snapshot_locks" dec_bool (AllowSnapshotLocks old) ms;
      x2 ← obj_fold "owner" dec_str (Owner old) ms;
      x3 ← obj_fold "prefix" dec_str (Prefix old) ms;
      x4 ← obj_fold "poll_interval" dec_str (PollInterval old) ms;
      x5 ← obj_fold "query_timeout" dec_str (QueryTimeout old) ms;
      x6 ← obj_fold "snapshot_timeout" dec_str (SnapshotTimeout old) ms;
      Some (mk x0 x1 x2 x3 x4 x5 x6)) old v.
End SQLServerLegacy.

Module MySQL.
Record t := mk {
  ServerID : Z;
  AllowSnapshotLock : bool;
  ConnectTimeout : string;
  SnapshotTimeout : string
}.

#[global] Instance eq_dec : EqDecision t.
Proof. solve_decision. Defined.

Definition zero : t :=
  mk 0 false "" "".

Definition dec (old : t) (v : json) : option t :=
  dec_strict
    ["server_id"; "allow_snapshot_lock"; "connect_timeout"; "snapshot_timeout"]
    (λ ms,
      x0 ← obj_fold "server_id" (dec_uint 32) (ServerID old) ms;
      x1 ← obj_fold "allow_snapshot_lock" dec_bool (AllowSnapshotLock old) ms;
      x2 ← obj_fold "connect_timeout" dec_str (ConnectTimeout old) ms;
      x3 ← obj_fold "snapshot_timeout" dec_str (SnapshotTimeout old) ms;
      Some (mk x0 x1 x2 x3)) old v.
End MySQL.

Module Config.
Record t := mk {
  Transport : string;
  GRPC_ : GRPC.t;
  Replay_ : Replay.t;
  SourceType : string;
  SQLServer_ : SQLServer.t;
  SQLServerLegacy_ : SQLServerLegacy.t;
  MySQL_ : MySQL.t;
  FileWatch_ : FileWatch.t;
  SourceID : string;
  DSN : string;
  Slot : string;
  Tables : list Table.t;
  FileColumns : list FileColumn.t;
  DataDir : string;
  URL : string;
  Headers : gmap string string;
  QueueBytes : Z;
  ReserveBytes : Z;
  BatchRows : Z;
  BatchBytes : Z;
  MaxRowBytes : Z;
  HTTPTimeout : string;
  RetryMin : string;
  RetryMax : string;
  MetricsAddr : string;
  Log_ : Log.t;
  Wal2JSONAutoInstall : bool;
  PostgresBinDir : string
}.

Definition zero : t :=
  mk "" GRPC.zero Replay.zero "" SQLServer.zero SQLServerLegacy.zero MySQL.zero FileWatch.zero "" "" "" []
  [] "" "" ∅ 0 0 0 0 0 "" "" "" "" Log.zero false "".

Definition dec (old : t) (v : json) : option t :=
  dec_strict
    ["transport"; "grpc"; "replay"; "source_type"; "sqlserver"; "sqlserver_legacy"; "mysql"; "file_watch";
     "source_id"; "dsn"; "slot"; "tables"; "file_columns"; "data_dir"; "http_url"; "http_headers";
     "queue_bytes"; "reserve_bytes"; "batch_rows"; "batch_bytes"; "max_row_bytes"; "http_timeout";
     "retry_min"; "retry_max"; "metrics_addr"; "log"; "wal2json_auto_install"; "postgres_bin_dir"]
    (λ ms,
      x0 ← obj_fold "transport" dec_str (Transport old) ms;
      x1 ← obj_fold "grpc" GRPC.dec (GRPC_ old) ms;
      x2 ← obj_fold "replay" Replay.dec (Replay_ old) ms;
      x3 ← obj_fold "source_type" dec_str (SourceType old) ms;
      x4 ← obj_fold "sqlserver" SQLServer.dec (SQLServer_ old) ms;
      x5 ← obj_fold "sqlserver_legacy" SQLServerLegacy.dec (SQLServerLegacy_ old) ms;
      x6 ← obj_fold "mysql" MySQL.dec (MySQL_ old) ms;
      x7 ← obj_fold "file_watch" FileWatch.dec (FileWatch_ old) ms;
      x8 ← obj_fold "source_id" dec_str (SourceID old) ms;
      x9 ← obj_fold "dsn" dec_str (DSN old) ms;
      x10 ← obj_fold "slot" dec_str (Slot old) ms;
      x11 ← obj_fold "tables" (dec_slice Table.zero Table.dec) (Tables old) ms;
      x12 ← obj_fold "file_columns" (dec_slice FileColumn.zero FileColumn.dec) (FileColumns old) ms;
      x13 ← obj_fold "data_dir" dec_str (DataDir old) ms;
      x14 ← obj_fold "http_url" dec_str (URL old) ms;
      x15 ← obj_fold "http_headers" dec_strmap (Headers old) ms;
      x16 ← obj_fold "queue_bytes" (dec_int 64) (QueueBytes old) ms;
      x17 ← obj_fold "reserve_bytes" (dec_uint 64) (ReserveBytes old) ms;
      x18 ← obj_fold "batch_rows" (dec_int 64) (BatchRows old) ms;
      x19 ← obj_fold "batch_bytes" (dec_int 64) (BatchBytes old) ms;
      x20 ← obj_fold "max_row_bytes" (dec_int 64) (MaxRowBytes old) ms;
      x21 ← obj_fold "http_timeout" dec_str (HTTPTimeout old) ms;
      x22 ← obj_fold "retry_min" dec_str (RetryMin old) ms;
      x23 ← obj_fold "retry_max" dec_str (RetryMax old) ms;
      x24 ← obj_fold "metrics_addr" dec_str (MetricsAddr old) ms;
      x25 ← obj_fold "log" Log.dec (Log_ old) ms;
      x26 ← obj_fold "wal2json_auto_install" dec_bool (Wal2JSONAutoInstall old) ms;
      x27 ← obj_fold "postgres_bin_dir" dec_str (PostgresBinDir old) ms;
      Some (mk x0 x1 x2 x3 x4 x5 x6 x7 x8 x9 x10 x11 x12 x13 x14 x15 x16 x17 x18 x19 x20 x21 x22 x23 x24 x25
      x26 x27)) old v.
End Config.

Definition Defaults : Config.t :=
  Config.mk "" (GRPC.mk "" "" GRPCTLS.zero "30s") (Replay.mk "168h" (20 * 2 ^ 30)) ""
    (SQLServer.mk false Table.zero "1s" "5m" "1h" "2m")
    (SQLServerLegacy.mk true false "dbo" "go_sync_legacy" "1s" "5m" "1h")
    (MySQL.mk 100001 false "30s" "1h")
    (FileWatch.mk "" "5s" [] [] ["create"; "update"; "delete"] (2 ^ 30) (4 * 2 ^ 20))
    "" "" "" [] [] "data" "" ∅ (10 * 2 ^ 30) (256 * 2 ^ 20) 500 (2 ^ 20) (16 * 2 ^ 20) "30s" "1s" "60s" ""
    (Log.mk "" "info" 100 10 30 true) true "".

(** A configuration without a source type is PostgreSQL. *)
Definition Engine (c : Config.t) : string :=
  if String.eqb (Config.SourceType c) "" then "postgres" else Config.SourceType c.

Definition DeliveryTransport (c : Config.t) : string :=
  if String.eqb (Config.Transport c) "" then "http" else ToLower (Config.Transport c).

(** ** Validation *)

(** [time.ParseDuration] and a lower bound. *)
Definition duration_at_least (lo : Z) (s : string) : bool :=
  match ParseDuration s with Some d => lo <=? d | None => false end.

(** [d > 0] *)
Definition positive_duration : string → bool := duration_at_least 1.

Definition SQLServer_validate (c : SQLServer.t) (tables : list Table.t) : result unit :=
  _ ← fail_if (negb (forallb positive_duration
        [SQLServer.PollInterval c; SQLServer.QueryTimeout c; SQLServer.SnapshotTimeout c; SQLServer.FenceTimeout c]))
        (errorf "sqlserver durations must be positive");
  _ ← fail_if (existsb (λ t, existsb (λ n, String.eqb n "" || contains_nul n || (128 <? utf16_len n))
                               [Table.Schema t; Table.Name t]) (tables ++ [SQLServer.FenceTable c]))
        (errorf "sqlserver table and fence names must contain 1–128 utf16 code units and no nul");
  fail_if (existsb (λ t, bool_decide (t = SQLServer.FenceTable c)) tables)
    (errorf "sqlserver fence_table must not be a captured business table").

Definition legacyIdentifier : string → bool := match_identifier "" 63.

Definition SQLServerLegacy_validate (c : SQLServerLegacy.t) (tables : list Table.t) : result unit :=
  _ ← fail_if (negb (legacyIdentifier (SQLServerLegacy.Owner c)) || negb (legacyIdentifier (SQLServerLegacy.Prefix c)))
        (errorf "sqlserver_legacy owner and prefix must be simple identifiers of at most 64 characters");
  _ ← fail_if (negb (forallb positive_duration
        [SQLServerLegacy.PollInterval c; SQLServerLegacy.QueryTimeout c; SQLServerLegacy.SnapshotTimeout c]))
        (errorf "sqlserver_legacy durations must be positive");
  fail_if (existsb (λ t, negb (legacyIdentifier (Table.Schema t)) || negb (legacyIdentifier (Table.Name t))) tables)
    (errorf "sqlserver_legacy table names must be simple identifiers of at most 64 characters").

(** [^[A-Za-z0-9_$]{1,64}$] *)
Definition mysqlIdentifier (s : string) : bool :=
  length_between 1 64 s && all_bytes (λ c, is_alnum c || string_elem c "_$") s.

Definition MySQL_validate (c : MySQL.t) (tables : list Table.t) : result unit :=
  _ ← fail_if (MySQL.ServerID c =? 0)
        (errorf "mysql.server_id must be nonzero and unique among replication clients");
  _ ← fail_if (negb (forallb positive_duration [MySQL.ConnectTimeout c; MySQL.SnapshotTimeout c]))
        (errorf "mysql durations must be positive");
  fail_if (existsb (λ t, negb (mysqlIdentifier (Table.Schema t)) || negb (mysqlIdentifier (Table.Name t))) tables)
    (errorf "mysql table names must contain 1-64 letters, digits, underscores or dollar signs").

Definition pathsOverlap (a b : string) : bool := path_contains a b || path_contains b a.

(** The loop over the patterns. *)
Fixpoint check_patterns (l : list string) : result unit :=
  match l with
  | [] => Ok tt
  | p :: l' =>
      _ ← fail_if (String.eqb p "" || contains_nul p)
            (errorf "file_watch patterns must be nonempty and contain no nul");
      _ ← fail_if (match Match p "probe" with Some _ => false | None => true end)
            (errorf "invalid file_watch pattern %q");
      check_patterns l'
  end.

(** The loop over the events, with those seen before. *)
Fixpoint check_events (seen l : list string) : result unit :=
  match l with
  | [] => fail_if (bool_decide (seen = [])) (errorf "file_watch.events must not be empty")
  | e :: l' =>
      _ ← fail_if (negb (existsb (String.eqb e) ["create"; "update"; "delete"]))
            (errorf "file_watch.events may contain only create, update and delete");
      _ ← fail_if (existsb (String.eqb e) seen) (errorf "file_watch.events must be unique");
      check_events (e :: seen) l'
  end.

(** [(maxRowBytes - 64<<10) * 3 / 4] *)
Definition maxChunkBytes (maxRowBytes : Z) : Z := Z.quot (i64 (i64 (maxRowBytes - 65536) * 3)) 4.

Definition FileWatch_validate (cwd : string) (f : FileWatch.t) (dataDir : string) (maxRowBytes : Z) : result unit :=
  _ ← fail_if (negb (IsAbs (FileWatch.RootDir f)) || contains_nul (FileWatch.RootDir f))
        (errorf "file_watch.root_dir must be an absolute path without nul");
  _ ← fail_if (negb (duration_at_least second (FileWatch.ScanInterval f)))
        (errorf "file_watch.scan_interval must be at least 1s");
  _ ← fail_if ((FileWatch.ChunkBytes f <? 65536) || (maxChunkBytes maxRowBytes <? FileWatch.ChunkBytes f))
        (errorf "file_watch.chunk_bytes must be at least 64 KiB and leave room for base64 below max_row_bytes");
  _ ← fail_if (FileWatch.MaxFileBytes f <? FileWatch.ChunkBytes f)
        (errorf "file_watch.max_file_bytes must be at least chunk_bytes");
  _ ← fail_if (2 ^ 40 <? FileWatch.MaxFileBytes f)
        (errorf "file_watch.max_file_bytes must not exceed 1 TiB");
  _ ← check_patterns (FileWatch.Include f ++ FileWatch.Exclude f);
  _ ← check_events [] (FileWatch.Events f);
  fail_if (pathsOverlap (Abs cwd (FileWatch.RootDir f)) (Abs cwd dataDir))
    (errorf "file_watch.root_dir and data_dir must not overlap").

Definition Log_validate (l : Log.t) : result unit :=
  _ ← fail_if (contains_nul (Log.File l)) (errorf "log.file must not contain nul");
  _ ← fail_if (negb (existsb (String.eqb (ToLower (Log.Level l))) ["debug"; "info"; "warn"; "error"]))
        (errorf "log.level must be debug, info, warn or error");
  _ ← fail_if ((Log.MaxSizeMB l <? 1) || (10240 <? Log.MaxSizeMB l))
        (errorf "log.max_size_mb must be between 1 and 10240");
  _ ← fail_if ((Log.MaxBackups l <? 0) || (10000 <? Log.MaxBackups l))
        (errorf "log.max_backups must be between 0 and 10000");
  fail_if ((Log.MaxAgeDays l <? 0) || (36500 <? Log.MaxAgeDays l))
    (errorf "log.max_age_days must be between 0 and 36500").

(** The loop over the tables. *)
Fixpoint check_tables (seen l : list Table.t) : result unit :=
  match l with
  | [] => Ok tt
  | t :: l' =>
      _ ← fail_if (String.eqb (Table.Schema t) "" || String.eqb (Table.Name t) "" ||
                   contains_nul (Table.Schema t +:+ Table.Name t) || bool_decide (t ∈ seen))
            (errorf "table names must be nonempty, unique and contain no nul");
      check_tables (t :: seen) l'
  end.

Definition file_rule (r : FileColumn.t) : string * string * string :=
  (FileColumn.Schema r, FileColumn.Table r, FileColumn.Column r).

(** The loop over the file columns. *)
Fixpoint check_file_columns (maxRowBytes : Z) (tables : list Table.t) (seen : list (string * string * string))
    (l : list FileColumn.t) : result unit :=
  match l with
  | [] => Ok tt
  | r :: l' =>
      _ ← fail_if (String.eqb (FileColumn.Schema r) "" || String.eqb (FileColumn.Table r) "" ||
                   String.eqb (FileColumn.Column r) "" || String.eqb (FileColumn.RootDir r) "" ||
                   contains_nul (FileColumn.Schema r +:+ FileColumn.Table r +:+ FileColumn.Column r +:+
                                 FileColumn.RootDir r))
            (errorf "file_columns require schema, table, column and root_dir without nul");
      _ ← fail_if (negb (IsAbs (FileColumn.RootDir r))) (errorf "file_columns root_dir must be an absolute path");
      _ ← fail_if ((FileColumn.MaxBytes r <? 1) || (maxRowBytes <? FileColumn.MaxBytes r))
            (errorf "file_columns max_bytes must be positive and no larger than max_row_bytes");
      _ ← fail_if (negb (bool_decide (Table.mk (FileColumn.Schema r) (FileColumn.Table r) ∈ tables)))
            (errorf "file_columns must reference a selected table");
      _ ← fail_if (bool_decide (file_rule r ∈ seen)) (errorf "file_columns must be unique");
      check_file_columns maxRowBytes tables (file_rule r :: seen) l'
  end.

(** [host:port] with a port between 1 and 65535. *)
Definition metrics_addr_ok (a : string) : bool :=
  match SplitHostPort a with
  | Some (_, port) => match ParseInt port 64 with Some n => (1 <=? n) && (n <=? 65535) | None => false end
  | None => false
  end.

(** The source the configuration selects. *)
Definition validate_engine (cwd : string) (c : Config.t) : result unit :=
  let e := Engine c in
  if String.eqb e "sqlserver" then SQLServer_validate (Config.SQLServer_ c) (Config.Tables c)
  else if String.eqb e "sqlserver_legacy" then SQLServerLegacy_validate (Config.SQLServerLegacy_ c) (Config.Tables c)
  else if String.eqb e "mysql" then MySQL_validate (Config.MySQL_ c) (Config.Tables c)
  else if String.eqb e "files" then
    FileWatch_validate cwd (Config.FileWatch_ c) (Config.DataDir c) (Config.MaxRowBytes c)
  else Ok tt.

Definition validate_transport (c : Config.t) : result unit :=
  if String.eqb (DeliveryTransport c) "http" then
    fail_if (negb (http_url (Config.URL c))) (errorf "http_url must be an http(s) url without credentials")
  else if String.eqb (DeliveryTransport c) "grpc" then
    let g := Config.GRPC_ c in
    _ ← fail_if (String.eqb (GRPC.Address g) "" || String.eqb (GRPC.Token g) "" ||
                 String.eqb (GRPCTLS.CAFile (GRPC.TLS g)) "")
          (errorf "grpc address, token and tls.ca_file are required");
    fail_if (contains_nul (GRPC.Address g +:+ GRPCTLS.CAFile (GRPC.TLS g) +:+ GRPCTLS.ServerName (GRPC.TLS g)))
      (errorf "grpc configuration must not contain nul")
  else Err (errorf "transport must be http or grpc").

Definition Validate (cwd : string) (c : Config.t) : result unit :=
  _ ← fail_if (negb (existsb (String.eqb (Engine c)) ["postgres"; "sqlserver"; "sqlserver_legacy"; "mysql"; "files"]))
        (errorf "source_type must be postgres, sqlserver, sqlserver_legacy, mysql or files");
  _ ← validate_engine cwd c;
  _ ← fail_if (contains_nul (Config.PostgresBinDir c)) (errorf "postgres_bin_dir must not contain nul");
  _ ← Log_validate (Config.Log_ c);
  _ ← fail_if (negb (String.eqb (Config.MetricsAddr c) "") && negb (metrics_addr_ok (Config.MetricsAddr c)))
        (errorf "metrics_addr must be host:port with a numeric port between 1 and 65535");
  let files := String.eqb (Engine c) "files" in
  _ ← fail_if (String.eqb (Config.SourceID c) "" || String.eqb (Config.DataDir c) "" ||
               (negb files && String.eqb (Config.DSN c) ""))
        (errorf "source_id, data_dir and (for database sources) dsn are required");
  _ ← fail_if (negb (match_id (Config.SourceID c)))
        (errorf "source_id must contain 1–128 ascii letters, digits, dots, underscores or hyphens");
  _ ← fail_if (String.eqb (Engine c) "postgres" && negb (match_slot (Config.Slot c)))
        (errorf "slot must contain 1–63 lowercase letters, digits or underscores");
  _ ← validate_transport c;
  _ ← fail_if (negb files && bool_decide (Config.Tables c = [])) (errorf "tables must not be empty");
  _ ← check_tables [] (Config.Tables c);
  _ ← fail_if ((Config.BatchRows c <? 1) || (Config.BatchBytes c <? 1024) ||
               (Config.MaxRowBytes c <? Config.BatchBytes c) ||
               (Config.QueueBytes c <? i64 (Config.MaxRowBytes c * 2)))
        (errorf "invalid batch or queue limits");
  _ ← check_file_columns (Config.MaxRowBytes c) (Config.Tables c) [] (Config.FileColumns c);
  _ ← fail_if (negb (forallb positive_duration [Config.HTTPTimeout c; Config.RetryMin c; Config.RetryMax c]))
        (errorf "timeouts must be positive durations");
  _ ← fail_if (negb (positive_duration (Replay.MaxAge (Config.Replay_ c))))
        (errorf "replay.max_age must be a positive duration");
  _ ← fail_if (Replay.MaxBytes (Config.Replay_ c) <? 2 ^ 20) (errorf "replay.max_bytes must be at least 1 MiB");
  _ ← fail_if (negb (duration_at_least (5 * second) (GRPC.MetricsInterval (Config.GRPC_ c))))
        (errorf "grpc.metrics_interval must be at least 5s");
  _ ← fail_if (default 0 (ParseDuration (Config.RetryMax c)) <? default 0 (ParseDuration (Config.RetryMin c)))
        (errorf "retry_min exceeds retry_max");
  fail_if (existsb (λ kv, ContainsAny (kv.1 +:+ kv.2) crlf || String.eqb kv.1 "") (map_to_list (Config.Headers c)))
    (errorf "invalid http header").

(** ** Loading *)

(** Only the secrets are expanded. *)
Definition expand_secrets (env : string → string) (c : Config.t) : Config.t :=
  let g := Config.GRPC_ c in
  Config.mk (Config.Transport c)
    (GRPC.mk (GRPC.Address g) (ExpandEnv env (GRPC.Token g)) (GRPC.TLS g) (GRPC.MetricsInterval g))
    (Config.Replay_ c) (Config.SourceType c) (Config.SQLServer_ c) (Config.SQLServerLegacy_ c) (Config.MySQL_ c)
    (Config.FileWatch_ c) (Config.SourceID c) (ExpandEnv env (Config.DSN c)) (Config.Slot c) (Config.Tables c)
    (Config.FileColumns c) (Config.DataDir c) (Config.URL c) (ExpandEnv env <$> Config.Headers c)
    (Config.QueueBytes c) (Config.ReserveBytes c) (Config.BatchRows c) (Config.BatchBytes c) (Config.MaxRowBytes c)
    (Config.HTTPTimeout c) (Config.RetryMin c) (Config.RetryMax c) (Config.MetricsAddr c) (Config.Log_ c)
    (Config.Wal2JSONAutoInstall c) (Config.PostgresBinDir c).

(** The first value of a stream of JSON values, and what follows it. *)
Definition decode_first (s : string) : option (json * string) := parse_value (2 * String.length s + 2) s.

Definition Load (cwd : string) (env : string → string) (file : result string) : result Config.t :=
  text ← file;
  '(v, rest) ← or_err (decode_first text) (errorf "config: %w");
  c ← or_err (Config.dec Defaults v) (errorf "config: %w");
  _ ← fail_if (negb (String.eqb (skip_ws rest) "")) (errorf "config: trailing json");
  let c := expand_secrets env c in
  _ ← Validate cwd c;
  Ok c.

(** ** The fingerprint *)

Definition by_table (a b : Table.t) : bool := String.ltb (Table.String a) (Table.String b).

Definition nul : string := of_bytes [0].

Definition file_column_key (r : FileColumn.t) : string :=
  FileColumn.Schema r +:+ nul +:+ FileColumn.Table r +:+ nul +:+ FileColumn.Column r.

Definition by_file_column (a b : FileColumn.t) : bool := String.ltb (file_column_key a) (file_column_key b).

(** The document that is hashed. *)
Definition fingerprint_document (c : Config.t) : json :=
  let tables := ("Tables", null_list Table.to_json (order_by by_table (Config.Tables c))) in
  let engine := ("Engine", str (Engine c)) in
  let source := ("Source", str (Config.SourceID c)) in
  let slot := ("Slot", str (Config.Slot c)) in
  if negb (bool_decide (Config.FileColumns c = [])) then
    struct_json [engine; source; slot; tables;
      ("FileColumns", null_list FileColumn.to_json (order_by by_file_column (Config.FileColumns c)))]
  else if String.eqb (Engine c) "files" then
    struct_json [engine; source; ("Watch", Some (FileWatch.to_json (Config.FileWatch_ c)))]
  else if String.eqb (Engine c) "mysql" then
    struct_json [engine; source; ("ServerID", num (MySQL.ServerID (Config.MySQL_ c))); tables]
  else if String.eqb (Engine c) "sqlserver" || String.eqb (Engine c) "sqlserver_legacy" then
    struct_json [engine; source; tables]
  else struct_json [source; slot; tables].

Definition Fingerprint (c : Config.t) : string := hex_encode (sha256 (print (fingerprint_document c))).

End config.
