(* ===== verification/ConfigProps.v ===== *)
(** * What an accepted configuration guarantees (internal/config)

    The limits and the separation of directories a file collector relies on, and
    what two configurations with the same fingerprint have in common. *)

From S2P Require Import Prelude Bytes Sorting Encoding Sha256 Json JsonStruct GoTime GoClock GoNet GoPath GoGlob Config.

Import config.

(** ** Accepted file collectors *)

Lemma IsAbs_Clean s : IsAbs s = true → IsAbs (Clean s) = true.
Proof. intros H. unfold Clean. by rewrite H. Qed.

Lemma IsAbs_append a b : IsAbs a = true → IsAbs (a +:+ b) = true.
Proof. unfold IsAbs. rewrite !HasPrefix_spec. intros [r ->]. by exists (r +:+ b). Qed.

Lemma IsAbs_Abs cwd s : IsAbs cwd = true → IsAbs (Abs cwd s) = true.
Proof.
  intros Hc. unfold Abs. destruct (IsAbs s) eqn:E; [by apply IsAbs_Clean|]. unfold Join2.
  destruct (String.eqb_spec cwd "") as [->|]; [done|].
  destruct (String.eqb s ""); apply IsAbs_Clean; [done|by apply IsAbs_append].
Qed.

Lemma pathsOverlap_spec a b : IsAbs a = true → IsAbs b = true →
  pathsOverlap a b = true ↔ clean_parts a `prefix_of` clean_parts b ∨ clean_parts b `prefix_of` clean_parts a.
Proof. intros. unfold pathsOverlap. rewrite orb_true_iff. by rewrite !path_contains_spec. Qed.

Lemma base64_length s : slen (base64_encode s) = 4 * ((slen s + 2) / 3).
Proof.
  unfold base64_encode, slen. induction s as [| | |a b c r IH] using string_ind3; [done..|].
  cbn [b64_encode String.length]. rewrite !Nat2Z.inj_succ, IH.
  replace (Z.succ (Z.succ (Z.succ (Z.of_nat (String.length r)))) + 2) with (Z.of_nat (String.length r) + 2 + 1 * 3) by lia.
  rewrite Z.div_add by lia. lia.
Qed.

(** A chunk below the limit leaves 64 KiB of a row, but for the padding. *)
Lemma maxChunkBytes_room n maxRow : 0 < n → 0 ≤ maxRow < 2 ^ 61 → n ≤ maxChunkBytes maxRow →
  4 * ((n + 2) / 3) + 65534 ≤ maxRow.
Proof.
  intros Hn Hm. unfold maxChunkBytes. rewrite (i64_small (maxRow - 65536)), i64_small by lia. intros H.
  assert (4 * n ≤ 3 * (maxRow - 65536)) by (Z.to_euclidean_division_equations; lia).
  Z.to_euclidean_division_equations. lia.
Qed.

Lemma check_events_Ok seen l : check_events seen l = Ok tt → NoDup seen →
  NoDup (reverse l ++ seen) ∧ reverse l ++ seen ≠ [] ∧ Forall (λ e, e ∈ ["create"; "update"; "delete"]) l.
Proof.
  revert seen. induction l as [|e l IH]; intros seen; cbn [check_events].
  { intros H Hs. change (reverse [] ++ seen) with seen. split_and!; [done| |constructor].
    intros ->. by rewrite bool_decide_true in H. }
  go. destruct (existsb _ _) eqn:E1; [|done]. destruct (existsb _ seen) eqn:E2; [done|].
  cbn [negb]. intros H Hs. apply IH in H as (H1 & H2 & H3).
  - rewrite reverse_cons, <-app_assoc. split_and!; [done|done|]. constructor; [|done].
    apply existsb_exists in E1 as (x & Hx & ->%String.eqb_eq). by apply list_elem_of_In.
  - constructor; [|done]. intros Hin. apply not_true_iff_false in E2. apply E2, existsb_exists. exists e.
    split; [by apply list_elem_of_In|apply String.eqb_refl].
Qed.

Lemma Validate_Ok cwd c : Validate cwd c = Ok tt →
  validate_engine cwd c = Ok tt ∧ validate_transport c = Ok tt ∧ check_tables [] (Config.Tables c) = Ok tt ∧
  1024 ≤ Config.BatchBytes c ≤ Config.MaxRowBytes c ∧ i64 (Config.MaxRowBytes c * 2) ≤ Config.QueueBytes c.
Proof.
  unfold Validate. intros H. result_inv H.
  repeat match goal with a : unit |- _ => destruct a end. bool_prop. split_and!; assumption.
Qed.

Lemma FileWatch_validate_Ok cwd w dataDir maxRow : FileWatch_validate cwd w dataDir maxRow = Ok tt →
  65536 ≤ FileWatch.ChunkBytes w ≤ maxChunkBytes maxRow ∧
  FileWatch.ChunkBytes w ≤ FileWatch.MaxFileBytes w ≤ 2 ^ 40 ∧
  check_events [] (FileWatch.Events w) = Ok tt ∧
  pathsOverlap (Abs cwd (FileWatch.RootDir w)) (Abs cwd dataDir) = false.
Proof.
  unfold FileWatch_validate. intros H. result_inv H.
  repeat match goal with a : unit |- _ => destruct a end. bool_prop. split_and!; assumption.
Qed.

(** A configuration of a file collector that is accepted keeps the watched
    tree and the data directory apart (neither is the other or lies below it),
    watches a nonempty set of known events without repetition, and bounds the
    chunks so that a chunk in base64 leaves 64 KiB of a row, up to the two bytes of
    base64 padding, free for the rest of the message; a file fits in 1 TiB. *)
Theorem files_accepted cwd c : IsAbs cwd = true → Config.MaxRowBytes c < 2 ^ 61 → Engine c = "files" →
  Validate cwd c = Ok tt →
  let w := Config.FileWatch_ c in
  let root := clean_parts (Abs cwd (FileWatch.RootDir w)) in
  let data := clean_parts (Abs cwd (Config.DataDir c)) in
  (∀ s, slen s ≤ FileWatch.ChunkBytes w → slen (base64_encode s) + 65534 ≤ Config.MaxRowBytes c) ∧
  65536 ≤ FileWatch.ChunkBytes w ≤ FileWatch.MaxFileBytes w ∧ FileWatch.MaxFileBytes w ≤ 2 ^ 40 ∧
  NoDup (FileWatch.Events w) ∧ FileWatch.Events w ≠ [] ∧ FileWatch.Events w ⊆ ["create"; "update"; "delete"] ∧
  ¬ root `prefix_of` data ∧ ¬ data `prefix_of` root.
Proof.
  intros Hcwd Hrow He (Hen & _ & _ & Hb & _)%Validate_Ok w root data.
  unfold validate_engine in Hen. rewrite He in Hen.
  apply FileWatch_validate_Ok in Hen as (Hc & Hm & [Hn [Hne Hin]]%check_events_Ok & Ho); [|constructor].
  rewrite app_nil_r in Hn, Hne. fold w in Hc, Hm, Hn, Hne, Hin, Ho. split_and!; [|lia|lia|lia| | | | |].
  - intros s Hs. rewrite base64_length.
    pose proof (maxChunkBytes_room (FileWatch.ChunkBytes w) (Config.MaxRowBytes c)) as Hr.
    assert ((slen s + 2) / 3 ≤ (FileWatch.ChunkBytes w + 2) / 3) by (apply Z.div_le_mono; lia). unfold w in *. lia.
  - by rewrite reverse_Permutation in Hn.
  - intros E. by rewrite E in Hne.
  - intros e He'. by rewrite Forall_forall in Hin; apply Hin.
  - intros Hp. apply not_true_iff_false in Ho. apply Ho, pathsOverlap_spec; [by apply IsAbs_Abs..|]. by left.
  - intros Hp. apply not_true_iff_false in Ho. apply Ho, pathsOverlap_spec; [by apply IsAbs_Abs..|]. by right.
Qed.

Definition demo_files : Config.t :=
  Config.mk "" (GRPC.mk "" "" GRPCTLS.zero "30s") (Replay.mk "168h" (20 * 2 ^ 30)) "files"
    (Config.SQLServer_ Defaults) (Config.SQLServerLegacy_ Defaults) (Config.MySQL_ Defaults)
    (FileWatch.mk "/srv/in" "5s" ["*.txt"] [] ["create"; "delete"] (2 ^ 30) (4 * 2 ^ 20))
    "files-1" "" "" [] [] "data" "https://example.com/in" ∅ (10 * 2 ^ 30) (256 * 2 ^ 20) 500 (2 ^ 20) (16 * 2 ^ 20)
    "30s" "1s" "60s" "" (Config.Log_ Defaults) true "".

Lemma files_accepted_witness :
  Validate "/opt/sync" demo_files = Ok tt ∧
  ¬ clean_parts (Abs "/opt/sync" "/srv/in") `prefix_of` clean_parts (Abs "/opt/sync" "data").
Proof.
  assert (Validate "/opt/sync" demo_files = Ok tt) as Hv by (vm_compute; reflexivity).
  split; [exact Hv|].
  refine (proj1 (proj2 (proj2 (proj2 (proj2 (proj2 (proj2 (files_accepted "/opt/sync" demo_files _ _ _ Hv)))))))).
  - reflexivity.
  - reflexivity.
  - reflexivity.
Defined.

(** ** Fingerprints *)

Lemma print_inj v w : json_ok v = true → json_ok w = true → print v = print w → v = w.
Proof. intros Hv Hw E. apply parse_print in Hv, Hw. congruence. Qed.

(** Structs with the same field names are told apart by their fields. *)
Lemma present_inj fs gs : fs.*1 = gs.*1 → NoDup fs.*1 → present fs = present gs → fs = gs.
Proof.
  revert gs. induction fs as [|[k v] fs IH]; intros [|[k' w] gs] Hn Hd; [done..|].
  cbn in Hn. injection Hn as <- Hn. cbn in Hd. apply NoDup_cons in Hd as [Hk Hd].
  assert (∀ x hs rest, hs.*1 = fs.*1 → present hs ≠ (k, x) :: rest) as Habs.
  { intros x hs rest Hh E. apply Hk. rewrite <-Hh. assert ((k, x) ∈ present hs) as Hi by (rewrite E; left).
    apply list_elem_of_omap in Hi as ([n o] & Hin & Ho). destruct o as [j|]; [|done]. injection Ho as -> ->.
    apply list_elem_of_fmap. by exists (k, Some x). }
  unfold present. destruct v as [v|], w as [w|]; cbn; intros E.
  - injection E as <- E. f_equal. by apply IH.
  - by destruct (Habs v gs (present fs)).
  - by destruct (Habs w fs (present gs)).
  - f_equal. by apply IH.
Qed.

Lemma struct_json_inj fs gs : struct_json fs = struct_json gs → fs.*1 = gs.*1 → NoDup fs.*1 → fs = gs.
Proof. unfold struct_json. intros E Hn Hd. apply present_inj; [done..|]. congruence. Qed.

Lemma num_inj a b : num a = num b → a = b.
Proof. intros [= E]. by apply FormatInt_inj. Qed.

Lemma omit_num_inj a b : omit_num a = omit_num b → a = b.
Proof. unfold omit_num. destruct (Z.eqb_spec a 0), (Z.eqb_spec b 0); try done; [congruence|apply num_inj]. Qed.

Lemma omit_str_inj a b : omit_str a = omit_str b → a = b.
Proof. unfold omit_str. destruct (String.eqb_spec a ""), (String.eqb_spec b ""); unfold str; congruence. Qed.

Lemma fmap_inj {A B} (f : A → B) `{!Inj (=) (=) f} (l k : list A) : f <$> l = f <$> k → l = k.
Proof. apply (inj (fmap f)). Qed.

#[global] Instance JStr_inj : Inj (=) (=) JStr.
Proof. congruence. Qed.

Lemma omit_strs_inj a b : omit_list JStr a = omit_list JStr b → a = b.
Proof.
  unfold omit_list. destruct a as [|x a], b as [|y b]; try done. intros [= -> E]. f_equal.
  by apply (fmap_inj JStr).
Qed.

#[global] Instance Table_to_json_inj : Inj (=) (=) Table.to_json.
Proof. intros [] [] [= -> ->]. done. Qed.

#[global] Instance FileColumn_to_json_inj : Inj (=) (=) FileColumn.to_json.
Proof. intros [] [] [= -> -> -> -> ->%FormatInt_inj]. done. Qed.

Lemma null_list_inj {A} (f : A → json) `{!Inj (=) (=) f} l k :
  match l with [] => JNull | _ => JArr (f <$> l) end = match k with [] => JNull | _ => JArr (f <$> k) end → l = k.
Proof. destruct l as [|x l], k as [|y k]; try done. intros [= E%(inj f) E'%(fmap_inj f)]; by subst. Qed.

Lemma FileWatch_to_json_inj a b : FileWatch.to_json a = FileWatch.to_json b → a = b.
Proof.
  destruct a, b. intros E%struct_json_inj; [|done|by apply (bool_decide_unpack _)].
  cbn in E. injection E as -> E2%omit_str_inj E3%omit_strs_inj E4%omit_strs_inj E5%omit_strs_inj
    E6%omit_num_inj E7%omit_num_inj. by subst.
Qed.

(** Lists that are sorted the same way have the same elements. *)
Lemma order_by_eq {A} (lt : A → A → bool) l k : order_by lt l = order_by lt k → l ≡ₚ k.
Proof. intros E. by rewrite <-(order_by_perm lt l), E, order_by_perm. Qed.

(** What a configuration captures: the source of an engine, the tables with the columns
    that refer to files, and what is particular to the engine, the slot, the server id
    or the watched tree. *)
Definition captures_alike (a b : Config.t) : Prop :=
  Engine a = Engine b ∧ Config.SourceID a = Config.SourceID b ∧ Config.FileColumns a ≡ₚ Config.FileColumns b ∧
  (Engine a ≠ "files" → Config.Tables a ≡ₚ Config.Tables b) ∧
  (Engine a = "postgres" → Config.Slot a = Config.Slot b) ∧
  (Engine a = "mysql" → MySQL.ServerID (Config.MySQL_ a) = MySQL.ServerID (Config.MySQL_ b)) ∧
  (Engine a = "files" → Config.FileWatch_ a = Config.FileWatch_ b).

(** What the document of a fingerprint has of it: with file columns, neither the
    server id nor the watched tree. *)
Definition same_scope (a b : Config.t) : Prop :=
  Engine a = Engine b ∧ Config.SourceID a = Config.SourceID b ∧ Config.FileColumns a ≡ₚ Config.FileColumns b ∧
  (Engine a ≠ "files" → Config.Tables a ≡ₚ Config.Tables b) ∧
  (Engine a = "postgres" → Config.Slot a = Config.Slot b) ∧
  (Config.FileColumns a = [] → Engine a = "mysql" → MySQL.ServerID (Config.MySQL_ a) = MySQL.ServerID (Config.MySQL_ b)) ∧
  (Config.FileColumns a = [] → Engine a = "files" → Config.FileWatch_ a = Config.FileWatch_ b).

Definition known_engine (e : string) : Prop := e ∈ ["postgres"; "sqlserver"; "sqlserver_legacy"; "mysql"; "files"].

Lemma Validate_engine cwd c : Validate cwd c = Ok tt → known_engine (Engine c).
Proof.
  unfold Validate. go. destruct (existsb _ _) eqn:E; [intros _|done].
  apply existsb_exists in E as (e & He & Hc). apply String.eqb_eq in Hc as ->. by apply list_elem_of_In.
Qed.

Ltac same_lists :=
  repeat match goal with
  | H : match order_by _ _ with [] => JNull | _ => _ end = _ |- _ => apply null_list_inj, order_by_eq in H; [|apply _]
  end.

Lemma document_scope a b : known_engine (Engine a) → known_engine (Engine b) →
  fingerprint_document a = fingerprint_document b → same_scope a b.
Proof.
  unfold same_scope, fingerprint_document, known_engine.
  pose proof (FileWatch_to_json_inj (Config.FileWatch_ a) (Config.FileWatch_ b)) as Hw. revert Hw.
  generalize (FileWatch.to_json (Config.FileWatch_ a)) (FileWatch.to_json (Config.FileWatch_ b)). intros wa wb Hw.
  destruct (bool_decide_reflect (Config.FileColumns a = [])) as [Fa|Fa],
           (bool_decide_reflect (Config.FileColumns b = [])) as [Fb|Fb]; cbn [negb].
  4:{ intros _ _ [= He Hs Hl Ht Hf]. rewrite He. same_lists. by split_and!. }
  all: rewrite !elem_of_cons, !elem_of_nil; intros Ha Hb.
  all: destruct Ha as [Ea|[Ea|[Ea|[Ea|[Ea|[]]]]]]; rewrite Ea;
    destruct Hb as [Eb|[Eb|[Eb|[Eb|[Eb|[]]]]]]; rewrite Eb; cbn; intros [=]; try discriminate; same_lists;
    split_and!; (done || by intros; rewrite ?Fa, ?Fb || by intros; apply FormatInt_inj || by intros; apply Hw).
Qed.

Lemma same_scope_captures a b : same_scope a b →
  captures_alike a b ∨ Config.FileColumns b ≠ [] ∧ (Engine b = "mysql" ∨ Engine b = "files").
Proof.
  intros (He & Hs & Hf & Ht & Hl & Hm & Hw). destruct (decide (Config.FileColumns a = [])) as [Ea|Ea]; [left; split_and!; auto|].
  assert (Config.FileColumns b ≠ []) as Eb by (intros E; rewrite E in Hf; by apply Permutation_nil_r in Hf).
  destruct (decide (Engine a = "mysql")) as [E1|E1]; [right; split; [done|left; congruence]|].
  destruct (decide (Engine a = "files")) as [E2|E2]; [right; split; [done|right; congruence]|].
  left. by split_and!.
Qed.

(** Accepted configurations with the same fingerprint capture the same scope:
    the same source of the same engine, the same tables and file columns up to
    their order, and for PostgreSQL the same slot; without file columns also the
    same MySQL server id and the same watched tree.  The one other possibility is a
    SHA-256 collision between the two hashed documents. *)
Theorem fingerprint_scope cwd a b : Validate cwd a = Ok tt → Validate cwd b = Ok tt →
  json_ok (fingerprint_document a) = true → json_ok (fingerprint_document b) = true →
  Fingerprint a = Fingerprint b →
  same_scope a b ∨
  print (fingerprint_document a) ≠ print (fingerprint_document b) ∧
  sha256 (print (fingerprint_document a)) = sha256 (print (fingerprint_document b)).
Proof.
  intros Ha%Validate_engine Hb%Validate_engine Ja Jb E%hex_encode_inj.
  destruct (decide (print (fingerprint_document a) = print (fingerprint_document b))) as [Ep|Ep]; [left|by right].
  apply document_scope; [done..|]. by apply print_inj.
Qed.

Definition demo_tables (l : list Table.t) : Config.t :=
  Config.mk "" (GRPC.mk "" "" GRPCTLS.zero "30s") (Replay.mk "168h" (20 * 2 ^ 30)) "mysql"
    (Config.SQLServer_ Defaults) (Config.SQLServerLegacy_ Defaults) (Config.MySQL_ Defaults) (Config.FileWatch_ Defaults)
    "orders" "dsn" "" l [] "data" "https://example.com/in" ∅ (10 * 2 ^ 30) (256 * 2 ^ 20) 500 (2 ^ 20) (16 * 2 ^ 20)
    "30s" "1s" "60s" "" (Config.Log_ Defaults) true "".

(** Two orders of the same tables, which hash to the same fingerprint. *)
Definition demo_order_1 : Config.t := demo_tables [Table.mk "shop" "orders"; Table.mk "shop" "items"].
Definition demo_order_2 : Config.t := demo_tables [Table.mk "shop" "items"; Table.mk "shop" "orders"].

Lemma fingerprint_scope_witness :
  Fingerprint demo_order_1 = Fingerprint demo_order_2 ∧
  (same_scope demo_order_1 demo_order_2 ∨
   print (fingerprint_document demo_order_1) ≠ print (fingerprint_document demo_order_2) ∧
   sha256 (print (fingerprint_document demo_order_1)) = sha256 (print (fingerprint_document demo_order_2))).
Proof.
  assert (Fingerprint demo_order_1 = Fingerprint demo_order_2) as E by (vm_compute; reflexivity).
  split; [exact E|].
  refine (fingerprint_scope "/opt/sync" demo_order_1 demo_order_2 _ _ _ _ E); vm_compute; reflexivity.
Defined.

(** With file columns the server id is not part of the fingerprint. *)
Definition demo_server_id (id : Z) : Config.t :=
  Config.mk "" (GRPC.mk "" "" GRPCTLS.zero "30s") (Replay.mk "168h" (20 * 2 ^ 30)) "mysql"
    (Config.SQLServer_ Defaults) (Config.SQLServerLegacy_ Defaults) (MySQL.mk id false "30s" "1h")
    (Config.FileWatch_ Defaults) "orders" "dsn" "" [Table.mk "shop" "orders"]
    [FileColumn.mk "shop" "orders" "pdf" "/srv/pdf" 1024] "data" "https://example.com/in" ∅
    (10 * 2 ^ 30) (256 * 2 ^ 20) 500 (2 ^ 20) (16 * 2 ^ 20) "30s" "1s" "60s" "" (Config.Log_ Defaults) true "".

Lemma fingerprint_ignores_server_id id id' : Fingerprint (demo_server_id id) = Fingerprint (demo_server_id id').
Proof. reflexivity. Qed.

(** Nor is the watched tree of a files source. *)
Definition demo_watch (root : string) : Config.t :=
  Config.mk "" (GRPC.mk "" "" GRPCTLS.zero "30s") (Replay.mk "168h" (20 * 2 ^ 30)) "files"
    (Config.SQLServer_ Defaults) (Config.SQLServerLegacy_ Defaults) (Config.MySQL_ Defaults)
    (FileWatch.mk root "5s" [] [] ["create"; "update"; "delete"] (2 ^ 30) (4 * 2 ^ 20))
    "orders" "" "" [Table.mk "shop" "orders"] [FileColumn.mk "shop" "orders" "pdf" "/srv/pdf" 1024] "data" "https://example.com/in" ∅
    (10 * 2 ^ 30) (256 * 2 ^ 20) 500 (2 ^ 20) (16 * 2 ^ 20) "30s" "1s" "60s" "" (Config.Log_ Defaults) true "".

Lemma fingerprint_ignores_watch : Validate "/opt/sync" (demo_watch "/srv/a") = Ok tt ∧ Validate "/opt/sync" (demo_watch "/srv/b") = Ok tt ∧
  Fingerprint (demo_watch "/srv/a") = Fingerprint (demo_watch "/srv/b") ∧ ¬ captures_alike (demo_watch "/srv/a") (demo_watch "/srv/b").
Proof.
  split_and!; [vm_compute; reflexivity|vm_compute; reflexivity|reflexivity|].
  intros (_ & _ & _ & _ & _ & _ & H). specialize (H eq_refl). discriminate H.
Qed.
