(* ===== verification/Event.v ===== *)
(** * The wire format (internal/event)

    The records of [event.go] with the JSON encoding their field tags give, and
    the lossless text of a raw JSON value ([event.Text]).  The theorems show
    that a message read back from its encoding is the message that was written,
    which is what makes the queue's stored bytes, the HTTP body and the gRPC
    payload interchangeable. *)

From S2P Require Import Prelude Bytes Encoding Json JsonStruct.

(** A column value: absent when the column is not listed, SQL NULL when [Value]
    is nil. *)
Module Column.
Record t := mk {
  Name : string;
  Type_ : string;
  Value : option string;
  Encoding : string;
  SourceValue : option string
}.

Definition zero : t := mk "" "" None "" None.

#[global] Instance eq_dec : EqDecision t.
Proof. solve_decision. Defined.
End Column.

(** A row change of a database transaction or snapshot. *)
Module Row.
Record t := mk {
  Identity : string;
  Schema : string;
  Table : string;
  Operation : string;
  Key : list Column.t;
  OldKey : list Column.t;
  Columns : list Column.t;
  Ordinal : Z
}.

Definition zero : t := mk "" "" "" "" [] [] [] 0.

Definition set_Ordinal (v : Z) (x : t) : t := mk (Identity x) (Schema x) (Table x) (Operation x) (Key x) (OldKey x) (Columns x) v.

#[global] Instance eq_dec : EqDecision t.
Proof. solve_decision. Defined.
End Row.

(** A table of the snapshot scope. *)
Module TableRef.
Record t := mk {
  Schema : string;
  Name : string
}.

Definition zero : t := mk "" "".

#[global] Instance eq_dec : EqDecision t.
Proof. solve_decision. Defined.
End TableRef.

(** A chunk of a file, or its deletion. *)
Module FileChange.
Record t := mk {
  Path : string;
  Operation : string;
  Size : Z;
  ModTimeUnixNano : Z;
  Mode : Z;
  SHA256 : string;
  Chunk : Z;
  Chunks : Z;
  Data : string
}.

Definition zero : t := mk "" "" 0 0 0 "" 0 0 "".

Definition set_Chunk (v : Z) (x : t) : t := mk (Path x) (Operation x) (Size x) (ModTimeUnixNano x) (Mode x) (SHA256 x) v (Chunks x) (Data x).
Definition set_Data (v : string) (x : t) : t := mk (Path x) (Operation x) (Size x) (ModTimeUnixNano x) (Mode x) (SHA256 x) (Chunk x) (Chunks x) v.

#[global] Instance eq_dec : EqDecision t.
Proof. solve_decision. Defined.
End FileChange.

(** A message of the wire protocol; [Schema] is the raw document, nil when
    empty. *)
Module Message.
Record t := mk {
  Version : string;
  SourceID : string;
  Generation : string;
  SchemaVersion : string;
  Seq : Z;
  ID : string;
  Kind : string;
  Transaction : string;
  Chunk : Z;
  LSN : string;
  Tables : list TableRef.t;
  Schema : option json;
  Rows : list Row.t;
  File : option FileChange.t;
  CreatedAt : string
}.

Definition zero : t := mk "" "" "" "" 0 "" "" "" 0 "" [] None [] None "".

Definition set_Version (v : string) (x : t) : t := mk v (SourceID x) (Generation x) (SchemaVersion x) (Seq x) (ID x) (Kind x) (Transaction x) (Chunk x) (LSN x) (Tables x) (Schema x) (Rows x) (File x) (CreatedAt x).
Definition set_SourceID (v : string) (x : t) : t := mk (Version x) v (Generation x) (SchemaVersion x) (Seq x) (ID x) (Kind x) (Transaction x) (Chunk x) (LSN x) (Tables x) (Schema x) (Rows x) (File x) (CreatedAt x).
Definition set_Generation (v : string) (x : t) : t := mk (Version x) (SourceID x) v (SchemaVersion x) (Seq x) (ID x) (Kind x) (Transaction x) (Chunk x) (LSN x) (Tables x) (Schema x) (Rows x) (File x) (CreatedAt x).
Definition set_SchemaVersion (v : string) (x : t) : t := mk (Version x) (SourceID x) (Generation x) v (Seq x) (ID x) (Kind x) (Transaction x) (Chunk x) (LSN x) (Tables x) (Schema x) (Rows x) (File x) (CreatedAt x).
Definition set_Seq (v : Z) (x : t) : t := mk (Version x) (SourceID x) (Generation x) (SchemaVersion x) v (ID x) (Kind x) (Transaction x) (Chunk x) (LSN x) (Tables x) (Schema x) (Rows x) (File x) (CreatedAt x).
Definition set_ID (v : string) (x : t) : t := mk (Version x) (SourceID x) (Generation x) (SchemaVersion x) (Seq x) v (Kind x) (Transaction x) (Chunk x) (LSN x) (Tables x) (Schema x) (Rows x) (File x) (CreatedAt x).
Definition set_LSN (v : string) (x : t) : t := mk (Version x) (SourceID x) (Generation x) (SchemaVersion x) (Seq x) (ID x) (Kind x) (Transaction x) (Chunk x) v (Tables x) (Schema x) (Rows x) (File x) (CreatedAt x).
Definition set_CreatedAt (v : string) (x : t) : t := mk (Version x) (SourceID x) (Generation x) (SchemaVersion x) (Seq x) (ID x) (Kind x) (Transaction x) (Chunk x) (LSN x) (Tables x) (Schema x) (Rows x) (File x) v.

#[global] Instance eq_dec : EqDecision t.
Proof. solve_decision. Defined.
End Message.

(** The acknowledgement of a message. *)
Module Ack.
Record t := mk {
  ID : string;
  Seq : Z
}.

Definition zero : t := mk "" 0.

#[global] Instance eq_dec : EqDecision t.
Proof. solve_decision. Defined.
End Ack.

(** ** Encoding *)

Definition Column_json (c : Column.t) : json :=
  struct_json
    [("name", str (Column.Name c)); ("type", str (Column.Type_ c));
     ("value", null_str (Column.Value c)); ("encoding", omit_str (Column.Encoding c));
     ("source_value", omit_strptr (Column.SourceValue c))].

Definition Row_json (r : Row.t) : json :=
  struct_json
    [("identity", omit_str (Row.Identity r)); ("schema", str (Row.Schema r));
     ("table", str (Row.Table r)); ("operation", str (Row.Operation r));
     ("key", null_list Column_json (Row.Key r));
     ("old_key", omit_list Column_json (Row.OldKey r));
     ("columns", omit_list Column_json (Row.Columns r)); ("ordinal", omit_num (Row.Ordinal r))].

Definition TableRef_json (t : TableRef.t) : json :=
  struct_json [("schema", str (TableRef.Schema t)); ("name", str (TableRef.Name t))].

Definition FileChange_json (f : FileChange.t) : json :=
  struct_json
    [("path", str (FileChange.Path f)); ("operation", str (FileChange.Operation f));
     ("size", omit_num (FileChange.Size f));
     ("mod_time_unix_nano", omit_num (FileChange.ModTimeUnixNano f));
     ("mode", omit_num (FileChange.Mode f)); ("sha256", omit_str (FileChange.SHA256 f));
     ("chunk", omit_num (FileChange.Chunk f)); ("chunks", omit_num (FileChange.Chunks f));
     ("data", omit_str (FileChange.Data f))].

Definition Message_json (m : Message.t) : json :=
  struct_json
    [("version", str (Message.Version m)); ("source_id", str (Message.SourceID m));
     ("generation", str (Message.Generation m));
     ("schema_version", omit_str (Message.SchemaVersion m)); ("seq", num (Message.Seq m));
     ("message_id", str (Message.ID m)); ("kind", str (Message.Kind m));
     ("transaction", omit_str (Message.Transaction m)); ("chunk", omit_num (Message.Chunk m));
     ("lsn", omit_str (Message.LSN m)); ("tables", omit_list TableRef_json (Message.Tables m));
     ("schema", Message.Schema m); ("rows", omit_list Row_json (Message.Rows m));
     ("file", FileChange_json <$> Message.File m); ("created_at", str (Message.CreatedAt m))].

Definition Ack_json (a : Ack.t) : json :=
  struct_json [("message_id", str (Ack.ID a)); ("ack_seq", num (Ack.Seq a))].

(** [json.Marshal(m)] *)
Definition marshal (m : Message.t) : string := print (Message_json m).

#[global] Arguments marshal : simpl never.

(** ** Decoding *)

Definition Column_of (v : json) : option Column.t :=
  dec_struct Column.zero (λ ms,
    name ← obj_fold "name" dec_str "" ms;
    type ← obj_fold "type" dec_str "" ms;
    value ← obj_fold "value" dec_strptr None ms;
    encoding ← obj_fold "encoding" dec_str "" ms;
    source ← obj_fold "source_value" dec_strptr None ms;
    Some (Column.mk name type value encoding source)) v.

Definition Row_of (v : json) : option Row.t :=
  dec_struct Row.zero (λ ms,
    identity ← obj_fold "identity" dec_str "" ms;
    schema ← obj_fold "schema" dec_str "" ms;
    table ← obj_fold "table" dec_str "" ms;
    operation ← obj_fold "operation" dec_str "" ms;
    key ← obj_fold "key" (dec_list Column_of) [] ms;
    old_key ← obj_fold "old_key" (dec_list Column_of) [] ms;
    columns ← obj_fold "columns" (dec_list Column_of) [] ms;
    ordinal ← obj_fold "ordinal" (dec_uint 64) 0 ms;
    Some (Row.mk identity schema table operation key old_key columns ordinal)) v.

Definition TableRef_of (v : json) : option TableRef.t :=
  dec_struct TableRef.zero (λ ms,
    schema ← obj_fold "schema" dec_str "" ms;
    name ← obj_fold "name" dec_str "" ms;
    Some (TableRef.mk schema name)) v.

Definition FileChange_of (v : json) : option FileChange.t :=
  dec_struct FileChange.zero (λ ms,
    path ← obj_fold "path" dec_str "" ms;
    operation ← obj_fold "operation" dec_str "" ms;
    size ← obj_fold "size" (dec_int 64) 0 ms;
    mtime ← obj_fold "mod_time_unix_nano" (dec_int 64) 0 ms;
    mode ← obj_fold "mode" (dec_uint 32) 0 ms;
    sha ← obj_fold "sha256" dec_str "" ms;
    chunk ← obj_fold "chunk" (dec_uint 32) 0 ms;
    chunks ← obj_fold "chunks" (dec_uint 32) 0 ms;
    data ← obj_fold "data" dec_str "" ms;
    Some (FileChange.mk path operation size mtime mode sha chunk chunks data)) v.

Definition Message_of (v : json) : option Message.t :=
  dec_struct Message.zero (λ ms,
    version ← obj_fold "version" dec_str "" ms;
    source ← obj_fold "source_id" dec_str "" ms;
    generation ← obj_fold "generation" dec_str "" ms;
    schema_version ← obj_fold "schema_version" dec_str "" ms;
    seq ← obj_fold "seq" (dec_uint 64) 0 ms;
    id ← obj_fold "message_id" dec_str "" ms;
    kind ← obj_fold "kind" dec_str "" ms;
    transaction ← obj_fold "transaction" dec_str "" ms;
    chunk ← obj_fold "chunk" (dec_uint 64) 0 ms;
    lsn ← obj_fold "lsn" dec_str "" ms;
    tables ← obj_fold "tables" (dec_list TableRef_of) [] ms;
    schema ← obj_fold "schema" dec_raw None ms;
    rows ← obj_fold "rows" (dec_list Row_of) [] ms;
    file ← obj_fold "file" (dec_ptr FileChange_of) None ms;
    created ← obj_fold "created_at" dec_str "" ms;
    Some (Message.mk version source generation schema_version seq id kind transaction chunk lsn
            tables schema rows file created)) v.

Definition Ack_of (v : json) : option Ack.t :=
  dec_struct Ack.zero (λ ms,
    id ← obj_fold "message_id" dec_str "" ms;
    seq ← obj_fold "ack_seq" (dec_uint 64) 0 ms;
    Some (Ack.mk id seq)) v.

(** [json.Unmarshal(raw, &m)] *)
Definition unmarshal (raw : string) : option Message.t := parse raw ≫= Message_of.

#[global] Arguments unmarshal : simpl never.

(** [event.Text]: SQL NULL for [null], the contents of a string, and the text
    itself of any other document. *)
Definition Text (raw : string) : result (option string) :=
  if String.eqb raw "null" then Ok None
  else
    match raw with
    | String c _ =>
        if Ascii.eqb c dquote then
          match parse raw with
          | Some (JStr s) => Ok (Some s)
          | _ => Err (errorf "invalid JSON string")
          end
        else match parse raw with Some _ => Ok (Some raw) | None => Err (errorf "syntax error") end
    | EmptyString => Err (errorf "syntax error")
    end.

(** ** Messages the wire format carries without loss *)

Definition uint_ok (bits z : Z) : bool := (0 <=? z) && (z <? 2 ^ bits).
Definition int_ok (bits z : Z) : bool := (- 2 ^ (bits - 1) <=? z) && (z <? 2 ^ (bits - 1)).
Definition opt_ok {A} (P : A → bool) (o : option A) : bool :=
  match o with Some a => P a | None => true end.

Definition Column_ok (c : Column.t) : bool :=
  utf8_valid (Column.Name c) && utf8_valid (Column.Type_ c) &&
  opt_ok utf8_valid (Column.Value c) && utf8_valid (Column.Encoding c) &&
  opt_ok utf8_valid (Column.SourceValue c).

Definition Row_ok (r : Row.t) : bool :=
  utf8_valid (Row.Identity r) && utf8_valid (Row.Schema r) && utf8_valid (Row.Table r) &&
  utf8_valid (Row.Operation r) && forallb Column_ok (Row.Key r) &&
  forallb Column_ok (Row.OldKey r) && forallb Column_ok (Row.Columns r) &&
  uint_ok 64 (Row.Ordinal r).

Definition TableRef_ok (t : TableRef.t) : bool :=
  utf8_valid (TableRef.Schema t) && utf8_valid (TableRef.Name t).

Definition FileChange_ok (f : FileChange.t) : bool :=
  utf8_valid (FileChange.Path f) && utf8_valid (FileChange.Operation f) &&
  int_ok 64 (FileChange.Size f) && int_ok 64 (FileChange.ModTimeUnixNano f) &&
  uint_ok 32 (FileChange.Mode f) && utf8_valid (FileChange.SHA256 f) &&
  uint_ok 32 (FileChange.Chunk f) && uint_ok 32 (FileChange.Chunks f) &&
  utf8_valid (FileChange.Data f).

(** Strings are UTF-8, integers have their width, the schema document has
    integer numbers. *)
Definition Message_ok (m : Message.t) : bool :=
  utf8_valid (Message.Version m) && utf8_valid (Message.SourceID m) &&
  utf8_valid (Message.Generation m) && utf8_valid (Message.SchemaVersion m) &&
  uint_ok 64 (Message.Seq m) && utf8_valid (Message.ID m) && utf8_valid (Message.Kind m) &&
  utf8_valid (Message.Transaction m) && uint_ok 64 (Message.Chunk m) &&
  utf8_valid (Message.LSN m) && forallb TableRef_ok (Message.Tables m) &&
  opt_ok json_ok (Message.Schema m) && forallb Row_ok (Message.Rows m) &&
  opt_ok FileChange_ok (Message.File m) && utf8_valid (Message.CreatedAt m).

(** ** Round trips *)

Lemma uint_ok_range bits z : uint_ok bits z = true → 0 ≤ z < 2 ^ bits.
Proof. unfold uint_ok. intros. bool_prop. lia. Qed.

Lemma int_ok_range bits z : int_ok bits z = true → - 2 ^ (bits - 1) ≤ z < 2 ^ (bits - 1).
Proof. unfold int_ok. intros. bool_prop. lia. Qed.

(** Read every field of an encoded struct back, then the scalars by their
    lemmas. *)
Ltac struct_fields :=
  unfold dec_struct, struct_json;
  repeat (rewrite obj_fold_present by reflexivity; cbn [field String.eqb Ascii.eqb Bool.eqb]).

Lemma Column_round c : Column_of (Column_json c) = Some c.
Proof.
  unfold Column_of, Column_json. struct_fields.
  unfold str. cbn [dec_str mbind option_bind].
  rewrite dec_null_str, dec_omit_str, dec_omit_strptr. by destruct c.
Qed.

Lemma Row_round r : uint_ok 64 (Row.Ordinal r) = true → Row_of (Row_json r) = Some r.
Proof.
  intros Ho%uint_ok_range. unfold Row_of, Row_json. struct_fields.
  unfold str. cbn [dec_str mbind option_bind].
  rewrite dec_omit_str. cbn [mbind option_bind].
  rewrite (dec_null_list Column_json Column_of (λ _, true)) by (auto using Column_round, forallb_true).
  cbn [mbind option_bind].
  rewrite !(dec_omit_list Column_json Column_of (λ _, true)) by (auto using Column_round, forallb_true).
  cbn [mbind option_bind]. rewrite dec_omit_num by done. by destruct r.
Qed.

Lemma TableRef_round t : TableRef_of (TableRef_json t) = Some t.
Proof. unfold TableRef_of, TableRef_json. struct_fields. by destruct t. Qed.

Lemma FileChange_round f : FileChange_ok f = true → FileChange_of (FileChange_json f) = Some f.
Proof.
  unfold FileChange_ok. intros. bool_prop. unfold FileChange_of, FileChange_json. struct_fields.
  unfold str. cbn [dec_str mbind option_bind].
  do 2 (rewrite dec_omit_int by (by apply int_ok_range); cbn [mbind option_bind]).
  rewrite dec_omit_num by (by apply uint_ok_range). cbn [mbind option_bind].
  rewrite dec_omit_str. cbn [mbind option_bind].
  do 2 (rewrite dec_omit_num by (by apply uint_ok_range); cbn [mbind option_bind]).
  rewrite dec_omit_str. by destruct f.
Qed.

Lemma Message_round m : Message_ok m = true → Message_of (Message_json m) = Some m.
Proof.
  unfold Message_ok. intros. bool_prop. unfold Message_of, Message_json. struct_fields.
  unfold str, num. cbn [dec_str mbind option_bind].
  rewrite dec_omit_str. cbn [mbind option_bind].
  rewrite dec_num by (by apply uint_ok_range). cbn [mbind option_bind].
  rewrite dec_omit_str. cbn [mbind option_bind].
  rewrite dec_omit_num by (by apply uint_ok_range). cbn [mbind option_bind].
  rewrite dec_omit_str. cbn [mbind option_bind].
  rewrite (dec_omit_list TableRef_json TableRef_of (λ _, true)) by (auto using TableRef_round, forallb_true).
  cbn [mbind option_bind].
  replace (match Message.Schema m with Some v => dec_raw None v | None => Some None end)
    with (Some (Message.Schema m)) by (by destruct (Message.Schema m)).
  cbn [mbind option_bind].
  rewrite (dec_omit_list Row_json Row_of Row_ok);
    [|intros x Hx; apply Row_round; unfold Row_ok in Hx; by bool_prop|done].
  cbn [mbind option_bind].
  replace (match FileChange_json <$> Message.File m with
           | Some v => dec_ptr FileChange_of None v | None => Some None end)
    with (Some (Message.File m)); [by destruct m|].
  destruct (Message.File m) as [f|]; [|done]. cbn [fmap option_fmap option_map].
  unfold dec_ptr. by rewrite (FileChange_round f).
Qed.

(** The encoded documents are well formed. *)
Lemma json_ok_num z : json_ok (JNum (FormatInt z)) = true.
Proof. apply int_lexeme_FormatInt. Qed.

Lemma ok_omit_str k s : utf8_valid k = true → utf8_valid s = true →
  match omit_str s with Some v => utf8_valid k && json_ok v | None => true end = true.
Proof. intros Hk Hs. unfold omit_str, str. case_if; [done|]. cbn. by rewrite Hk, Hs. Qed.

Lemma ok_omit_num k z : utf8_valid k = true →
  match omit_num z with Some v => utf8_valid k && json_ok v | None => true end = true.
Proof. intros Hk. unfold omit_num, num. case_if; [done|]. by rewrite Hk, json_ok_num. Qed.

Lemma ok_null_str k o : utf8_valid k = true → opt_ok utf8_valid o = true →
  match null_str o with Some v => utf8_valid k && json_ok v | None => true end = true.
Proof. intros Hk Ho. cbn. rewrite Hk. by destruct o. Qed.

Lemma ok_omit_strptr k o : utf8_valid k = true → opt_ok utf8_valid o = true →
  match omit_strptr o with Some v => utf8_valid k && json_ok v | None => true end = true.
Proof. intros Hk Ho. destruct o; cbn in *; [by rewrite Hk, Ho|done]. Qed.

Lemma ok_omit_list {A} k (f : A → json) P l : utf8_valid k = true →
  (∀ x, P x = true → json_ok (f x) = true) → forallb P l = true →
  match omit_list f l with Some v => utf8_valid k && json_ok v | None => true end = true.
Proof.
  intros Hk Hf Hl. destruct l as [|x l]; [done|]. unfold omit_list. rewrite Hk.
  by apply (json_ok_list f P).
Qed.

Lemma ok_null_list {A} k (f : A → json) P l : utf8_valid k = true →
  (∀ x, P x = true → json_ok (f x) = true) → forallb P l = true →
  match null_list f l with Some v => utf8_valid k && json_ok v | None => true end = true.
Proof.
  intros Hk Hf Hl. destruct l as [|x l]; [cbn; by rewrite Hk|]. unfold null_list. rewrite Hk.
  by apply (json_ok_list f P).
Qed.

Lemma ok_fmap {A} k (f : A → json) P o : utf8_valid k = true →
  (∀ x, P x = true → json_ok (f x) = true) → opt_ok P o = true →
  match f <$> o with Some v => utf8_valid k && json_ok v | None => true end = true.
Proof. intros Hk Hf Ho. destruct o; cbn in *; [by rewrite Hk, Hf|done]. Qed.

Lemma ok_raw k o : utf8_valid k = true → opt_ok json_ok o = true →
  match o with Some v => utf8_valid k && json_ok v | None => true end = true.
Proof. intros Hk Ho. destruct o; cbn in *; [by rewrite Hk|done]. Qed.

#[export] Hint Resolve ok_raw ok_omit_str ok_omit_num ok_null_str ok_omit_strptr json_ok_num : gosync.

(** One field of an encoded struct after the other. *)
Ltac struct_ok :=
  rewrite json_ok_struct; cbn [forallb fst snd];
  rewrite ?andb_true_iff; split_and!; auto with gosync;
  unfold str, num; cbn [json_ok]; auto with gosync.

Lemma Column_json_ok c : Column_ok c = true → json_ok (Column_json c) = true.
Proof. unfold Column_ok. intros. bool_prop. unfold Column_json. struct_ok. Qed.

Lemma Row_json_ok r : Row_ok r = true → json_ok (Row_json r) = true.
Proof.
  unfold Row_ok. intros. bool_prop. unfold Row_json. struct_ok;
    first [by apply (ok_null_list _ _ Column_ok); [|apply Column_json_ok|]
          |by apply (ok_omit_list _ _ Column_ok); [|apply Column_json_ok|]].
Qed.

Lemma TableRef_json_ok t : TableRef_ok t = true → json_ok (TableRef_json t) = true.
Proof. unfold TableRef_ok. intros. bool_prop. unfold TableRef_json. struct_ok. Qed.

Lemma FileChange_json_ok f : FileChange_ok f = true → json_ok (FileChange_json f) = true.
Proof. unfold FileChange_ok. intros. bool_prop. unfold FileChange_json. struct_ok. Qed.

Lemma Message_json_ok m : Message_ok m = true → json_ok (Message_json m) = true.
Proof.
  unfold Message_ok. intros. bool_prop. unfold Message_json. struct_ok.
  - by rewrite int_lexeme_FormatInt.
  - by apply (ok_omit_list _ _ TableRef_ok); [|apply TableRef_json_ok|].
  - by apply (ok_omit_list _ _ Row_ok); [|apply Row_json_ok|].
  - by apply (ok_fmap _ _ FileChange_ok); [|apply FileChange_json_ok|].
Qed.

Lemma parse_marshal m : Message_ok m = true → parse (marshal m) = Some (Message_json m).
Proof. intros. apply parse_print. by apply Message_json_ok. Qed.

Lemma unmarshal_marshal m : Message_ok m = true → unmarshal (marshal m) = Some m.
Proof.
  intros Hm. unfold unmarshal, marshal.
  rewrite parse_print by (by apply Message_json_ok). by apply Message_round.
Qed.

Lemma Text_null raw : Text raw = Ok None ↔ raw = "null".
Proof.
  unfold Text. split; [|by intros ->]. case_if; [done|].
  repeat case_match; naive_solver.
Qed.

(** A document that is neither [null] nor a string is its own text: no number
    goes through a float. *)
Lemma Text_verbatim c r v : parse (String c r) = Some v → c ≠ dquote → String c r ≠ "null" →
  Text (String c r) = Ok (Some (String c r)).
Proof.
  intros Hp Hc Hn. unfold Text. apply String.eqb_neq in Hn. rewrite Hn.
  apply Ascii.eqb_neq in Hc. by rewrite Hc, Hp.
Qed.

Lemma Text_string s : utf8_valid s = true → Text (print (JStr s)) = Ok (Some s).
Proof.
  intros Hs. pose proof (parse_print (JStr s) Hs) as Hp. unfold Text.
  destruct (String.eqb_spec (print (JStr s)) "null") as [E|]; [discriminate E|].
  change (print (JStr s)) with (String dquote (escape (String.length s) s +:+ String dquote ""))
    in *. by rewrite Hp.
Qed.
