(* ===== verification/Syncv1.v ===== *)
(** * The frames of the replication stream (internal/rpc/syncv1)

    The messages of proto/sync/v1/sync.proto as the generated Go structs have
    them; the two frame types are [oneof]s, so a frame without a body is a
    constructor of its own. *)

From S2P Require Import Prelude.

Module syncv1.

Module Hello.
Record t := mk {
  SyncerId : string;
  Generation : string;
  EarliestSeq : Z;
  ReadySeq : Z;
  ProtocolVersion : string;
  ReconcileSupported : bool
}.
End Hello.

Module Event.
Record t := mk { Seq : Z; MessageId : string; Json : string }.
End Event.

Module ReplayUnavailable.
Record t := mk { RequestedSeq : Z; EarliestSeq : Z }.
End ReplayUnavailable.

Module Idle.
Record t := mk { ReadySeq : Z }.
End Idle.

Module Pull.
Record t := mk { Generation : string; Seq : Z }.
End Pull.

Module Ack.
Record t := mk { Generation : string; Seq : Z; MessageId : string }.
End Ack.

Module ReconcileRequest.
Record t := mk {
  RequestId : string;
  SourceSchema : string;
  Table : string;
  Buckets : Z;
  AllBuckets : bool;
  Bucket : Z;
  IncludeRows : bool;
  TimeoutSeconds : Z
}.
End ReconcileRequest.

Module BucketDigest.
Record t := mk { Bucket : Z; Rows : Z; Digest : string }.
End BucketDigest.

Module ReconcileResult.
Record t := mk {
  RequestId : string;
  SourceSchema : string;
  Table : string;
  Columns : list string;
  PrimaryKeys : list string;
  Digests : list BucketDigest.t;
  RowsJson : string;
  Error : string;
  ColumnTypes : list string
}.
End ReconcileResult.

Module RepairRequest.
Record t := mk { RequestId : string; Reason : string }.
End RepairRequest.

Module ResumeRequest.
Record t := mk { RequestId : string }.
End ResumeRequest.

Module RepairAccepted.
Record t := mk { RequestId : string }.
End RepairAccepted.

Module ResumeAccepted.
Record t := mk { RequestId : string }.
End ResumeAccepted.

Module Metrics.
Record t := mk { PrometheusText : string; CollectedAtUnixMilli : Z }.
End Metrics.

(** [isCollectorFrame_Body] *)
Inductive CollectorFrame :=
  | CollectorFrame_Hello (h : Hello.t)
  | CollectorFrame_Event (e : Event.t)
  | CollectorFrame_ReplayUnavailable (r : ReplayUnavailable.t)
  | CollectorFrame_Metrics (m : Metrics.t)
  | CollectorFrame_Idle (i : Idle.t)
  | CollectorFrame_ReconcileResult (r : ReconcileResult.t)
  | CollectorFrame_RepairAccepted (r : RepairAccepted.t)
  | CollectorFrame_ResumeAccepted (r : ResumeAccepted.t)
  | CollectorFrame_empty.

(** [isServerFrame_Body] *)
Inductive ServerFrame :=
  | ServerFrame_Pull (p : Pull.t)
  | ServerFrame_Ack (a : Ack.t)
  | ServerFrame_Reconcile (r : ReconcileRequest.t)
  | ServerFrame_Repair (r : RepairRequest.t)
  | ServerFrame_Resume (r : ResumeRequest.t)
  | ServerFrame_empty.

End syncv1.
