(* ===== verification/Reconcile.v ===== *)
(** * Row digests (internal/reconcile/reconcile.go)

    The order-independent digest collectors and the server compare tables with:
    rows are normalized, hashed and accumulated per bucket.  The theorems show
    that the digests of a table do not depend on the order of its rows or of the
    columns of a row, that the byte loop of the accumulator is addition modulo
    2^256, and that what is hashed determines the normalized row, so that equal
    digests of different rows are collisions of the hash. *)

From Stdlib Require Import Permutation.
From S2P Require Import Prelude Bytes Sorting Encoding Sha256 BigRat Json Event.

#[local] Opaque Sum256.

(** ** Normal forms *)

(** Replace the first [T] by a space. *)
Fixpoint replace_T (s : string) : string :=
  match s with
  | String c r => if Ascii.eqb c "T" then String " " r else String c (replace_T r)
  | EmptyString => EmptyString
  end.

(** A member added to a sorted object, replacing one with the same name. *)
Fixpoint put_member (k : string) (v : json) (l : list (string * json)) : list (string * json) :=
  match l with
  | [] => [(k, v)]
  | (k', v') :: l' =>
      if String.eqb k k' then (k, v) :: l'
      else if String.ltb k k' then (k, v) :: l else (k', v') :: put_member k v l'
  end.

Section normalize.
(** [strconv]'s conversion of a JSON number to a float64 and of that to its
    shortest text, [None] out of range. *)
Context (float_text : string → option string).

(** [json.Unmarshal] into [any] and [json.Marshal] of that: the members of an
    object become a map, printed in order. *)
Fixpoint canonical (v : json) : option json :=
  match v with
  | JNum l => JNum <$> float_text l
  | JArr l => JArr <$> (fix go l := match l with
                                    | [] => Some []
                                    | x :: l' => x ← canonical x; l' ← go l'; Some (x :: l')
                                    end) l
  | JObj l => JObj <$> (fix go l acc := match l with
                                        | [] => Some acc
                                        | (k, x) :: l' => x ← canonical x; go l' (put_member k x acc)
                                        end) l []
  | _ => Some v
  end.

Definition is_binary (t : string) : bool :=
  Contains t "binary" || Contains t "blob" || String.eqb t "bytea" || String.eqb t "image" ||
  String.eqb t "rowversion".

Definition normalize_binary (value : string) : option string :=
  let hexValue :=
    if HasPrefix value (String "\" "x") || HasPrefix (ToLower value) "0x" then drop_string 2 value else value in
  d ← hex_decode hexValue; Some ("hex:" +:+ hex_encode d).

Definition normalize_bool (value : string) : option string :=
  let v := ToLower value in
  if String.eqb v "1" || String.eqb v "t" || String.eqb v "true" then Some "true"
  else if String.eqb v "0" || String.eqb v "f" || String.eqb v "false" then Some "false" else None.

Definition normalize_json (value : string) : option string := d ← parse value; print <$> canonical d.

(** The first of the forms that applies to the type and the value. *)
Definition try_form (b : bool) (o : option string) (rest : string) : string :=
  if b then match o with Some s => s | None => rest end else rest.

Definition normalize (typeName value : string) : string :=
  let t := ToLower (TrimSpace typeName) in
  try_form (is_binary t) (normalize_binary value)
    (try_form (String.eqb t "boolean" || String.eqb t "bool" || String.eqb t "bit") (normalize_bool value)
      (try_form (HasPrefix t "decimal" || HasPrefix t "numeric") (RatString <$> SetString value)
        (try_form (String.eqb t "json" || String.eqb t "jsonb") (normalize_json value)
          (if Contains t "datetime" || HasPrefix t "timestamp" then replace_T value else value)))).

(** ** Hashing *)

(** A part with its length; nil has the length 2^64-1 and no bytes. *)
Definition writePart (v : option string) : list Z :=
  match v with
  | None => big_endian 8 (2 ^ 64 - 1)
  | Some s => big_endian 8 (slen s) ++ bytes s
  end.

(** The parts of a column: its name, then nil, or 1 and the normalized value. *)
Definition column_parts (c : Column.t) : list (option string) :=
  Some (Column.Name c) ::
  match Column.Value c with
  | None => [None]
  | Some v => [Some (String "001" ""); Some (normalize (Column.Type_ c) v)]
  end.

Definition by_name (x y : Column.t) : bool := String.ltb (Column.Name x) (Column.Name y).

Definition columns_parts (l : list Column.t) : list (option string) :=
  concat (column_parts <$> order_by by_name l).

Definition write_parts (l : list (option string)) : list Z := concat (writePart <$> l).

Definition columnsHash (l : list Column.t) : list Z := Sum256 (write_parts (columns_parts l)).

Definition row_parts (r : Row.t) : list (option string) :=
  [Some (Row.Schema r); Some (Row.Table r)] ++ columns_parts (Row.Columns r).

Definition rowHash (r : Row.t) : list Z := Sum256 (write_parts (row_parts r)).

Definition Bucket (r : Row.t) (buckets : Z) : result Z :=
  _ ← fail_if (buckets =? 0) (errorf "reconcile bucket count must be positive");
  let identity := if String.eqb (Row.Identity r) "full_row" then Row.Columns r else Row.Key r in
  _ ← fail_if (bool_decide (identity = [])) (errorf "reconcile row has no identity");
  Ok (u32 (from_big_endian (take 8 (columnsHash identity)) mod buckets)).

(** ** Accumulators *)

Record accumulator := mkAcc { rows : Z; xor : list Z; sum : list Z }.

Definition zero_acc : accumulator := mkAcc 0 (replicate 32 0) (replicate 32 0).

(** The byte loop from the last byte to the first: the bytes and the carry. *)
Fixpoint add_bytes (a b : list Z) : list Z * Z :=
  match a, b with
  | x :: a', y :: b' =>
      let '(r, carry) := add_bytes a' b' in
      let total := x + y + carry in (total mod 256 :: r, total / 256)
  | _, _ => ([], 0)
  end.

Definition acc_add (a : accumulator) (value : list Z) : accumulator :=
  mkAcc (u64 (rows a + 1)) (zip_with Z.lxor (xor a) value) (add_bytes (sum a) value).1.

Definition acc_digest (a : accumulator) : string :=
  hex_encode (of_bytes (Sum256 (big_endian 8 (rows a) ++ xor a ++ sum a))).

Record Digest := mkDigest { dg_bucket : Z; dg_rows : Z; dg_hash : string }.

(** ** The builder *)

Abbreviation Builder := (list accumulator).

Definition NewBuilder (buckets : Z) : result Builder :=
  _ ← fail_if (buckets =? 0) (errorf "reconcile bucket count must be positive");
  Ok (replicate (Z.to_nat buckets) zero_acc).

Definition Add (b : Builder) (r : Row.t) : result Builder :=
  bucket ← Bucket r (Z.of_nat (length b));
  Ok (alter (λ a, acc_add a (rowHash r)) (Z.to_nat bucket) b).

Definition builder_digests (b : Builder) : list Digest :=
  imap (λ i a, mkDigest (Z.of_nat i) (rows a) (acc_digest a)) b.

Fixpoint add_rows (b : Builder) (l : list Row.t) : result Builder :=
  match l with
  | [] => Ok b
  | r :: l' => b ← Add b r; add_rows b l'
  end.

Definition Digests (l : list Row.t) (buckets : Z) : result (list Digest) :=
  b ← NewBuilder buckets;
  b ← add_rows b l;
  Ok (builder_digests b).
End normalize.

(** ** Bytes as a number *)

Definition byte_list (l : list Z) : Prop := Forall (λ b, 0 ≤ b < 256) l.

Lemma from_big_endian_cons x l : from_big_endian (x :: l) = x * 256 ^ Z.of_nat (length l) + from_big_endian l.
Proof.
  unfold from_big_endian. cbn [foldl]. rewrite Z.mul_0_l, Z.add_0_l.
  assert (∀ a, foldl (λ acc b, acc * 256 + b) a l =
    a * 256 ^ Z.of_nat (length l) + foldl (λ acc b, acc * 256 + b) 0 l) as E; [|apply E].
  induction l as [|y l IH]; intros a; cbn [foldl length]; [rewrite Z.pow_0_r; lia|].
  rewrite IH, (IH (0 * 256 + y)), Nat2Z.inj_succ, Z.pow_succ_r by lia. ring.
Qed.

Lemma from_big_endian_range l : byte_list l → 0 ≤ from_big_endian l < 256 ^ Z.of_nat (length l).
Proof.
  induction 1 as [|x l Hx _ IH]; [cbn; lia|]. rewrite from_big_endian_cons. cbn [length].
  rewrite Nat2Z.inj_succ, Z.pow_succ_r by lia. nia.
Qed.

Lemma from_big_endian_inj l k : byte_list l → byte_list k → length l = length k →
  from_big_endian l = from_big_endian k → l = k.
Proof.
  intros Hl. revert k. induction Hl as [|x l Hx Hl IH]; intros [|y k] Hk Hlen E; try done.
  apply Forall_cons in Hk as [Hy Hk]. cbn in Hlen. injection Hlen as Hlen.
  rewrite !from_big_endian_cons, Hlen in E.
  pose proof (from_big_endian_range l Hl) as Hrl. pose proof (from_big_endian_range k Hk) as Hrk.
  rewrite Hlen in Hrl. set (P := 256 ^ Z.of_nat (length k)) in *.
  assert (x = y) as ->.
  { destruct (Z.lt_total x y) as [|[|]]; [|done|]; exfalso; nia. }
  f_equal. apply IH; [done..|]. by apply Z.add_reg_l in E.
Qed.

(** The byte loop is addition; the carry out of the first byte is dropped. *)
Lemma add_bytes_spec a b : byte_list a → byte_list b → length a = length b →
  byte_list (add_bytes a b).1 ∧ length (add_bytes a b).1 = length a ∧ 0 ≤ (add_bytes a b).2 ≤ 1 ∧
  from_big_endian a + from_big_endian b =
    (add_bytes a b).2 * 256 ^ Z.of_nat (length a) + from_big_endian (add_bytes a b).1.
Proof.
  intros Ha. revert b. induction Ha as [|x a Hx Ha IH]; intros [|y b] Hb Hlen; try done.
  apply Forall_cons in Hb as [Hy Hb]. cbn in Hlen. injection Hlen as Hlen.
  destruct (IH b Hb Hlen) as (H1 & H2 & H3 & H4). cbn [add_bytes].
  destruct (add_bytes a b) as [r c]. cbn [fst snd] in *. split_and!.
  - constructor; [apply Z.mod_pos_bound; lia|done].
  - cbn. congruence.
  - apply Z.div_pos; lia.
  - assert ((x + y + c) / 256 < 2) by (apply Z.div_lt_upper_bound; lia). lia.
  - rewrite !from_big_endian_cons, H2, <- Hlen. cbn [length]. rewrite Nat2Z.inj_succ, Z.pow_succ_r by lia.
    pose proof (Z.div_mod (x + y + c) 256 ltac:(lia)). nia.
Qed.

Lemma add_bytes_mod a b : byte_list a → byte_list b → length a = length b →
  from_big_endian (add_bytes a b).1 = (from_big_endian a + from_big_endian b) mod 256 ^ Z.of_nat (length a).
Proof.
  intros Ha Hb Hlen. destruct (add_bytes_spec a b Ha Hb Hlen) as (H1 & H2 & H3 & ->).
  pose proof (from_big_endian_range _ H1) as Hr. rewrite H2 in Hr.
  rewrite Z.add_comm, Z.mod_add by lia. symmetry. by apply Z.mod_small.
Qed.

Lemma Sum256_bytes b : byte_list (Sum256 b).
Proof.
  Transparent Sum256. unfold Sum256, byte_list, word_bytes. cbv zeta.
  rewrite !Forall_app. split_and!; apply big_endian_range.
Qed.
#[local] Opaque Sum256.

(** ** Accumulators commute *)

Definition acc_ok (a : accumulator) : Prop :=
  byte_list (xor a) ∧ length (xor a) = 32%nat ∧ byte_list (sum a) ∧ length (sum a) = 32%nat.

Definition digest_ok (v : list Z) : Prop := byte_list v ∧ length v = 32%nat.

Lemma Sum256_ok b : digest_ok (Sum256 b).
Proof. split; [apply Sum256_bytes|apply Sum256_length]. Qed.

Lemma zero_acc_ok : acc_ok zero_acc.
Proof. split_and!; try done; apply Forall_replicate; lia. Qed.

Lemma lxor_byte x y : 0 ≤ x < 256 → 0 ≤ y < 256 → 0 ≤ Z.lxor x y < 256.
Proof.
  intros Hx Hy. assert (0 ≤ Z.lxor x y) as H0 by (apply Z.lxor_nonneg; lia). split; [done|].
  destruct (Z.eq_dec (Z.lxor x y) 0) as [->|Hne]; [lia|].
  apply (Z.log2_lt_cancel (Z.lxor x y) 256). pose proof (Z.log2_lxor x y ltac:(lia) ltac:(lia)).
  assert (∀ z, 0 ≤ z < 256 → Z.log2 z < 8) as Hlog.
  { intros z Hz. destruct (Z.eq_dec z 0) as [->|]; [done|]. apply Z.log2_lt_pow2; lia. }
  pose proof (Hlog x Hx). pose proof (Hlog y Hy). change (Z.log2 256) with 8. lia.
Qed.

Lemma zip_lxor_bytes a b : byte_list a → byte_list b → byte_list (zip_with Z.lxor a b).
Proof.
  intros Ha. revert b. induction Ha as [|x a Hx _ IH]; intros b Hb; [by constructor|].
  destruct Hb as [|y b Hy Hb]; cbn; constructor; [by apply lxor_byte|by apply IH].
Qed.

Lemma acc_add_ok a v : acc_ok a → digest_ok v → acc_ok (acc_add a v).
Proof.
  intros (H1 & H2 & H3 & H4) [Hv Hl]. destruct (add_bytes_spec (sum a) v) as (H5 & H6 & _); [done..|congruence|].
  split_and!; cbn [acc_add xor sum]; [by apply zip_lxor_bytes| |done|congruence].
  rewrite length_zip_with. lia.
Qed.

Lemma zip_lxor_comm a b c : zip_with Z.lxor (zip_with Z.lxor a b) c = zip_with Z.lxor (zip_with Z.lxor a c) b.
Proof.
  revert b c. induction a as [|x a IH]; intros [|y b] [|z c]; try done; cbn.
  rewrite IH, !Z.lxor_assoc, (Z.lxor_comm y z). done.
Qed.

Lemma acc_add_comm a v w : acc_ok a → digest_ok v → digest_ok w →
  acc_add (acc_add a v) w = acc_add (acc_add a w) v.
Proof.
  intros Ha Hv Hw. pose proof (acc_add_ok _ _ Ha Hv) as (_ & _ & B1 & L1).
  pose proof (acc_add_ok _ _ Ha Hw) as (_ & _ & B2 & L2). destruct Hv as [Hv Lv], Hw as [Hw Lw].
  destruct Ha as (_ & _ & B & L). unfold acc_add at 1 3. cbn [rows xor]. f_equal; [apply zip_lxor_comm|].
  destruct (add_bytes_spec (sum (acc_add a v)) w) as (C1 & D1 & _); [done..|congruence|].
  destruct (add_bytes_spec (sum (acc_add a w)) v) as (C2 & D2 & _); [done..|congruence|].
  apply from_big_endian_inj; [done..|congruence|]. rewrite !add_bytes_mod by (done || congruence).
  rewrite L1, L2. cbn [acc_add sum]. rewrite !add_bytes_mod by (done || congruence). rewrite L.
  rewrite !Zplus_mod_idemp_l. f_equal. lia.
Qed.

(** ** The accumulator of a list of digests *)

Definition xor_all (vs : list (list Z)) : list Z := foldr (λ v x, zip_with Z.lxor x v) (replicate 32 0) vs.

Definition sum_all (vs : list (list Z)) : Z := sumZ (from_big_endian <$> vs) mod 2 ^ 256.

Lemma acc_fold_ok a vs : acc_ok a → Forall digest_ok vs → acc_ok (foldl acc_add a vs).
Proof. intros Ha Hv. revert a Ha. induction Hv as [|v vs Hv _ IH]; intros a Ha; [done|]. by apply IH, acc_add_ok. Qed.

Lemma acc_fold_rows a vs : rows a = u64 (rows a) →
  rows (foldl acc_add a vs) = u64 (rows a + Z.of_nat (length vs)).
Proof.
  revert a. induction vs as [|v vs IH]; intros a Ha; cbn [foldl length]; [by rewrite Z.add_0_r|].
  rewrite IH; cbn [acc_add rows].
  - unfold u64. rewrite Zplus_mod_idemp_l. f_equal. lia.
  - symmetry. apply Z.mod_small, u64_range.
Qed.

Lemma acc_fold_xor a vs : xor (foldl acc_add a vs) = foldr (λ v x, zip_with Z.lxor x v) (xor a) (reverse vs).
Proof.
  revert a. induction vs as [|v vs IH]; intros a; cbn [foldl]; [done|].
  rewrite IH, reverse_cons, foldr_app. done.
Qed.

Lemma foldr_xor_comm x v vs :
  foldr (λ v x, zip_with Z.lxor x v) (zip_with Z.lxor x v) vs =
  zip_with Z.lxor (foldr (λ v x, zip_with Z.lxor x v) x vs) v.
Proof. induction vs as [|w vs IH]; cbn; [done|]. by rewrite IH, zip_lxor_comm. Qed.

Lemma xor_all_perm vs ws : vs ≡ₚ ws → xor_all vs = xor_all ws.
Proof.
  unfold xor_all. induction 1 as [|v vs ws _ IH|v w vs|]; cbn [foldr]; [done|by rewrite IH| |congruence].
  apply zip_lxor_comm.
Qed.

Lemma acc_fold_sum a vs : acc_ok a → Forall digest_ok vs →
  from_big_endian (sum (foldl acc_add a vs)) = (from_big_endian (sum a) + sumZ (from_big_endian <$> vs)) mod 2 ^ 256.
Proof.
  change (2 ^ 256) with (256 ^ Z.of_nat 32). intros Ha Hv. revert a Ha.
  induction Hv as [|v vs Hv _ IH]; intros a Ha; cbn [foldl fmap list_fmap].
  - destruct Ha as (_ & _ & B & L). pose proof (from_big_endian_range _ B) as Hr. rewrite L in Hr.
    cbn [sumZ foldr]. rewrite Z.add_0_r, Z.mod_small; done.
  - rewrite IH by by apply acc_add_ok. destruct Ha as (_ & _ & B & L), Hv as [Bv Lv]. cbn [acc_add sum].
    rewrite add_bytes_mod, L, Zplus_mod_idemp_l by (done || congruence). cbn [sumZ foldr].
    f_equal. unfold sumZ. lia.
Qed.

Lemma big_endian_from l n : byte_list l → length l = n → big_endian n (from_big_endian l) = l.
Proof.
  intros Hl Hn. apply from_big_endian_inj; [apply big_endian_range|done|by rewrite length_big_endian|].
  apply from_to_big_endian. rewrite <- Hn. by apply from_big_endian_range.
Qed.

(** An accumulator is determined by the count, the exclusive or and the sum of
    what was added. *)
Lemma acc_fold_spec vs : Forall digest_ok vs →
  foldl acc_add zero_acc vs =
    mkAcc (u64 (Z.of_nat (length vs))) (xor_all vs) (big_endian 32 (sum_all vs)).
Proof.
  intros Hv. pose proof (acc_fold_ok zero_acc vs zero_acc_ok Hv) as (B1 & L1 & B2 & L2).
  pose proof (acc_fold_sum zero_acc vs zero_acc_ok Hv) as Hs.
  change (from_big_endian (sum zero_acc)) with 0 in Hs. rewrite Z.add_0_l in Hs. fold (sum_all vs) in Hs.
  pose proof (acc_fold_rows zero_acc vs eq_refl) as Hr. pose proof (acc_fold_xor zero_acc vs) as Hx.
  destruct (foldl acc_add zero_acc vs) as [r x t]. cbn [rows xor sum] in *. f_equal.
  - by rewrite Hr.
  - rewrite Hx. apply xor_all_perm, reverse_Permutation.
  - rewrite <- Hs. symmetry. by apply big_endian_from.
Qed.

Section digests.
Context (float_text : string → option string).

(** ** The digests of a table *)

Definition row_identity (r : Row.t) : list Column.t :=
  if String.eqb (Row.Identity r) "full_row" then Row.Columns r else Row.Key r.

Definition bucket_of (n : Z) (r : Row.t) : Z :=
  u32 (from_big_endian (take 8 (columnsHash float_text (row_identity r))) mod n).

(** The rows of a bucket. *)
Definition bucket_rows (n i : Z) (l : list Row.t) : list Row.t := List.filter (λ r, bucket_of n r =? i) l.

(** The digest of a bucket from its rows. *)
Definition bucket_digest (n i : Z) (l : list Row.t) : Digest :=
  let vs := rowHash float_text <$> bucket_rows n i l in
  let count := u64 (Z.of_nat (length vs)) in
  mkDigest i count (hex_encode (of_bytes (Sum256 (big_endian 8 count ++ xor_all vs ++ big_endian 32 (sum_all vs))))).

Definition reference (l : list Row.t) (n : Z) : list Digest := (λ i, bucket_digest n i l) <$> seqZ 0 n.

Lemma Bucket_Ok r n : 0 < n → row_identity r ≠ [] → Bucket float_text r n = Ok (bucket_of n r).
Proof.
  intros Hn Hr. unfold Bucket. fold (row_identity r). go. rewrite (proj2 (Z.eqb_neq n 0)) by lia.
  rewrite bool_decide_eq_false_2 by done. done.
Qed.

Lemma bucket_range n r : 0 < n < 2 ^ 32 → 0 ≤ bucket_of n r < n.
Proof.
  intros Hn. unfold bucket_of. pose proof (Z.mod_pos_bound (from_big_endian (take 8 (columnsHash float_text (row_identity r)))) n).
  rewrite u32_small; lia.
Qed.

Lemma add_rows_lookup l (b : list accumulator) : (0 < length b)%nat → Z.of_nat (length b) < 2 ^ 32 → Forall (λ r, row_identity r ≠ []) l →
  ∃ b' : list accumulator, add_rows float_text b l = Ok b' ∧ length b' = length b ∧
    ∀ i, b' !! i = (λ a, foldl acc_add a (rowHash float_text <$> bucket_rows (Z.of_nat (length b)) (Z.of_nat i) l)) <$> b !! i.
Proof.
  intros Hb Hn Hl. revert b Hb Hn. induction Hl as [|r l Hr _ IH]; intros b Hb Hn; cbn [add_rows].
  { exists b. split_and!; [done|done|]. intros i. by destruct (b !! i). }
  unfold Add. rewrite Bucket_Ok by (done || lia). go.
  destruct (IH (alter (λ a, acc_add a (rowHash float_text r)) (Z.to_nat (bucket_of (Z.of_nat (length b)) r)) b))
    as (b' & E & Hlen & Hlook); rewrite ?length_alter; [done..|].
  exists b'. rewrite length_alter in Hlen. split_and!; [done|done|]. intros i. rewrite Hlook, length_alter.
  pose proof (bucket_range (Z.of_nat (length b)) r ltac:(lia)). unfold bucket_rows. cbn [List.filter].
  destruct (Z.eqb_spec (bucket_of (Z.of_nat (length b)) r) (Z.of_nat i)) as [Ei|Ei].
  - rewrite Ei, Nat2Z.id, list_lookup_alter, decide_True by done. by destruct (b !! i).
  - rewrite list_lookup_alter, decide_False by lia. done.
Qed.

Lemma rowHash_ok r : digest_ok (rowHash float_text r).
Proof. apply Sum256_ok. Qed.

(** The builder computes the reference digests. *)
Lemma Digests_reference l n : 0 < n < 2 ^ 32 → Forall (λ r, row_identity r ≠ []) l →
  Digests float_text l n = Ok (reference l n).
Proof.
  intros Hn Hl. unfold Digests, NewBuilder. go. rewrite (proj2 (Z.eqb_neq n 0)) by lia. go.
  destruct (add_rows_lookup l (replicate (Z.to_nat n) zero_acc)) as (b' & -> & Hlen & Hlook);
    rewrite ?length_replicate; try done; try lia.
  go. f_equal. apply list_eq. intros i. unfold builder_digests, reference.
  rewrite list_lookup_imap, list_lookup_fmap, Hlook. rewrite length_replicate, Z2Nat.id by lia.
  destruct (decide (i < Z.to_nat n)%nat) as [Hi|Hi].
  - rewrite lookup_replicate_2, lookup_seqZ_lt by lia. cbn [fmap option_fmap option_map].
    rewrite Z.add_0_l. unfold bucket_digest. rewrite acc_fold_spec; [done|].
    apply Forall_fmap, Forall_true. intros r. apply rowHash_ok.
  - rewrite (lookup_ge_None_2 (replicate _ _)) by (rewrite length_replicate; lia).
    rewrite lookup_seqZ_ge by lia. done.
Qed.

Lemma add_rows_error l (b : list accumulator) : (0 < length b)%nat → ¬ Forall (λ r, row_identity r ≠ []) l →
  add_rows float_text b l = Err (errorf "reconcile row has no identity").
Proof.
  revert b. induction l as [|r l IH]; intros b Hb Hl; [by destruct Hl|]. cbn [add_rows]. unfold Add.
  destruct (decide (row_identity r = [])) as [E|E].
  - unfold Bucket. fold (row_identity r). go. rewrite (proj2 (Z.eqb_neq _ 0)) by lia.
    by rewrite E, bool_decide_eq_true_2.
  - rewrite Bucket_Ok by (done || lia). go. apply IH; [by rewrite length_alter|]. intros Hl'. apply Hl. by constructor.
Qed.

(** ** Rows up to the order of their columns *)

Definition same_row (r r' : Row.t) : Prop :=
  Row.Schema r = Row.Schema r' ∧ Row.Table r = Row.Table r' ∧ Row.Identity r = Row.Identity r' ∧
  Row.Columns r ≡ₚ Row.Columns r' ∧ Row.Key r ≡ₚ Row.Key r' ∧
  NoDup (Column.Name <$> Row.Columns r) ∧ NoDup (Column.Name <$> Row.Key r).

Lemma columns_parts_perm l k : NoDup (Column.Name <$> l) → l ≡ₚ k →
  columns_parts float_text l = columns_parts float_text k.
Proof.
  intros Hnd Hp. unfold columns_parts. do 2 f_equal. apply (order_by_perm_eq by_name); [|by apply NoDup_fmap_1 in Hnd|done].
  intros x y Hx Hy. destruct (string_ltb_total (Column.Name x) (Column.Name y)) as [E|]; [left|by right].
  apply list_elem_of_lookup in Hx as [i Hi], Hy as [j Hj].
  assert (i = j) as ->; [|congruence].
  eapply NoDup_lookup; [exact Hnd|by rewrite list_lookup_fmap, Hi|]. by rewrite list_lookup_fmap, Hj, E.
Qed.

Lemma same_row_hash r r' : same_row r r' → rowHash float_text r = rowHash float_text r'.
Proof.
  intros (H1 & H2 & _ & Hc & _ & Hnd & _). unfold rowHash, row_parts.
  by rewrite H1, H2, (columns_parts_perm _ _ Hnd Hc).
Qed.

Lemma same_row_bucket n r r' : same_row r r' →
  bucket_of n r = bucket_of n r' ∧ (row_identity r ≠ [] ↔ row_identity r' ≠ []).
Proof.
  intros (_ & _ & Hi & Hc & Hk & Hn1 & Hn2). unfold bucket_of, columnsHash, row_identity. rewrite Hi.
  assert (∀ l k : list Column.t, l ≡ₚ k → l ≠ [] ↔ k ≠ []) as Hnil.
  { intros l k Hlk. split; intros Hne ->; [by apply Permutation_sym, Permutation_nil in Hlk|by apply Permutation_nil in Hlk]. }
  destruct (String.eqb _ _); (split; [|by apply Hnil]);
    [rewrite (columns_parts_perm _ _ Hn1 Hc)|rewrite (columns_parts_perm _ _ Hn2 Hk)]; done.
Qed.

Lemma bucket_digest_same n i l l' : Forall2 same_row l l' → bucket_digest n i l = bucket_digest n i l'.
Proof.
  intros Hl. unfold bucket_digest. enough (rowHash float_text <$> bucket_rows n i l =
    rowHash float_text <$> bucket_rows n i l') as -> by done.
  induction Hl as [|r r' l l' Hr _ IH]; [done|]. unfold bucket_rows in *. cbn [List.filter].
  destruct (same_row_bucket n r r' Hr) as [<- _]. destruct (_ =? i); [|done].
  cbn. rewrite (same_row_hash _ _ Hr). by f_equal.
Qed.

Lemma bucket_digest_perm n i l l' : l ≡ₚ l' → bucket_digest n i l = bucket_digest n i l'.
Proof.
  intros Hp. unfold bucket_digest.
  assert (rowHash float_text <$> bucket_rows n i l ≡ₚ rowHash float_text <$> bucket_rows n i l') as Hv.
  { apply fmap_Permutation. unfold bucket_rows. induction Hp as [|r l l' _ IH|r r' l|]; cbn; [done| | |by etrans].
    - destruct (_ =? i); [by constructor|done].
    - destruct (bucket_of n r =? i), (bucket_of n r' =? i); try done. apply perm_swap. }
  rewrite (Permutation_length Hv), (xor_all_perm _ _ Hv). unfold sum_all.
  by rewrite (sumZ_perm _ _ (fmap_Permutation from_big_endian _ _ Hv)).
Qed.

(** ** What is hashed *)

(** The normalized content of a row. *)
Definition normalized (r : Row.t) : list (string * option string) :=
  (λ c, (Column.Name c, normalize float_text (Column.Type_ c) <$> Column.Value c)) <$>
    order_by by_name (Row.Columns r).

Definition part_ok (p : option string) : Prop :=
  match p with Some s => slen s < 2 ^ 64 - 1 | None => True end.

Lemma writePart_inj p q a b : part_ok p → part_ok q → writePart p ++ a = writePart q ++ b → p = q ∧ a = b.
Proof.
  assert (∀ x y (u v : list Z), big_endian 8 x ++ u = big_endian 8 y ++ v → 0 ≤ x < 2 ^ 64 → 0 ≤ y < 2 ^ 64 →
    x = y ∧ u = v) as Hbe.
  { intros x y u v E Hx Hy. apply app_inj_1 in E as [E ->]; [|by rewrite !length_big_endian]. split; [|done].
    rewrite <- (from_to_big_endian 8 x), <- (from_to_big_endian 8 y) by done. by rewrite E. }
  destruct p as [s|], q as [t|]; cbn [writePart part_ok]; intros Hp Hq E; rewrite <- ?app_assoc in E.
  - pose proof (slen_nonneg s). pose proof (slen_nonneg t). apply Hbe in E as [Hl E]; [|lia..].
    apply app_inj_1 in E as [E ->]; [|rewrite !length_bytes; unfold slen in Hl; lia].
    split; [|done]. f_equal. rewrite <- (of_bytes_bytes s), <- (of_bytes_bytes t). by rewrite E.
  - pose proof (slen_nonneg s). apply Hbe in E as [Hl E]; lia.
  - pose proof (slen_nonneg t). apply Hbe in E as [Hl E]; lia.
  - apply Hbe in E as [_ ->]; [done|lia..].
Qed.

Lemma writePart_nonempty p a : writePart p ++ a ≠ [].
Proof. by destruct p. Qed.

Lemma write_parts_inj l k : Forall part_ok l → Forall part_ok k → write_parts l = write_parts k → l = k.
Proof.
  intros Hl. revert k. induction Hl as [|p l Hp _ IH]; intros k Hk E.
  - destruct k as [|q k]; [done|]. symmetry in E. by apply writePart_nonempty in E.
  - destruct Hk as [|q k Hq Hk]; [by apply writePart_nonempty in E|].
    apply writePart_inj in E as [-> E]; [|done..]. f_equal. by apply IH.
Qed.

Lemma column_parts_inj l k : concat (column_parts float_text <$> l) = concat (column_parts float_text <$> k) →
  ((λ c, (Column.Name c, normalize float_text (Column.Type_ c) <$> Column.Value c)) <$> l) =
  ((λ c, (Column.Name c, normalize float_text (Column.Type_ c) <$> Column.Value c)) <$> k).
Proof.
  revert k. induction l as [|c l IH]; intros [|d k]; cbn; try done.
  intros E. injection E as -> E.
  destruct (Column.Value c) as [v|], (Column.Value d) as [w|]; cbn in *; try done.
  - injection E as E1 E. rewrite E1. f_equal. by apply IH.
  - injection E as E. f_equal. by apply IH.
Qed.

(** C34. The builder computes the reference digests: for rows that have an
    identity, the digest of bucket i is the hash of the number of its rows, the
    exclusive or of their hashes and the sum of their hashes modulo 2^256, where
    the code adds byte by byte with a carry. *)
Theorem digests_reference l n : 0 < n < 2 ^ 32 → Forall (λ r, row_identity r ≠ []) l →
  Digests float_text l n = Ok (reference l n).
Proof. apply Digests_reference. Qed.

(** The digests up to the order of the rows and of their columns. *)
Lemma Digests_same l k l' n : 0 ≤ n < 2 ^ 32 → l ≡ₚ k → Forall2 same_row k l' →
  Digests float_text l n = Digests float_text l' n.
Proof.
  intros Hn Hp Hs. destruct (Z.eq_dec n 0) as [->|Hn0]; [done|].
  assert (Forall (λ r, row_identity r ≠ []) l ↔ Forall (λ r, row_identity r ≠ []) l') as Hid.
  { rewrite Hp. clear Hp. induction Hs as [|r r' k l' Hr _ IH]; [done|]. rewrite !Forall_cons, IH.
    by destruct (same_row_bucket n r r' Hr) as [_ ->]. }
  destruct (decide (Forall (λ r, row_identity r ≠ []) l)) as [Hl|Hl].
  - rewrite !Digests_reference; [|lia|by apply Hid|lia|done]. f_equal. unfold reference.
    apply list_fmap_ext. intros _ i _. rewrite (bucket_digest_perm _ _ _ _ Hp). by apply bucket_digest_same.
  - unfold Digests, NewBuilder. go. rewrite (proj2 (Z.eqb_neq n 0)) by done. go.
    rewrite !add_rows_error; [done|rewrite length_replicate; lia|by rewrite <- Hid|rewrite length_replicate; lia|done].
Qed.

(** Digests do not depend on order: two tables with the same rows, in any
    order and with the columns of each row in any order, have the same digests, or
    fail alike. *)
Theorem digests_permutation l k l' n : 0 ≤ n < 2 ^ 32 → l ≡ₚ k → Forall2 same_row k l' →
  Digests float_text l n = Digests float_text l' n.
Proof. apply Digests_same. Qed.

(** What is hashed determines the row: two rows whose byte streams into the
    hash are equal have the same schema, table and normalized columns, so rows
    with equal hashes differ only by a collision of SHA-256. *)
Theorem row_stream_injective r r' : Forall part_ok (row_parts float_text r) → Forall part_ok (row_parts float_text r') →
  write_parts (row_parts float_text r) = write_parts (row_parts float_text r') →
  Row.Schema r = Row.Schema r' ∧ Row.Table r = Row.Table r' ∧ normalized r = normalized r'.
Proof.
  intros Hr Hr' E%write_parts_inj; [|done..]. unfold row_parts in E. cbn in E.
  injection E as -> -> E. split_and!; [done|done|]. by apply column_parts_inj.
Qed.
End digests.

(** ** Examples *)

Definition demo_column (n t v : string) : Column.t := Column.mk n t (Some v) "" None.
Definition demo_row1 : Row.t :=
  Row.mk "" "public" "t" "read" [demo_column "id" "int" "1"] [] [demo_column "id" "int" "1"; demo_column "n" "numeric" "1.50"] 0.
Definition demo_row1' : Row.t :=
  Row.mk "" "public" "t" "read" [demo_column "id" "int" "1"] [] [demo_column "n" "numeric" "1.50"; demo_column "id" "int" "1"] 0.
Definition demo_row2 : Row.t :=
  Row.mk "" "public" "t" "read" [demo_column "id" "int" "2"] [] [demo_column "id" "int" "2"; demo_column "n" "numeric" "7"] 0.

Lemma digests_reference_witness :
  Digests (λ _, None) [demo_row1; demo_row2] 4 = Ok (reference (λ _, None) [demo_row1; demo_row2] 4).
Proof. apply (digests_reference (λ _, None)); [lia|]. repeat constructor; discriminate. Defined.

Lemma digests_permutation_witness :
  Digests (λ _, None) [demo_row1; demo_row2] 4 = Digests (λ _, None) [demo_row2; demo_row1'] 4.
Proof.
  apply (digests_permutation (λ _, None) _ [demo_row2; demo_row1]).
  - lia.
  - apply perm_swap.
  - repeat constructor; try done; try (cbn; set_solver).
Defined.

Lemma row_stream_injective_witness : normalized (λ _, None) demo_row1 = normalized (λ _, None) demo_row1'.
Proof. apply row_stream_injective; [repeat constructor..|reflexivity]. Defined.
