(* ===== verification/Queue.v ===== *)
(** * The durable queue (internal/queue)

    The bbolt database of [queue.go]: a meta bucket with the JSON of [State], and
    an items bucket with the JSON of every retained message under its sequence
    number.  A sequence number stands for its eight key bytes; [key_compare]
    shows that bbolt's byte order on them is the numeric order.  A write
    transaction ([bolt.DB.Update]) commits when its function returns nil and
    leaves the database as it was otherwise.  The free disk space and the clock
    are arguments. *)

From S2P Require Import Prelude Bytes Encoding Json JsonStruct GoTime Event.

(** The capture state kept in the meta bucket. *)
Module State.
Record t := mk {
  ProtocolVersion : string;
  SourceID : string;
  Generation : string;
  Fingerprint : string;
  SystemID : string;
  Timeline : Z;
  Database : string;
  SchemaHash : string;
  Slot : string;
  Phase : string;
  SnapshotLSN : string;
  DurableLSN : string;
  SourceCleanup : string;
  NextSeq : Z;
  ReadySeq : Z;
  DeliveredSeq : Z;
  Bytes : Z;
  EarliestSeq : Z;
  ArchiveBytes : Z
}.

Definition zero : t := mk "" "" "" "" "" 0 "" "" "" "" "" "" "" 0 0 0 0 0 0.

Definition set_Generation (v : string) (x : t) : t :=
  mk (ProtocolVersion x) (SourceID x) v (Fingerprint x) (SystemID x) (Timeline x) (Database x)
    (SchemaHash x) (Slot x) (Phase x) (SnapshotLSN x) (DurableLSN x) (SourceCleanup x)
    (NextSeq x) (ReadySeq x) (DeliveredSeq x) (Bytes x) (EarliestSeq x) (ArchiveBytes x) .
Definition set_SchemaHash (v : string) (x : t) : t :=
  mk (ProtocolVersion x) (SourceID x) (Generation x) (Fingerprint x) (SystemID x) (Timeline x)
    (Database x) v (Slot x) (Phase x) (SnapshotLSN x) (DurableLSN x) (SourceCleanup x)
    (NextSeq x) (ReadySeq x) (DeliveredSeq x) (Bytes x) (EarliestSeq x) (ArchiveBytes x) .
Definition set_Phase (v : string) (x : t) : t :=
  mk (ProtocolVersion x) (SourceID x) (Generation x) (Fingerprint x) (SystemID x) (Timeline x)
    (Database x) (SchemaHash x) (Slot x) v (SnapshotLSN x) (DurableLSN x) (SourceCleanup x)
    (NextSeq x) (ReadySeq x) (DeliveredSeq x) (Bytes x) (EarliestSeq x) (ArchiveBytes x) .
Definition set_SnapshotLSN (v : string) (x : t) : t :=
  mk (ProtocolVersion x) (SourceID x) (Generation x) (Fingerprint x) (SystemID x) (Timeline x)
    (Database x) (SchemaHash x) (Slot x) (Phase x) v (DurableLSN x) (SourceCleanup x)
    (NextSeq x) (ReadySeq x) (DeliveredSeq x) (Bytes x) (EarliestSeq x) (ArchiveBytes x) .
Definition set_DurableLSN (v : string) (x : t) : t :=
  mk (ProtocolVersion x) (SourceID x) (Generation x) (Fingerprint x) (SystemID x) (Timeline x)
    (Database x) (SchemaHash x) (Slot x) (Phase x) (SnapshotLSN x) v (SourceCleanup x)
    (NextSeq x) (ReadySeq x) (DeliveredSeq x) (Bytes x) (EarliestSeq x) (ArchiveBytes x) .
Definition set_SourceCleanup (v : string) (x : t) : t :=
  mk (ProtocolVersion x) (SourceID x) (Generation x) (Fingerprint x) (SystemID x) (Timeline x)
    (Database x) (SchemaHash x) (Slot x) (Phase x) (SnapshotLSN x) (DurableLSN x) v (NextSeq x)
    (ReadySeq x) (DeliveredSeq x) (Bytes x) (EarliestSeq x) (ArchiveBytes x) .
Definition set_NextSeq (v : Z) (x : t) : t :=
  mk (ProtocolVersion x) (SourceID x) (Generation x) (Fingerprint x) (SystemID x) (Timeline x)
    (Database x) (SchemaHash x) (Slot x) (Phase x) (SnapshotLSN x) (DurableLSN x)
    (SourceCleanup x) v (ReadySeq x) (DeliveredSeq x) (Bytes x) (EarliestSeq x) (ArchiveBytes x)
    .
Definition set_ReadySeq (v : Z) (x : t) : t :=
  mk (ProtocolVersion x) (SourceID x) (Generation x) (Fingerprint x) (SystemID x) (Timeline x)
    (Database x) (SchemaHash x) (Slot x) (Phase x) (SnapshotLSN x) (DurableLSN x)
    (SourceCleanup x) (NextSeq x) v (DeliveredSeq x) (Bytes x) (EarliestSeq x) (ArchiveBytes x)
    .
Definition set_DeliveredSeq (v : Z) (x : t) : t :=
  mk (ProtocolVersion x) (SourceID x) (Generation x) (Fingerprint x) (SystemID x) (Timeline x)
    (Database x) (SchemaHash x) (Slot x) (Phase x) (SnapshotLSN x) (DurableLSN x)
    (SourceCleanup x) (NextSeq x) (ReadySeq x) v (Bytes x) (EarliestSeq x) (ArchiveBytes x) .
Definition set_Bytes (v : Z) (x : t) : t :=
  mk (ProtocolVersion x) (SourceID x) (Generation x) (Fingerprint x) (SystemID x) (Timeline x)
    (Database x) (SchemaHash x) (Slot x) (Phase x) (SnapshotLSN x) (DurableLSN x)
    (SourceCleanup x) (NextSeq x) (ReadySeq x) (DeliveredSeq x) v (EarliestSeq x)
    (ArchiveBytes x) .
Definition set_EarliestSeq (v : Z) (x : t) : t :=
  mk (ProtocolVersion x) (SourceID x) (Generation x) (Fingerprint x) (SystemID x) (Timeline x)
    (Database x) (SchemaHash x) (Slot x) (Phase x) (SnapshotLSN x) (DurableLSN x)
    (SourceCleanup x) (NextSeq x) (ReadySeq x) (DeliveredSeq x) (Bytes x) v (ArchiveBytes x) .
Definition set_ArchiveBytes (v : Z) (x : t) : t :=
  mk (ProtocolVersion x) (SourceID x) (Generation x) (Fingerprint x) (SystemID x) (Timeline x)
    (Database x) (SchemaHash x) (Slot x) (Phase x) (SnapshotLSN x) (DurableLSN x)
    (SourceCleanup x) (NextSeq x) (ReadySeq x) (DeliveredSeq x) (Bytes x) (EarliestSeq x) v.

#[global] Instance eq_dec : EqDecision t.
Proof. solve_decision. Defined.
End State.


(** ** The JSON of the state *)

Definition State_json (st : State.t) : json :=
  struct_json
    [("protocol_version", omit_str (State.ProtocolVersion st));
     ("source_id", str (State.SourceID st)); ("generation", str (State.Generation st));
     ("fingerprint", str (State.Fingerprint st)); ("system_id", str (State.SystemID st));
     ("timeline", num (State.Timeline st)); ("database", str (State.Database st));
     ("schema_hash", str (State.SchemaHash st)); ("slot", str (State.Slot st));
     ("phase", str (State.Phase st)); ("snapshot_lsn", str (State.SnapshotLSN st));
     ("durable_lsn", str (State.DurableLSN st));
     ("source_cleanup", omit_str (State.SourceCleanup st)); ("next_seq", num (State.NextSeq st));
     ("ready_seq", num (State.ReadySeq st)); ("delivered_seq", num (State.DeliveredSeq st));
     ("bytes", num (State.Bytes st)); ("earliest_seq", omit_num (State.EarliestSeq st));
     ("archive_bytes", omit_num (State.ArchiveBytes st))].

Definition State_of (v : json) : option State.t :=
  dec_struct State.zero (λ ms,
    version ← obj_fold "protocol_version" dec_str "" ms;
    source ← obj_fold "source_id" dec_str "" ms;
    generation ← obj_fold "generation" dec_str "" ms;
    fingerprint ← obj_fold "fingerprint" dec_str "" ms;
    system ← obj_fold "system_id" dec_str "" ms;
    timeline ← obj_fold "timeline" (dec_int 32) 0 ms;
    database ← obj_fold "database" dec_str "" ms;
    schema ← obj_fold "schema_hash" dec_str "" ms;
    slot ← obj_fold "slot" dec_str "" ms;
    phase ← obj_fold "phase" dec_str "" ms;
    snapshot ← obj_fold "snapshot_lsn" dec_str "" ms;
    durable ← obj_fold "durable_lsn" dec_str "" ms;
    cleanup ← obj_fold "source_cleanup" dec_str "" ms;
    next ← obj_fold "next_seq" (dec_uint 64) 0 ms;
    ready ← obj_fold "ready_seq" (dec_uint 64) 0 ms;
    delivered ← obj_fold "delivered_seq" (dec_uint 64) 0 ms;
    bytes ← obj_fold "bytes" (dec_int 64) 0 ms;
    earliest ← obj_fold "earliest_seq" (dec_uint 64) 0 ms;
    archive ← obj_fold "archive_bytes" (dec_int 64) 0 ms;
    Some (State.mk version source generation fingerprint system timeline database schema slot
            phase snapshot durable cleanup next ready delivered bytes earliest archive)) v.

(** ** The database and its transactions *)

(** The value of the state key, and the items bucket. *)
Record DB := mkDB { meta : option string; items : gmap Z string }.

Record Store := mkStore {
  db : DB;
  maxBytes : Z;
  reserve : Z;
  replayAge : Z;
  replayBytes : Z
}.

Definition with_db (d : DB) (s : Store) : Store :=
  mkStore d (maxBytes s) (reserve s) (replayAge s) (replayBytes s).

(** [s.db.Update(f)] *)
Definition Update (s : Store) (f : DB → result DB) : Store * result unit :=
  match f (db s) with
  | Ok d => (with_db d s, Ok tt)
  | Err e => (s, Err e)
  end.

(** The key bytes of a sequence number. *)
Definition key (n : Z) : list Z := big_endian 8 n.

Definition read (d : DB) : result State.t :=
  raw ← or_err (meta d) (errorf "unexpected end of JSON input");
  or_err (parse raw ≫= State_of) (errorf "invalid queue state").

Definition save (d : DB) (st : State.t) : DB := mkDB (Some (print (State_json st))) (items d).

Definition with_items (d : DB) (m : gmap Z string) : DB := mkDB (meta d) m.

(** ** Operations *)

(** [Open]: create the buckets and the zero state in a database that has none. *)
Definition Open (d : DB) (maxB res : Z) : Store :=
  let d' := match meta d with None => save d State.zero | Some _ => d end in
  mkStore d' maxB res (7 * 24 * 3600 * second) (20 * 2 ^ 30).

Definition ConfigureReplay (s : Store) (maxAge maxB : Z) : Store :=
  mkStore (db s) (maxBytes s) (reserve s) maxAge maxB.

(** [s.State()] *)
Definition GetState (s : Store) : result State.t := read (db s).

(** The header [MetricsSnapshot] decodes; [None] is the zero time. *)
Definition header_time (raw : string) : option (option Z) :=
  v ← parse raw;
  dec_struct None (obj_fold "created_at" (λ old v,
    match v with JNull => Some old | JStr s => Some <$> Parse s | _ => None end) None) v.

Definition MetricsSnapshot (s : Store) : result (State.t * option Z) :=
  st ← read (db s);
  if State.ReadySeq st <=? State.DeliveredSeq st then Ok (st, None)
  else
    v ← or_err (items (db s) !! u64 (State.DeliveredSeq st + 1)) (errorf "queue gap");
    oldest ← or_err (header_time v) (errorf "invalid created_at");
    Ok (st, oldest).

(** The counters of an empty generation. *)
Definition reset_counters (st : State.t) : State.t :=
  State.set_ArchiveBytes 0 (State.set_EarliestSeq 1 (State.set_DeliveredSeq 0
    (State.set_ReadySeq 0 (State.set_NextSeq 0 (State.set_Bytes 0 st))))).

Definition Initialize (s : Store) (st : State.t) : Store * result unit :=
  Update s (λ d,
    old ← read d;
    _ ← fail_if (negb (String.eqb (State.Phase old) "") &&
                 negb (String.eqb (State.Phase old) "snapshot"))
          (errorf "cannot reset a sealed capture");
    Ok (save (with_items d ∅) (reset_counters (State.set_Phase "snapshot" st)))).

Definition SnapshotPoint (s : Store) (lsn : string) : Store * result unit :=
  Update s (λ d, st ← read d; Ok (save d (State.set_SnapshotLSN lsn st))).

(** The loop of [FinalizeSnapshotLSN]: rewrite [n] messages from [seq] on,
    counting their bytes. *)
Fixpoint finalize (maxB : Z) (lsn : string) (n : nat) (seq bytes : Z) (m : gmap Z string) :
    result (gmap Z string * Z) :=
  match n with
  | O => Ok (m, bytes)
  | S n' =>
      value ← or_err (m !! seq) (errorf "queue gap");
      message ← or_err (unmarshal value) (errorf "invalid message");
      let updated := marshal (Message.set_LSN lsn message) in
      _ ← fail_if (maxB <? i64 (bytes + slen updated)) ErrFull;
      finalize maxB lsn n' (u64 (seq + 1)) (i64 (bytes + slen updated)) (<[seq := updated]> m)
  end.

Definition FinalizeSnapshotLSN (s : Store) (lsn : string) : Store * result unit :=
  Update s (λ d,
    st ← read d;
    _ ← fail_if (negb (String.eqb (State.Phase st) "snapshot") || negb (State.ReadySeq st =? 0))
          (errorf "snapshot boundary cannot be finalized");
    '(m, bytes) ← finalize (maxBytes s) lsn (Z.to_nat (State.NextSeq st)) 1 0 (items d);
    Ok (save (with_items d m) (State.set_SnapshotLSN lsn (State.set_Bytes bytes st)))).

(** The message [Append] stores for [m]: version, source, generation, schema
    version, sequence number, id and time are the queue's. *)
Definition message_id (source generation : string) (seq : Z) : string :=
  source +:+ "/" +:+ generation +:+ "/" +:+ FormatInt seq.

Definition stamp (st : State.t) (now : Z) (m : Message.t) : Message.t :=
  let version := if String.eqb (State.ProtocolVersion st) "" then "v1"
                 else State.ProtocolVersion st in
  let schema := if String.eqb (Message.SchemaVersion m) "" then State.SchemaHash st
                else Message.SchemaVersion m in
  let seq := u64 (State.NextSeq st + 1) in
  Message.set_CreatedAt (Format now)
    (Message.set_ID (message_id (State.SourceID st) (State.Generation st) seq)
      (Message.set_Seq seq
        (Message.set_SchemaVersion schema
          (Message.set_Generation (State.Generation st)
            (Message.set_SourceID (State.SourceID st) (Message.set_Version version m)))))).

Definition Append (s : Store) (free : result Z) (now : Z) (m : Message.t) : Store * result unit :=
  match free with
  | Err e => (s, Err e)
  | Ok free =>
    if free <? u64 (reserve s + u64 (Z.of_nat (length (Message.Rows m)) * 1024)) then (s, Err ErrFull)
    else
      Update s (λ d,
        st ← read d;
        let m := stamp st now m in
        let b := marshal m in
        _ ← fail_if ((maxBytes s <? i64 (State.Bytes st + slen b)) ||
                     (free <? u64 (reserve s + u64 (slen b * 4)))) ErrFull;
        Ok (save (with_items d (<[Message.Seq m := b]> (items d)))
              (State.set_Bytes (i64 (State.Bytes st + slen b))
                (State.set_NextSeq (Message.Seq m) st))))
  end.

Definition PublishSchema (s : Store) (lsn schemaHash : string) : Store * result unit :=
  if String.eqb lsn "" || String.eqb schemaHash "" then
    (s, Err (errorf "schema checkpoint and hash are required"))
  else
    Update s (λ d,
      st ← read d;
      _ ← fail_if (negb (String.eqb (State.Phase st) "stream"))
            (errorf "schema can only be published while streaming");
      Ok (save d (State.set_SchemaHash schemaHash
            (State.set_DurableLSN lsn (State.set_ReadySeq (State.NextSeq st) st))))).

Definition PublishSource (s : Store) (lsn : string) (sealSnapshot : bool) (cleanup : string) :
    Store * result unit :=
  Update s (λ d,
    st ← read d;
    _ ← fail_if (sealSnapshot && negb (String.eqb (State.Phase st) "snapshot"))
          (errorf "snapshot already sealed");
    let st := if sealSnapshot then State.set_Phase "stream" st else st in
    Ok (save d (State.set_SourceCleanup cleanup
          (State.set_DurableLSN lsn (State.set_ReadySeq (State.NextSeq st) st))))).

Definition Publish (s : Store) (lsn : string) (sealSnapshot : bool) : Store * result unit :=
  PublishSource s lsn sealSnapshot "".

Definition ClearSourceCleanup (s : Store) (expected : string) : Store * result unit :=
  Update s (λ d,
    st ← read d;
    _ ← fail_if (negb (String.eqb (State.SourceCleanup st) expected))
          (errorf "source cleanup token changed");
    Ok (save d (State.set_SourceCleanup "" st))).

(** The keys from [k] on, in the order a cursor visits them. *)
Definition keys_from (k : Z) (m : gmap Z string) : list Z :=
  merge_sort Z.le (filter (λ x, k ≤ x) (map_to_list m).*1).

(** The cursor loop of [Recover]. *)
Fixpoint discard (ks : list Z) (bytes : Z) (m : gmap Z string) : gmap Z string * Z :=
  match ks with
  | [] => (m, bytes)
  | k :: ks' =>
      let v := default "" (m !! k) in
      discard ks' (i64 (bytes - slen v)) (delete k m)
  end.

Definition Recover (s : Store) : Store * result unit :=
  Update s (λ d,
    st ← read d;
    let '(m, bytes) := discard (keys_from (u64 (State.ReadySeq st + 1)) (items d))
                         (State.Bytes st) (items d) in
    Ok (save (with_items d m) (State.set_NextSeq (State.ReadySeq st) (State.set_Bytes bytes st)))).

Definition ResetForSnapshot (s : Store) : Store * result unit :=
  Update s (λ d,
    st ← read d;
    _ ← fail_if (negb (String.eqb (State.Phase st) "stream"))
          (errorf "only a sealed stream can be repaired");
    _ ← fail_if (negb (State.NextSeq st =? State.ReadySeq st) ||
                 negb (State.DeliveredSeq st =? State.ReadySeq st)) ErrNotDrained;
    Ok (save (with_items d ∅)
          (reset_counters (State.set_SourceCleanup "" (State.set_DurableLSN ""
            (State.set_SnapshotLSN "" (State.set_SchemaHash "" (State.set_Generation ""
              (State.set_Phase "snapshot" st))))))))).

Definition Peek (s : Store) : result (Message.t * string) :=
  st ← read (db s);
  _ ← fail_if (State.ReadySeq st <=? State.DeliveredSeq st) ErrEmpty;
  v ← or_err (items (db s) !! u64 (State.DeliveredSeq st + 1)) (errorf "queue gap");
  m ← or_err (unmarshal v) (errorf "invalid message");
  Ok (m, v).

(** The first retained sequence number; a state written before replay was kept
    has none. *)
Definition earliest (st : State.t) : Z :=
  if State.EarliestSeq st =? 0 then u64 (State.DeliveredSeq st + 1) else State.EarliestSeq st.

Definition Get (s : Store) (seq : Z) : result (Message.t * string) :=
  st ← read (db s);
  _ ← fail_if ((seq <? earliest st) || (State.ReadySeq st <? seq)) ErrEmpty;
  v ← or_err (items (db s) !! seq) (errorf "queue gap");
  m ← or_err (unmarshal v) (errorf "invalid message");
  Ok (m, v).

Definition Bounds (s : Store) : result (string * Z * Z) :=
  st ← read (db s);
  Ok (State.Generation st, earliest st, State.ReadySeq st).

(** [header.CreatedAt] of a stored message, when the header decodes. *)
Definition header_created (raw : string) : option string :=
  v ← parse raw; dec_struct "" (obj_fold "created_at" dec_str "") v.

Definition expired (s : Store) (now : Z) (raw : string) : bool :=
  match header_created raw ≫= Parse with
  | Some created => replayAge s <? Since now created
  | None => false
  end.

(** The retention loop of [Ack], from [e] to the delivered sequence number. *)
Fixpoint evict (fuel : nat) (s : Store) (now delivered e archive : Z) (m : gmap Z string) :
    Z * Z * gmap Z string :=
  match fuel with
  | O => (e, archive, m)
  | S f =>
      if e <=? delivered then
        match m !! e with
        | None => evict f s now delivered (u64 (e + 1)) archive m
        | Some old =>
            if negb (expired s now old) && (archive <=? replayBytes s) then (e, archive, m)
            else evict f s now delivered (u64 (e + 1)) (i64 (archive - slen old)) (delete e m)
        end
      else (e, archive, m)
  end.

Definition Ack (s : Store) (now seq : Z) (id : string) : Store * result unit :=
  Update s (λ d,
    st ← read d;
    _ ← fail_if (negb (seq =? u64 (State.DeliveredSeq st + 1)) || (State.ReadySeq st <? seq))
          (errorf "non-contiguous ack");
    v ← or_err (items d !! seq) (errorf "ack references missing message");
    m ← or_err (unmarshal v) (errorf "invalid message");
    _ ← fail_if (negb (String.eqb (Message.ID m) id)) (errorf "ack id mismatch");
    let first := if State.EarliestSeq st =? 0 then 1 else State.EarliestSeq st in
    let '(e, archive, kept) :=
      evict (Z.to_nat (seq - first + 1)) s now seq first
        (i64 (State.ArchiveBytes st + slen v)) (items d) in
    Ok (save (with_items d kept)
          (State.set_EarliestSeq e (State.set_ArchiveBytes archive (State.set_DeliveredSeq seq
            (State.set_Bytes (i64 (State.Bytes st - slen v)) st)))))).
