(* ===== verification/QueueInv.v ===== *)
(** * Correctness of the durable queue

    The invariant of the queue database and its preservation by every
    operation.  The ghost state is the log: every message appended in the
    current generation, in order.  The invariant ties the stored state and the
    items bucket to it: the counters are positions in the log, the bucket holds
    exactly the encodings of the retained messages, the byte counters are the
    sizes of the undelivered and of the archived messages. *)

From S2P Require Import Prelude Bytes Encoding Json JsonStruct GoTime Event Queue.

#[local] Opaque marshal unmarshal.

(** ** The stored state *)

Definition State_ok (st : State.t) : bool :=
  utf8_valid (State.ProtocolVersion st) && utf8_valid (State.SourceID st) &&
  utf8_valid (State.Generation st) && utf8_valid (State.Fingerprint st) &&
  utf8_valid (State.SystemID st) && int_ok 32 (State.Timeline st) &&
  utf8_valid (State.Database st) && utf8_valid (State.SchemaHash st) &&
  utf8_valid (State.Slot st) && utf8_valid (State.Phase st) &&
  utf8_valid (State.SnapshotLSN st) && utf8_valid (State.DurableLSN st) &&
  utf8_valid (State.SourceCleanup st) && uint_ok 64 (State.NextSeq st) &&
  uint_ok 64 (State.ReadySeq st) && uint_ok 64 (State.DeliveredSeq st) &&
  int_ok 64 (State.Bytes st) && uint_ok 64 (State.EarliestSeq st) &&
  int_ok 64 (State.ArchiveBytes st).

Lemma State_round st : State_ok st = true → State_of (State_json st) = Some st.
Proof.
  unfold State_ok. intros. bool_prop. unfold State_of, State_json. struct_fields.
  unfold str, num. cbn [dec_str mbind option_bind].
  rewrite dec_omit_str. cbn [mbind option_bind].
  rewrite dec_int_num by (by apply int_ok_range). cbn [mbind option_bind].
  rewrite dec_omit_str. cbn [mbind option_bind].
  do 3 (rewrite dec_num by (by apply uint_ok_range); cbn [mbind option_bind]).
  rewrite dec_int_num by (by apply int_ok_range). cbn [mbind option_bind].
  rewrite dec_omit_num by (by apply uint_ok_range). cbn [mbind option_bind].
  rewrite dec_omit_int by (by apply int_ok_range). by destruct st.
Qed.

Lemma State_json_ok st : State_ok st = true → json_ok (State_json st) = true.
Proof.
  unfold State_ok. intros. bool_prop. unfold State_json. struct_ok;
    by rewrite int_lexeme_FormatInt.
Qed.

(** What [save] writes, [read] reads. *)
Lemma read_save d st : State_ok st = true → read (save d st) = Ok st.
Proof.
  intros H. unfold read, save. cbn [meta or_err mbind result_bind].
  rewrite parse_print by (by apply State_json_ok). cbn [mbind option_bind].
  by rewrite State_round.
Qed.

(** ** The stamped message *)

Lemma is_digit_ascii s : all_bytes is_digit s = true → all_bytes (λ c, byte_val c <? 128) s = true.
Proof.
  induction s as [|c s IH]; cbn; [done|]. intros [Hc Hs]%andb_true_iff. rewrite IH by done.
  unfold is_digit in Hc. bool_prop. rewrite (proj2 (Z.ltb_lt _ _)); [done|lia].
Qed.

Lemma utf8_dec z : utf8_valid (dec z) = true.
Proof. apply utf8_valid_ascii, is_digit_ascii, dec_digits. Qed.

Lemma utf8_FormatInt z : utf8_valid (FormatInt z) = true.
Proof.
  unfold FormatInt. case_if; [|apply utf8_dec]. apply utf8_valid_append; [done|apply utf8_dec].
Qed.

Lemma utf8_digits n z : utf8_valid (digits n z) = true.
Proof. apply utf8_valid_ascii, is_digit_ascii, digits_all. Qed.

Lemma utf8_String c s : byte_val c <? 128 = true → utf8_valid s = true → utf8_valid (String c s) = true.
Proof.
  intros Hc Hs. apply (utf8_valid_append (String c "") s); [|done].
  apply utf8_valid_ascii. cbn. by rewrite Hc.
Qed.

Lemma utf8_Format t : utf8_valid (Format t) = true.
Proof.
  unfold Format. destruct (civil_of_days _) as [[y m] d].
  repeat (apply utf8_valid_append; [apply utf8_digits|]; apply utf8_String; [done|]).
  apply utf8_valid_append; [apply utf8_digits|]. apply utf8_valid_append; [|done].
  unfold format_fraction. case_if; [done|]. apply utf8_String; [done|].
  apply utf8_valid_ascii, is_digit_ascii, trim_zeros_all, digits_all.
Qed.

Lemma utf8_message_id src gen seq : utf8_valid src = true → utf8_valid gen = true →
  utf8_valid (message_id src gen seq) = true.
Proof. intros. unfold message_id. auto 10 using utf8_valid_append, utf8_FormatInt. Qed.

Lemma uint_ok_u64 z : uint_ok 64 (u64 z) = true.
Proof. pose proof (u64_range z). unfold uint_ok. apply andb_true_iff. rewrite Z.leb_le, Z.ltb_lt. lia. Qed.

Lemma int_ok_i64 z : int_ok 64 (i64 z) = true.
Proof. pose proof (i64_range z). unfold int_ok. apply andb_true_iff. rewrite Z.leb_le, Z.ltb_lt. lia. Qed.

Lemma stamp_ok st now m : State_ok st = true → Message_ok m = true →
  Message_ok (stamp st now m) = true.
Proof.
  unfold State_ok, Message_ok. intros. bool_prop. rewrite !andb_true_iff. split_and!; try done; cbn.
  - by case_if.
  - by case_if.
  - apply uint_ok_u64.
  - by apply utf8_message_id.
  - apply utf8_Format.
Qed.

(** bbolt's cursor order on the keys is the order of the sequence numbers. *)
Lemma key_compare a b : 0 ≤ a < 2 ^ 64 → 0 ≤ b < 2 ^ 64 →
  bytes_compare (key a) (key b) = (a ?= b).
Proof. intros. unfold key. apply big_endian_compare; cbn; lia. Qed.

(** ** The invariant *)

(** The stored bytes of a list of messages. *)
Definition size (l : list Message.t) : Z := sumZ ((λ m, slen (marshal m)) <$> l).

(** The messages with sequence numbers [a..b]. *)
Definition segment (log : list Message.t) (a b : Z) : list Message.t :=
  drop (Z.to_nat (a - 1)) (take (Z.to_nat b) log).

(** The message with sequence number [seq]. *)
Definition at_seq (log : list Message.t) (seq : Z) : option Message.t :=
  if 1 <=? seq then log !! Z.to_nat (seq - 1) else None.

(** A message of the log carries its position, its source and its generation. *)
Definition log_ok (st : State.t) (log : list Message.t) : Prop :=
  ∀ i m, log !! i = Some m →
    Message_ok m = true ∧ Message.Seq m = Z.of_nat i + 1 ∧
    Message.SourceID m = State.SourceID st ∧ Message.Generation m = State.Generation st ∧
    Message.ID m = message_id (State.SourceID st) (State.Generation st) (Z.of_nat i + 1).

(** The bucket holds the messages [first..next] of the log and nothing else. *)
Definition holds (log : list Message.t) (first : Z) (m : gmap Z string) : Prop :=
  ∀ seq, m !! seq = if first <=? seq then marshal <$> at_seq log seq else None.

Record Inv (s : Store) (st : State.t) (log : list Message.t) : Prop := {
  inv_meta : meta (db s) = Some (print (State_json st));
  inv_ok : State_ok st = true;
  inv_next : State.NextSeq st = Z.of_nat (length log);
  inv_bound : State.NextSeq st < 2 ^ 64 - 1;
  inv_delivered : 0 ≤ State.DeliveredSeq st ≤ State.ReadySeq st;
  inv_ready : State.ReadySeq st ≤ State.NextSeq st;
  inv_first : 1 ≤ earliest st ≤ State.DeliveredSeq st + 1;
  inv_items : holds log (earliest st) (items (db s));
  inv_bytes : State.Bytes st = i64 (size (drop (Z.to_nat (State.DeliveredSeq st)) log));
  inv_archive : State.ArchiveBytes st = i64 (size (segment log (earliest st) (State.DeliveredSeq st)));
  inv_log : log_ok st log
}.

Lemma inv_read s st log : Inv s st log → read (db s) = Ok st.
Proof.
  intros [Hm Hok]. unfold read. rewrite Hm. cbn [or_err mbind result_bind].
  rewrite parse_print by (by apply State_json_ok). cbn [mbind option_bind]. by rewrite State_round.
Qed.

Lemma at_seq_lt log seq m : at_seq log seq = Some m → 1 ≤ seq ≤ Z.of_nat (length log).
Proof. unfold at_seq. case_if; [|done]. intros ?%lookup_lt_Some. lia. Qed.

Lemma at_seq_is_Some log seq : 1 ≤ seq ≤ Z.of_nat (length log) → is_Some (at_seq log seq).
Proof.
  intros. unfold at_seq. rewrite (proj2 (Z.leb_le _ _)) by lia. apply lookup_lt_is_Some. lia.
Qed.

Lemma size_app a b : size (a ++ b) = size a + size b.
Proof. unfold size. by rewrite fmap_app, sumZ_app. Qed.

Lemma size_nil : size [] = 0.
Proof. done. Qed.

Lemma size_cons m l : size (m :: l) = slen (marshal m) + size l.
Proof. done. Qed.

Lemma size_nonneg l : 0 ≤ size l.
Proof. apply sumZ_nonneg, Forall_fmap, Forall_true. intros m. unfold compose, slen. lia. Qed.

Lemma segment_step log a b m : at_seq log a = Some m → a ≤ b →
  segment log a b = m :: segment log (a + 1) b.
Proof.
  intros Ha Hb. pose proof (at_seq_lt _ _ _ Ha). unfold segment.
  replace (a + 1 - 1) with a by lia. unfold at_seq in Ha.
  rewrite (proj2 (Z.leb_le _ _)) in Ha by lia.
  replace (Z.to_nat a) with (S (Z.to_nat (a - 1))) by lia.
  apply drop_S. rewrite lookup_take_lt by lia. done.
Qed.

Lemma segment_nil log a b : b < a → segment log a b = [].
Proof. intros. unfold segment. apply drop_ge. rewrite length_take. lia. Qed.

(** ** The loops *)

Lemma holds_delete log e m : holds log e m → holds log (e + 1) (delete e m).
Proof.
  intros H seq. destruct (decide (seq = e)) as [->|Hne].
  - rewrite lookup_delete_eq. by rewrite (proj2 (Z.leb_gt _ _)) by lia.
  - rewrite lookup_delete_ne by done. rewrite H.
    destruct (Z.leb_spec e seq), (Z.leb_spec (e + 1) seq); done || lia.
Qed.

Lemma holds_first log e m seq msg : holds log e m → e ≤ seq → at_seq log seq = Some msg →
  m !! seq = Some (marshal msg).
Proof. intros H He Hm. rewrite H, Hm. by rewrite (proj2 (Z.leb_le _ _)). Qed.

Lemma holds_below log e m seq : holds log e m → seq < e → m !! seq = None.
Proof. intros H He. rewrite H. by rewrite (proj2 (Z.leb_gt _ _)). Qed.

Definition evicted_ok (s : Store) (now d e0 e' : Z) (log : list Message.t) : Prop :=
  ∀ seq msg, e0 ≤ seq < e' → at_seq log seq = Some msg →
    expired s now (marshal msg) = true ∨ replayBytes s < i64 (size (segment log seq d)).

Definition retained_ok (s : Store) (now d e' : Z) (log : list Message.t) : Prop :=
  e' = d + 1 ∨ ∃ msg, at_seq log e' = Some msg ∧ expired s now (marshal msg) = false ∧
    i64 (size (segment log e' d)) ≤ replayBytes s.

(** The retention loop deletes a prefix of the archive, each message because it
    is too old or because the archive is too large, and stops at the first
    message that is neither. *)
Lemma evict_spec fuel s now d e e0 a m log :
  1 ≤ e ≤ e0 → e0 ≤ d + 1 → d ≤ Z.of_nat (length log) → d < 2 ^ 64 - 1 →
  (Z.to_nat (d - e + 1) ≤ fuel)%nat → holds log e0 m → a = i64 (size (segment log e0 d)) →
  ∃ e' m', evict fuel s now d e a m = (e', i64 (size (segment log e' d)), m') ∧
    e0 ≤ e' ≤ d + 1 ∧ holds log e' m' ∧ retained_ok s now d e' log ∧
    evicted_ok s now d e0 e' log.
Proof.
  revert e e0 a m. induction fuel as [|f IH]; intros e e0 a m He He0 Hd Hb Hf Hm Ha.
  - assert (e = d + 1 ∧ e0 = d + 1) as [-> ->] by lia. subst a. exists (d + 1), m.
    split_and!; try done; try lia; [by left|]. intros seq msg ?. lia.
  - cbn [evict]. destruct (Z.leb_spec e d) as [Hle|Hgt].
    2: { assert (e0 = e) as -> by lia. subst a. exists e, m.
         split_and!; try done; try lia; [left; lia|]. intros seq msg ?. lia. }
    rewrite u64_small by lia. destruct (decide (e = e0)) as [<-|Hne].
    + destruct (at_seq_is_Some log e) as [msg Hmsg]; [lia|].
      rewrite (holds_first _ _ _ _ _ Hm (Z.le_refl e) Hmsg).
      destruct (negb _ && _) eqn:E.
      * apply andb_true_iff in E as [E1%negb_true_iff E2%Z.leb_le]. subst a. exists e, m.
        split_and!; try done; try lia; [right; eauto|]. intros seq msg' ?. lia.
      * assert (i64 (a - slen (marshal msg)) = i64 (size (segment log (e + 1) d))) as Ha'.
        { subst a. rewrite i64_sub_l, (segment_step log e d msg Hmsg Hle).
          rewrite size_cons. f_equal. lia. }
        edestruct (IH (e + 1) (e + 1)) as (e' & m' & Heq & Hr & Hh & Hret & Hev);
          [lia|lia|done|done|lia|by apply holds_delete|exact Ha'|].
        exists e', m'. split_and!; try done; try lia.
        intros seq msg' Hs Hmsg'. destruct (decide (seq = e)) as [->|]; [|by apply Hev; [lia|]].
        rewrite Hmsg in Hmsg'. injection Hmsg' as <-. subst a.
        apply andb_false_iff in E as [E%negb_false_iff|E%Z.leb_gt]; auto.
    + rewrite (holds_below _ _ _ _ Hm) by lia.
      apply (IH (e + 1) e0); done || lia.
Qed.

Lemma discard_spec ks bytes m :
  NoDup ks →
  (∀ k, (discard ks (i64 bytes) m).1 !! k = if bool_decide (k ∈ ks) then None else m !! k) ∧
  (discard ks (i64 bytes) m).2 = i64 (bytes - sumZ ((λ k, slen (default "" (m !! k))) <$> ks)).
Proof.
  revert bytes m. induction ks as [|k0 ks IH]; intros bytes m Hnd.
  { split; [done|]. cbn. f_equal. lia. }
  apply NoDup_cons in Hnd as [Hk0 Hnd]. cbn [discard]. rewrite i64_sub_l.
  destruct (IH (bytes - slen (default "" (m !! k0))) (delete k0 m) Hnd) as [H1 H2]. split.
  - intros k. rewrite H1. destruct (decide (k = k0)) as [->|Hne].
    + rewrite bool_decide_eq_false_2 by done. rewrite lookup_delete_eq.
      by rewrite bool_decide_eq_true_2 by set_solver.
    + rewrite lookup_delete_ne by done.
      rewrite (bool_decide_ext (k ∈ k0 :: ks) (k ∈ ks)) by set_solver. done.
  - rewrite H2. f_equal. cbn [fmap list_fmap sumZ foldr]. fold sumZ.
    rewrite (list_fmap_ext (λ k, slen (default "" (delete k0 m !! k)))
               (λ k, slen (default "" (m !! k))) ks); [cbn; lia|].
    intros i k Hk%list_elem_of_lookup_2. rewrite lookup_delete_ne; [done|]. by intros ->.
Qed.

Lemma elem_of_keys_from k0 m k : k ∈ keys_from k0 m ↔ k0 ≤ k ∧ is_Some (m !! k).
Proof.
  unfold keys_from. rewrite (merge_sort_Permutation Z.le). rewrite list_elem_of_filter, list_elem_of_fmap.
  split.
  - intros [Hk ([k' v] & -> & Hv%elem_of_map_to_list)]. cbn. eauto.
  - intros [Hk [v Hv]]. split; [done|]. exists (k, v). split; [done|]. by apply elem_of_map_to_list.
Qed.

Lemma NoDup_keys_from k0 m : NoDup (keys_from k0 m).
Proof.
  unfold keys_from. rewrite (merge_sort_Permutation Z.le). apply NoDup_filter, NoDup_fst_map_to_list.
Qed.

(** The keys a cursor visits from [r + 1] on are the sequence numbers after
    [r]. *)
Lemma keys_from_holds log e m r : holds log e m → 1 ≤ e ≤ r + 1 → 0 ≤ r →
  keys_from (r + 1) m ≡ₚ seqZ (r + 1) (Z.of_nat (length log) - r).
Proof.
  intros Hm He Hr. apply NoDup_Permutation; [apply NoDup_keys_from|apply NoDup_seqZ|].
  intros k. rewrite elem_of_keys_from, elem_of_seqZ, Hm.
  destruct (Z.leb_spec e k); [|split; [intros [? [? [=]]]|lia]].
  rewrite fmap_is_Some. split.
  - intros [Hk [msg Hmsg]]. apply at_seq_lt in Hmsg. lia.
  - intros Hk. split; [lia|]. apply at_seq_is_Some. lia.
Qed.

Lemma size_seqZ log e m r : holds log e m → 1 ≤ e ≤ r + 1 → 0 ≤ r ≤ Z.of_nat (length log) →
  sumZ ((λ k, slen (default "" (m !! k))) <$> seqZ (r + 1) (Z.of_nat (length log) - r)) =
    size (drop (Z.to_nat r) log).
Proof.
  intros Hm He Hr. unfold size. f_equal. apply list_eq. intros i.
  rewrite !list_lookup_fmap, lookup_drop.
  destruct (decide (Z.of_nat i < Z.of_nat (length log) - r)) as [Hi|Hi].
  - rewrite lookup_seqZ_lt by lia. destruct (lookup_lt_is_Some_2 log (Z.to_nat r + i)) as [msg Hmsg]; [lia|].
    rewrite Hmsg. cbn.
    rewrite (holds_first log e m (r + 1 + Z.of_nat i) msg Hm); [done|lia|].
    unfold at_seq. rewrite (proj2 (Z.leb_le _ _)) by lia. rewrite <- Hmsg. f_equal. lia.
  - rewrite lookup_seqZ_ge by lia. rewrite lookup_ge_None_2 by lia. done.
Qed.

(** Recovery deletes exactly the messages after [r] and takes their bytes off. *)
Lemma discard_holds log e m r bytes : holds log e m → 1 ≤ e ≤ r + 1 →
  0 ≤ r ≤ Z.of_nat (length log) →
  ∃ m', discard (keys_from (r + 1) m) (i64 bytes) m = (m', i64 (bytes - size (drop (Z.to_nat r) log)))
    ∧ holds (take (Z.to_nat r) log) e m'.
Proof.
  intros Hm He Hr. destruct (discard_spec (keys_from (r + 1) m) bytes m) as [H1 H2];
    [apply NoDup_keys_from|].
  destruct (discard _ _ _) as [m' b']. cbn in *. exists m'. split.
  - f_equal. rewrite H2. f_equal. f_equal.
    rewrite <- (size_seqZ log e m r Hm He Hr). apply sumZ_perm, fmap_Permutation.
    apply (keys_from_holds log e); done || lia.
  - intros k. rewrite H1, Hm. unfold at_seq. destruct (bool_decide _) eqn:Hd; bool_prop.
    + apply elem_of_keys_from in Hd as [Hk _]. case_if; [|done]. case_if; [|done].
      rewrite lookup_take_ge by lia. done.
    + case_if; [|done]. destruct (Z.leb_spec 1 k); [|done].
      destruct (decide (k ≤ r)); [by rewrite lookup_take_lt by lia|].
      rewrite lookup_take_ge by lia.
      destruct (log !! Z.to_nat (k - 1)) as [msg|] eqn:Hmsg; [|done].
      destruct Hd. apply elem_of_keys_from. split; [lia|]. rewrite Hm.
      rewrite (proj2 (Z.leb_le e k)) by lia. unfold at_seq.
      rewrite (proj2 (Z.leb_le 1 k)) by lia. by rewrite Hmsg.
Qed.

Lemma at_seq_middle a x b : at_seq (a ++ x :: b) (Z.of_nat (length a) + 1) = Some x.
Proof.
  unfold at_seq. rewrite (proj2 (Z.leb_le _ _)) by lia.
  replace (Z.to_nat _) with (length a) by lia. by apply list_lookup_middle.
Qed.

Lemma at_seq_other a x y b seq : seq ≠ Z.of_nat (length a) + 1 →
  at_seq (a ++ x :: b) seq = at_seq (a ++ y :: b) seq.
Proof.
  intros Hne. unfold at_seq. case_if; [|done].
  destruct (decide (Z.to_nat (seq - 1) < length a)%nat).
  - by rewrite !lookup_app_l.
  - rewrite !lookup_app_r by lia.
    destruct (Z.to_nat (seq - 1) - length a)%nat eqn:E'; [lia|done].
Qed.

Lemma holds_insert a x y b m : holds (a ++ x :: b) 1 m →
  holds (a ++ y :: b) 1 (<[Z.of_nat (length a) + 1 := marshal y]> m).
Proof.
  intros H seq. destruct (decide (seq = Z.of_nat (length a) + 1)) as [->|Hne].
  - rewrite lookup_insert_eq, at_seq_middle. by rewrite (proj2 (Z.leb_le _ _)) by lia.
  - rewrite lookup_insert_ne by done. rewrite H. by rewrite (at_seq_other a x y b seq Hne).
Qed.

Lemma Message_ok_set_LSN lsn m : Message_ok m = true → utf8_valid lsn = true →
  Message_ok (Message.set_LSN lsn m) = true.
Proof. unfold Message_ok. intros. bool_prop. cbn. rewrite !andb_true_iff. split_and!; done. Qed.

Lemma finalize_unfold maxB lsn n seq bytes m :
  finalize maxB lsn (S n) seq bytes m =
    (value ← or_err (m !! seq) (errorf "queue gap");
     x ← or_err (unmarshal value) (errorf "invalid message");
     let y := marshal (Message.set_LSN lsn x) in
     _ ← fail_if (maxB <? i64 (bytes + slen y)) ErrFull;
     finalize maxB lsn n (u64 (seq + 1)) (i64 (bytes + slen y)) (<[seq := y]> m)).
Proof. reflexivity. Qed.

Lemma finalize_S maxB lsn n seq bytes m x : m !! seq = Some (marshal x) → Message_ok x = true →
  finalize maxB lsn (S n) seq bytes m =
    let y := Message.set_LSN lsn x in
    if maxB <? i64 (bytes + slen (marshal y)) then Err ErrFull
    else finalize maxB lsn n (u64 (seq + 1)) (i64 (bytes + slen (marshal y)))
           (<[seq := marshal y]> m).
Proof.
  intros Hm Hx. rewrite finalize_unfold, Hm. go. rewrite unmarshal_marshal by done. go. done.
Qed.

(** The snapshot boundary is written into every message, and the only failure
    is a full queue. *)
Lemma finalize_spec maxB lsn a b bytes m : utf8_valid lsn = true →
  Forall (λ x, Message_ok x = true) b → holds (a ++ b) 1 m → bytes = i64 (size a) →
  Z.of_nat (length (a ++ b)) < 2 ^ 64 - 1 →
  match finalize maxB lsn (length b) (Z.of_nat (length a) + 1) bytes m with
  | Ok (m', bytes') =>
      holds (a ++ (Message.set_LSN lsn <$> b)) 1 m' ∧
      bytes' = i64 (size (a ++ (Message.set_LSN lsn <$> b)))
  | Err e => e = ErrFull
  end.
Proof.
  intros Hu. revert a bytes m. induction b as [|x b IH]; intros a bytes m Hok Hm Hb Hl.
  { cbn. rewrite app_nil_r in *. done. }
  apply Forall_cons in Hok as [Hx Hok]. cbn [length].
  rewrite (finalize_S _ _ _ _ _ _ x); [|apply (holds_first _ _ _ _ _ Hm); [lia|apply at_seq_middle]|done].
  cbv zeta. rewrite fmap_cons. generalize (Message.set_LSN lsn x). intros y.
  destruct (maxB <? _); [done|].
  rewrite length_app in Hl. cbn [length] in Hl. rewrite u64_small by lia.
  specialize (IH (a ++ [y]) (i64 (bytes + slen (marshal y)))
    (<[Z.of_nat (length a) + 1 := marshal y]> m) Hok).
  rewrite <- !app_assoc in IH. cbn [app] in IH.
  rewrite !length_app in IH. cbn [length] in IH.
  replace (Z.of_nat (length a + 1) + 1) with (Z.of_nat (length a) + 1 + 1) in IH by lia.
  apply IH; [by apply holds_insert with x| |lia].
  subst bytes. rewrite i64_add_l, size_app, size_cons, size_nil, Z.add_0_r. reflexivity.
Qed.

(** ** The operations preserve the invariant *)

Lemma Update_Ok s f d : f (db s) = Ok d → Update s f = (with_db d s, Ok tt).
Proof. unfold Update. by intros ->. Qed.

Lemma Update_Err s f e : f (db s) = Err e → Update s f = (s, Err e).
Proof. unfold Update. by intros ->. Qed.

(** A transaction that fails leaves the store as it was. *)
Lemma Update_atomic s f s' e : Update s f = (s', Err e) → s' = s.
Proof. unfold Update. by destruct (f (db s)); intros; simplify_eq. Qed.

Lemma Update_inv s f s' : Update s f = (s', Ok tt) → ∃ d, f (db s) = Ok d ∧ s' = with_db d s.
Proof. unfold Update. destruct (f (db s)) as [d|e]; intros; simplify_eq. eauto. Qed.

(** The new state is well formed when the fields it changes are. *)
Ltac state_ok :=
  unfold State_ok in *; bool_prop; rewrite !andb_true_iff; split_and!; try done;
  try apply uint_ok_u64; try apply int_ok_i64.

Lemma State_ok_Phase st p : State_ok st = true → utf8_valid p = true →
  State_ok (State.set_Phase p st) = true.
Proof. intros. state_ok. Qed.

Lemma State_ok_reset st : State_ok st = true → State_ok (reset_counters st) = true.
Proof. intros. state_ok. Qed.

(** The body of a committed transaction, after it has read the state. *)
Ltac open_tx HI H :=
  apply Update_inv in H as (?d & H & ->); rewrite (inv_read _ _ _ HI) in H; revert H; go.

(** The state the transaction saved. *)
Ltac exists_saved := match goal with |- context [save _ ?st] => exists st end.

(** An empty generation satisfies the invariant. *)
Lemma Inv_empty s d st : State_ok st = true →
  State.NextSeq st = 0 → State.ReadySeq st = 0 → State.DeliveredSeq st = 0 →
  State.Bytes st = 0 → State.ArchiveBytes st = 0 → earliest st = 1 → items d = ∅ →
  Inv (with_db (save d st) s) st [].
Proof.
  intros Hok Hn Hr Hd Hb Ha He Hi. split; cbn; rewrite ?Hn, ?Hr, ?Hd, ?He, ?Hi; try lia; try done.
  intros seq. rewrite lookup_empty. unfold at_seq. repeat case_if; done.
Qed.

Lemma Initialize_Inv s st log st0 s' : Inv s st log → State_ok st0 = true →
  Initialize s st0 = (s', Ok tt) → Inv s' (reset_counters (State.set_Phase "snapshot" st0)) [].
Proof.
  intros HI Hok H. unfold Initialize in H. open_tx HI H.
  case_if; [done|]. intros [= <-].
  apply Inv_empty; try done. by apply State_ok_reset, State_ok_Phase.
Qed.

Lemma ResetForSnapshot_Inv s st log s' : Inv s st log → ResetForSnapshot s = (s', Ok tt) →
  State.Phase st = "stream" ∧ State.DeliveredSeq st = State.NextSeq st ∧
  ∃ st', Inv s' st' [] ∧ State.SourceID st' = State.SourceID st ∧ State.Phase st' = "snapshot" ∧
    State.Slot st' = State.Slot st ∧ State.Fingerprint st' = State.Fingerprint st ∧
    State.DurableLSN st' = "" ∧ State.Generation st' = "" ∧ State.DeliveredSeq st' = 0.
Proof.
  intros HI H. unfold ResetForSnapshot in H. open_tx HI H.
  destruct (negb _) eqn:E1; [done|]. destruct (negb _ || negb _) eqn:E2; [done|].
  bool_prop. intros [= <-]. split; [done|]. split; [congruence|].
  eexists. split; [apply Inv_empty; try done|done].
  pose proof (inv_ok _ _ _ HI). apply State_ok_reset. state_ok.
Qed.

(** A change of the state that touches no counter keeps the invariant. *)
Lemma Inv_same_counters s st st' log : Inv s st log → State_ok st' = true →
  State.NextSeq st' = State.NextSeq st → State.ReadySeq st ≤ State.ReadySeq st' ≤ State.NextSeq st →
  State.DeliveredSeq st' = State.DeliveredSeq st → State.Bytes st' = State.Bytes st →
  State.EarliestSeq st' = State.EarliestSeq st → State.ArchiveBytes st' = State.ArchiveBytes st →
  State.SourceID st' = State.SourceID st → State.Generation st' = State.Generation st →
  Inv (with_db (save (db s) st') s) st' log.
Proof.
  intros [] Hok Hn Hr Hd Hb He Ha Hs Hg.
  assert (earliest st' = earliest st) as Hf by (unfold earliest; by rewrite He, Hd).
  split; cbn; rewrite ?Hn, ?Hd, ?Hb, ?Ha, ?Hf; try done; try lia.
  unfold log_ok. rewrite Hs, Hg. done.
Qed.

Lemma SnapshotPoint_Inv s st log lsn s' : Inv s st log → utf8_valid lsn = true →
  SnapshotPoint s lsn = (s', Ok tt) → Inv s' (State.set_SnapshotLSN lsn st) log.
Proof.
  intros HI Hu H. unfold SnapshotPoint in H. open_tx HI H. intros [= <-].
  pose proof (inv_ok _ _ _ HI). pose proof (inv_ready _ _ _ HI).
  apply Inv_same_counters with st; cbn; try done; try lia. state_ok.
Qed.

Definition published (lsn : string) (seal : bool) (cleanup : string) (st : State.t) : State.t :=
  let st := if seal then State.set_Phase "stream" st else st in
  State.set_SourceCleanup cleanup (State.set_DurableLSN lsn (State.set_ReadySeq (State.NextSeq st) st)).

Lemma PublishSource_Inv s st log lsn seal cleanup s' : Inv s st log →
  utf8_valid lsn = true → utf8_valid cleanup = true →
  PublishSource s lsn seal cleanup = (s', Ok tt) →
  (seal = true → State.Phase st = "snapshot") ∧ Inv s' (published lsn seal cleanup st) log.
Proof.
  intros HI Hu Hc H. unfold PublishSource in H. open_tx HI H.
  destruct (seal && _) eqn:E; [done|]. intros [= <-]. split.
  { intros ->. apply andb_false_iff in E as [|E]; [done|]. by bool_prop. }
  pose proof (inv_ok _ _ _ HI). pose proof (inv_ready _ _ _ HI).
  fold (published lsn seal cleanup st). apply Inv_same_counters with st; try done;
    destruct seal; cbn; try done; try lia; state_ok.
Qed.

Lemma PublishSchema_Inv s st log lsn hash s' : Inv s st log →
  utf8_valid lsn = true → utf8_valid hash = true → PublishSchema s lsn hash = (s', Ok tt) →
  State.Phase st = "stream" ∧ lsn ≠ "" ∧ hash ≠ "" ∧
  Inv s' (State.set_SchemaHash hash
    (State.set_DurableLSN lsn (State.set_ReadySeq (State.NextSeq st) st))) log.
Proof.
  intros HI Hu Hc H. unfold PublishSchema in H. destruct (_ || _) eqn:E1; [done|].
  apply orb_false_iff in E1 as [E1 E2]. open_tx HI H. case_if; [done|]. intros [= <-]. bool_prop.
  pose proof (inv_ok _ _ _ HI). pose proof (inv_ready _ _ _ HI).
  split_and!; try done. apply Inv_same_counters with st; cbn; try done; try lia. state_ok.
Qed.

Lemma ClearSourceCleanup_Inv s st log expected s' : Inv s st log →
  ClearSourceCleanup s expected = (s', Ok tt) →
  State.SourceCleanup st = expected ∧ Inv s' (State.set_SourceCleanup "" st) log.
Proof.
  intros HI H. unfold ClearSourceCleanup in H. open_tx HI H. case_if; [done|]. intros [= <-].
  bool_prop. pose proof (inv_ok _ _ _ HI). pose proof (inv_ready _ _ _ HI). split; [done|].
  apply Inv_same_counters with st; cbn; try done; try lia. state_ok.
Qed.

Definition appended (b : string) (st : State.t) : State.t :=
  State.set_Bytes (i64 (State.Bytes st + slen b)) (State.set_NextSeq (u64 (State.NextSeq st + 1)) st).

Lemma holds_snoc log e x m : holds log e m → 1 ≤ e ≤ Z.of_nat (length log) + 1 →
  holds (log ++ [x]) e (<[Z.of_nat (length log) + 1 := marshal x]> m).
Proof.
  intros H He seq. destruct (decide (seq = Z.of_nat (length log) + 1)) as [->|Hne].
  - rewrite lookup_insert_eq, at_seq_middle. by rewrite (proj2 (Z.leb_le _ _)) by lia.
  - rewrite lookup_insert_ne by done. rewrite H. case_if; [|done]. f_equal. unfold at_seq.
    case_if; [|done]. destruct (decide (Z.to_nat (seq - 1) < length log)%nat).
    + by rewrite lookup_app_l.
    + rewrite !lookup_ge_None_2; [done|rewrite length_app; cbn; lia|lia].
Qed.

Lemma segment_app log x a b : b ≤ Z.of_nat (length log) → segment (log ++ [x]) a b = segment log a b.
Proof. intros. unfold segment. by rewrite take_app_le by lia. Qed.

Lemma log_ok_snoc st log now m : State_ok st = true → log_ok st log → Message_ok m = true →
  State.NextSeq st = Z.of_nat (length log) → State.NextSeq st < 2 ^ 64 - 1 →
  log_ok st (log ++ [stamp st now m]).
Proof.
  intros Hok Hl Hm Hn Hb i x Hi. apply lookup_snoc_Some in Hi as [[_ Hi]|[-> <-]]; [by apply Hl|].
  unfold stamp. cbn. rewrite u64_small by lia. rewrite <- Hn. split_and!; try done.
  pose proof (stamp_ok st now m Hok Hm) as H. unfold stamp in H. by rewrite u64_small in H by lia.
Qed.

Lemma Inv_append s st log x : Inv s st log → log_ok st (log ++ [x]) →
  State.NextSeq st + 1 < 2 ^ 64 - 1 →
  Inv (with_db (save (with_items (db s) (<[State.NextSeq st + 1 := marshal x]> (items (db s))))
        (appended (marshal x) st)) s) (appended (marshal x) st) (log ++ [x]).
Proof.
  intros [] Hlog Hb.
  assert (earliest (appended (marshal x) st) = earliest st) as He by done.
  assert (State.NextSeq (appended (marshal x) st) = State.NextSeq st + 1) as Hn
    by (cbn; by rewrite u64_small by lia).
  split; rewrite ?He, ?Hn.
  - reflexivity.
  - unfold appended. state_ok.
  - rewrite length_app. cbn. lia.
  - lia.
  - exact inv_delivered0.
  - cbn. lia.
  - exact inv_first0.
  - cbn [db with_db save items with_items]. rewrite inv_next0. apply holds_snoc; [done|].
    cbn in *. lia.
  - cbn. rewrite inv_bytes0, i64_add_l, drop_app_le, size_app, size_cons, size_nil, Z.add_0_r by lia.
    reflexivity.
  - cbn [State.DeliveredSeq State.ArchiveBytes appended State.set_Bytes State.set_NextSeq].
    rewrite segment_app by lia. exact inv_archive0.
  - exact Hlog.
Qed.

Lemma Append_Inv s st log free now m s' : Inv s st log → Message_ok m = true →
  State.NextSeq st + 1 < 2 ^ 64 - 1 → Append s (Ok free) now m = (s', Ok tt) →
  let x := stamp st now m in
  Inv s' (appended (marshal x) st) (log ++ [x]) ∧
  i64 (State.Bytes st + slen (marshal x)) ≤ maxBytes s.
Proof.
  intros HI Hm Hb H. unfold Append in H. destruct (free <? _) eqn:E0; [done|].
  open_tx HI H. destruct (_ || _) eqn:E; [done|]. apply orb_false_iff in E as [E _].
  bool_prop. intros [= <-]. cbn zeta. split; [|done].
  pose proof (Inv_append s st log (stamp st now m) HI) as Ha.
  unfold appended in *. cbn [Message.Seq stamp Message.set_CreatedAt Message.set_ID Message.set_Seq].
  assert (u64 (State.NextSeq st + 1) = State.NextSeq st + 1) as Hu.
  { apply u64_small. destruct HI. lia. }
  destruct HI. rewrite Hu in Ha |- *.
  apply Ha; [|done]. apply log_ok_snoc; done || lia.
Qed.

Lemma log_ok_take st log n : log_ok st log → log_ok st (take n log).
Proof. intros H i m [Hi _]%lookup_take_Some. by apply H. Qed.

Lemma size_take_drop n l : size (take n l) + size (drop n l) = size l.
Proof. by rewrite <- size_app, take_drop. Qed.

Lemma Recover_effect s st log s' : Inv s st log → Recover s = (s', Ok tt) →
  ∃ st', Inv s' st' (take (Z.to_nat (State.ReadySeq st)) log) ∧
    State.ReadySeq st' = State.ReadySeq st ∧ State.DurableLSN st' = State.DurableLSN st ∧
    State.DeliveredSeq st' = State.DeliveredSeq st ∧ State.Phase st' = State.Phase st ∧
    State.NextSeq st' = State.ReadySeq st ∧ State.Generation st' = State.Generation st ∧
    State.SourceCleanup st' = State.SourceCleanup st ∧ State.SnapshotLSN st' = State.SnapshotLSN st.
Proof.
  intros HI H. unfold Recover in H. open_tx HI H. destruct HI.
  rewrite u64_small by lia. rewrite inv_bytes0.
  destruct (discard_holds log (earliest st) (items (db s)) (State.ReadySeq st)
    (size (drop (Z.to_nat (State.DeliveredSeq st)) log))) as (m' & -> & Hm'); [done|lia|lia|].
  intros [= <-]. exists_saved. split; [|done].
  assert (length (take (Z.to_nat (State.ReadySeq st)) log) = Z.to_nat (State.ReadySeq st)) as Hlen
    by (rewrite length_take; lia).
  split; cbn -[i64]; rewrite ?Hlen; try (done || lia).
  - state_ok.
  - f_equal. rewrite <- (size_take_drop (Z.to_nat (State.ReadySeq st) - Z.to_nat (State.DeliveredSeq st))
      (drop _ log)), drop_drop, take_drop_commute.
    replace (Z.to_nat (State.DeliveredSeq st) + (Z.to_nat (State.ReadySeq st) -
      Z.to_nat (State.DeliveredSeq st)))%nat with (Z.to_nat (State.ReadySeq st)) by lia.
    lia.
  - rewrite inv_archive0. unfold segment. rewrite take_take. f_equal. f_equal. f_equal. f_equal. lia.
  - by apply log_ok_take.
Qed.

Lemma Recover_Inv s st log s' : Inv s st log → Recover s = (s', Ok tt) →
  ∃ st', Inv s' st' (take (Z.to_nat (State.ReadySeq st)) log) ∧
    State.ReadySeq st' = State.ReadySeq st ∧ State.DurableLSN st' = State.DurableLSN st ∧
    State.DeliveredSeq st' = State.DeliveredSeq st ∧ State.Phase st' = State.Phase st ∧
    State.NextSeq st' = State.ReadySeq st ∧ State.Generation st' = State.Generation st.
Proof.
  intros HI H. destruct (Recover_effect _ _ _ _ HI H) as (st' & ? & ? & ? & ? & ? & ? & ? & _). exists st'. by split_and!.
Qed.

Lemma FinalizeSnapshotLSN_Inv s st log lsn s' : Inv s st log → utf8_valid lsn = true →
  FinalizeSnapshotLSN s lsn = (s', Ok tt) →
  State.ReadySeq st = 0 ∧ State.Phase st = "snapshot" ∧
  ∃ st', Inv s' st' (Message.set_LSN lsn <$> log) ∧ State.SnapshotLSN st' = lsn ∧
    State.ReadySeq st' = 0 ∧ State.Phase st' = "snapshot" ∧
    State.NextSeq st' = State.NextSeq st ∧ State.DurableLSN st' = State.DurableLSN st ∧
    State.Generation st' = State.Generation st.
Proof.
  intros HI Hu H. unfold FinalizeSnapshotLSN in H. open_tx HI H.
  destruct (_ || _) eqn:E; [done|]. apply orb_false_iff in E as [E1 E2]. bool_prop. destruct HI.
  assert (earliest st = 1) as He by lia. rewrite He in *.
  assert (State.DeliveredSeq st = 0) as Hd by lia. rewrite inv_next0, Nat2Z.id.
  pose proof (finalize_spec (maxBytes s) lsn [] log 0 (items (db s)) Hu) as Hf.
  change (Z.of_nat (length []) + 1) with 1 in Hf. cbn [app] in Hf.
  destruct (finalize (maxBytes s) lsn (length log) 1 0 (items (db s))) as [[m' b']|e]; go; [|done].
  destruct Hf as [Hm' ->]; [|done|done|lia|].
  { apply Forall_lookup. intros i x Hx. by apply inv_log0 in Hx as (? & _). }
  intros [= <-]. split_and!; [done|done|]. exists_saved. split; [|done].
  split; cbn -[i64]; rewrite ?length_fmap; try (done || lia).
  - state_ok.
  - change (earliest _) with (earliest st). rewrite He. lia.
  - change (earliest _) with (earliest st). by rewrite He.
  - by rewrite Hd.
  - change (earliest _) with (earliest st). rewrite inv_archive0, He, Hd. done.
  - intros i x Hx. apply list_lookup_fmap_Some in Hx as (y & -> & Hy).
    destruct (inv_log0 _ _ Hy) as (? & ? & ? & ? & ?). split_and!; try done.
    by apply Message_ok_set_LSN.
Qed.

Lemma at_seq_delivered log d m : 0 ≤ d → at_seq log (d + 1) = Some m →
  drop (Z.to_nat d) log = m :: drop (Z.to_nat (d + 1)) log.
Proof.
  unfold at_seq. intros Hd H. rewrite (proj2 (Z.leb_le _ _)) in H by lia.
  replace (d + 1 - 1) with d in H by lia. rewrite (drop_S _ _ _ H). f_equal. f_equal. lia.
Qed.

Lemma segment_snoc log a d m : 1 ≤ a ≤ d + 1 → at_seq log (d + 1) = Some m →
  segment log a (d + 1) = segment log a d ++ [m].
Proof.
  intros Ha H. pose proof (at_seq_lt _ _ _ H). unfold segment, at_seq in *.
  rewrite (proj2 (Z.leb_le _ _)) in H by lia. replace (d + 1 - 1) with d in H by lia.
  replace (Z.to_nat (d + 1)) with (S (Z.to_nat d)) by lia.
  rewrite (take_S_r _ _ _ H), drop_app_le; [done|]. rewrite length_take. lia.
Qed.

(** An acknowledgement names the next message, moves it from the undelivered
    messages to the archive, and then applies the retention policy. *)
Lemma Ack_effect s st log now seq id s' : Inv s st log → Ack s now seq id = (s', Ok tt) →
  seq = State.DeliveredSeq st + 1 ∧ seq ≤ State.ReadySeq st ∧
  (∃ m, at_seq log seq = Some m ∧ Message.ID m = id) ∧
  ∃ st', Inv s' st' log ∧ State.DeliveredSeq st' = seq ∧ State.ReadySeq st' = State.ReadySeq st ∧
    State.NextSeq st' = State.NextSeq st ∧ State.DurableLSN st' = State.DurableLSN st ∧
    State.Phase st' = State.Phase st ∧ earliest st ≤ earliest st' ∧
    evicted_ok s now seq (earliest st) (earliest st') log ∧ retained_ok s now seq (earliest st') log ∧
    State.Generation st' = State.Generation st ∧ State.SourceCleanup st' = State.SourceCleanup st ∧
    State.SnapshotLSN st' = State.SnapshotLSN st.
Proof.
  intros HI H. unfold Ack in H. open_tx HI H.
  destruct (_ || _) eqn:E; [done|]. apply orb_false_iff in E as [E1 E2]. bool_prop.
  destruct HI. rewrite u64_small in E1 by lia. subst seq.
  destruct (at_seq_is_Some log (State.DeliveredSeq st + 1)) as [m Hm]; [lia|].
  rewrite (holds_first _ _ _ _ m inv_items0) by (done || lia). go.
  rewrite unmarshal_marshal.
  2: { unfold at_seq in Hm. rewrite (proj2 (Z.leb_le _ _)) in Hm by lia. by destruct (inv_log0 _ _ Hm). }
  go. destruct (negb _) eqn:E3; [done|]. bool_prop.
  set (first := if State.EarliestSeq st =? 0 then 1 else State.EarliestSeq st).
  assert (1 ≤ first ≤ earliest st) as Hfirst.
  { unfold first, earliest in *. destruct (State.EarliestSeq st =? 0); lia. }
  destruct (evict_spec (Z.to_nat (State.DeliveredSeq st + 1 - first + 1)) s now
    (State.DeliveredSeq st + 1) first (earliest st)
    (i64 (State.ArchiveBytes st + slen (marshal m))) (items (db s)) log)
    as (e' & m' & -> & He' & Hm' & Hret & Hev); try done; try lia.
  { rewrite inv_archive0, i64_add_l, (segment_snoc log _ _ m), size_app, size_cons, size_nil,
      Z.add_0_r by (done || lia). reflexivity. }
  intros [= <-]. split_and!; [done|lia|eauto|]. exists_saved.
  match goal with |- Inv _ ?x _ ∧ _ => assert (earliest x = e') as Hx end.
  { unfold earliest. cbn. by rewrite (proj2 (Z.eqb_neq e' 0)) by lia. }
  rewrite Hx. split_and!; try done; [|lia].
  split; rewrite ?Hx.
  - reflexivity.
  - state_ok. cbn. unfold uint_ok. apply andb_true_iff. rewrite Z.leb_le, Z.ltb_lt. lia.
    cbn. unfold uint_ok. apply andb_true_iff. rewrite Z.leb_le, Z.ltb_lt. lia.
  - exact inv_next0.
  - exact inv_bound0.
  - cbn. lia.
  - exact inv_ready0.
  - cbn. lia.
  - exact Hm'.
  - cbn. rewrite inv_bytes0, (at_seq_delivered log (State.DeliveredSeq st) m), size_cons, i64_sub_l by (done || lia).
    f_equal. lia.
  - reflexivity.
  - exact inv_log0.
Qed.

Lemma Ack_Inv s st log now seq id s' : Inv s st log → Ack s now seq id = (s', Ok tt) →
  seq = State.DeliveredSeq st + 1 ∧ seq ≤ State.ReadySeq st ∧
  (∃ m, at_seq log seq = Some m ∧ Message.ID m = id) ∧
  ∃ st', Inv s' st' log ∧ State.DeliveredSeq st' = seq ∧ State.ReadySeq st' = State.ReadySeq st ∧
    State.NextSeq st' = State.NextSeq st ∧ State.DurableLSN st' = State.DurableLSN st ∧
    State.Phase st' = State.Phase st ∧ earliest st ≤ earliest st' ∧
    evicted_ok s now seq (earliest st) (earliest st') log ∧ retained_ok s now seq (earliest st') log ∧
    State.Generation st' = State.Generation st.
Proof.
  intros HI H. destruct (Ack_effect _ _ _ _ _ _ _ HI H) as (H1 & H2 & H3 & st' & ? & ? & ? & ? & ? & ? & ? & ? & ? & ? & _).
  split_and!; [done..|]. exists st'. by split_and!.
Qed.
