(* ===== verification/QueueSpec.v ===== *)
(** * The queue implements a transactional outbox

    The abstract outbox: published messages awaiting delivery, in order; staged
    messages nobody can see; the source checkpoint of the last publication.
    Every operation of the store refines an operation of the outbox, every
    reachable store satisfies the invariant of QueueInv, and a failed operation
    changes nothing. *)

From S2P Require Import Prelude Bytes Encoding Json JsonStruct GoTime Event Queue QueueInv.

#[local] Opaque marshal unmarshal.

(** ** The abstract outbox *)

Record Outbox := mkOutbox {
  queued : list Message.t;
  staged : list Message.t;
  checkpoint : string;
  sealed : bool
}.

Definition outbox (st : State.t) (log : list Message.t) : Outbox :=
  mkOutbox (drop (Z.to_nat (State.DeliveredSeq st)) (take (Z.to_nat (State.ReadySeq st)) log))
    (drop (Z.to_nat (State.ReadySeq st)) log) (State.DurableLSN st)
    (String.eqb (State.Phase st) "stream").

(** The operations of the store, with the environment they observe. *)
Inductive Op :=
  | OInitialize (st : State.t)
  | OSnapshotPoint (lsn : string)
  | OFinalize (lsn : string)
  | OAppend (free now : Z) (m : Message.t)
  | OPublish (lsn : string) (seal : bool) (cleanup : string)
  | OPublishSchema (lsn hash : string)
  | OClearCleanup (expected : string)
  | ORecover
  | OReset
  | OAck (now seq : Z) (id : string).

Definition run (o : Op) (s : Store) : Store * result unit :=
  match o with
  | OInitialize st => Initialize s st
  | OSnapshotPoint lsn => SnapshotPoint s lsn
  | OFinalize lsn => FinalizeSnapshotLSN s lsn
  | OAppend free now m => Append s (Ok free) now m
  | OPublish lsn seal cleanup => PublishSource s lsn seal cleanup
  | OPublishSchema lsn hash => PublishSchema s lsn hash
  | OClearCleanup expected => ClearSourceCleanup s expected
  | ORecover => Recover s
  | OReset => ResetForSnapshot s
  | OAck now seq id => Ack s now seq id
  end.

(** Arguments the JSON encoding keeps, and fewer than [2^64 - 1] messages in a
    generation. *)
Definition op_ok (o : Op) (log : list Message.t) : Prop :=
  match o with
  | OInitialize st => State_ok st = true
  | OSnapshotPoint lsn | OFinalize lsn => utf8_valid lsn = true
  | OAppend _ _ m => Message_ok m = true ∧ Z.of_nat (length log) + 1 < 2 ^ 64 - 1
  | OPublish lsn _ cleanup => utf8_valid lsn = true ∧ utf8_valid cleanup = true
  | OPublishSchema lsn hash => utf8_valid lsn = true ∧ utf8_valid hash = true
  | OClearCleanup _ | ORecover | OReset | OAck _ _ _ => True
  end.

(** What a successful operation does to the log of the generation. *)
Definition log_after (o : Op) (st : State.t) (log : list Message.t) : list Message.t :=
  match o with
  | OInitialize _ | OReset => []
  | OFinalize lsn => Message.set_LSN lsn <$> log
  | OAppend _ now m => log ++ [stamp st now m]
  | ORecover => take (Z.to_nat (State.ReadySeq st)) log
  | _ => log
  end.

(** The outbox operation it implements. *)
Definition spec (o : Op) (st : State.t) (b : Outbox) : Outbox :=
  match o with
  | OInitialize st0 => mkOutbox [] [] (State.DurableLSN st0) false
  | OReset => mkOutbox [] [] "" false
  | OFinalize lsn => mkOutbox (queued b) (Message.set_LSN lsn <$> staged b) (checkpoint b) (sealed b)
  | OAppend _ now m => mkOutbox (queued b) (staged b ++ [stamp st now m]) (checkpoint b) (sealed b)
  | OPublish lsn seal _ => mkOutbox (queued b ++ staged b) [] lsn (seal || sealed b)
  | OPublishSchema lsn _ => mkOutbox (queued b ++ staged b) [] lsn (sealed b)
  | ORecover => mkOutbox (queued b) [] (checkpoint b) (sealed b)
  | OAck _ _ _ => mkOutbox (tail (queued b)) (staged b) (checkpoint b) (sealed b)
  | OSnapshotPoint _ | OClearCleanup _ => b
  end.

(** Stores reached from an empty database, which may be closed and opened again with
    other limits. *)
Inductive reach : Store → State.t → list Message.t → Prop :=
  | reach_open maxB res : reach (Open (mkDB None ∅) maxB res) State.zero []
  | reach_step s st log o s' st' :
      reach s st log → op_ok o log → run o s = (s', Ok tt) → read (db s') = Ok st' →
      reach s' st' (log_after o st log)
  | reach_fail s st log o s' e :
      reach s st log → run o s = (s', Err e) → reach s' st log
  | reach_replay s st log age maxB :
      reach s st log → reach (ConfigureReplay s age maxB) st log
  | reach_reopen s st log maxB res :
      reach s st log → reach (Open (db s) maxB res) st log.

(** ** Lemmas *)

Lemma drop_take_app {A} (d r : nat) (l : list A) : (d ≤ r)%nat →
  drop d (take r l) ++ drop r l = drop d l.
Proof.
  intros. destruct (decide (d ≤ length (take r l))%nat).
  - by rewrite <- (drop_app_le (take r l) (drop r l)), take_drop.
  - rewrite (drop_ge (take r l)) by lia. rewrite length_take in *. rewrite !drop_ge by lia. done.
Qed.

(** The published log is the log itself once everything is published. *)
Lemma queued_all st log : State.NextSeq st = Z.of_nat (length log) →
  0 ≤ State.DeliveredSeq st ≤ State.ReadySeq st → State.ReadySeq st ≤ State.NextSeq st →
  drop (Z.to_nat (State.DeliveredSeq st)) (take (Z.to_nat (State.NextSeq st)) log) =
    queued (outbox st log) ++ staged (outbox st log).
Proof. intros Hn Hd Hr. cbn. rewrite drop_take_app by lia. by rewrite take_ge by lia. Qed.

Lemma take_lt_app {A} (r : nat) (l k : list A) : (r ≤ length l)%nat → take r (l ++ k) = take r l.
Proof. intros. by rewrite take_app_le. Qed.

Lemma drop_S_tail {A} n (l : list A) : drop (S n) l = tail (drop n l).
Proof. revert n. by induction l as [|x l IH]; intros [|n]; cbn. Qed.

Lemma run_fail o s s' e : run o s = (s', Err e) → s' = s.
Proof.
  destruct o; cbn; unfold Initialize, SnapshotPoint, FinalizeSnapshotLSN, PublishSource,
    ClearSourceCleanup, Recover, ResetForSnapshot, Ack; try apply Update_atomic.
  - unfold Append. case_if; [by intros [= <-]|]. apply Update_atomic.
  - unfold PublishSchema. case_if; [by intros [= <-]|..]; try apply Update_atomic.
Qed.

Section step.
Context (s : Store) (st : State.t) (log : list Message.t) (HI : Inv s st log).

Lemma publish_outbox st' lsn (seal : bool) :
  State.DeliveredSeq st' = State.DeliveredSeq st → State.ReadySeq st' = State.NextSeq st →
  State.DurableLSN st' = lsn →
  State.Phase st' = (if seal then "stream" else State.Phase st) →
  outbox st' log = mkOutbox (queued (outbox st log) ++ staged (outbox st log)) [] lsn
                     (seal || sealed (outbox st log)).
Proof.
  destruct HI. intros Hd Hr Hl Hp. unfold outbox at 1. rewrite Hd, Hr, Hl, Hp.
  rewrite queued_all by done. f_equal; [|by destruct seal]. apply drop_ge. lia.
Qed.

Lemma append_outbox st' x :
  State.DeliveredSeq st' = State.DeliveredSeq st → State.ReadySeq st' = State.ReadySeq st →
  State.DurableLSN st' = State.DurableLSN st → State.Phase st' = State.Phase st →
  outbox st' (log ++ [x]) =
    mkOutbox (queued (outbox st log)) (staged (outbox st log) ++ [x]) (checkpoint (outbox st log))
      (sealed (outbox st log)).
Proof.
  destruct HI. intros Hd Hr Hl Hp. unfold outbox. rewrite Hd, Hr, Hl, Hp.
  cbn. rewrite take_lt_app, drop_app_le by lia. done.
Qed.

Lemma recover_outbox st' :
  State.DeliveredSeq st' = State.DeliveredSeq st → State.ReadySeq st' = State.ReadySeq st →
  State.DurableLSN st' = State.DurableLSN st → State.Phase st' = State.Phase st →
  outbox st' (take (Z.to_nat (State.ReadySeq st)) log) =
    mkOutbox (queued (outbox st log)) [] (checkpoint (outbox st log)) (sealed (outbox st log)).
Proof.
  intros Hd Hr Hl Hp. unfold outbox. rewrite Hd, Hr, Hl, Hp. cbn.
  rewrite take_take, Nat.min_id. f_equal. apply drop_ge. rewrite length_take. lia.
Qed.

Lemma finalize_outbox st' lsn :
  State.DeliveredSeq st = 0 → State.ReadySeq st = 0 →
  State.DeliveredSeq st' = 0 → State.ReadySeq st' = 0 →
  State.DurableLSN st' = State.DurableLSN st → State.Phase st' = State.Phase st →
  outbox st' (Message.set_LSN lsn <$> log) =
    mkOutbox (queued (outbox st log)) (Message.set_LSN lsn <$> staged (outbox st log))
      (checkpoint (outbox st log)) (sealed (outbox st log)).
Proof. intros Hd Hr Hd' Hr' Hl Hp. unfold outbox. by rewrite Hd, Hr, Hd', Hr', Hl, Hp. Qed.

Lemma ack_outbox st' :
  State.DeliveredSeq st + 1 ≤ State.ReadySeq st →
  State.DeliveredSeq st' = State.DeliveredSeq st + 1 → State.ReadySeq st' = State.ReadySeq st →
  State.DurableLSN st' = State.DurableLSN st → State.Phase st' = State.Phase st →
  outbox st' log = mkOutbox (tail (queued (outbox st log))) (staged (outbox st log))
                     (checkpoint (outbox st log)) (sealed (outbox st log)).
Proof.
  destruct HI. intros Hle Hd Hr Hl Hp. unfold outbox. rewrite Hd, Hr, Hl, Hp. cbn.
  replace (Z.to_nat (State.DeliveredSeq st + 1)) with (S (Z.to_nat (State.DeliveredSeq st))) by lia.
  by rewrite drop_S_tail.
Qed.
End step.

(** Every successful operation keeps the invariant and does to the outbox what
    its specification says. *)
Lemma step_refines o s st log s' : Inv s st log → op_ok o log → run o s = (s', Ok tt) →
  ∃ st', Inv s' st' (log_after o st log) ∧
    outbox st' (log_after o st log) = spec o st (outbox st log).
Proof.
  intros HI Hop H. pose proof (inv_next _ _ _ HI) as Hn.
  destruct o; cbn [op_ok run] in *; cbn [log_after spec].
  - eapply Initialize_Inv in H; [|done..]. eexists. split; [done|]. done.
  - eapply SnapshotPoint_Inv in H; [|done..]. eexists. split; [done|]. done.
  - eapply FinalizeSnapshotLSN_Inv in H as (? & ? & st' & H & ? & ? & ? & ? & ? & ?); [|done..].
    eexists. split; [done|]. pose proof (inv_delivered _ _ _ H). pose proof (inv_delivered _ _ _ HI).
    apply finalize_outbox; congruence || lia.
  - destruct Hop. eapply Append_Inv in H as [H _]; [|done|done|lia]. eexists. split; [done|].
    by apply append_outbox with s.
  - destruct Hop. eapply PublishSource_Inv in H as [_ H]; [|done..]. eexists. split; [done|].
    apply publish_outbox with s; by destruct seal.
  - destruct Hop. eapply PublishSchema_Inv in H as (_ & _ & _ & H); [|done..]. eexists. split; [done|].
    by apply (publish_outbox s st log HI) with (seal := false).
  - eapply ClearSourceCleanup_Inv in H as [_ H]; [|done]. eexists. split; [done|]. done.
  - eapply Recover_Inv in H as (st' & H & ? & ? & ? & ? & ? & ?); [|done]. eexists. split; [done|].
    by apply recover_outbox.
  - eapply ResetForSnapshot_Inv in H as (_ & _ & st' & H & _ & Hp & _ & _ & Hl & _); [|done]. eexists. split; [done|].
    unfold outbox. by rewrite !drop_nil, !take_nil, drop_nil, Hp, Hl.
  - eapply Ack_Inv in H as (-> & Hr & _ & st' & H & ? & ? & ? & ? & ? & _); [|done].
    eexists. split; [done|]. by apply ack_outbox with s.
Qed.

(** What the operations of the capture side do to the generation and the
    delivery counters: what is published stays published. *)
Definition capture_op (o : Op) : bool :=
  match o with OReset | OAck _ _ _ => false | _ => true end.

Lemma capture_counters o s st log s' : Inv s st log → op_ok o log → capture_op o = true →
  run o s = (s', Ok tt) →
  ∃ st', Inv s' st' (log_after o st log) ∧
    match o with
    | OInitialize st0 => State.Generation st' = State.Generation st0 ∧ State.DeliveredSeq st' = 0 ∧
        State.Phase st ≠ "stream"
    | _ => State.Generation st' = State.Generation st ∧ State.DeliveredSeq st' = State.DeliveredSeq st ∧
        State.ReadySeq st ≤ State.ReadySeq st' ∧ (State.Phase st = "stream" → State.Phase st' = "stream") ∧
        take (Z.to_nat (State.ReadySeq st)) (log_after o st log) = take (Z.to_nat (State.ReadySeq st)) log
    end.
Proof.
  intros HI Hop Hc H. pose proof (inv_ready _ _ _ HI) as Hr. pose proof (inv_next _ _ _ HI) as Hn.
  pose proof (inv_delivered _ _ _ HI) as Hd.
  destruct o; cbn [op_ok run] in *; cbn [log_after]; try done.
  - pose proof H as H'. eapply Initialize_Inv in H; [|done..]. eexists. split; [done|].
    split_and!; [done|done|]. intros Hp. unfold Initialize in H'. open_tx HI H'. by rewrite Hp.
  - eapply SnapshotPoint_Inv in H; [|done..]. eexists. split; [done|]. cbn. split_and!; done || lia.
  - eapply FinalizeSnapshotLSN_Inv in H as (Hr0 & Hp & st' & H & ? & Hr' & ? & ? & ? & ?); [|done..].
    eexists. split; [done|]. pose proof (inv_delivered _ _ _ H). rewrite Hr0, Hp.
    split_and!; try done; lia.
  - destruct Hop. eapply Append_Inv in H as [H _]; [|done|done|lia]. eexists. split; [done|].
    cbn. split_and!; try done; try lia. apply take_lt_app. lia.
  - destruct Hop. eapply PublishSource_Inv in H as [Hs H]; [|done..]. eexists. split; [done|].
    destruct seal; cbn; split_and!; done || lia.
  - destruct Hop. eapply PublishSchema_Inv in H as (? & _ & _ & H); [|done..]. eexists. split; [done|].
    cbn. split_and!; done || lia.
  - eapply ClearSourceCleanup_Inv in H as [_ H]; [|done]. eexists. split; [done|]. cbn. split_and!; done || lia.
  - eapply Recover_Inv in H as (st' & H & ? & ? & ? & Hp & ? & ?); [|done]. eexists. split; [done|].
    rewrite Hp. split_and!; try done; [lia|]. rewrite take_take. f_equal. lia.
Qed.

Lemma Inv_open maxB res : Inv (Open (mkDB None ∅) maxB res) State.zero [].
Proof.
  unfold Open. cbn [meta]. apply (Inv_empty (mkStore (mkDB None ∅) _ _ _ _)); done.
Qed.

Lemma Inv_replay s st log age maxB : Inv s st log → Inv (ConfigureReplay s age maxB) st log.
Proof. intros []. by split. Qed.

Lemma Inv_reopen s st log maxB res : Inv s st log → Inv (Open (db s) maxB res) st log.
Proof. intros HI. pose proof (inv_meta _ _ _ HI) as Hm. unfold Open. rewrite Hm. destruct HI. by split. Qed.

Lemma reach_Inv s st log : reach s st log → Inv s st log.
Proof.
  induction 1 as [|s st log o s' st' _ IH Hop H Hr|s st log o s' e _ IH H| |].
  - apply Inv_open.
  - destruct (step_refines o s st log s' IH Hop H) as (st'' & H' & _).
    pose proof (inv_read _ _ _ H') as Hr'. rewrite Hr in Hr'. by injection Hr' as ->.
  - apply run_fail in H. by subst.
  - by apply Inv_replay.
  - by apply Inv_reopen.
Qed.

(** The published, undelivered messages by position. *)
Lemma queued_lookup s st log i : Inv s st log →
  State.DeliveredSeq st + 1 + Z.of_nat i ≤ State.ReadySeq st →
  queued (outbox st log) !! i = at_seq log (State.DeliveredSeq st + 1 + Z.of_nat i).
Proof.
  intros [] Hi. unfold outbox, at_seq. cbn [queued].
  rewrite (proj2 (Z.leb_le _ _)), lookup_drop, lookup_take_lt by lia. f_equal. lia.
Qed.

Lemma queued_nil s st log : Inv s st log →
  queued (outbox st log) = [] ↔ State.ReadySeq st ≤ State.DeliveredSeq st.
Proof.
  intros HI. split.
  - intros E. apply Z.nlt_ge. intros Hlt. pose proof (queued_lookup s st log 0 HI) as H.
    rewrite E in H. destruct HI.
    destruct (at_seq_is_Some log (State.DeliveredSeq st + 1 + Z.of_nat 0)) as [m Hm]; [lia|].
    rewrite Hm in H. by specialize (H ltac:(lia)).
  - intros. cbn. apply drop_ge. rewrite length_take. lia.
Qed.

Lemma queued_head s st log m l : Inv s st log → queued (outbox st log) = m :: l →
  State.DeliveredSeq st < State.ReadySeq st ∧ at_seq log (State.DeliveredSeq st + 1) = Some m ∧
  Message_ok m = true ∧ Message.Seq m = State.DeliveredSeq st + 1 ∧
  items (db s) !! (State.DeliveredSeq st + 1) = Some (marshal m).
Proof.
  intros HI E.
  assert (State.DeliveredSeq st < State.ReadySeq st) as Hlt.
  { apply Z.nle_gt. intros H%(queued_nil s st log HI). by rewrite H in E. }
  pose proof (queued_lookup s st log 0 HI ltac:(lia)) as H. rewrite E in H. cbn in H.
  rewrite Z.add_0_r in H. symmetry in H. destruct HI.
  assert (items (db s) !! (State.DeliveredSeq st + 1) = Some (marshal m)) as Hi
    by (apply (holds_first _ _ _ _ _ inv_items); done || lia).
  split_and!; try done.
  all: unfold at_seq in H; rewrite (proj2 (Z.leb_le _ _)) in H by lia;
    destruct (inv_log _ _ H) as (? & ? & _); done || lia.
Qed.

Lemma peek_queued s st log : Inv s st log →
  Peek s = match queued (outbox st log) with [] => Err ErrEmpty | m :: _ => Ok (m, marshal m) end.
Proof.
  intros HI. unfold Peek. rewrite (inv_read _ _ _ HI). go.
  destruct (queued (outbox st log)) as [|m l] eqn:E.
  - apply (queued_nil s st log HI) in E. by rewrite (proj2 (Z.leb_le _ _)).
  - destruct (queued_head s st log m l HI E) as (Hlt & _ & Hok & _ & Hi).
    rewrite (proj2 (Z.leb_gt _ _)) by done. destruct HI. rewrite u64_small by lia. rewrite Hi. go.
    rewrite unmarshal_marshal by done. by go.
Qed.

Lemma ack_sound s st log now seq id s' : Inv s st log → Ack s now seq id = (s', Ok tt) →
  ∃ m l, queued (outbox st log) = m :: l ∧ seq = Message.Seq m ∧ id = Message.ID m.
Proof.
  intros HI E. apply (Ack_Inv s st log) in E as (-> & Hr & (m & Hm & Hid) & _); [|done].
  destruct (queued (outbox st log)) as [|m' l] eqn:Eq.
  { apply (queued_nil s st log HI) in Eq. lia. }
  destruct (queued_head s st log m' l HI Eq) as (_ & Hm' & _ & Hs & _).
  rewrite Hm in Hm'. injection Hm' as <-. eauto.
Qed.

Lemma ack_complete s st log now m l : Inv s st log → queued (outbox st log) = m :: l →
  (Ack s now (Message.Seq m) (Message.ID m)).2 = Ok tt.
Proof.
  intros HI Eq. destruct (queued_head s st log m l HI Eq) as (Hlt & _ & Hok & Hs & Hi).
  unfold Ack, Update. rewrite (inv_read _ _ _ HI). go. destruct HI. rewrite u64_small by lia.
  rewrite Hs, Z.eqb_refl, (proj2 (Z.ltb_ge _ _)) by lia. cbn [negb orb]. go. rewrite Hi. go.
  rewrite unmarshal_marshal by done. go. rewrite String.eqb_refl. cbn [negb].
  by destruct (evict _ _ _ _ _ _ _) as [[??]?].
Qed.

(** The header fields the queue reads without decoding the rows. *)
Lemma Get_published s st log seq : Inv s st log →
  Get s seq = if (earliest st <=? seq) && (seq <=? State.ReadySeq st)
              then match at_seq log seq with Some m => Ok (m, marshal m) | None => Err ErrEmpty end
              else Err ErrEmpty.
Proof.
  intros HI. unfold Get. rewrite (inv_read _ _ _ HI). go. destruct HI.
  rewrite (Z.ltb_antisym seq), (Z.ltb_antisym _ seq).
  destruct (Z.leb_spec (earliest st) seq); cbn [negb orb andb]; [|done].
  destruct (Z.leb_spec seq (State.ReadySeq st)); cbn [negb]; [|done].
  destruct (at_seq_is_Some log seq) as [m Hm]; [lia|].
  rewrite (holds_first _ _ _ _ _ inv_items H Hm), Hm. go.
  unfold at_seq in Hm. rewrite (proj2 (Z.leb_le _ _)) in Hm by lia.
  destruct (inv_log _ _ Hm) as (Hok & _). rewrite unmarshal_marshal by done. by go.
Qed.

Lemma header_created_marshal m : Message_ok m = true →
  header_created (marshal m) = Some (Message.CreatedAt m).
Proof.
  intros. unfold header_created. rewrite parse_marshal by done. cbn [mbind option_bind].
  unfold Message_json. struct_fields. done.
Qed.

Lemma header_time_marshal m t : Message_ok m = true → Message.CreatedAt m = Format t → time_ok t →
  header_time (marshal m) = Some (Some t).
Proof.
  intros Hm Hc Ht. unfold header_time. rewrite parse_marshal by done. cbn [mbind option_bind].
  unfold Message_json. struct_fields. unfold str. by rewrite Hc, Parse_Format.
Qed.

(** ** Theorems *)

(** C5. Every store reached from an empty database by any sequence of operations,
    successful or not, also across closing and reopening it with other limits,
    satisfies the queue invariant: the stored counters are positions in the log of
    the generation, the bucket holds exactly the encodings of the retained messages,
    and the byte counters are the sizes of the undelivered and the archived
    messages. *)
Theorem queue_invariant s st log : reach s st log → Inv s st log.
Proof. apply reach_Inv. Qed.

(** C2. The store implements the transactional outbox: a successful operation
    on a reachable store gives a reachable store whose outbox is the
    specification's. *)
Theorem queue_refines_outbox o s st log s' : reach s st log → op_ok o log →
  run o s = (s', Ok tt) →
  ∃ st', reach s' st' (log_after o st log) ∧
    outbox st' (log_after o st log) = spec o st (outbox st log).
Proof.
  intros HR Hop H. destruct (step_refines o s st log s' (reach_Inv _ _ _ HR) Hop H)
    as (st' & HI & Hs). exists st'. split; [|done]. eapply reach_step; eauto using inv_read.
Qed.

(** An operation that fails leaves the store as it was. *)
Theorem queue_atomic o s s' e : run o s = (s', Err e) → s' = s.
Proof. apply run_fail. Qed.

(** [Peek] on a reachable store returns the oldest published message that is
    not acknowledged, with the bytes of its encoding, and reports an empty queue
    exactly when there is none; it never meets a gap or a text it cannot
    decode. *)
Theorem peek_head s st log : reach s st log →
  Peek s = match queued (outbox st log) with [] => Err ErrEmpty | m :: _ => Ok (m, marshal m) end.
Proof. intros HI%reach_Inv. by apply peek_queued. Qed.

(** An acknowledgement is accepted exactly when it names the sequence number
    and the id of the oldest published message that is not acknowledged. *)
Theorem ack_iff s st log now seq id : reach s st log →
  (Ack s now seq id).2 = Ok tt ↔
    ∃ m l, queued (outbox st log) = m :: l ∧ seq = Message.Seq m ∧ id = Message.ID m.
Proof.
  intros HI%reach_Inv. split.
  - intros H. destruct (Ack s now seq id) as [s' r] eqn:E. cbn in H. subst r. by eapply ack_sound.
  - intros (m & l & Eq & -> & ->). by eapply ack_complete.
Qed.

(** Retention: after an acknowledgement the evicted messages are an initial
    part of the acknowledged ones, each evicted because it was older than the
    replay age or because the archive exceeded the replay bytes; what stays is
    within the bytes and starts with a message that is young enough; no
    undelivered message is ever evicted. *)
Theorem ack_retention s st log now seq id s' : reach s st log → Ack s now seq id = (s', Ok tt) →
  ∃ st', reach s' st' log ∧ earliest st ≤ earliest st' ≤ State.DeliveredSeq st' + 1 ∧
    (∀ k m, earliest st ≤ k < earliest st' → at_seq log k = Some m →
      expired s now (marshal m) = true ∨
      replayBytes s < i64 (size (segment log k (State.DeliveredSeq st')))) ∧
    (earliest st' = State.DeliveredSeq st' + 1 ∨
      ∃ m, at_seq log (earliest st') = Some m ∧ expired s now (marshal m) = false ∧
        State.ArchiveBytes st' ≤ replayBytes s).
Proof.
  intros HR H. pose proof (reach_Inv _ _ _ HR) as HI.
  pose proof (Ack_Inv s st log now seq id s' HI H) as
    (-> & _ & _ & st' & HI' & Hd & Hr & Hn & Hl & Hp & He & Hev & Hret & _).
  exists st'. split.
  { eapply (reach_step _ _ _ (OAck now _ id)); [done|done|done|]. by apply inv_read with log. }
  destruct HI'. unfold evicted_ok, retained_ok in *. rewrite Hd in *.
  split_and!; try done; [lia|]. by rewrite inv_archive.
Qed.

(** [Get] returns every published message that is still retained, and
    reports the others as gone. *)
Theorem get_retained s st log seq : reach s st log →
  Get s seq = if (earliest st <=? seq) && (seq <=? State.ReadySeq st)
              then match at_seq log seq with Some m => Ok (m, marshal m) | None => Err ErrEmpty end
              else Err ErrEmpty.
Proof. intros HI%reach_Inv. by apply Get_published. Qed.

(** Messages are published with the sequence numbers that follow the last
    acknowledged one, without gaps, and with the id of their source, generation
    and sequence number. *)
Theorem queued_sequence s st log i m : reach s st log → queued (outbox st log) !! i = Some m →
  Message.Seq m = State.DeliveredSeq st + 1 + Z.of_nat i ∧
  Message.SourceID m = State.SourceID st ∧ Message.Generation m = State.Generation st ∧
  Message.ID m = message_id (State.SourceID st) (State.Generation st) (Message.Seq m).
Proof.
  intros HI%reach_Inv Hi.
  assert (State.DeliveredSeq st + 1 + Z.of_nat i ≤ State.ReadySeq st).
  { pose proof (lookup_lt_Some _ _ _ Hi) as Hl. cbn in Hl.
    rewrite length_drop, length_take in Hl. destruct HI. lia. }
  rewrite (queued_lookup s st log i HI) in Hi by done. destruct HI. unfold at_seq in Hi.
  rewrite (proj2 (Z.leb_le _ _)) in Hi by lia.
  destruct (inv_log _ _ Hi) as (_ & Hs & -> & -> & ->). rewrite Hs.
  split_and!; done || lia || (f_equal; lia).
Qed.

(** [Append] fails only when the queue or the disk is full, and what it
    admits stays within the configured bytes: the size of the undelivered
    messages does not exceed [maxBytes] while it is an int64. *)
Theorem append_capacity s st log free now m : reach s st log → op_ok (OAppend free now m) log →
  match Append s (Ok free) now m with
  | (s', Ok _) =>
      size (drop (Z.to_nat (State.DeliveredSeq st)) log) + slen (marshal (stamp st now m)) < 2 ^ 63 →
      ∃ st', reach s' st' (log ++ [stamp st now m]) ∧
        size (drop (Z.to_nat (State.DeliveredSeq st')) (log ++ [stamp st now m])) ≤ maxBytes s'
  | (s', Err e) => s' = s ∧ e = ErrFull
  end.
Proof.
  intros HR Hop. pose proof (reach_Inv _ _ _ HR) as HI.
  destruct (Append s (Ok free) now m) as [s' [[]|e]] eqn:E.
  - intros Hsz. pose proof E as H. destruct Hop as [Hm Hl].
    pose proof (inv_next _ _ _ HI) as Hn. apply (Append_Inv s st log) in H as [HI' Hcap]; [|done|done|lia].
    eexists. split.
    { apply (reach_step s st log (OAppend free now m)); [done|done|done|]. by apply inv_read in HI'. }
    destruct HI. cbn [State.DeliveredSeq appended State.set_Bytes State.set_NextSeq].
    rewrite drop_app_le, size_app, size_cons, size_nil by lia.
    rewrite inv_bytes, i64_add_l, i64_small in Hcap.
    + assert (maxBytes s' = maxBytes s) as ->; [|lia].
      unfold Append in E. case_match; [done|]. apply Update_inv in E as (d & _ & ->). done.
    + pose proof (size_nonneg (drop (Z.to_nat (State.DeliveredSeq st)) log)). unfold slen in *. lia.
  - split; [by apply (run_fail (OAppend free now m) s s' e)|].
    unfold Append in E. case_match; [by simplify_eq|]. unfold Update in E.
    rewrite (inv_read _ _ _ HI) in E. revert E. go. destruct (_ || _); intros; by simplify_eq.
Qed.

(** The age of a stored message is the time since it was appended: the text
    [Append] stamps it with parses back to the time of the append. *)
Theorem expired_age s now st t m : Message_ok (stamp st t m) = true → time_ok t →
  expired s now (marshal (stamp st t m)) = (replayAge s <? Since now t).
Proof.
  intros Hm Ht. unfold expired. rewrite header_created_marshal by done. cbn [mbind option_bind].
  change (Message.CreatedAt (stamp st t m)) with (Format t). by rewrite Parse_Format.
Qed.

(** The metrics report the state and the append time of the message
    [Peek] returns, and no time when nothing awaits delivery. *)
Theorem metrics_oldest s st log : reach s st log →
  match queued (outbox st log) with
  | [] => MetricsSnapshot s = Ok (st, None)
  | m :: _ => ∀ t, Message.CreatedAt m = Format t → time_ok t →
      MetricsSnapshot s = Ok (st, Some t)
  end.
Proof.
  intros HI%reach_Inv. unfold MetricsSnapshot. rewrite (inv_read _ _ _ HI). go.
  destruct (queued (outbox st log)) as [|m l] eqn:E.
  - apply (queued_nil s st log HI) in E. by rewrite (proj2 (Z.leb_le _ _)).
  - intros t Hc Ht. destruct (queued_head s st log m l HI E) as (Hlt & _ & Hok & _ & Hi).
    rewrite (proj2 (Z.leb_gt _ _)) by done. destruct HI. rewrite u64_small by lia. rewrite Hi. go.
    rewrite (header_time_marshal m t) by done. by go.
Qed.

(** Reading the state back gives the state that was saved. *)
Theorem state_round_trip d st : State_ok st = true → read (save d st) = Ok st.
Proof. apply read_save. Qed.

(** ** A concrete run *)

(** The store, the state and the log after a list of operations that all
    succeed. *)
Definition op_okb (o : Op) (log : list Message.t) : bool :=
  match o with
  | OInitialize st => State_ok st
  | OSnapshotPoint lsn | OFinalize lsn => utf8_valid lsn
  | OAppend _ _ m => Message_ok m && (Z.of_nat (length log) + 1 <? 2 ^ 64 - 1)
  | OPublish lsn _ cleanup => utf8_valid lsn && utf8_valid cleanup
  | OPublishSchema lsn hash => utf8_valid lsn && utf8_valid hash
  | OClearCleanup _ | ORecover | OReset | OAck _ _ _ => true
  end.

Fixpoint exec (ops : list Op) (c : Store * State.t * list Message.t) :
    option (Store * State.t * list Message.t) :=
  match ops with
  | [] => Some c
  | o :: ops' =>
      let '(s, st, log) := c in
      let '(s', r) := run o s in
      match r, read (db s') with
      | Ok _, Ok st' => if op_okb o log then exec ops' (s', st', log_after o st log) else None
      | _, _ => None
      end
  end.

Lemma op_okb_ok o log : op_okb o log = true → op_ok o log.
Proof. destruct o; cbn; try done; intros H; bool_prop; auto. Qed.

Lemma exec_reach ops c c' : exec ops c = Some c' → reach c.1.1 c.1.2 c.2 → reach c'.1.1 c'.1.2 c'.2.
Proof.
  revert c. induction ops as [|o ops IH]; intros [[s st] log] H HR; cbn in H; [by simplify_eq|].
  destruct (run o s) as [s' [[]|]] eqn:Er; [|done]. destruct (read (db s')) as [st'|] eqn:Es; [|done].
  destruct (op_okb o log) eqn:Eo; [|done]. apply IH in H; [done|]. cbn.
  eapply reach_step; eauto using op_okb_ok.
Qed.

Definition demo_state : State.t :=
  State.mk "v1" "src" "g1" "fp" "sys" 1 "db" "hash" "slot" "" "" "" "" 0 0 0 0 0 0.

Definition demo_message (id : string) : Message.t :=
  Message.mk "" "" "" "" 0 "" "transaction" "tx1" 0 "0/1" [] None
    [Row.mk "" "public" "t" "insert" [Column.mk "id" "int4" (Some id) "" None] []
       [Column.mk "id" "int4" (Some id) "" None] 1] None "".

Definition demo_time : Z := 1700000000 * second.

Definition demo_ops : list Op :=
  [OInitialize demo_state;
   OAppend (2 ^ 40) demo_time (demo_message "1");
   OAppend (2 ^ 40) (demo_time + second) (demo_message "2");
   OPublish "0/2" true "";
   OAppend (2 ^ 40) (demo_time + 2 * second) (demo_message "3");
   OAck (demo_time + 3 * second) 1 "src/g1/1"].

Definition demo_open : Store * State.t * list Message.t :=
  (Open (mkDB None ∅) 100000 0, State.zero, []).

Definition demo : Store * State.t * list Message.t := default demo_open (exec demo_ops demo_open).
Definition demo_store : Store := demo.1.1.
Definition demo_st : State.t := demo.1.2.
Definition demo_log : list Message.t := demo.2.

Lemma demo_exec : exec demo_ops demo_open = Some demo.
Proof. vm_compute. reflexivity. Qed.

Lemma demo_reach : reach demo_store demo_st demo_log.
Proof. apply (exec_reach demo_ops demo_open demo demo_exec). apply reach_open. Qed.

(** The message awaiting delivery. *)
Definition demo_next : Message.t := hd Message.zero (queued (outbox demo_st demo_log)).

Lemma demo_queued : queued (outbox demo_st demo_log) = [demo_next].
Proof. vm_compute. reflexivity. Qed.

(** ** The theorems at the concrete run *)

Lemma queue_invariant_witness : Inv demo_store demo_st demo_log.
Proof. exact (queue_invariant _ _ _ demo_reach). Defined.

Lemma queue_refines_outbox_witness :
  ∃ st', outbox st' (log_after ORecover demo_st demo_log) =
    spec ORecover demo_st (outbox demo_st demo_log).
Proof.
  destruct (queue_refines_outbox ORecover demo_store demo_st demo_log (run ORecover demo_store).1
    demo_reach I) as (st' & _ & H); [vm_compute; reflexivity|]. exists st'. exact H.
Defined.

Lemma queue_atomic_witness : (run (OAck 0 7 "x") demo_store).1 = demo_store.
Proof.
  apply (queue_atomic (OAck 0 7 "x") demo_store _ (errorf "non-contiguous ack")).
  vm_compute. reflexivity.
Defined.

Lemma peek_head_witness : Peek demo_store = Ok (demo_next, marshal demo_next).
Proof. rewrite (peek_head _ _ _ demo_reach). vm_compute. reflexivity. Defined.

Lemma ack_iff_witness : (Ack demo_store demo_time 2 "src/g1/2").2 = Ok tt.
Proof.
  apply (proj2 (ack_iff demo_store demo_st demo_log demo_time 2 "src/g1/2" demo_reach)).
  exists demo_next, []. split_and!; [exact demo_queued|vm_compute; reflexivity..].
Defined.

Lemma ack_retention_witness :
  ∃ st', earliest demo_st ≤ earliest st' ≤ State.DeliveredSeq st' + 1.
Proof.
  destruct (ack_retention demo_store demo_st demo_log (demo_time + 8 * 24 * 3600 * second) 2
    "src/g1/2" (Ack demo_store (demo_time + 8 * 24 * 3600 * second) 2 "src/g1/2").1 demo_reach)
    as (st' & _ & H & _); [vm_compute; reflexivity|]. exists st'. exact H.
Defined.

Lemma get_retained_witness : Get demo_store 2 = Ok (demo_next, marshal demo_next).
Proof. rewrite (get_retained _ _ _ 2 demo_reach). vm_compute. reflexivity. Defined.

Lemma queued_sequence_witness :
  Message.Seq demo_next = 2 ∧ Message.ID demo_next = message_id "src" "g1" 2.
Proof.
  destruct (queued_sequence demo_store demo_st demo_log 0 demo_next demo_reach) as (H1 & _ & _ & H2);
    [vm_compute; reflexivity|].
  assert (Message.Seq demo_next = 2) as E by (rewrite H1; vm_compute; reflexivity).
  split; [exact E|]. rewrite H2, E. vm_compute. reflexivity.
Defined.

Lemma append_capacity_witness :
  let m := demo_message "4" in
  (Append demo_store (Ok 0) demo_time m).1 = demo_store.
Proof.
  pose proof (append_capacity demo_store demo_st demo_log 0 demo_time (demo_message "4") demo_reach
    (op_okb_ok (OAppend 0 demo_time (demo_message "4")) demo_log ltac:(vm_compute; reflexivity))) as H.
  cbn zeta. destruct (Append demo_store (Ok 0) demo_time (demo_message "4")) as [s' [[]|e]] eqn:E.
  - exfalso. assert ((Append demo_store (Ok 0) demo_time (demo_message "4")).2 = Ok tt) as E2
      by (by rewrite E). vm_compute in E2. discriminate.
  - apply H.
Defined.

Lemma expired_age_witness :
  expired demo_store (demo_time + 8 * 24 * 3600 * second)
    (marshal (stamp demo_state demo_time (demo_message "1"))) = true.
Proof.
  rewrite (expired_age demo_store (demo_time + 8 * 24 * 3600 * second) demo_state demo_time);
    [vm_compute; reflexivity|vm_compute; reflexivity|vm_compute; split; congruence].
Defined.

Lemma metrics_oldest_witness : MetricsSnapshot demo_store = Ok (demo_st, Some (demo_time + second)).
Proof.
  pose proof (metrics_oldest demo_store demo_st demo_log demo_reach) as H.
  rewrite demo_queued in H. apply H; [vm_compute; reflexivity|vm_compute; split; congruence].
Defined.

Lemma state_round_trip_witness : read (save (mkDB None ∅) demo_st) = Ok demo_st.
Proof. apply state_round_trip. vm_compute. reflexivity. Defined.
