(* ===== verification/FileEmbed.v ===== *)
(** * Embedding referenced files (internal/fileembed)

    [Apply] replaces the path in a configured column by the content of the file
    in base64.  The file system is an argument: the roots that can be opened,
    and below a root the files with their metadata and content. *)

From S2P Require Import Prelude Bytes Encoding GoPath Config Event.

(** A file as [Stat] and [ReadAll] see it. *)
Record file := mkFile { stat : option (bool * Z); content : option string }.

Definition filesystem := string → option (string → option file).

(** A read of at most [n] bytes ([io.LimitReader]) *)
Definition limit (n : Z) (s : string) : string := take_string (Z.to_nat n) s.

(** The path below the root of a rule that a column value refers to. *)
Definition relative (rule : config.FileColumn.t) (value : string) : result string :=
  _ ← fail_if (String.eqb value "") (errorf "path is empty");
  let rel := Clean value in
  rel ← (if IsAbs rel then or_err (Rel (Clean (config.FileColumn.RootDir rule)) rel) (errorf "referenced file escapes root_dir")
         else Ok rel);
  _ ← fail_if (negb (IsLocal rel) || String.eqb rel "." || contains_nul rel)
        (errorf "referenced file escapes root_dir");
  Ok rel.

Definition read_file (fs : filesystem) (rule : config.FileColumn.t) (value : string) : result string :=
  rel ← relative rule value;
  root ← or_err (fs (config.FileColumn.RootDir rule)) (errorf "root directory is unavailable");
  f ← or_err (root rel) (errorf "referenced file cannot be opened");
  '(regular, size) ← or_err (stat f) (errorf "reference is not a regular file");
  _ ← fail_if (negb regular) (errorf "reference is not a regular file");
  let max := config.FileColumn.MaxBytes rule in
  _ ← fail_if (max <? size) (errorf "referenced file exceeds max_bytes");
  data ← or_err (limit (i64 (max + 1)) <$> content f) (errorf "referenced file cannot be read");
  _ ← fail_if (max <? slen data) (errorf "referenced file exceeds max_bytes");
  Ok (base64_encode data).

(** One rule over the columns of a row. *)
Fixpoint apply_rule (fs : filesystem) (rule : config.FileColumn.t) (l : list Column.t) : result (list Column.t) :=
  match l with
  | [] => Ok []
  | c :: l' =>
      c' ← match Column.Value c with
           | Some v =>
               if String.eqb (Column.Name c) (config.FileColumn.Column rule) then
                 match read_file fs rule v with
                 | Ok encoded => Ok (Column.mk (Column.Name c) (Column.Type_ c) (Some encoded) "base64" (Some v))
                 | Err _ => Err (errorf "embed file for %s.%s.%s: %w")
                 end
               else Ok c
           | None => Ok c
           end;
      r ← apply_rule fs rule l';
      Ok (c' :: r)
  end.

(** The rules in their order; keys are never changed. *)
Fixpoint apply_rules (fs : filesystem) (rules : list config.FileColumn.t) (row : Row.t) : result Row.t :=
  match rules with
  | [] => Ok row
  | rule :: rules' =>
      if String.eqb (config.FileColumn.Schema rule) (Row.Schema row) &&
         String.eqb (config.FileColumn.Table rule) (Row.Table row)
      then
        cols ← apply_rule fs rule (Row.Columns row);
        apply_rules fs rules'
          (Row.mk (Row.Identity row) (Row.Schema row) (Row.Table row) (Row.Operation row) (Row.Key row) (Row.OldKey row)
             cols (Row.Ordinal row))
      else apply_rules fs rules' row
  end.

Definition Apply (fs : filesystem) (cfg : config.Config.t) (row : Row.t) : result Row.t :=
  apply_rules fs (config.Config.FileColumns cfg) row.

(** ** What is embedded *)

Lemma take_string_short n s : (String.length (take_string n s) < n)%nat → take_string n s = s.
Proof.
  revert n. induction s as [|c s IH]; intros [|n]; cbn; try done; [lia|]. intros H. f_equal. apply IH. lia.
Qed.

Lemma relative_local rule value rel : relative rule value = Ok rel → IsLocal rel = true ∧ rel ≠ ".".
Proof. unfold relative. intros H. result_inv H; bool_prop; by subst. Qed.

(** What is read for a path is the whole content of a regular file below the root, no
    longer than the limit. *)
Definition embeds (fs : filesystem) (rule : config.FileColumn.t) (value data : string) : Prop :=
  ∃ rel root f size, relative rule value = Ok rel ∧ IsLocal rel = true ∧ rel ≠ "." ∧
    fs (config.FileColumn.RootDir rule) = Some root ∧ root rel = Some f ∧ stat f = Some (true, size) ∧
    content f = Some data ∧ slen data ≤ config.FileColumn.MaxBytes rule.

Lemma read_file_embeds fs rule value encoded : 0 ≤ config.FileColumn.MaxBytes rule < 2 ^ 63 - 1 →
  read_file fs rule value = Ok encoded → ∃ data, encoded = base64_encode data ∧ embeds fs rule value data.
Proof.
  intros Hm H. unfold read_file in H. result_inv H. bool_prop.
  match goal with H : relative _ _ = Ok ?r |- _ => rename H into Hrel end.
  match goal with H : _ <$> content ?f = Some ?d |- _ => destruct (content f) as [data|] eqn:Ed; [|done]; cbn in H end.
  match goal with H : Some _ = Some ?d |- _ => injection H as <- end.
  rewrite (i64_small (_ + 1)) in * by lia. unfold limit in *.
  set (n := Z.to_nat (config.FileColumn.MaxBytes rule + 1)) in *.
  assert (take_string n data = data) as Ht.
  { apply take_string_short. unfold slen in *. subst n. lia. }
  rewrite Ht in *. destruct (relative_local _ _ _ Hrel). subst. exists data. split; [done|]. unfold embeds. eauto 15.
Qed.

(** The rule for a column of a row. *)
Definition applies (row : Row.t) (c : Column.t) (rule : config.FileColumn.t) : bool :=
  String.eqb (config.FileColumn.Schema rule) (Row.Schema row) && String.eqb (config.FileColumn.Table rule) (Row.Table row) &&
  String.eqb (Column.Name c) (config.FileColumn.Column rule).

(** A column of the result: with a rule and a path, the content in base64 beside the
    path it came from; otherwise as it was. *)
Definition embedded (fs : filesystem) (rules : list config.FileColumn.t) (row : Row.t) (c c' : Column.t) : Prop :=
  match List.find (applies row c) rules, Column.Value c with
  | Some rule, Some path => ∃ data encoded, embeds fs rule path data ∧ base64_decode encoded = Some data ∧
      c' = Column.mk (Column.Name c) (Column.Type_ c) (Some encoded) "base64" (Some path)
  | _, _ => c' = c
  end.

Lemma apply_rule_columns fs rule row l l' : 0 ≤ config.FileColumn.MaxBytes rule < 2 ^ 63 - 1 →
  config.FileColumn.Schema rule = Row.Schema row → config.FileColumn.Table rule = Row.Table row →
  apply_rule fs rule l = Ok l' → Forall2 (embedded fs [rule] row) l l'.
Proof.
  intros Hm Hs Ht. revert l'. induction l as [|c l IH]; intros l' H; cbn [apply_rule] in H.
  { injection H as <-. constructor. }
  apply bind_Ok in H as (c' & Hc & H). apply bind_Ok in H as (r & Hr & [= <-]). constructor; [|by apply IH].
  unfold embedded, applies. cbn [List.find]. rewrite Hs, Ht, !String.eqb_refl. cbn [andb].
  destruct (Column.Value c) as [v|], (String.eqb _ _); try by injection Hc as <-.
  destruct (read_file fs rule v) as [enc|] eqn:E; [|done]. injection Hc as <-.
  destruct (read_file_embeds _ _ _ _ Hm E) as (data & -> & He). exists data, (base64_encode data).
  split_and!; [done|apply base64_decode_encode|done].
Qed.

Definition distinct_rules (rules : list config.FileColumn.t) : Prop := NoDup (config.file_rule <$> rules).

(** A rule before the others: at most one of them is for a column. *)
Lemma embedded_cons fs rule rules row c c1 c' : distinct_rules (rule :: rules) →
  embedded fs [rule] row c c1 → embedded fs rules row c1 c' → embedded fs (rule :: rules) row c c'.
Proof.
  intros Hd. unfold embedded. cbn [List.find]. destruct (applies row c rule) eqn:Ea; [|by intros ->].
  assert (∀ x, Column.Name x = Column.Name c → List.find (applies row x) rules = None) as Hnone.
  { intros x Hx. destruct (List.find (applies row x) rules) as [y|] eqn:Ef; [|done]. exfalso.
    apply List.find_some in Ef as [Hy Ey]. unfold applies in *. rewrite Hx in Ey. bool_prop.
    apply NoDup_cons in Hd as [Hn _]. apply Hn. apply list_elem_of_fmap. exists y.
    split; [unfold config.file_rule; congruence|by apply list_elem_of_In]. }
  destruct (Column.Value c) as [v|] eqn:Ev.
  - intros (data & enc & H1 & H2 & ->) H. rewrite (Hnone (Column.mk _ _ _ _ _)) in H by done. subst. eauto.
  - intros ->. by rewrite Hnone.
Qed.

Lemma Forall2_compose {A} (P Q R : A → A → Prop) l1 l2 l3 : (∀ x y z, P x y → Q y z → R x z) →
  Forall2 P l1 l2 → Forall2 Q l2 l3 → Forall2 R l1 l3.
Proof.
  intros H H12. revert l3. induction H12; intros l3 H23; apply Forall2_cons_inv_l in H23 || apply Forall2_nil_inv_l in H23; [by subst|].
  destruct H23 as (z & l3' & ? & ? & ->). constructor; eauto.
Qed.

(** The row but its columns. *)
Definition set_columns (cols : list Column.t) (row : Row.t) : Row.t :=
  Row.mk (Row.Identity row) (Row.Schema row) (Row.Table row) (Row.Operation row) (Row.Key row) (Row.OldKey row) cols (Row.Ordinal row).

Lemma apply_rules_columns fs rules row row' : distinct_rules rules →
  Forall (λ r, 0 ≤ config.FileColumn.MaxBytes r < 2 ^ 63 - 1) rules → apply_rules fs rules row = Ok row' →
  row' = set_columns (Row.Columns row') row ∧ Forall2 (embedded fs rules row) (Row.Columns row) (Row.Columns row').
Proof.
  revert row. induction rules as [|rule rules IH]; intros row Hd Hm H; cbn [apply_rules] in H.
  { injection H as <-. split; [by destruct row|]. induction (Row.Columns row); by constructor. }
  apply Forall_cons in Hm as [Hm Hms]. pose proof Hd as [_ Hd']%NoDup_cons.
  destruct (String.eqb _ (Row.Schema row) && String.eqb _ (Row.Table row)) eqn:Eb.
  - apply andb_true_iff in Eb as [Hs%String.eqb_eq Ht%String.eqb_eq]. apply bind_Ok in H as (cols & Hc & H).
    apply IH in H as [H1 H2]; [|done|done].
    split; [rewrite H1; by destruct row|]. apply (apply_rule_columns fs rule row) in Hc; [|done|done|done].
    change (Forall2 (embedded fs rules row) cols (Row.Columns row')) in H2.
    eapply Forall2_compose; [|exact Hc|exact H2]. intros x y z. by apply embedded_cons.
  - apply IH in H as [H1 H2]; [|done|done]. split; [done|]. eapply Forall2_impl; [exact H2|]. intros c c'.
    unfold embedded, applies. cbn [List.find]. by rewrite Eb.
Qed.

Lemma check_file_columns_rules max tables seen rules : config.check_file_columns max tables seen rules = Ok tt →
  Forall (λ r, 0 < config.FileColumn.MaxBytes r ≤ max) rules ∧ distinct_rules rules ∧ Forall (λ r, config.file_rule r ∉ seen) rules.
Proof.
  revert seen. induction rules as [|r rules IH]; intros seen H; cbn [config.check_file_columns] in H.
  { split_and!; constructor. }
  rewrite !fail_if_bind in H. repeat (match type of H with (if ?b then _ else _) = _ => destruct b eqn:?; [done|] end).
  bool_prop. apply IH in H as (Hmax & Hdist & Hseen). rewrite Forall_forall in Hseen. split_and!.
  - constructor; [lia|done].
  - apply NoDup_cons. split; [|done]. intros (x & E & Hx)%list_elem_of_fmap. apply (Hseen x Hx). rewrite <- E. left.
  - constructor; [done|]. apply Forall_forall. intros x Hx Hin. apply (Hseen x Hx). by right.
Qed.

(** C29 Embedding keeps the row and adds the content of the files: with rules that the
    validation of the configuration accepts (positive limits, at most one rule for a
    column) and a row limit below the largest integer, a row that [Apply] accepts keeps
    its identity, table, operation, keys and ordinal, and every column: a column that
    has a rule and a path gets, as base64 text that decodes to it, the whole content of
    a regular file below the root of the rule (at a local path, no longer than the
    limit), with the path kept beside it as the source value; every other column is as
    it was. *)
Theorem embedded_content fs cfg row row' :
  config.check_file_columns (config.Config.MaxRowBytes cfg) (config.Config.Tables cfg) [] (config.Config.FileColumns cfg) = Ok tt →
  config.Config.MaxRowBytes cfg < 2 ^ 63 - 1 → Apply fs cfg row = Ok row' →
  row' = set_columns (Row.Columns row') row ∧
  Forall2 (embedded fs (config.Config.FileColumns cfg) row) (Row.Columns row) (Row.Columns row').
Proof.
  intros (Hm & Hd & _)%check_file_columns_rules Hmax H. apply apply_rules_columns; [done| |done].
  eapply Forall_impl; [exact Hm|]. cbn. lia.
Qed.

Definition demo_rule : config.FileColumn.t := config.FileColumn.mk "public" "docs" "path" "/srv/docs" 16.
Definition demo_fs : filesystem := λ root,
  if String.eqb root "/srv/docs" then
    Some (λ rel, if String.eqb rel "a/b.txt" then Some (mkFile (Some (true, 5)) (Some "hello")) else None)
  else None.
Definition demo_config : config.Config.t :=
  config.Config.mk "" config.GRPC.zero config.Replay.zero "" config.SQLServer.zero config.SQLServerLegacy.zero config.MySQL.zero
    config.FileWatch.zero "" "" "" [config.Table.mk "public" "docs"] [demo_rule] "" "" ∅ 0 0 0 0 64 "" "" "" "" config.Log.zero false "".
Definition demo_column (name v : string) : Column.t := Column.mk name "text" (Some v) "" None.
Definition demo_row : Row.t :=
  Row.mk "" "public" "docs" "insert" [demo_column "id" "1"] [] [demo_column "id" "1"; demo_column "path" "/srv/docs/x/../a/b.txt"] 0.
Definition demo_embedded : Row.t := set_columns
  [demo_column "id" "1"; Column.mk "path" "text" (Some "aGVsbG8=") "base64" (Some "/srv/docs/x/../a/b.txt")] demo_row.

Lemma embedded_content_witness : Forall2 (embedded demo_fs [demo_rule] demo_row) (Row.Columns demo_row) (Row.Columns demo_embedded).
Proof.
  apply (embedded_content demo_fs demo_config demo_row demo_embedded).
  - vm_compute. reflexivity.
  - vm_compute. reflexivity.
  - vm_compute. reflexivity.
Defined.
