(* ===== verification/Batch.v ===== *)
(** * Batching rows into the queue (capture/batch.go, mysql/batch.go,
      sqlserver/batch.go, sqlserverlegacy/batch.go)

    Rows are collected into messages of bounded size, which are appended to the
    queue without being published.  Between two attempts at a full queue the
    delivery side runs: what it acknowledges, the free space and the clock are
    what an attempt observes, and the context is cancelled when the observations
    end.  The theorem at the end says that the chunks are the rows, in order,
    within the limits; the PostgreSQL batcher and the other three, whose tests
    differ, are shown to do the same. *)

From S2P Require Import Prelude Bytes Encoding Json JsonStruct GoTime GoPath Config Event FileEmbed Queue QueueInv QueueSpec.

#[local] Opaque marshal unmarshal.

(** ** Observations and staging *)

(** One attempt: the free space, the time, and the acknowledgements (time,
    sequence number, message id) delivered before the next one. *)
Record obs := mkObs {
  ob_free : result Z;
  ob_clock : Z;
  ob_acks : list (Z * Z * string)
}.

Definition staging (A : Type) := list obs → Store → list obs * Store * result A.

#[global] Instance staging_ret : MRet staging := λ A a env s, (env, s, Ok a).
#[global] Instance staging_bind : MBind staging := λ A B f c env s,
  match c env s with
  | (env', s', Ok a) => f a env' s'
  | (env', s', Err e) => (env', s', Err e)
  end.

Definition pure {A} (r : result A) : staging A := λ env s, (env, s, r).

(** A queue operation that observes nothing. *)
Definition on_queue (f : Store → Store * result unit) : staging unit := λ env s,
  let '(s', r) := f s in (env, s', r).

Definition deliver (acks : list (Z * Z * string)) (s : Store) : Store :=
  foldl (λ s '(now, seq, id), (Ack s now seq id).1) s acks.

(** [batcher.append]; [full] is the text of the error. *)
Fixpoint append (full : string) (m : Message.t) (env : list obs) (s : Store) : list obs * Store * result unit :=
  match env with
  | [] => ([], s, Err ErrCanceled)
  | o :: env' =>
      match Append s (ob_free o) (ob_clock o) m with
      | (s', Err ErrFull) =>
          match GetState s' with
          | Err e => (env', s', Err e)
          | Ok st =>
              if State.ReadySeq st =? State.DeliveredSeq st then (env', s', Err (errors_New full))
              else append full m env' (deliver (ob_acks o) s')
          end
      | (s', r) => (env', s', r)
      end
  end.

(** [Append] of the queue, without waiting. *)
Definition put (m : Message.t) : staging unit := λ env s,
  match env with
  | [] => ([], s, Err ErrCanceled)
  | o :: env' => let '(s', r) := Append s (ob_free o) (ob_clock o) m in (env', s', r)
  end.

(** One message after the other. *)
Fixpoint each {A} (f : A → staging unit) (l : list A) : staging unit :=
  match l with
  | [] => mret tt
  | x :: l' => _ ← f x; each f l'
  end.

Definition get_state : staging State.t := λ env s, (env, s, GetState s).

(** What a caller does to an error: wrap it, join another one to it. *)
Definition map_err {A} (f : error → error) (c : staging A) : staging A := λ env s,
  match c env s with
  | (env', s', Err e) => (env', s', Err (f e))
  | x => x
  end.

(** ** The batcher *)

Definition set_Rows (l : list Row.t) (m : Message.t) : Message.t :=
  Message.mk (Message.Version m) (Message.SourceID m) (Message.Generation m) (Message.SchemaVersion m) (Message.Seq m)
    (Message.ID m) (Message.Kind m) (Message.Transaction m) (Message.Chunk m) (Message.LSN m) (Message.Tables m)
    (Message.Schema m) l (Message.File m) (Message.CreatedAt m).

Definition set_Chunk (c : Z) (m : Message.t) : Message.t :=
  Message.mk (Message.Version m) (Message.SourceID m) (Message.Generation m) (Message.SchemaVersion m) (Message.Seq m)
    (Message.ID m) (Message.Kind m) (Message.Transaction m) c (Message.LSN m) (Message.Tables m)
    (Message.Schema m) (Message.Rows m) (Message.File m) (Message.CreatedAt m).

Record batcher := mkBatcher { b_msg : Message.t; b_size : Z }.

(** [len(raw)] of [json.Marshal(row)] *)
Definition row_size (r : Row.t) : Z := slen (print (Row_json r)).

Definition rows_of (b : batcher) : list Row.t := Message.Rows (b_msg b).
Definition row_count (b : batcher) : Z := Z.of_nat (length (rows_of b)).

Section batch.
Context (full : string) (fs : filesystem) (cfg : config.Config.t).

Notation BatchRows := (config.Config.BatchRows cfg).
Notation BatchBytes := (config.Config.BatchBytes cfg).
Notation MaxRowBytes := (config.Config.MaxRowBytes cfg).

Definition flush (b : batcher) : staging batcher :=
  if row_count b =? 0 then mret b
  else
    _ ← append full (b_msg b);
    mret (mkBatcher (set_Chunk (u64 (Message.Chunk (b_msg b) + 1)) (set_Rows [] (b_msg b))) 0).

(** The row is appended, and the batch flushed if it is full. *)
Definition push (row : Row.t) (b : batcher) : staging batcher :=
  let b := mkBatcher (set_Rows (rows_of b ++ [row]) (b_msg b)) (i64 (b_size b + row_size row)) in
  if (BatchBytes <=? b_size b) || (BatchRows <=? row_count b) then flush b else mret b.

(** What [add] does before: embed files and test the size of the row. *)
Definition prepare (row : Row.t) : staging Row.t :=
  row ← pure (Apply fs cfg row);
  _ ← pure (fail_if (MaxRowBytes <? row_size row) (errorf "row exceeds max_row_bytes"));
  mret row.

(** The PostgreSQL batcher. *)
Definition add_pg (row : Row.t) (b : batcher) : staging batcher :=
  row ← prepare row;
  b ← (if (0 <? row_count b) && ((BatchRows <=? row_count b) || (BatchBytes <? i64 (b_size b + row_size row)))
       then flush b else mret b);
  push row b.

(** The batchers of MySQL and SQL Server. *)
Definition add (row : Row.t) (b : batcher) : staging batcher :=
  row ← prepare row;
  b ← (if (0 <? row_count b) && (BatchBytes <? i64 (b_size b + row_size row)) then flush b else mret b);
  push row b.

Fixpoint add_all (step : Row.t → batcher → staging batcher) (l : list Row.t) (b : batcher) : staging batcher :=
  match l with
  | [] => mret b
  | r :: l' => b' ← step r b; add_all step l' b'
  end.

(** The limits of an accepted configuration. *)
Definition limits_ok : Prop := 1 ≤ BatchRows ∧ 1024 ≤ BatchBytes ≤ MaxRowBytes ∧ MaxRowBytes < 2 ^ 61.

(** Between rows the batch is not full. *)
Definition room (b : batcher) : Prop := row_count b < BatchRows ∧ 0 ≤ b_size b < BatchBytes.
End batch.

(** ** Inversion of staging computations *)

Lemma staging_bind_Ok {A B} (c : staging A) (f : A → staging B) env s env' s' b :
  (c ≫= f) env s = (env', s', Ok b) ↔
  ∃ env1 s1 a, c env s = (env1, s1, Ok a) ∧ f a env1 s1 = (env', s', Ok b).
Proof.
  unfold mbind, staging_bind. split.
  - destruct (c env s) as [[env1 s1] [a|e]]; [|done]. intros E. by exists env1, s1, a.
  - by intros (env1 & s1 & a & -> & E).
Qed.

Lemma staging_ret_Ok {A} (a : A) env s env' s' a' :
  (mret a : staging A) env s = (env', s', Ok a') ↔ env' = env ∧ s' = s ∧ a' = a.
Proof. unfold mret, staging_ret. naive_solver. Qed.

Lemma pure_Ok {A} (r : result A) env s env' s' a : pure r env s = (env', s', Ok a) ↔ env' = env ∧ s' = s ∧ r = Ok a.
Proof. unfold pure. naive_solver. Qed.

Lemma on_queue_Ok f env s env' s' : on_queue f env s = (env', s', Ok tt) ↔ env' = env ∧ f s = (s', Ok tt).
Proof. unfold on_queue. destruct (f s) as [s1 r]. naive_solver. Qed.

Lemma map_err_Ok {A} f (c : staging A) env s env' s' a :
  map_err f c env s = (env', s', Ok a) ↔ c env s = (env', s', Ok a).
Proof. unfold map_err. destruct (c env s) as [[? ?] [|]]; naive_solver. Qed.

Lemma get_state_Ok env s env' s' st : get_state env s = (env', s', Ok st) ↔ env' = env ∧ s' = s ∧ GetState s = Ok st.
Proof. unfold get_state. split; [by intros [= <- <- ->]|by intros (-> & -> & ->)]. Qed.

(** Decompose a computation that succeeded. *)
Ltac st_inv H :=
  lazymatch type of H with
  | (_ ≫= _) _ _ = (_, _, Ok _) =>
      let e := fresh "env" in let s := fresh "s" in let a := fresh "a" in let H1 := fresh "H" in let H2 := fresh "H" in
      apply staging_bind_Ok in H as (e & s & a & H1 & H2); st_inv H1; st_inv H2
  | get_state _ _ = (_, _, Ok _) => apply get_state_Ok in H as (? & ? & ?); subst
  | map_err _ _ _ _ = (_, _, Ok _) => apply map_err_Ok in H; st_inv H
  | mret _ _ _ = (_, _, Ok _) => apply staging_ret_Ok in H as (? & ? & ?); subst
  | pure _ _ _ = (_, _, Ok _) => let H1 := fresh "H" in apply pure_Ok in H as (? & ? & H1); subst; result_inv H1
  | on_queue _ _ _ = (_, _, Ok ?x) => try destruct x; let H1 := fresh "H" in apply on_queue_Ok in H as [? H1]; subst
  | (if ?b then _ else _) _ _ = _ => let E := fresh "E" in destruct b eqn:E; st_inv H
  | _ => idtac
  end.

(** ** What staging does to the queue *)

(** A message of the log made from [m]. *)
Definition stamped (m x : Message.t) : Prop := ∃ st now, x = stamp st now m.

Lemma stamped_fields m x : stamped m x →
  Message.Kind x = Message.Kind m ∧ Message.Transaction x = Message.Transaction m ∧ Message.File x = Message.File m.
Proof. by intros (st & now & ->). Qed.

(** The log grows by [ms], and nothing is published. *)
Record extends (st : State.t) (log : list Message.t) (ms : list Message.t) (st' : State.t) (log' : list Message.t) : Prop := {
  ext_log : ∃ xs, log' = log ++ xs ∧ Forall2 stamped ms xs;
  ext_ready : State.ReadySeq st' = State.ReadySeq st;
  ext_durable : State.DurableLSN st' = State.DurableLSN st;
  ext_phase : State.Phase st' = State.Phase st;
  ext_generation : State.Generation st' = State.Generation st;
  ext_cleanup : State.SourceCleanup st' = State.SourceCleanup st;
  ext_snapshot : State.SnapshotLSN st' = State.SnapshotLSN st
}.

Lemma extends_refl st log : extends st log [] st log.
Proof. split; try done. exists []. by rewrite app_nil_r. Qed.

Lemma extends_trans st log ms st1 log1 ms' st2 log2 :
  extends st log ms st1 log1 → extends st1 log1 ms' st2 log2 → extends st log (ms ++ ms') st2 log2.
Proof.
  intros [(xs & -> & Hx) ? ? ? ? ? ?] [(ys & -> & Hy) ? ? ? ? ? ?]. split; try congruence.
  exists (xs ++ ys). rewrite app_assoc. split; [done|by apply Forall2_app].
Qed.

Lemma extends_length st log ms st' log' : extends st log ms st' log' → length log' = (length log + length ms)%nat.
Proof. intros [(xs & -> & Hx) _ _ _ _ _ _]. apply Forall2_length in Hx. rewrite length_app. lia. Qed.

Lemma deliver_Inv acks s st log : Inv s st log → ∃ st', Inv (deliver acks s) st' log ∧ extends st log [] st' log.
Proof.
  revert s st. induction acks as [|[[now seq] id] acks IH]; intros s st HI; cbn [deliver foldl].
  { exists st. split; [done|apply extends_refl]. }
  assert (∃ st', Inv (Ack s now seq id).1 st' log ∧ extends st log [] st' log) as (st1 & HI1 & He).
  { destruct (Ack s now seq id) as [s' [[]|e]] eqn:E.
    - apply (Ack_effect _ _ _ _ _ _ _ HI) in E as (_ & _ & _ & st' & HI' & _ & Hr & _ & Hd & Hp & _ & _ & _ & Hg & Hc & Hs).
      exists st'. split; [done|]. split; try done. exists []. by rewrite app_nil_r.
    - apply (run_fail (OAck now seq id)) in E as ->. exists st. split; [done|apply extends_refl]. }
  destruct (IH _ _ HI1) as (st2 & HI2 & He2). exists st2. split; [done|].
  apply (extends_trans _ _ _ _ _ _ _ _ He He2).
Qed.

Lemma append_Inv full m env s env' s' st log : Message_ok m = true → Z.of_nat (length log) + 1 < 2 ^ 64 - 1 →
  Inv s st log → append full m env s = (env', s', Ok tt) →
  ∃ st' log', Inv s' st' log' ∧ extends st log [m] st' log'.
Proof.
  intros Hm Hb. revert s st. induction env as [|o env IH]; intros s st HI; cbn [append]; [done|].
  destruct (Append s (ob_free o) (ob_clock o) m) as [s1 [[]|e]] eqn:E.
  - intros [= <- <-]. destruct (ob_free o) as [free|]; [|done].
    destruct (capture_counters (OAppend free (ob_clock o) m) s st log s1 HI) as (st' & HI' & Hg & _);
      [by split|done|done|].
    eapply Append_Inv in E as [HI1 _]; [|done|done|rewrite (inv_next _ _ _ HI); lia].
    eexists _, _. split; [done|]. split; try done. eexists. split; [done|]. constructor; [|constructor]. by eexists _, _.
  - assert (s1 = s) as ->.
    { destruct (ob_free o) as [free|]; [by apply (run_fail (OAppend free (ob_clock o) m)) in E|]. cbn in E. congruence. }
    destruct (decide (e = ErrFull)) as [->|Hne]; [|by destruct e; intros [=]].
    unfold GetState. rewrite (inv_read _ _ _ HI). destruct (_ =? _); [done|].
    destruct (deliver_Inv (ob_acks o) _ _ _ HI) as (st1 & HI1 & He1). intros Ha.
    destruct (IH _ _ HI1 Ha) as (st2 & log2 & HI2 & He2). exists st2, log2. split; [done|].
    apply (extends_trans _ _ _ _ _ _ _ _ He1 He2).
Qed.

(** A computation that stages at most [n] messages, which satisfy [post]. *)
Definition stages {A} (n : nat) (c : staging A) (post : A → list Message.t → Prop) : Prop :=
  ∀ env s st log env' s' a, Inv s st log → Z.of_nat (length log + n) < 2 ^ 64 - 1 → c env s = (env', s', Ok a) →
  ∃ ms st' log', Inv s' st' log' ∧ extends st log ms st' log' ∧ (length ms ≤ n)%nat ∧ post a ms.

Lemma stages_ret {A} n (a : A) (post : A → list Message.t → Prop) : post a [] → stages n (mret a) post.
Proof.
  intros Hp env s st log env' s' a' HI _ [= <- <- <-]. exists [], st, log. split_and!; [done|apply extends_refl|cbn; lia|done].
Qed.

Lemma stages_bind {A B} n k (c : staging A) (f : A → staging B) post (post' : B → list Message.t → Prop) :
  stages n c post → (∀ a ms, post a ms → stages k (f a) (λ b ms', post' b (ms ++ ms'))) →
  stages (n + k) (c ≫= f) post'.
Proof.
  intros Hc Hf env s st log env' s' b HI Hb. unfold mbind, staging_bind.
  destruct (c env s) as [[env1 s1] [a|e]] eqn:E; [|done]. intros E2.
  destruct (Hc env s st log env1 s1 a HI) as (ms & st1 & log1 & HI1 & He1 & Hl & Hp); [lia|done|].
  pose proof (extends_length _ _ _ _ _ He1) as Hlen.
  destruct (Hf a ms Hp env1 s1 st1 log1 env' s' b HI1) as (ms' & st2 & log2 & HI2 & He2 & Hl2 & Hp2); [lia|done|].
  exists (ms ++ ms'), st2, log2. split_and!; [done|by eapply extends_trans|rewrite length_app; lia|done].
Qed.

Lemma stages_pure {A} n (r : result A) (post : A → list Message.t → Prop) :
  (∀ a, r = Ok a → post a []) → stages n (pure r) post.
Proof.
  intros Hp env s st log env' s' a HI Hb [= <- <- E]. exists [], st, log.
  split_and!; [done|apply extends_refl|cbn; lia|by apply Hp].
Qed.

Lemma stages_weaken {A} n k (c : staging A) (post post' : A → list Message.t → Prop) :
  stages n c post → (n ≤ k)%nat → (∀ a ms, post a ms → post' a ms) → stages k c post'.
Proof.
  intros Hc Hk Hp env s st log env' s' a HI Hb E.
  destruct (Hc env s st log env' s' a HI) as (ms & st' & log' & ? & ? & ? & ?); [lia|done|].
  exists ms, st', log'. split_and!; [done|done|lia|auto].
Qed.

Lemma stages_length {A} n (c : staging A) post : stages n c post → stages n c (λ a ms, (length ms ≤ n)%nat ∧ post a ms).
Proof.
  intros Hc env s st log env' s' a HI Hb E.
  destruct (Hc env s st log env' s' a HI Hb E) as (ms & st' & log' & ? & ? & ? & ?). by exists ms, st', log'.
Qed.

Lemma stages_append full m : Message_ok m = true → stages 1 (append full m) (λ _ ms, ms = [m]).
Proof.
  intros Hm env s st log env' s' [] HI Hb E.
  destruct (append_Inv full m env s env' s' st log) as (st' & log' & HI' & He); [done|lia|done|done|].
  by exists [m], st', log'.
Qed.

(** ** Computations that may fail half-way *)

(** Whatever the outcome, the log has grown by at most [n] messages that are not
    published; a success satisfies [post]. *)
Definition runs {A} (n : nat) (c : staging A) (post : A → list Message.t → Prop) : Prop :=
  ∀ env s st log env' s' r, Inv s st log → Z.of_nat (length log + n) < 2 ^ 64 - 1 → c env s = (env', s', r) →
  ∃ ms st' log', Inv s' st' log' ∧ extends st log ms st' log' ∧ (length ms ≤ n)%nat ∧
    match r with Ok a => post a ms | Err _ => True end.

Lemma runs_ret {A} n (a : A) (post : A → list Message.t → Prop) : post a [] → runs n (mret a) post.
Proof.
  intros Hp env s st log env' s' r HI _ [= <- <- <-]. exists [], st, log. split_and!; [done|apply extends_refl|cbn; lia|done].
Qed.

Lemma runs_pure {A} n (r : result A) (post : A → list Message.t → Prop) : (∀ a, r = Ok a → post a []) → runs n (pure r) post.
Proof.
  intros Hp env s st log env' s' r' HI _ [= <- <- <-]. exists [], st, log.
  split_and!; [done|apply extends_refl|cbn; lia|destruct r; auto].
Qed.

Lemma runs_bind {A B} n k (c : staging A) (f : A → staging B) post (post' : B → list Message.t → Prop) :
  runs n c post → (∀ a ms, post a ms → runs k (f a) (λ b ms', post' b (ms ++ ms'))) → runs (n + k) (c ≫= f) post'.
Proof.
  intros Hc Hf env s st log env' s' r HI Hb. unfold mbind, staging_bind.
  destruct (c env s) as [[env1 s1] [a|e]] eqn:E.
  - intros E2. destruct (Hc env s st log env1 s1 (Ok a) HI) as (ms & st1 & log1 & HI1 & He1 & Hl & Hp); [lia|done|].
    pose proof (extends_length _ _ _ _ _ He1) as Hlen.
    destruct (Hf a ms Hp env1 s1 st1 log1 env' s' r HI1) as (ms' & st2 & log2 & HI2 & He2 & Hl2 & Hp2); [lia|done|].
    exists (ms ++ ms'), st2, log2. split_and!; [done|by eapply extends_trans|rewrite length_app; lia|by destruct r].
  - intros [= <- <- <-]. destruct (Hc env s st log env1 s1 (Err e) HI) as (ms & st1 & log1 & ? & ? & ? & _); [lia|done|].
    exists ms, st1, log1. split_and!; (done || lia).
Qed.

Lemma put_fail m env s env' s' e : put m env s = (env', s', Err e) → s' = s.
Proof.
  unfold put. destruct env as [|o env]; [by intros [= _ <-]|].
  destruct (Append s (ob_free o) (ob_clock o) m) as [s1 r] eqn:E. intros [= _ <- ->].
  destruct (ob_free o) as [free|]; [by apply (run_fail (OAppend free (ob_clock o) m)) in E|]. cbn in E. congruence.
Qed.

Lemma runs_put m : Message_ok m = true → runs 1 (put m) (λ _ ms, ms = [m]).
Proof.
  intros Hm env s st log env' s' r HI Hb H. destruct r as [[]|e].
  - unfold put in H. destruct env as [|o env]; [done|]. destruct (Append _ _ _ _) as [s1 r] eqn:E.
    injection H as <- <- ->.
    destruct (append_Inv "" m [o] s [] s1 st log) as (st' & log' & HI' & He); [done|lia|done|cbn; by rewrite E|].
    by exists [m], st', log'.
  - apply put_fail in H as ->. exists [], st, log. split_and!; [done|apply extends_refl|cbn; lia|done].
Qed.

Lemma Recover_total s st log : Inv s st log → ∃ s', Recover s = (s', Ok tt).
Proof.
  intros HI. unfold Recover, Update. rewrite (inv_read _ _ _ HI). go. destruct (discard _ _ _) as [m b]. by eexists.
Qed.

Lemma Publish_total s st log lsn : Inv s st log → ∃ s', Publish s lsn false = (s', Ok tt).
Proof. intros HI. unfold Publish, PublishSource, Update. rewrite (inv_read _ _ _ HI). go. by eexists. Qed.

Lemma PublishSource_total s st log lsn cleanup : Inv s st log → ∃ s', PublishSource s lsn false cleanup = (s', Ok tt).
Proof. intros HI. unfold PublishSource, Update. rewrite (inv_read _ _ _ HI). go. by eexists. Qed.

(** A queue without unpublished messages. *)
Definition drained (s : Store) (st : State.t) (log : list Message.t) : Prop :=
  Inv s st log ∧ State.ReadySeq st = State.NextSeq st.

(** Nothing changed for the delivery side, and nothing is left unpublished. *)
Definition same_queue (st : State.t) (log : list Message.t) (s' : Store) : Prop :=
  ∃ st', drained s' st' log ∧ State.DurableLSN st' = State.DurableLSN st ∧
    State.Generation st' = State.Generation st ∧ State.Phase st' = State.Phase st.

Lemma runs_weaken {A} n k (c : staging A) (post post' : A → list Message.t → Prop) :
  runs n c post → (n ≤ k)%nat → (∀ a ms, post a ms → post' a ms) → runs k c post'.
Proof.
  intros Hc Hk Hp env s st log env' s' r HI Hb E.
  destruct (Hc env s st log env' s' r HI) as (ms & st' & log' & ? & ? & ? & ?); [lia|done|].
  exists ms, st', log'. split_and!; [done|done|lia|destruct r; auto].
Qed.

Lemma runs_map_err {A} n f (c : staging A) post : runs n c post → runs n (map_err f c) post.
Proof.
  intros Hc env s st log env' s' r HI Hb. unfold map_err. destruct (c env s) as [[env1 s1] [a|e]] eqn:E;
    intros [= <- <- <-]; destruct (Hc _ _ _ _ _ _ _ HI Hb E) as (ms & st' & log' & ? & ? & ? & ?); by exists ms, st', log'.
Qed.

Lemma append_fail full m env s env' s' e st log : Inv s st log → append full m env s = (env', s', Err e) →
  ∃ st', Inv s' st' log ∧ extends st log [] st' log.
Proof.
  revert s st. induction env as [|o env IH]; intros s st HI; cbn [append].
  { intros [= _ <- _]. exists st. split; [done|apply extends_refl]. }
  destruct (Append s (ob_free o) (ob_clock o) m) as [s1 [[]|e1]] eqn:E; [done|].
  assert (s1 = s) as ->.
  { destruct (ob_free o) as [free|]; [by apply (run_fail (OAppend free (ob_clock o) m)) in E|]. cbn in E. congruence. }
  assert (∃ st', Inv s st' log ∧ extends st log [] st' log) as Hs by (exists st; split; [done|apply extends_refl]).
  destruct (decide (e1 = ErrFull)) as [->|Hne]; [|destruct e1; try done; intros H; by simplify_eq].
  unfold GetState. rewrite (inv_read _ _ _ HI). destruct (_ =? _); [by intros [= _ <- _]|].
  destruct (deliver_Inv (ob_acks o) _ _ _ HI) as (st1 & HI1 & He1). intros Ha.
  destruct (IH _ _ HI1 Ha) as (st2 & HI2 & He2). exists st2. split; [done|]. apply (extends_trans _ _ _ _ _ _ _ _ He1 He2).
Qed.

Lemma runs_append full m : Message_ok m = true → runs 1 (append full m) (λ _ ms, ms = [m]).
Proof.
  intros Hm env s st log env' s' r HI Hb H. destruct r as [[]|e].
  - destruct (append_Inv full m env s env' s' st log) as (st' & log' & HI' & He); [done|lia|done|done|]. by exists [m], st', log'.
  - destruct (append_fail _ _ _ _ _ _ _ _ _ HI H) as (st' & HI' & He). exists [], st', log. split_and!; (done || cbn; lia).
Qed.

(** A computation whose failure publishes nothing. *)
Definition fails {A} (n : nat) (c : staging A) : Prop :=
  ∀ env s st log env' s' e, Inv s st log → Z.of_nat (length log + n) < 2 ^ 64 - 1 → c env s = (env', s', Err e) →
  ∃ ms st' log', Inv s' st' log' ∧ extends st log ms st' log'.

Lemma runs_fails {A} n (c : staging A) post : runs n c post → fails n c.
Proof. intros Hc env s st log env' s' e HI Hb H. destruct (Hc _ _ _ _ _ _ _ HI Hb H) as (ms & st' & log' & ? & ? & _). by exists ms, st', log'. Qed.

(** The next recovery discards what such a failure leaves. *)
Lemma fails_recover {A} n (c : staging A) env s st log env' s' e : fails n c → drained s st log →
  Z.of_nat (length log + n) < 2 ^ 64 - 1 → c env s = (env', s', Err e) →
  ∃ s'', Recover s' = (s'', Ok tt) ∧ same_queue st log s''.
Proof.
  intros Hc [HI Hr] Hb H. destruct (Hc _ _ _ _ _ _ _ HI Hb H) as (ms & st1 & log1 & HI1 & [(xs & -> & _) E3 E4 E5 E6 _ _]).
  destruct (Recover_total _ _ _ HI1) as [s2 E2]. exists s2. split; [done|].
  destruct (Recover_Inv _ _ _ _ HI1 E2) as (st2 & HI2 & H1 & H2 & _ & H3 & H4 & H5).
  rewrite E3, Hr, (inv_next _ _ _ HI), Nat2Z.id, take_app_length in HI2.
  exists st2. split_and!; try congruence. split; [done|congruence].
Qed.

Lemma fails_bind {A B} n k (c : staging A) (f : A → staging B) post : runs n c post →
  (∀ a ms, post a ms → fails k (f a)) → fails (n + k) (c ≫= f).
Proof.
  intros Hc Hf env s st log env' s' e HI Hb. unfold mbind, staging_bind. destruct (c env s) as [[env1 s1] r] eqn:E.
  destruct (Hc env s st log env1 s1 r HI) as (ms & st1 & log1 & HI1 & He1 & Hl & Hp); [lia|done|].
  destruct r as [a|e1]; [|intros [= _ <- _]; by exists ms, st1, log1]. intros E2.
  pose proof (extends_length _ _ _ _ _ He1) as Hlen.
  destruct (Hf a ms Hp env1 s1 st1 log1 env' s' e HI1) as (ms' & st2 & log2 & HI2 & He2); [lia|done|].
  exists (ms ++ ms'), st2, log2. split; [done|by eapply extends_trans].
Qed.

Lemma fails_map_err {A} n f (c : staging A) : fails n c → fails n (map_err f c).
Proof.
  intros Hc env s st log env' s' e HI Hb. unfold map_err. destruct (c env s) as [[env1 s1] [a|e1]] eqn:E; [done|].
  intros [= _ <- _]. by eapply Hc.
Qed.

Lemma fails_publish {A} n lsn (a : A) : fails n (_ ← on_queue (λ s, Publish s lsn false); mret a).
Proof.
  intros env s st log env' s' e HI _. unfold mbind, staging_bind, on_queue.
  destruct (Publish_total _ _ _ lsn HI) as [s1 ->]. done.
Qed.

Lemma fails_pure {A B} n (r : result A) (f : A → staging B) : (∀ a, r = Ok a → fails n (f a)) → fails n (a ← pure r; f a).
Proof. intros H. apply (fails_bind 0 n _ _ (λ a ms, r = Ok a)); [by apply runs_pure|]. intros a ms E. by apply H. Qed.

(** ** Chunks *)

(** The chunks of a batch with template [t], numbered from [c]. *)
Definition chunk_message (t : Message.t) (c : Z) (rs : list Row.t) : Message.t := set_Rows rs (set_Chunk c t).

Definition chunk_messages (t : Message.t) (c : Z) (rss : list (list Row.t)) : list Message.t :=
  imap (λ i rs, chunk_message t (c + Z.of_nat i) rs) rss.

Definition rows_size (rs : list Row.t) : Z := sumZ (row_size <$> rs).

Lemma row_size_nonneg r : 0 ≤ row_size r.
Proof. apply slen_nonneg. Qed.

Lemma rows_size_nonneg rs : 0 ≤ rows_size rs.
Proof. apply sumZ_nonneg, Forall_fmap, Forall_true. intros. apply row_size_nonneg. Qed.

Lemma rows_size_app a b : rows_size (a ++ b) = rows_size a + rows_size b.
Proof. unfold rows_size. by rewrite fmap_app, sumZ_app. Qed.

Lemma chunk_messages_app t c a b :
  chunk_messages t c (a ++ b) = chunk_messages t c a ++ chunk_messages t (c + Z.of_nat (length a)) b.
Proof.
  unfold chunk_messages. rewrite imap_app. f_equal. apply imap_ext. intros i rs _. f_equal. lia.
Qed.

Lemma Message_ok_chunk t c rs : Message_ok t = true → uint_ok 64 c = true → forallb Row_ok rs = true →
  Message_ok (chunk_message t c rs) = true.
Proof. unfold Message_ok. intros Ht Hc Hr. bool_prop. cbn. by rewrite !andb_true_iff. Qed.

(** The batcher, whatever the outcome: its message can always be carried. *)
Section outcomes.
Context (full : string) (fs : filesystem) (cfg : config.Config.t).

(** The message of the batch can be carried, and what was staged is of its kind. *)
Definition carries (k : string) (b : batcher) (ms : list Message.t) : Prop :=
  Message_ok (b_msg b) = true ∧ Message.Kind (b_msg b) = k ∧ Forall (λ m, Message.Kind m = k) ms.

Lemma carries_app k b b' ms ms' : carries k b ms → carries k b' ms' → carries k b' (ms ++ ms').
Proof. intros (_ & _ & H) (? & ? & H'). split_and!; [done|done|by apply Forall_app]. Qed.

Lemma runs_flush k b : carries k b [] → runs 1 (flush full b) (carries k).
Proof.
  intros (Hm & Hk & _). unfold flush. destruct (_ =? _); [by apply runs_ret|].
  eapply (runs_bind 1 0); [by apply runs_append|]. intros [] ms ->. apply runs_ret. split_and!; [|done|by repeat constructor].
  unfold Message_ok in *. bool_prop. cbn. rewrite uint_ok_u64, !andb_true_iff. by split_and!.
Qed.

Lemma runs_prepare row : (∀ row', Apply fs cfg row = Ok row' → Row_ok row' = true) →
  runs 0 (prepare fs cfg row) (λ row' ms, Row_ok row' = true ∧ ms = []).
Proof.
  intros Hok. unfold prepare. apply (runs_bind 0 0 _ _ (λ row' ms, Row_ok row' = true ∧ ms = [])); [apply runs_pure; auto|].
  intros row' ms [Hr ->]. apply (runs_bind 0 0 _ _ (λ _ ms, ms = [])); [by apply runs_pure|]. intros [] ms ->. by apply runs_ret.
Qed.

Lemma runs_push k row b : carries k b [] → Row_ok row = true → runs 1 (push full cfg row b) (carries k).
Proof.
  intros (Hm & Hk & _) Hr. unfold push. set (b1 := mkBatcher _ _). assert (carries k b1 []) as Hb1.
  { unfold b1, rows_of. split_and!; [|done|constructor]. unfold Message_ok in *. bool_prop. cbn. rewrite !andb_true_iff, forallb_app. cbn.
    rewrite Hr. split_and!; try done. rewrite andb_true_iff. by split. }
  destruct (_ || _); [by apply runs_flush|by apply runs_ret].
Qed.

Lemma runs_add k row b : carries k b [] → (∀ row', Apply fs cfg row = Ok row' → Row_ok row' = true) →
  runs 2 (add full fs cfg row b) (carries k).
Proof.
  intros Hm Hok. unfold add. eapply (runs_bind 0 2); [by apply runs_prepare|]. intros row' ms [Hr ->]. cbn beta.
  apply (runs_bind 1 1 _ _ (carries k)).
  - destruct (_ && _); [by apply runs_flush|by apply runs_ret].
  - intros b' ms' Hb'. eapply runs_weaken; [apply (runs_push k); [|done]|done|].
    + destruct Hb' as (? & ? & _). by split_and!.
    + intros b2 ms2 Hb2. exact (carries_app k b' b2 ms' ms2 Hb' Hb2).
Qed.
End outcomes.

Section chunks.
Context (full : string) (fs : filesystem) (cfg : config.Config.t) (t : Message.t).
Hypothesis Hlim : limits_ok cfg.
Hypothesis Ht : Message_ok t = true.

Notation BatchRows := (config.Config.BatchRows cfg).
Notation BatchBytes := (config.Config.BatchBytes cfg).

(** A chunk within the limits: a row that alone exceeds the bytes is a chunk of
    its own. *)
Definition good_chunk (rs : list Row.t) : Prop :=
  rs ≠ [] ∧ Z.of_nat (length rs) ≤ BatchRows ∧ (rows_size rs ≤ BatchBytes ∨ length rs = 1%nat).

(** The batcher collects [rs] for chunk [c]. *)
Definition collecting (c : Z) (rs : list Row.t) (b : batcher) : Prop :=
  b_msg b = chunk_message t c rs ∧ b_size b = rows_size rs.

(** [f] writes the rows [news] after those collected. *)
Definition writes_rows (c : Z) (old news : list Row.t) (b' : batcher) (ms : list Message.t) : Prop :=
  ∃ rss rs', ms = chunk_messages t c rss ∧ Forall good_chunk rss ∧ collecting (c + Z.of_nat (length rss)) rs' b' ∧
    room cfg b' ∧ concat rss ++ rs' = old ++ news.

Lemma flush_stages c rs b : collecting c rs b → forallb Row_ok rs = true → 0 ≤ c < 2 ^ 64 - 1 →
  stages 1 (flush full b) (λ b' ms,
    (rs = [] ∧ ms = [] ∧ b' = b) ∨ (rs ≠ [] ∧ ms = [chunk_message t c rs] ∧ collecting (c + 1) [] b')).
Proof.
  intros [Hm Hs] Hr Hc. unfold flush, row_count, rows_of. rewrite Hm. cbn [chunk_message set_Rows Message.Rows].
  destruct rs as [|r rs]; [by apply stages_ret; left|].
  rewrite (proj2 (Z.eqb_neq _ _)) by (cbn [length]; lia).
  eapply (stages_bind 1 0); [apply stages_append, Message_ok_chunk; [done| |done]|].
  { unfold uint_ok. apply andb_true_iff. split; [apply Z.leb_le|apply Z.ltb_lt]; lia. }
  intros [] ms ->. apply stages_ret. right. split_and!; [done|done|]. cbn. split; [|done].
  cbn. rewrite u64_small by lia. done.
Qed.

Lemma push_stages c rs b row : collecting c rs b → forallb Row_ok (rs ++ [row]) = true → 0 ≤ c < 2 ^ 64 - 1 →
  good_chunk (rs ++ [row]) → rows_size (rs ++ [row]) < 2 ^ 62 →
  stages 1 (push full cfg row b) (writes_rows c rs [row]).
Proof.
  intros [Hm Hs] Hr Hc Hg Hsz. unfold push. set (b1 := mkBatcher _ _).
  assert (collecting c (rs ++ [row]) b1) as Hb1.
  { unfold collecting, b1, rows_of. cbn. rewrite Hm. split; [done|]. rewrite Hs.
    assert (rows_size [row] = row_size row) as E by (unfold rows_size; cbn; lia).
    pose proof (rows_size_nonneg rs). pose proof (row_size_nonneg row).
    rewrite rows_size_app, E in *. rewrite i64_small by lia. done. }
  destruct (_ || _) eqn:Ef.
  - eapply stages_weaken; [by apply (flush_stages c (rs ++ [row]))|done|].
    intros b' ms [(E & _)|(_ & -> & Hb')]; [by destruct rs|].
    exists [rs ++ [row]], []. cbn. rewrite !app_nil_r. split_and!; try done.
    + unfold chunk_messages. cbn. by rewrite Z.add_0_r.
    + by constructor.
    + destruct Hb' as [E1 E2]. unfold room, row_count, rows_of. rewrite E1, E2. cbn. destruct Hlim. lia.
  - apply stages_ret. apply orb_false_iff in Ef as [E1 E2]. bool_prop. exists [], (rs ++ [row]). cbn.
    rewrite Z.add_0_r. split_and!; try done.
    destruct Hb1 as [_ E3]. pose proof (rows_size_nonneg (rs ++ [row])). unfold room. rewrite E3 in *. lia.
Qed.

(** Rows the wire format carries, after embedding. *)
Definition embeds (row row' : Row.t) : Prop := Apply fs cfg row = Ok row' ∧ Row_ok row' = true.

Lemma prepare_stages row : (∀ row', Apply fs cfg row = Ok row' → Row_ok row' = true) →
  stages 0 (prepare fs cfg row) (λ row' ms, ms = [] ∧ embeds row row' ∧ row_size row' ≤ config.Config.MaxRowBytes cfg).
Proof.
  intros Hok. unfold prepare. eapply (stages_bind 0 0).
  { apply stages_pure with (post := λ r ms, ms = [] ∧ embeds row r). intros r Hr. split; [done|]. split; auto. }
  intros row' ms [-> He]. eapply (stages_bind 0 0).
  - by apply stages_pure with (post := λ _ ms, ms = [] ∧ row_size row' ≤ config.Config.MaxRowBytes cfg);
      intros [] H%fail_if_Ok; bool_prop.
  - intros [] ms [-> Hs]. by apply stages_ret.
Qed.

Lemma add_stages c rs b row : collecting c rs b → room cfg b → forallb Row_ok rs = true → 0 ≤ c < 2 ^ 64 - 2 →
  (∀ row', Apply fs cfg row = Ok row' → Row_ok row' = true) →
  stages 2 (add full fs cfg row b) (λ b' ms, ∃ row', embeds row row' ∧ writes_rows c rs [row'] b' ms).
Proof.
  intros Hb [Hn Hsz] Hr Hc Hok. unfold add. destruct Hlim as (L1 & L2 & L3).
  assert (row_count b = Z.of_nat (length rs)) as Ecount by (unfold row_count, rows_of; by rewrite (proj1 Hb)).
  assert (b_size b = rows_size rs) as Esize by apply Hb.
  eapply (stages_bind 0 2); [by apply prepare_stages|]. intros row' ms (-> & He & Hmax). cbn [app].
  pose proof (row_size_nonneg row') as Hn0. pose proof (rows_size_nonneg rs) as Hn1.
  assert (rows_size [row'] = row_size row') as E1 by (unfold rows_size; cbn; lia).
  rewrite Ecount, Esize in *. rewrite i64_small by lia. destruct (_ && _) eqn:Ef.
  - eapply (stages_bind 1 1); [by apply (flush_stages c rs); [..|lia]|].
    apply andb_true_iff in Ef as [Ef _]. bool_prop.
    intros b1 ms [(-> & _)|(Hne & -> & Hb1)]; [cbn in Ef; lia|].
    eapply stages_weaken; [eapply (push_stages (c + 1) [] b1 row'); try done| |].
    + cbn. by rewrite (proj2 He).
    + lia.
    + split_and!; [done|cbn; lia|by right].
    + cbn [app]. lia.
    + done.
    + intros b' ms (rss & rs' & -> & Hg & Hcol & Hroom & Hcat). exists row'. split; [done|].
      exists (rs :: rss), rs'. cbn [length]. split_and!; try done.
      * rewrite (chunk_messages_app t c [rs] rss : chunk_messages t c (rs :: rss) = _). cbn.
        unfold chunk_messages at 1. cbn. by rewrite Z.add_0_r.
      * constructor; [|done]. split_and!; [done|lia|]. left. lia.
      * by replace (c + Z.of_nat (S (length rss))) with (c + 1 + Z.of_nat (length rss)) by lia.
      * cbn. by rewrite <-app_assoc, Hcat.
  - apply (stages_weaken (0 + 1) 2 _ (λ b' ms, ∃ row', embeds row row' ∧ writes_rows c rs [row'] b' ms)); [|lia|done].
    eapply (stages_bind 0 1); [by apply stages_ret with (post := λ b1 ms, b1 = b ∧ ms = [])|].
    intros b1 ms [-> ->]. cbn [app]. eapply stages_weaken; [eapply (push_stages c rs b row'); try done| |].
    + rewrite forallb_app, Hr. cbn. by rewrite (proj2 He).
    + lia.
    + unfold good_chunk. rewrite length_app. cbn [length]. split_and!; [by destruct rs|lia|]. apply andb_false_iff in Ef as [Ef|Ef]; bool_prop.
      * right. destruct rs; [done|cbn in Ef; lia].
      * left. rewrite rows_size_app. lia.
    + rewrite rows_size_app. lia.
    + done.
    + intros b' ms Hw. by exists row'.
Qed.

(** Between rows the two batchers do the same. *)
Lemma add_pg_eq row b : room cfg b → add_pg full fs cfg row b = add full fs cfg row b.
Proof. intros [Hn _]. unfold add_pg, add. by rewrite (proj2 (Z.leb_gt _ _) Hn). Qed.

Lemma Row_ok_concat rss rs old news : concat rss ++ rs = old ++ news → forallb Row_ok (old ++ news) = true →
  forallb Row_ok rs = true.
Proof. intros <-. rewrite forallb_app. by intros [_ ?]%andb_true_iff. Qed.

(** Adding rows one after the other. *)
Lemma add_all_stages (step : Row.t → batcher → staging batcher) l :
  (∀ row b, room cfg b → step row b = add full fs cfg row b) → ∀ c rs b,
  collecting c rs b → room cfg b → forallb Row_ok rs = true → 0 ≤ c → c + Z.of_nat (2 * length l) < 2 ^ 64 - 2 →
  (∀ row row', row ∈ l → Apply fs cfg row = Ok row' → Row_ok row' = true) →
  stages (2 * length l) (add_all step l b) (λ b' ms, ∃ l', Forall2 embeds l l' ∧ (length ms ≤ 2 * length l)%nat ∧
    writes_rows c rs l' b' ms).
Proof.
  intros Hstep. induction l as [|row l IH]; intros c rs b Hb Hroom Hr Hc0 Hc Hok; cbn [add_all].
  { apply stages_ret. exists []. split_and!; [constructor|cbn; lia|]. exists [], rs. cbn. rewrite Z.add_0_r, app_nil_r.
    by split_and!. }
  rewrite Hstep by done. cbn [length] in *.
  apply (stages_weaken (2 + 2 * length l) _ _ (λ b' ms, ∃ l', Forall2 embeds (row :: l) l' ∧
    (length ms ≤ 2 * S (length l))%nat ∧ writes_rows c rs l' b' ms)); [|lia|done].
  assert (∀ row', Apply fs cfg row = Ok row' → Row_ok row' = true) as Hrow by (intros; eapply Hok; [left|done]).
  eapply stages_bind; [apply stages_length, (add_stages c rs b row); (done || lia)|].
  intros b1 ms [Hl1 (row' & He & rss & rs1 & -> & Hg & Hcol & Hroom1 & Hcat)].
  assert (length rss ≤ 2)%nat as Hrss by (by unfold chunk_messages in Hl1; rewrite length_imap in Hl1).
  eapply stages_weaken; [apply (IH (c + Z.of_nat (length rss)) rs1 b1); try done|done|].
  - eapply Row_ok_concat; [done|]. rewrite forallb_app, Hr. cbn. by rewrite (proj2 He).
  - lia.
  - lia.
  - intros r r' Hin. apply Hok. by right.
  - intros b' ms (l' & Hl' & Hlen & rss' & rs' & -> & Hg' & Hcol' & Hroom' & Hcat'). exists (row' :: l'). split_and!.
    + by constructor.
    + rewrite length_app. lia.
    + exists (rss ++ rss'), rs'. rewrite chunk_messages_app, length_app, concat_app. split_and!; try done.
      * by apply Forall_app.
      * by rewrite Nat2Z.inj_add, Z.add_assoc.
      * rewrite <-app_assoc, Hcat', app_assoc, Hcat. by rewrite <-app_assoc.
Qed.

(** A whole batch, from an empty batcher to the flush. *)
Lemma batch_stages (step : Row.t → batcher → staging batcher) l :
  (∀ row b, room cfg b → step row b = add full fs cfg row b) →
  Message.Rows t = [] → Message.Chunk t = 0 → Z.of_nat (2 * length l) < 2 ^ 64 - 3 →
  (∀ row row', row ∈ l → Apply fs cfg row = Ok row' → Row_ok row' = true) →
  stages (2 * length l + 1) (b ← add_all step l (mkBatcher t 0); flush full b) (λ b' ms, ∃ l' rss,
    Forall2 embeds l l' ∧ ms = chunk_messages t 0 rss ∧ Forall good_chunk rss ∧ concat rss = l' ∧
    Message.Chunk (b_msg b') = Z.of_nat (length rss) ∧ b_size b' = 0).
Proof.
  intros Hstep Hrows Hchunk Hlen Hok. destruct Hlim as (L1 & L2 & L3).
  assert (collecting 0 [] (mkBatcher t 0)) as Hb0.
  { split; [|done]. unfold chunk_message, set_Rows, set_Chunk. destruct t. cbn in *. by subst. }
  eapply stages_bind.
  { apply (add_all_stages step l Hstep 0 [] (mkBatcher t 0)); try done; [|lia].
    unfold room, row_count, rows_of. cbn. rewrite Hrows. cbn. lia. }
  intros b ms (l' & Hl' & Hms & rss & rs & -> & Hg & Hcol & [Hn Hsz] & Hcat). cbn [app] in Hcat.
  assert (length rss ≤ 2 * length l)%nat as Hrss by (by unfold chunk_messages in Hms; rewrite length_imap in Hms).
  assert (forallb Row_ok rs = true) as Hrs.
  { eapply (Row_ok_concat rss rs [] l'); [done|]. cbn. clear -Hl'. induction Hl' as [|? ? ? ? [_ E]]; [done|].
    cbn. by rewrite E. }
  eapply stages_weaken; [apply (flush_stages (0 + Z.of_nat (length rss)) rs b); (done || lia)|done|].
  intros b' ms [(-> & -> & ->)|(Hne & -> & Hb')].
  - exists l', rss. rewrite !app_nil_r in *. split_and!; try done; [by rewrite (proj1 Hcol)|by rewrite (proj2 Hcol)].
  - exists l', (rss ++ [rs]). rewrite chunk_messages_app, length_app, concat_app. cbn [concat]. rewrite app_nil_r.
    split_and!; try done.
    + unfold chunk_messages at 3. cbn. by rewrite Z.add_0_r.
    + apply Forall_app. split; [done|]. constructor; [|constructor]. unfold good_chunk. destruct Hcol as [E1 E2].
      unfold room, row_count, rows_of in Hn. rewrite E1 in Hn. cbn in Hn. rewrite E2 in Hsz. split_and!; [done|lia|left; lia].
    + rewrite (proj1 Hb'). cbn. lia.
    + by rewrite (proj2 Hb').
Qed.
End chunks.

(** ** Counting and adding rows *)

(** The counter of rows after [k] more. *)
Definition bump (n : Z) (k : nat) : Z := Nat.iter k (λ n, u64 (n + 1)) n.

Lemma bump_add n a b : bump n (a + b) = bump (bump n a) b.
Proof. unfold bump. by rewrite Nat.add_comm, Nat.iter_add. Qed.

Lemma bump_small n k : 0 ≤ n → n + Z.of_nat k < 2 ^ 64 → bump n k = n + Z.of_nat k.
Proof.
  intros Hn. induction k as [|k IH]; intros Hk; [cbn; lia|]. change (u64 (bump n k + 1) = n + Z.of_nat (S k)).
  rewrite IH by lia. rewrite u64_small; lia.
Qed.

Lemma add_all_app step a b x : ∀ env s env' s' y,
  add_all step (a ++ b) x env s = (env', s', Ok y) ↔
  ∃ env1 s1 z, add_all step a x env s = (env1, s1, Ok z) ∧ add_all step b z env1 s1 = (env', s', Ok y).
Proof.
  revert x. induction a as [|r a IH]; intros x env s env' s' y; cbn [app add_all].
  - split; [intros H; by exists env, s, x|]. by intros (env1 & s1 & z & (-> & -> & ->)%staging_ret_Ok & H).
  - rewrite staging_bind_Ok. split.
    + intros (env1 & s1 & z & H1 & (env2 & s2 & w & H2 & H3)%IH). exists env2, s2, w. split; [|done].
      apply staging_bind_Ok. by exists env1, s1, z.
    + intros (env2 & s2 & w & (env1 & s1 & z & H1 & H2)%staging_bind_Ok & H3). exists env1, s1, z.
      split; [done|]. apply IH. by exists env2, s2, w.
Qed.

(** ** The tables of a snapshot and the rows of a transaction *)

Definition snapshot_rows_message : Message.t := Message.mk "" "" "" "" 0 "" "snapshot_rows" "" 0 "" [] None [] None "".

Section tables.
Context (full : string) (fs : filesystem) (cfg : config.Config.t).
Hypothesis Hlim : limits_ok cfg.

(** The schema of a table and its rows in chunks. *)
Definition table_messages (schema : Message.t) (rows : list Row.t) (ms : list Message.t) : Prop :=
  ∃ rows' rss, Forall2 (embeds fs cfg) rows rows' ∧ concat rss = rows' ∧ Forall (good_chunk cfg) rss ∧
    ms = schema :: chunk_messages snapshot_rows_message 0 rss.

Lemma table_staged schema rows env s st log env1 s1 env2 s2 b env3 s3 b' :
  Message_ok schema = true → (∀ row row', row ∈ rows → Apply fs cfg row = Ok row' → Row_ok row' = true) →
  Inv s st log → Z.of_nat (length log + (2 * length rows + 2)) < 2 ^ 64 - 1 →
  append full schema env s = (env1, s1, Ok tt) →
  add_all (add full fs cfg) rows (mkBatcher snapshot_rows_message 0) env1 s1 = (env2, s2, Ok b) →
  flush full b env2 s2 = (env3, s3, Ok b') →
  b_size b' = 0 ∧ ∃ ms st' log', Inv s3 st' log' ∧ extends st log ms st' log' ∧ (length ms ≤ 2 * length rows + 2)%nat ∧
    table_messages schema rows ms.
Proof.
  intros Hm Hok HI Hb Happ Hadd Hfl.
  apply (append_Inv _ _ _ _ _ _ st log) in Happ as (st1 & log1 & HI1 & He1); [|done|lia|done].
  pose proof (extends_length _ _ _ _ _ He1) as Hlog. cbn [length] in Hlog.
  destruct (batch_stages full fs cfg snapshot_rows_message Hlim eq_refl (add full fs cfg) rows (λ r b _, eq_refl)
    eq_refl eq_refl ltac:(lia) Hok env1 s1 st1 log1 env3 s3 b' HI1 ltac:(lia) ltac:(apply staging_bind_Ok; by eexists _, _, _))
    as (ms & st2 & log2 & HI2 & He2 & Hl & rows' & rss & Hemb & -> & Hgood & Hcat & _ & Hsz).
  split; [done|]. exists (schema :: chunk_messages snapshot_rows_message 0 rss), st2, log2.
  split_and!; [done|by apply (extends_trans _ _ [schema] _ _ _ _ _ He1)|cbn [length]; lia|by exists rows', rss].
Qed.

(** The rows of a transaction in chunks, and its end with their number. *)
Definition transaction_messages (t : Message.t) (e : Z → Message.t) (rows : list Row.t) (ms : list Message.t) : Prop :=
  ∃ rows' rss, Forall2 (embeds fs cfg) rows rows' ∧ concat rss = rows' ∧ Forall (good_chunk cfg) rss ∧
    ms = chunk_messages t 0 rss ++ [e (Z.of_nat (length rss))].

Lemma transaction_staged t e rows env s st log env1 s1 b env2 s2 b' env3 s3 :
  Message_ok t = true → Message.Rows t = [] → Message.Chunk t = 0 → (∀ c, uint_ok 64 c = true → Message_ok (e c) = true) →
  (∀ row row', row ∈ rows → Apply fs cfg row = Ok row' → Row_ok row' = true) →
  Inv s st log → Z.of_nat (length log + (2 * length rows + 2)) < 2 ^ 64 - 1 →
  add_all (add full fs cfg) rows (mkBatcher t 0) env s = (env1, s1, Ok b) →
  flush full b env1 s1 = (env2, s2, Ok b') →
  append full (e (Message.Chunk (b_msg b'))) env2 s2 = (env3, s3, Ok tt) →
  ∃ ms st' log', Inv s3 st' log' ∧ extends st log ms st' log' ∧ (length ms ≤ 2 * length rows + 2)%nat ∧
    transaction_messages t e rows ms.
Proof.
  intros Ht Hr Hc He Hok HI Hb Hadd Hfl Happ.
  destruct (batch_stages full fs cfg t Hlim Ht (add full fs cfg) rows (λ r b _, eq_refl) Hr Hc ltac:(lia) Hok env s st log env2 s2 b'
    HI ltac:(lia) ltac:(apply staging_bind_Ok; by eexists _, _, _))
    as (ms & st1 & log1 & HI1 & He1 & Hl & rows' & rss & Hemb & -> & Hgood & Hcat & Hchunk & _).
  pose proof (extends_length _ _ _ _ _ He1) as Hlog. rewrite Hchunk in Happ.
  assert (length rss ≤ 2 * length rows + 1)%nat as Hrss by (unfold chunk_messages in Hl; by rewrite length_imap in Hl).
  destruct (append_Inv full (e (Z.of_nat (length rss))) env2 s2 env3 s3 st1 log1) as (st2 & log2 & HI2 & He2);
    [apply He; unfold uint_ok; apply andb_true_iff; lia|lia|done|done|].
  exists (chunk_messages t 0 rss ++ [e (Z.of_nat (length rss))]), st2, log2.
  split_and!; [done|by eapply extends_trans|rewrite length_app; cbn [length]; lia|by exists rows', rss].
Qed.
End tables.

(** ** A configuration and a queue for examples *)

Lemma Row_ok_Ordinal n row : 0 ≤ n < 2 ^ 64 → Row_ok row = true → Row_ok (Row.set_Ordinal n row) = true.
Proof.
  intros Hn Hr. assert (uint_ok 64 n = true) as Hu by (unfold uint_ok; apply andb_true_iff; lia).
  unfold Row_ok in *. bool_prop. cbn. rewrite !andb_true_iff. by split_and!.
Qed.

(** A row that can be carried, whatever its number. *)
Ltac row_ok n :=
  match goal with |- Row_ok (Row.mk ?a ?b ?c ?d ?e ?f ?g n) = true => apply (Row_ok_Ordinal n (Row.mk a b c d e f g 0)) end;
  [done|vm_compute; reflexivity].

Definition demo_capture_cfg : config.Config.t :=
  config.Config.mk "" (config.Config.GRPC_ config.Defaults) (config.Config.Replay_ config.Defaults) ""
    (config.Config.SQLServer_ config.Defaults) (config.Config.SQLServerLegacy_ config.Defaults)
    (config.Config.MySQL_ config.Defaults) (config.Config.FileWatch_ config.Defaults) "src" "dsn" "slot"
    [config.Table.mk "public" "t"] [] "data" "" ∅ (10 * 2 ^ 30) 0 1 1024 4096 "30s" "1s" "60s" ""
    (config.Config.Log_ config.Defaults) true "".

Definition no_files : filesystem := λ _, None.

Definition demo_queue_open : Store * State.t * list Message.t := (Open (mkDB None ∅) 100000 0, State.zero, []).
Lemma demo_open_Inv : Inv demo_queue_open.1.1 demo_queue_open.1.2 demo_queue_open.2.
Proof. apply reach_Inv, reach_open. Qed.

Definition demo_queue_ops : list Op := [OInitialize demo_state; OPublish "0/10" true ""].
Definition demo_queue : Store * State.t * list Message.t :=
  default demo_queue_open (exec demo_queue_ops demo_queue_open).

Lemma demo_queue_Inv : Inv demo_queue.1.1 demo_queue.1.2 demo_queue.2.
Proof.
  apply reach_Inv, (exec_reach demo_queue_ops demo_queue_open demo_queue); [vm_compute; reflexivity|apply reach_open].
Qed.

Definition demo_obs : list obs := replicate 3 (mkObs (Ok (2 ^ 40)) demo_time []).
