(* ===== verification/SqlClient.v ===== *)
(** * Databases as clients see them (database/sql)

    The answers of a database to the queries of the SQL Server collectors, and the
    errors made of them (connection.go of internal/sqlserver and
    internal/sqlserverlegacy). *)

From S2P Require Import Prelude Bytes Encoding Json Queue Batch.

(** What a call returns: a value, or the cause of its failure. *)
Inductive answer (A : Type) :=
  | Got (a : A)
  | Failed (c : cause).
Arguments Got {A} _.
Arguments Failed {A} _.

(** [dbError] on the error of a call *)
Definition dbError {A} (r : answer A) : result A :=
  match r with Got a => Ok a | Failed c => Err (databaseError c) end.

Lemma dbError_Ok {A} (r : answer A) a : dbError r = Ok a ↔ r = Got a.
Proof. destruct r; naive_solver. Qed.

(** The rows of a query in the order they arrive, and what ends them: the end of
    the answer, or an error of the iteration or of a row that cannot be read. *)
Definition rows (A : Type) := answer (list A * answer unit).

(** [errors.As(err, &de)]: the first database error of a tree of errors. *)
Fixpoint as_database (e : error) : option cause :=
  match e with
  | databaseError c => Some c
  | wrapf _ e => as_database e
  | errors_Join a b => match as_database a with Some c => Some c | None => as_database b end
  | _ => None
  end.

(** The connection was lost, or the time of a query is over. *)
Definition connection_lost (c : cause) : bool :=
  match c with
  | NetOpError | ErrBadConn | io_EOF | io_ErrUnexpectedEOF | DeadlineExceeded => true
  | ServerError _ | OtherCause _ => false
  end.

(** The deferred [rollback] of a transaction: its failure joins the error that ends
    the transaction.  After a commit there is nothing to roll back
    ([sql.ErrTxDone]). *)
Definition rollback (rb : answer unit) (e : error) : error :=
  match rb with Got _ => e | Failed c => errors_Join e (databaseError c) end.

(** [errors.Join(err, close())] of a function that ends with an error *)
Definition closing (r : result unit) (e : error) : error :=
  match r with Ok _ => e | Err e' => errors_Join e e' end.

(** [fmt.Errorf("prefix: %w", err)] *)
Definition wrap {A} (prefix : string) (r : result A) : result A :=
  match r with Err e => Err (wrapf prefix e) | Ok a => Ok a end.

Lemma wrap_Ok {A} prefix (r : result A) a : wrap prefix r = Ok a ↔ r = Ok a.
Proof. destruct r; naive_solver. Qed.

(** The delays before the attempts that follow a list of failures. *)
Fixpoint retry_waits (retryable : error → bool) (maximum delay : Z) (l : list error) : list Z :=
  match l with
  | [] => []
  | e :: l' =>
      if retryable e then delay :: retry_waits retryable maximum (Z.min (i64 (delay * 2)) maximum) l' else []
  end.

(** Hexadecimal text is ASCII. *)
Lemma utf8_valid_hex s : utf8_valid (hex_encode s) = true.
Proof.
  apply utf8_valid_ascii. induction s as [|c s IH]; [done|]. pose proof (byte_val_range c).
  assert (∀ n, 0 ≤ n < 16 → byte_val (hex_digit n) <? 128 = true) as Hd.
  { intros n Hn. unfold hex_digit. apply Z.ltb_lt. case_if; rewrite byte_val_of, Z.mod_small; lia. }
  cbn [hex_encode all_bytes]. rewrite !Hd; [done|zdiv..].
Qed.
