(* ===== verification/SQLServer.v ===== *)
(** * The SQL Server collector (internal/sqlserver)

    Log sequence numbers, the catalog, rows of the change tables, the polling of
    committed transactions, the snapshot under table locks with its fence,
    attempts, table scans and the health sample.  SQL Server and its driver are
    arguments: the answers to the queries, whose texts are those of the code. *)

From S2P Require Import Prelude Bytes Sorting Encoding Sha256 Json JsonStruct GoTime GoPath Config Event Syncv1 FileEmbed Reconcile Queue QueueInv QueueSpec Batch SqlClient.

#[local] Opaque marshal unmarshal.

Module sqlserver.

(** ** Log sequence numbers (lsn.go) *)

(** The ten bytes. *)
Definition lsn := string.

Definition zero_lsn : lsn := of_bytes (replicate 10 0).

Definition parseLSN (s : string) : result lsn :=
  _ ← fail_if (negb (slen s =? 22) || negb (HasPrefix s "0x")) (errors_New "invalid sqlserver lsn");
  or_err (hex_decode (drop_string 2 s)) (errors_New "invalid sqlserver lsn").

Definition binaryLSN (b : string) : result lsn :=
  _ ← fail_if (negb (slen b =? 10)) (errors_New "missing or malformed sqlserver lsn");
  Ok b.

Definition lsn_String (l : lsn) : string := "0x" +:+ hex_encode l.

(** [l.compare(other) < 0] *)
Definition lsn_lt (l other : lsn) : bool := String.ltb l other.

(** ** Connecting (connection.go) *)

(** [msdsn] is the driver's parser: the database of a DSN that is valid. *)
Definition open (msdsn : string → option string) (dsn : string) (ping : answer unit) (close : result unit) : result unit :=
  database ← or_err (msdsn dsn) (errors_New "invalid sqlserver dsn");
  _ ← fail_if (String.eqb database "") (errors_New "sqlserver dsn must specify database");
  match ping with
  | Got _ => Ok tt
  | Failed c => Err (closing close (databaseError c))
  end.

Definition retryable (e : error) : bool :=
  match as_database e with
  | None => false
  | Some (ServerError n) => existsb (Z.eqb n) [1205; 1222; 40197; 40501; 40613]
  | Some c => connection_lost c
  end.

(** ** The catalog (catalog.go) *)

Module Column.
Record t := mk {
  Name : string;
  Type_ : string;
  NotNull : bool;
  Default : option string;
  Primary : bool;
  BaseType : string;
  Ordinal : Z;
  MaxLength : Z;
  Collation : option string
}.
End Column.

Module Table.
Record t := mk {
  SourceType : string;
  Schema : string;
  Name : string;
  RowIdentity : string;
  Columns : list Column.t;
  ObjectID : Z;
  CaptureID : Z;
  CaptureInstance : string;
  CreatedAt : string;
  HasCommandID : bool
}.
End Table.

Module Inspection.
Record t := mk {
  Version : string;
  Edition : string;
  Database : string;
  SystemID : string;
  Tables : list Table.t;
  Fence : Table.t
}.
End Inspection.

Definition jbool (b : bool) : option json := Some (JBool b).

Definition Column_json (c : Column.t) : json :=
  struct_json
    [("name", str (Column.Name c)); ("type", str (Column.Type_ c)); ("not_null", jbool (Column.NotNull c));
     ("default", null_str (Column.Default c)); ("primary_key", jbool (Column.Primary c));
     ("base_type", str (Column.BaseType c)); ("capture_ordinal", num (Column.Ordinal c));
     ("max_length", num (Column.MaxLength c)); ("collation", omit_strptr (Column.Collation c))].

Definition Table_json (t : Table.t) : json :=
  struct_json
    [("source_type", str (Table.SourceType t)); ("schema", str (Table.Schema t)); ("name", str (Table.Name t));
     ("row_identity", omit_str (Table.RowIdentity t)); ("columns", Some (JArr (Column_json <$> Table.Columns t)));
     ("object_id", num (Table.ObjectID t)); ("capture_object_id", num (Table.CaptureID t));
     ("capture_instance", str (Table.CaptureInstance t)); ("capture_created_at", str (Table.CreatedAt t));
     ("has_command_id", jbool (Table.HasCommandID t))].

Definition schemaHash (l : list Table.t) : string :=
  hex_encode (sha256 (print (default JNull (null_list Table_json l)))).

Definition quote (name : string) : string := "[" +:+ double_byte "]" name +:+ "]".
Definition sqlName (t : Table.t) : string := quote (Table.Schema t) +:+ "." +:+ quote (Table.Name t).
Definition changesName (t : Table.t) : string := "[cdc]." +:+ quote (Table.CaptureInstance t +:+ "_CT").

Definition typeName (base : string) (length precision scale : Z) : result string :=
  if existsb (String.eqb base) ["varchar"; "nvarchar"; "char"; "nchar"; "binary"; "varbinary"] then
    if length =? -1 then Ok (base +:+ "(max)")
    else
      let length := if String.eqb base "nvarchar" || String.eqb base "nchar" then Z.quot length 2 else length in
      Ok (base +:+ "(" +:+ FormatInt length +:+ ")")
  else if existsb (String.eqb base) ["decimal"; "numeric"] then
    Ok (base +:+ "(" +:+ FormatInt precision +:+ "," +:+ FormatInt scale +:+ ")")
  else if existsb (String.eqb base) ["datetime2"; "datetimeoffset"; "time"] then
    Ok (base +:+ "(" +:+ FormatInt scale +:+ ")")
  else if existsb (String.eqb base)
            ["bigint"; "int"; "smallint"; "tinyint"; "bit"; "money"; "smallmoney"; "float"; "real"; "date"; "datetime";
             "smalldatetime"; "uniqueidentifier"; "timestamp"; "text"; "ntext"; "image"; "xml"] then Ok base
  else Err (errorf "unsupported sqlserver type %q").

Definition legacyLOB (base : string) : bool := existsb (String.eqb base) ["text"; "ntext"; "image"].

(** A row of the query on capture instances. *)
Record instance_row := mkInstance {
  in_object : Z;
  in_capture : Z;
  in_instance : string;
  in_created : string;
  in_command : bool;
  in_partitioned : bool
}.

(** A row of the query on columns. *)
Record column_row := mkColumnRow {
  cr_name : string;
  cr_base : string;
  cr_length : Z;
  cr_precision : Z;
  cr_scale : Z;
  cr_nullable : bool;
  cr_default : option string;
  cr_computed : bool;
  cr_primary : bool;
  cr_ordinal : option Z;
  cr_collation : option string;
  cr_compatible : bool
}.

(** A row of the query on changes: the number of the table, the position in the
    transaction, the command, the operation, the update mask, the column values. *)
Record change_row := mkChangeRow {
  w_table : Z;
  w_sequence : string;
  w_command : Z;
  w_operation : Z;
  w_mask : string;
  w_values : list (option string)
}.

(** The answers of a connection or of a transaction.  [q_bytes] answers the queries
    for one binary value by their text and parameters, with [""] for NULL. *)
Record querier := mkQuerier {
  q_server : answer (string * string * string * string * bool * Z);
  q_instances : config.Table.t → rows instance_row;
  q_columns : Z → Z → rows column_row;
  q_bytes : string → list string → answer string;
  q_changes : string → lsn → rows change_row;
  q_values : string → rows (list (option string))
}.

Fixpoint read_columns (l : list column_row) : result (list Column.t) :=
  match l with
  | [] => Ok []
  | r :: l' =>
      match cr_ordinal r with
      | Some ordinal =>
          _ ← fail_if (cr_computed r || negb (cr_compatible r))
                (errors_New "cdc must capture every noncomputed source column with matching types");
          ty ← typeName (cr_base r) (cr_length r) (cr_precision r) (cr_scale r);
          cs ← read_columns l';
          Ok (Column.mk (cr_name r) ty (negb (cr_nullable r)) (cr_default r) (cr_primary r) (cr_base r) ordinal
                (cr_length r) (cr_collation r) :: cs)
      | None => Err (errors_New "cdc must capture every noncomputed source column with matching types")
      end
  end.

Definition readTable (q : querier) (ref : config.Table.t) : result Table.t :=
  instances ← dbError (q_instances q ref);
  _ ← dbError instances.2;
  match instances.1 with
  | [i] =>
      _ ← fail_if (in_partitioned i)
            (errors_New "partitioned sqlserver tables are unsupported; partition switching is not captured by cdc");
      found ← dbError (q_columns q (in_object i) (in_capture i));
      columns ← read_columns found.1;
      _ ← dbError found.2;
      _ ← fail_if (bool_decide (columns = [])) (errors_New "table has no visible columns");
      let keyless := negb (existsb Column.Primary columns) in
      _ ← fail_if (keyless && existsb (λ c, legacyLOB (Column.BaseType c) || String.eqb (Column.BaseType c) "xml") columns)
            (errors_New "keyless cdc tables cannot contain text, ntext, image or xml: complete old identity unavailable");
      Ok (Table.mk "sqlserver" (config.Table.Schema ref) (config.Table.Name ref) (if keyless then "full_row" else "") columns
            (in_object i) (in_capture i) (in_instance i) (in_created i) (in_command i))
  | _ => Err (errors_New "exactly one cdc capture instance per table is required")
  end.

Definition table_lt (a b : config.Table.t) : bool :=
  if String.eqb (config.Table.Schema a) (config.Table.Schema b)
  then String.ltb (config.Table.Name a) (config.Table.Name b)
  else String.ltb (config.Table.Schema a) (config.Table.Schema b).

Fixpoint inspect_tables (q : querier) (l : list config.Table.t) (seen : list Z) : result (list Table.t * list Z) :=
  match l with
  | [] => Ok ([], seen)
  | ref :: l' =>
      t ← wrap "inspect table %s: " (readTable q ref);
      _ ← fail_if (bool_decide (Table.ObjectID t ∈ seen)) (errors_New "duplicate sqlserver source object");
      r ← inspect_tables q l' (Table.ObjectID t :: seen);
      Ok (t :: r.1, r.2)
  end.

Definition fence_ok (cols : list Column.t) : bool :=
  match cols with
  | [c] => String.eqb (Column.Name c) "token" && String.eqb (Column.Type_ c) "varchar(64)" && Column.Primary c
  | _ => false
  end.

Definition inspect (q : querier) (cfg : config.Config.t) : result Inspection.t :=
  server ← dbError (q_server q);
  let '(version, edition, database, system, enabled, snapshotState) := server in
  major ← or_err (ParseInt (default "" (Split version "." !! 0%nat)) 64) (errors_New "sqlserver 2008 or later is required");
  _ ← fail_if (major <? 10) (errors_New "sqlserver 2008 or later is required");
  _ ← fail_if (negb enabled) (errors_New "sqlserver database cdc is not enabled");
  _ ← fail_if (negb (snapshotState =? 1))
        (errors_New "sqlserver requires allow_snapshot_isolation on for consistent cdc reads");
  found ← inspect_tables q (order_by table_lt (config.Config.Tables cfg)) [];
  fence ← wrap "inspect fence table: " (readTable q (config.SQLServer.FenceTable (config.Config.SQLServer_ cfg)));
  _ ← fail_if (bool_decide (Table.ObjectID fence ∈ found.2)) (errors_New "fence must not be a business table");
  _ ← fail_if (negb (fence_ok (Table.Columns fence)))
        (errors_New "fence table must have only token varchar(64) primary key, with cdc enabled");
  Ok (Inspection.mk version edition database system found.1 fence).

(** [opened] is [open]; closing joins an error. *)
Definition Inspect (valid opened close : result unit) (q : querier) (cfg : config.Config.t) : result Inspection.t :=
  _ ← valid;
  _ ← opened;
  match inspect q cfg, close with
  | Ok info, Err e => Err e
  | Err e, c => Err (closing c e)
  | r, _ => r
  end.

(** ** Rows (rows.go) *)

Definition projection (c : Column.t) : string :=
  let name := quote (Column.Name c) in
  let base := Column.BaseType c in
  if existsb (String.eqb base) ["binary"; "varbinary"; "image"; "timestamp"; "float"; "real"] then
    "CONVERT(nvarchar(max),CONVERT(varbinary(max)," +:+ name +:+ "),2)"
  else if existsb (String.eqb base) ["money"; "smallmoney"] then "CONVERT(nvarchar(max)," +:+ name +:+ ",2)"
  else if existsb (String.eqb base) ["datetime"; "smalldatetime"; "datetime2"; "date"; "time"; "datetimeoffset"] then
    "CONVERT(nvarchar(max)," +:+ name +:+ ",126)"
  else "CONVERT(nvarchar(max)," +:+ name +:+ ")".

Section rows.
(** [strconv.FormatFloat(x, 'g', -1, width)] on the bits of [x] *)
Context (FormatFloat : Z → Z → string).

Definition normalize (c : Column.t) (value : option string) : result (option string) :=
  match value with
  | None => Ok None
  | Some s =>
      let base := Column.BaseType c in
      if existsb (String.eqb base) ["binary"; "varbinary"; "image"; "timestamp"] then Ok (Some ("0x" +:+ ToLower s))
      else if String.eqb base "bit" then
        if String.eqb s "0" then Ok (Some "false")
        else if String.eqb s "1" then Ok (Some "true")
        else Err (errors_New "invalid sqlserver bit value")
      else if existsb (String.eqb base) ["float"; "real"] then
        b ← or_err (hex_decode s) (errors_New "invalid sqlserver float bytes");
        if (slen b =? 8) || (slen b =? 4) then Ok (Some (FormatFloat (from_big_endian (bytes b)) (8 * slen b)))
        else Err (errors_New "invalid sqlserver float width")
      else Ok (Some s)
  end.

Fixpoint to_columns (cols : list Column.t) (values : list (option string)) : result (list Event.Column.t) :=
  match cols, values with
  | c :: cols', v :: values' =>
      v ← normalize c v;
      r ← to_columns cols' values';
      Ok (Event.Column.mk (Column.Name c) (Column.Type_ c) v "" None :: r)
  | _, _ => Ok []
  end.

Definition toColumns (t : Table.t) (values : list (option string)) : result (list Event.Column.t) :=
  _ ← fail_if (negb (length values =? length (Table.Columns t))%nat) (errors_New "cdc row column count differs from schema");
  to_columns (Table.Columns t) values.

(** The columns of the identity; there are as many values as columns. *)
Fixpoint row_key (full_row : bool) (cols : list Column.t) (values : list Event.Column.t) : result (list Event.Column.t) :=
  match cols, values with
  | c :: cols', v :: values' =>
      if negb full_row && negb (Column.Primary c) then row_key full_row cols' values'
      else
        _ ← fail_if (Column.Primary c && bool_decide (Event.Column.Value v = None)) (errors_New "cdc primary key is null");
        r ← row_key full_row cols' values';
        Ok (v :: r)
  | [], _ => Ok []
  | _ :: _, [] => Err (errors_New "panic: index out of range")
  end.

Definition rowKey (t : Table.t) (values : list Event.Column.t) : result (list Event.Column.t) :=
  row_key (String.eqb (Table.RowIdentity t) "full_row") (Table.Columns t) values.

Definition changed (mask : string) (ordinal : Z) : result bool :=
  _ ← fail_if ((ordinal <? 1) || (slen mask * 8 <? ordinal)) (errors_New "invalid cdc update mask");
  let index := slen mask - 1 - Z.quot (ordinal - 1) 8 in
  Ok (Z.testbit (default 0 (bytes mask !! Z.to_nat index)) (Z.rem (ordinal - 1) 8)).

Record change := mkChange {
  c_table : Z;
  c_sequence : lsn;
  c_command : Z;
  c_operation : Z;
  c_mask : string;
  c_values : list (option string)
}.

(** The columns an update sends, and the old values with those the mask proves
    unchanged. *)
Fixpoint update_columns (mask : string) (cols : list Column.t) (current old : list Event.Column.t) :
    result (list Event.Column.t * list Event.Column.t) :=
  match cols, current, old with
  | c :: cols', v :: current', o :: old' =>
      touched ← changed mask (Column.Ordinal c);
      r ← update_columns mask cols' current' old';
      let o := if (Column.MaxLength c =? -1) && negb touched then v else o in
      Ok (if legacyLOB (Column.BaseType c) && negb touched then r.1 else v :: r.1, o :: r.2)
  | _, _, _ => Ok ([], [])
  end.

Definition convertChange (t : Table.t) (current : change) (before : option change) : result Row.t :=
  cols ← toColumns t (c_values current);
  key ← rowKey t cols;
  let row op old columns :=
    Row.mk (Table.RowIdentity t) (Table.Schema t) (Table.Name t) op key old columns 0 in
  if c_operation current =? 1 then Ok (row "delete" [] [])
  else if c_operation current =? 2 then Ok (row "insert" [] cols)
  else if c_operation current =? 4 then
    match before with
    | None => Err (errors_New "cdc update has no before image")
    | Some b =>
        old ← toColumns t (c_values b);
        x ← update_columns (c_mask current) (Table.Columns t) cols old;
        oldKey ← rowKey t x.2;
        Ok (row "update" oldKey x.1)
    end
  else Err (errorf "invalid cdc operation %d").

(** ** Polling (stream.go) *)

Definition getLSN (r : answer string) : result lsn := b ← dbError r; binaryLSN b.

Definition validateRange (from minimum : lsn) : result unit :=
  _ ← fail_if (String.eqb minimum zero_lsn)
        (errors_New "cdc minimum lsn unavailable; check capture instance and permissions");
  fail_if (lsn_lt from minimum) errRetentionGap.

Fixpoint validate_tables (q : querier) (from : lsn) (l : list Table.t) : result unit :=
  match l with
  | [] => Ok tt
  | t :: l' =>
      minimum ← getLSN (q_bytes q "SELECT sys.fn_cdc_get_min_lsn(@p1)" [Table.CaptureInstance t]);
      _ ← validateRange from minimum;
      validate_tables q from l'
  end.

Definition sameSource (expected current : Inspection.t) : result unit :=
  _ ← fail_if (negb (String.eqb (Inspection.SystemID expected) (Inspection.SystemID current)) ||
               negb (String.eqb (Inspection.Database expected) (Inspection.Database current)))
        (errors_New "sqlserver source identity changed");
  fail_if (negb (String.eqb (schemaHash (Inspection.Tables expected)) (schemaHash (Inspection.Tables current))))
    (errors_New "sqlserver schema or capture instance changed; explicit reinitialization required").

(** The query for the first transaction in a range. *)
Definition next_query (l : list Table.t) : string :=
  "SELECT MIN(lsn) FROM (" +:+
  Join ((λ t, "SELECT MIN([__$start_lsn]) AS lsn FROM " +:+ changesName t +:+
              " WHERE [__$start_lsn]>=@p1 AND [__$start_lsn]<=@p2") <$> l) " UNION ALL " +:+
  ") AS changes".

Definition width (l : list Table.t) : nat := foldl (λ w t, max w (length (Table.Columns t))) 0%nat l.

Definition change_fields (w : nat) (i : nat) (t : Table.t) : list string :=
  [FormatInt (Z.of_nat i) +:+ " AS table_number"; "[__$seqval] AS seqval";
   (if Table.HasCommandID t then "[__$command_id]" else "0") +:+ " AS command_id";
   "[__$operation] AS operation"; "[__$update_mask] AS update_mask"] ++
  ((λ n, (match Table.Columns t !! n with Some c => projection c | None => "CAST(NULL AS nvarchar(max))" end) +:+
         " COLLATE Latin1_General_BIN2 AS v" +:+ FormatInt (Z.of_nat n)) <$> seq 0 w).

Definition changesQuery (l : list Table.t) : string * nat :=
  let w := width l in
  (Join (imap (λ i t, "SELECT " +:+ Join (change_fields w i t) "," +:+ " FROM " +:+ changesName t +:+
                      " WHERE [__$start_lsn]=@p1") l) " UNION ALL " +:+
   " ORDER BY command_id,seqval,table_number,operation", w).

Definition samePosition (a b : change) : bool :=
  (c_table a =? c_table b) && String.eqb (c_sequence a) (c_sequence b) && (c_command a =? c_command b).

(** What a row is read as. *)
Definition read_change (l : list Table.t) (r : change_row) : result (Table.t * change) :=
  match if w_table r <? 0 then None else l !! Z.to_nat (w_table r) with
  | None => Err (errors_New "unexpected cdc table index")
  | Some t =>
      seq ← binaryLSN (w_sequence r);
      Ok (t, mkChange (w_table r) seq (w_command r) (w_operation r) (w_mask r)
               (take (length (Table.Columns t)) (w_values r)))
  end.

(** A change after [previous] with the pending image [before]: an image to keep, or
    a row. *)
Definition next_change (t : Table.t) (before previous : option change) (r : change) : result (option Row.t) :=
  _ ← fail_if (match previous with Some p => samePosition p r && (c_operation p =? c_operation r) | None => false end)
        (errors_New "ambiguous cdc row ordering");
  if c_operation r =? 3 then
    _ ← fail_if (bool_decide (is_Some before)) (errors_New "cdc update before image without after image");
    Ok None
  else
    _ ← fail_if (match before with Some b => negb (c_operation r =? 4) || negb (samePosition b r) | None => false end)
          (errors_New "cdc update images do not match");
    row ← convertChange t r before;
    Ok (Some row).

Definition full : string := "insufficient queue/disk capacity for a complete snapshot or transaction; increase capacity".

Context (fs : filesystem) (cfg : config.Config.t).

(** The rows of a transaction: their number and the batch. *)
Fixpoint read_changes (l : list Table.t) (rs : list change_row) (ending : answer unit) (before previous : option change)
    (count : Z) (b : batcher) : staging (Z * batcher) :=
  match rs with
  | [] =>
      _ ← pure (dbError ending);
      _ ← pure (fail_if (bool_decide (is_Some before)) (errors_New "cdc transaction ended without update after image"));
      mret (count, b)
  | r :: rs' =>
      x ← pure (read_change l r);
      row ← pure (next_change x.1 before previous x.2);
      match row with
      | None => read_changes l rs' ending (Some x.2) (Some x.2) count b
      | Some row =>
          let count := u64 (count + 1) in
          b ← add full fs cfg (Row.set_Ordinal count row) b;
          read_changes l rs' ending None (Some x.2) count b
      end
  end.

Definition readChanges (q : querier) (l : list Table.t) (lsn : lsn) (b : batcher) : staging (Z * batcher) :=
  rs ← pure (dbError (q_changes q (changesQuery l).1 lsn));
  read_changes l rs.1 rs.2 None None 0 b.

Definition rows_message (l : lsn) : Message.t :=
  Message.mk "" "" "" "" 0 "" "transaction_rows" (lsn_String l) 0 (lsn_String l) [] None [] None "".
Definition end_message (l : lsn) (chunk : Z) : Message.t :=
  Message.mk "" "" "" "" 0 "" "transaction_end" (lsn_String l) chunk (lsn_String l) [] None [] None "".

(** What a poll meets: the start of the transaction, its answers (the second
    inspection apart), its commit and its rollback. *)
Record poll_io := mkPoll {
  po_begin : answer unit;
  po_q : querier;
  po_again : querier;
  po_commit : answer unit;
  po_rollback : answer unit
}.

(** The transaction that was found first. *)
Definition poll_transaction (io : poll_io) (expected : Inspection.t) (from upper : lsn) (found : string) : staging bool :=
  next ← pure (binaryLSN found);
  _ ← pure (fail_if (lsn_lt next from || lsn_lt upper next) (errors_New "cdc transaction outside requested range"));
  x ← readChanges (po_q io) (Inspection.Tables expected) next (mkBatcher (rows_message next) 0);
  _ ← pure (fail_if (x.1 =? 0) (errors_New "cdc transaction disappeared during consistent read"));
  current ← pure (inspect (po_again io) cfg);
  _ ← pure (sameSource expected current);
  b ← flush full x.2;
  _ ← append full (end_message next (Message.Chunk (b_msg b)));
  _ ← pure (dbError (po_commit io));
  _ ← on_queue (λ s, Publish s (lsn_String next) false);
  mret true.

Definition poll (io : poll_io) (expected : Inspection.t) : staging bool :=
  let q := po_q io in
  st ← get_state;
  last ← pure (parseLSN (State.DurableLSN st));
  _ ← pure (dbError (po_begin io));
  map_err (rollback (po_rollback io)) (
    current ← pure (inspect q cfg);
    _ ← pure (sameSource expected current);
    upper ← pure (getLSN (q_bytes q "SELECT sys.fn_cdc_get_max_lsn()" []));
    _ ← pure (fail_if (lsn_lt upper last) (errors_New "cdc high watermark moved behind local checkpoint"));
    if String.eqb upper last then _ ← pure (dbError (po_commit io)); mret false
    else
      from ← pure (getLSN (q_bytes q "SELECT sys.fn_cdc_increment_lsn(@p1)" [last]));
      _ ← pure (validate_tables q from (Inspection.Tables expected));
      found ← pure (dbError (q_bytes q (next_query (Inspection.Tables expected)) [from; upper]));
      if String.eqb found "" then
        _ ← pure (dbError (po_commit io));
        _ ← on_queue (λ s, Publish s (lsn_String upper) false);
        mret false
      else poll_transaction io expected from upper found).

(** ** The snapshot (snapshot.go) *)

(** What a snapshot meets: the random token, the transaction, the locks by query
    (an empty table is no failure), the answers of the transaction, the insertion
    of the fence, the commit and the rollback, and the answers to the queries for
    the fence until the timeout ([None] is no row). *)
Record snapshot_io := mkSnapshotIO {
  sn_token : result string;
  sn_begin : answer unit;
  sn_lock : string → answer unit;
  sn_q : querier;
  sn_insert : string → string → answer unit;
  sn_commit : answer unit;
  sn_rollback : answer unit;
  sn_fence : string → string → list (answer (option string))
}.

Fixpoint snapshotLocks (lock : string → answer unit) (l : list Table.t) : result unit :=
  match l with
  | [] => Ok tt
  | t :: l' =>
      _ ← wrap "sqlserver snapshot lock table %d: "
            (dbError (lock ("SELECT TOP (1) 1 FROM " +:+ sqlName t +:+ " WITH (TABLOCKX,HOLDLOCK)")));
      snapshotLocks lock l'
  end.

Definition insertFence (insert : string → string → answer unit) (t : Table.t) (token : string) : result unit :=
  dbError (insert ("INSERT INTO " +:+ sqlName t +:+ " ([token]) VALUES (@p1)") token).

Fixpoint wait_fence (l : list (answer (option string))) : result lsn :=
  match l with
  | [] => Err (errors_New "cdc snapshot fence timed out; verify sql server agent and capture job")
  | Got (Some raw) :: _ => binaryLSN raw
  | Got None :: l' => wait_fence l'
  | Failed c :: _ => Err (databaseError c)
  end.

Definition waitFence (io : snapshot_io) (t : Table.t) (token : string) : result lsn :=
  wait_fence (sn_fence io ("SELECT [__$start_lsn] FROM " +:+ changesName t +:+ " WHERE [token]=@p1 AND [__$operation]=2") token).

Definition read_row (t : Table.t) (values : list (option string)) : result Row.t :=
  cols ← toColumns t values;
  key ← rowKey t cols;
  Ok (Row.mk (Table.RowIdentity t) (Table.Schema t) (Table.Name t) "read" key [] cols 0).

Fixpoint snapshot_rows (t : Table.t) (l : list (list (option string))) (b : batcher) : staging batcher :=
  match l with
  | [] => mret b
  | values :: l' =>
      row ← pure (read_row t values);
      b ← add full fs cfg row b;
      snapshot_rows t l' b
  end.

Definition rows_query (t : Table.t) : string :=
  "SELECT " +:+ Join (projection <$> Table.Columns t) "," +:+ " FROM " +:+ sqlName t.

Definition snapshotRows (q : querier) (t : Table.t) (b : batcher) : staging batcher :=
  rs ← pure (dbError (q_values q (rows_query t)));
  b ← snapshot_rows t rs.1 b;
  _ ← pure (dbError rs.2);
  mret b.

Definition kind_message (kind : string) : Message.t := Message.mk "" "" "" "" 0 "" kind "" 0 "" [] None [] None "".
Definition schema_message (t : Table.t) : Message.t :=
  Message.mk "" "" "" "" 0 "" "schema" "" 0 "" [] (Some (Table_json t)) [] None "".
Definition begin_message (l : list Table.t) : Message.t :=
  Message.mk "" "" "" "" 0 "" "snapshot_begin" "" 0 ""
    ((λ t, TableRef.mk (Table.Schema t) (Table.Name t)) <$> l) None [] None "".

Fixpoint snapshot_tables (q : querier) (l : list Table.t) (size : Z) : staging unit :=
  match l with
  | [] => mret tt
  | t :: l' =>
      _ ← append full (schema_message t);
      b ← map_err (wrapf "sqlserver snapshot table %d: ") (snapshotRows q t (mkBatcher (kind_message "snapshot_rows") size));
      b ← flush full b;
      snapshot_tables q l' (b_size b)
  end.

Definition snapshot_state (info : Inspection.t) (generation : string) : State.t :=
  State.mk (if existsb (λ t, String.eqb (Table.RowIdentity t) "full_row") (Inspection.Tables info) then "v2" else "")
    (config.Config.SourceID cfg) generation (config.Fingerprint cfg) (Inspection.SystemID info) 0
    (Inspection.Database info) (schemaHash (Inspection.Tables info)) "" "" "" "" "" 0 0 0 0 0 0.

Definition snapshot (io : snapshot_io) (info : Inspection.t) : staging unit :=
  _ ← pure (fail_if (negb (config.SQLServer.AllowSnapshotLocks (config.Config.SQLServer_ cfg)))
              (errors_New "initial sqlserver snapshot requires explicit sqlserver.allow_snapshot_locks=true in a maintenance window"));
  token ← pure (sn_token io);
  let generation := hex_encode token in
  _ ← on_queue (λ s, Initialize s (snapshot_state info generation));
  _ ← pure (dbError (sn_begin io));
  map_err (rollback (sn_rollback io)) (
    _ ← pure (snapshotLocks (sn_lock io) (Inspection.Tables info));
    current ← pure (inspect (sn_q io) cfg);
    _ ← pure (sameSource info current);
    _ ← pure (fail_if (negb (String.eqb (schemaHash [Inspection.Fence info]) (schemaHash [Inspection.Fence current])))
                (errors_New "sqlserver fence capture instance changed"));
    _ ← pure (insertFence (sn_insert io) (Inspection.Fence info) generation);
    _ ← append full (begin_message (Inspection.Tables info));
    _ ← snapshot_tables (sn_q io) (Inspection.Tables info) 0;
    _ ← append full (kind_message "snapshot_end");
    _ ← pure (dbError (sn_commit io));
    fence ← pure (wrap "sqlserver snapshot fence: " (waitFence io (Inspection.Fence info) generation));
    _ ← on_queue (λ s, FinalizeSnapshotLSN s (lsn_String fence));
    on_queue (λ s, Publish s (lsn_String fence) true)).

(** ** Attempts (collector.go) *)

(** An attempt: opening and closing the database, the first inspection, the
    snapshot if there is one, the polls, and the error that ends the waiting. *)
Record attempt_io := mkAttempt {
  at_open : result unit;
  at_close : result unit;
  at_q : querier;
  at_snapshot : snapshot_io;
  at_polls : list poll_io;
  at_stop : error
}.

Definition check_state (st : State.t) (info : Inspection.t) : result unit :=
  if String.eqb (State.Phase st) "" then Ok tt
  else
    _ ← fail_if (negb (String.eqb (State.Fingerprint st) (config.Fingerprint cfg)) ||
                 negb (String.eqb (State.SystemID st) (Inspection.SystemID info)) ||
                 negb (String.eqb (State.Database st) (Inspection.Database info)))
          (errors_New "sqlserver source identity or capture scope changed; automatic failover is unsupported");
    fail_if (String.eqb (State.Phase st) "stream" &&
             negb (String.eqb (State.SchemaHash st) (schemaHash (Inspection.Tables info))))
      (errors_New "sqlserver schema or capture instance changed; explicit reinitialization required").

Fixpoint polls (l : list poll_io) (expected : Inspection.t) : staging unit :=
  match l with
  | [] => mret tt
  | io :: l' =>
      _ ← map_err (wrapf "sqlserver incremental capture: ") (poll io expected);
      polls l' expected
  end.

Definition attempt (io : attempt_io) : staging unit :=
  _ ← get_state;
  _ ← on_queue Recover;
  _ ← pure (at_open io);
  map_err (closing (at_close io)) (
    info ← pure (inspect (at_q io) cfg);
    st ← get_state;
    _ ← pure (check_state st info);
    _ ← (if String.eqb (State.Phase st) "stream" then mret tt else snapshot (at_snapshot io) info);
    _ ← polls (at_polls io) info;
    pure (Err (at_stop io))).

(** [Run]: the waits between attempts, and the error that is not retried. *)
Definition run_waits (maximum minimum : Z) (l : list error) : list Z := retry_waits retryable maximum minimum l.

(** ** Scanning a table (reconcile.go) *)

Context (float_text : string → option string).

Fixpoint scan_rows (t : Table.t) (l : list (list (option string))) (b : list accumulator) : result (list accumulator) :=
  match l with
  | [] => Ok b
  | values :: l' =>
      cols ← toColumns t values;
      key ← rowKey t cols;
      b ← Add float_text b (Row.mk (Table.RowIdentity t) (Table.Schema t) (Table.Name t) "" key [] cols 0);
      scan_rows t l' b
  end.

(** [opened] is [open]. *)
Definition Reconcile (opened : result unit) (begin : answer unit) (q : querier) (commit rb : answer unit)
    (request : syncv1.ReconcileRequest.t) : result syncv1.ReconcileResult.t :=
  let want := config.Table.mk (syncv1.ReconcileRequest.SourceSchema request) (syncv1.ReconcileRequest.Table request) in
  _ ← fail_if (negb (bool_decide (want ∈ config.Config.Tables cfg)))
        (errors_New "reconciliation table is outside the configured capture scope");
  _ ← opened;
  _ ← dbError begin;
  let body :=
    table ← readTable q want;
    b ← NewBuilder (syncv1.ReconcileRequest.Buckets request);
    rs ← dbError (q_values q (rows_query table));
    b ← scan_rows table rs.1 b;
    _ ← dbError rs.2;
    _ ← dbError commit;
    Ok (syncv1.ReconcileResult.mk (syncv1.ReconcileRequest.RequestId request) (Table.Schema table) (Table.Name table)
          (Column.Name <$> Table.Columns table) (Column.Name <$> List.filter Column.Primary (Table.Columns table))
          ((λ d, syncv1.BucketDigest.mk (dg_bucket d) (dg_rows d) (dg_hash d)) <$> builder_digests b) "" ""
          (Column.Type_ <$> Table.Columns table)) in
  match body with Err e => Err (rollback rb e) | r => r end.
End rows.

(** ** Health (health.go) *)

(** The values of a sample are whole seconds. *)
Inductive float := Number (seconds : Z) | NaN | Inf (negative : bool).

Definition negative (f : float) : bool :=
  match f with Number z => z <? 0 | NaN => false | Inf neg => neg end.

Record healthSample := mkHealth {
  ScanAgeSeconds : option float;
  CaptureLatencySeconds : option float;
  CheckpointLagSeconds : option float;
  RetentionMarginSeconds : option float
}.

Definition healthNonnegative (v : option float) : option float :=
  match v with
  | Some (Number z) => if z <? 0 then None else v
  | _ => None
  end.

Definition healthPositionQuery (l : list Table.t) (durable : lsn) : string * list string :=
  let minimums :=
    imap (λ i _, "SELECT sys.fn_cdc_map_lsn_to_time(sys.fn_cdc_get_min_lsn(@p" +:+ FormatInt (Z.of_nat i + 2) +:+ ")) AS min_time") l in
  let minimums := match minimums with [] => ["SELECT CONVERT(datetime,NULL) AS min_time"] | _ => minimums end in
  ("SELECT CONVERT(float,DATEDIFF(second,p.durable_time,p.upper_time)),
 CASE WHEN m.total=m.known THEN CONVERT(float,DATEDIFF(second,m.min_time,p.durable_time))
 ELSE NULL END
 FROM (SELECT sys.fn_cdc_map_lsn_to_time(@p1) AS durable_time,
 sys.fn_cdc_map_lsn_to_time(sys.fn_cdc_get_max_lsn()) AS upper_time) p
 CROSS JOIN (SELECT COUNT(*) AS total,COUNT(min_time) AS known,MAX(min_time) AS min_time
 FROM (" +:+ Join minimums " UNION ALL " +:+ ") bounds) m", durable :: (Table.CaptureInstance <$> l)).

(** A pair of values that a query returns; no row is no failure. *)
Definition sampled (r : answer (option (option float * option float))) : (option float * option float) * option error :=
  match r with
  | Got (Some p) => (p, None)
  | Got None => ((None, None), None)
  | Failed c => ((None, None), Some (databaseError c))
  end.

Definition join_options (a b : option error) : option error :=
  match a, b with
  | Some x, Some y => Some (errors_Join x y)
  | Some x, None => Some x
  | None, y => y
  end.

(** The queries for the position and for the scan sessions are arguments. *)
Definition readHealth (position : string → list string → answer (option (option float * option float)))
    (sessions : answer (option (option float * option float))) (l : list Table.t) (durable : lsn) : healthSample * option error :=
  let p := if String.eqb durable zero_lsn then ((None, None), None)
           else let '(text, args) := healthPositionQuery l durable in sampled (position text args) in
  let s := sampled sessions in
  let margin := match p.1.2 with Some f => if negative f then Some (Number 0) else Some f | None => None end in
  (mkHealth (healthNonnegative s.1.1) (healthNonnegative s.1.2) (healthNonnegative p.1.1) (healthNonnegative margin),
   join_options p.2 s.2).

End sqlserver.
