(* ===== verification/SQLServerProps.v ===== *)
(** * Correctness of the SQL Server collector

    Polling captures every committed transaction after the checkpoint, once and in
    the order of the log, as long as the change tables retain what has not been
    read, which is tested; a poll that fails publishes nothing; a snapshot starts
    the stream at its fence. *)

From S2P Require Import Prelude Bytes Sorting Encoding Sha256 Json JsonStruct GoTime GoPath Config Event FileEmbed Queue QueueInv QueueSpec Batch SqlClient SQLServer.

#[local] Opaque marshal unmarshal.

Import sqlserver.

(** ** Log sequence numbers *)

Lemma parse_lsn l : String.length l = 10%nat → parseLSN (lsn_String l) = Ok l.
Proof.
  intros Hl. unfold parseLSN, lsn_String, slen. rewrite length_append, hex_encode_length, Hl.
  change (HasPrefix ("0x" +:+ hex_encode l) "0x") with true. change (drop_string 2 ("0x" +:+ hex_encode l)) with (hex_encode l).
  go. rewrite hex_decode_encode. by go.
Qed.

Lemma binaryLSN_Ok b l : binaryLSN b = Ok l ↔ b = l ∧ String.length l = 10%nat.
Proof.
  unfold binaryLSN, slen. rewrite fail_if_bind. case_if; bool_prop; split; try done.
  - intros [-> Hl]. lia.
  - intros [= ->]. split; [done|lia].
  - by intros [-> _].
Qed.

Lemma getLSN_Ok r l : getLSN r = Ok l ↔ r = Got l ∧ String.length l = 10%nat.
Proof.
  unfold getLSN. destruct r as [b|c]; cbn [dbError]; go.
  - rewrite binaryLSN_Ok. naive_solver.
  - naive_solver.
Qed.

Lemma utf8_lsn l : utf8_valid (lsn_String l) = true.
Proof. unfold lsn_String. apply utf8_valid_append; [done|apply utf8_valid_hex]. Qed.

(** ** The order of changes *)

(** The order of the query: command, position in the transaction, table,
    operation. *)
Definition change_key (r : change_row) : Z * string * Z * Z := (w_command r, w_sequence r, w_table r, w_operation r).

Definition change_lt (a b : change_row) : bool :=
  (w_command a <? w_command b) ||
  (w_command a =? w_command b) && (String.ltb (w_sequence a) (w_sequence b) ||
    String.eqb (w_sequence a) (w_sequence b) && ((w_table a <? w_table b) ||
      (w_table a =? w_table b) && (w_operation a <? w_operation b))).

Lemma change_lt_spec a b : change_lt a b = true ↔
  w_command a < w_command b ∨ w_command a = w_command b ∧
    (String.ltb (w_sequence a) (w_sequence b) = true ∨ w_sequence a = w_sequence b ∧
      (w_table a < w_table b ∨ w_table a = w_table b ∧ w_operation a < w_operation b)).
Proof.
  unfold change_lt. rewrite !orb_true_iff, !andb_true_iff, !orb_true_iff, !andb_true_iff, !orb_true_iff, !andb_true_iff.
  by rewrite !Z.ltb_lt, !Z.eqb_eq, String.eqb_eq.
Qed.

#[global] Instance change_lt_strict : StrictLt change_lt.
Proof.
  split.
  - intros x. apply not_true_iff_false. rewrite change_lt_spec, string_ltb_irrefl. naive_solver lia.
  - intros x y z. rewrite !change_lt_spec. intros H1 H2.
    destruct H1 as [?|[E1 H1]], H2 as [?|[E2 H2]]; try (left; lia). right. split; [lia|].
    destruct H1 as [?|[E3 H1]], H2 as [?|[E4 H2]]; rewrite ?E3, <-?E4 in *; auto.
    + left. by eapply string_ltb_trans.
    + right. split; [done|]. destruct H1 as [?|[? ?]], H2 as [?|[? ?]]; (left; lia) || right; lia.
Qed.

Lemma change_lt_total a b : change_key a = change_key b ∨ change_lt a b = true ∨ change_lt b a = true.
Proof.
  unfold change_key. rewrite !change_lt_spec. destruct (Z.lt_trichotomy (w_command a) (w_command b)) as [|[E|]]; auto.
  destruct (string_ltb_total (w_sequence a) (w_sequence b)) as [E1|[|]]; [|naive_solver..].
  destruct (Z.lt_trichotomy (w_table a) (w_table b)) as [|[E2|]]; [naive_solver| |naive_solver].
  destruct (Z.lt_trichotomy (w_operation a) (w_operation b)) as [|[E3|]]; [naive_solver| |naive_solver].
  left. congruence.
Qed.

(** Rows in the order of the query, without two that are next to each other at the
    same place, are strictly ordered. *)
Lemma strictly_ordered rs : Sorted (λ a b, change_lt b a = false) rs → Sorted (λ a b, change_key a ≠ change_key b) rs →
  increasing change_lt rs.
Proof.
  intros H1 H2. apply Sorted_StronglySorted; [intros x y z; apply lt_trans|].
  induction H1 as [|r rs H1 IH Hd]; constructor; apply Sorted_inv in H2 as [H2 Hd2]; [auto|].
  destruct Hd as [|r' rs Hd]; constructor. apply HdRel_inv in Hd2. destruct (change_lt_total r r') as [?|[?|?]]; congruence.
Qed.

(** ** The rows of a transaction *)

Section transaction.
Context (FormatFloat : Z → Z → string) (fs : filesystem) (cfg : config.Config.t).

(** The rows that the changes [rs] of a transaction stand for, numbered after [n]:
    a deletion or an insertion is a row, the two images of an update at the same
    place, the second right after the first, are one row.  [before] is an image
    whose successor comes next. *)
Inductive captures (l : list Table.t) : option change → Z → list change_row → list Row.t → Prop :=
  | captures_nil n : captures l None n [] []
  | captures_row n r t c row rs rows :
      read_change l r = Ok (t, c) → c_operation c = 1 ∨ c_operation c = 2 → convertChange FormatFloat t c None = Ok row →
      captures l None (u64 (n + 1)) rs rows → captures l None n (r :: rs) (Row.set_Ordinal (u64 (n + 1)) row :: rows)
  | captures_before n r t c rs rows :
      read_change l r = Ok (t, c) → c_operation c = 3 → captures l (Some c) n rs rows → captures l None n (r :: rs) rows
  | captures_after n b r t c row rs rows :
      read_change l r = Ok (t, c) → c_operation c = 4 → samePosition b c = true →
      convertChange FormatFloat t c (Some b) = Ok row →
      captures l None (u64 (n + 1)) rs rows → captures l (Some b) n (r :: rs) (Row.set_Ordinal (u64 (n + 1)) row :: rows).

Definition place (c : change) : Z * string * Z * Z := (c_command c, c_sequence c, c_table c, c_operation c).

Lemma read_change_place l r t c : read_change l r = Ok (t, c) → place c = change_key r.
Proof.
  unfold read_change. destruct (if w_table r <? 0 then None else l !! _) as [t'|]; [|done].
  intros (q & [E _]%binaryLSN_Ok & [= <- <-])%bind_Ok. unfold place, change_key. cbn. by rewrite E.
Qed.

Lemma same_place a b : samePosition a b && (c_operation a =? c_operation b) = false → place a ≠ place b.
Proof.
  intros H E. injection E as E1 E2 E3 E4. unfold samePosition in H. rewrite E1, E2, E3, E4, !Z.eqb_refl, String.eqb_refl in H. done.
Qed.

(** The operations that convert without a first image. *)
Lemma convert_operation t c row : convertChange FormatFloat t c None = Ok row → c_operation c = 1 ∨ c_operation c = 2.
Proof.
  unfold convertChange. intros H. result_inv H; bool_prop; auto.
Qed.

Lemma next_change_row t before previous c o : next_change FormatFloat t before previous c = Ok o →
  (∀ p, previous = Some p → place p ≠ place c) ∧
  match o with
  | None => c_operation c = 3 ∧ before = None
  | Some row => convertChange FormatFloat t c before = Ok row ∧
      match before with None => c_operation c = 1 ∨ c_operation c = 2 | Some b => c_operation c = 4 ∧ samePosition b c = true end
  end.
Proof.
  unfold next_change. intros (u & Hp%fail_if_Ok & H)%bind_Ok. split.
  { intros p ->. by apply same_place. }
  destruct (c_operation c =? 3) eqn:E3.
  - result_inv H. simplify_eq. bool_prop. split; [done|]. destruct before; [|done]. exfalso. apply H0. eauto.
  - apply bind_Ok in H as (u' & Hb%fail_if_Ok & H). apply bind_Ok in H as (row & Hc & [= <-]). split; [done|].
    destruct before as [b|]; [|by eapply convert_operation]. apply orb_false_iff in Hb as [H4 Hs]. bool_prop. done.
Qed.

Lemma read_changes_rows l ending rs before previous count b env s env' s' count' b' :
  read_changes FormatFloat fs cfg l rs ending before previous count b env s = (env', s', Ok (count', b')) →
  ∃ rows, captures l before count rs rows ∧ add_all (add full fs cfg) rows b env s = (env', s', Ok b') ∧
    count' = bump count (length rows) ∧ (length rows ≤ length rs)%nat ∧ ending = Got tt ∧
    Sorted (λ a b, change_key a ≠ change_key b) rs ∧
    (∀ p r, previous = Some p → head rs = Some r → place p ≠ change_key r).
Proof.
  revert before previous count b env s. induction rs as [|r rs IH]; intros before previous count b env s; cbn [read_changes].
  { intros (env1 & s1 & u & (-> & -> & Hend%dbError_Ok)%pure_Ok & H)%staging_bind_Ok. st_inv H. bool_prop. simplify_eq.
    destruct before; [exfalso; naive_solver|]. destruct u. exists []. split_and!; try done; try constructor. }
  intros (env1 & s1 & [t c] & (-> & -> & Hr)%pure_Ok & H)%staging_bind_Ok.
  apply staging_bind_Ok in H as (env2 & s2 & o & (-> & -> & Hn)%pure_Ok & H). cbn [fst snd] in *.
  pose proof (read_change_place _ _ _ _ Hr) as Hpl. apply next_change_row in Hn as [Hprev Ho].
  assert ((∀ p r, Some c = Some p → head rs = Some r → place p ≠ change_key r) →
    Sorted (λ a b, change_key a ≠ change_key b) rs → Sorted (λ a b, change_key a ≠ change_key b) (r :: rs)) as Hsort.
  { intros Hd Hs. constructor; [done|]. destruct rs as [|r' rs]; constructor. rewrite <-Hpl. by apply (Hd c r'). }
  assert (∀ p r', previous = Some p → head (r :: rs) = Some r' → place p ≠ change_key r') as Hd'.
  { intros p r' Hp [= <-]. rewrite <-Hpl. auto. }
  destruct o as [row|].
  - apply staging_bind_Ok in H as (env3 & s3 & b3 & Hadd & H).
    apply IH in H as (rows & Hc & Hadds & -> & Hlen & -> & Hs & Hd).
    exists (Row.set_Ordinal (u64 (count + 1)) row :: rows). destruct Ho as [Hcv Ho]. split_and!; auto.
    + destruct before as [b0|]; [destruct Ho|]; by econstructor.
    + apply staging_bind_Ok. by eexists _, _, _.
    + symmetry. apply (bump_add count 1).
    + cbn. lia.
  - destruct Ho as [Hop ->]. apply IH in H as (rows & Hc & Hadds & -> & Hlen & -> & Hs & Hd).
    exists rows. split_and!; auto; [by eapply captures_before|cbn; lia].
Qed.

(** The rows made of an answer can be carried by the wire format. *)
Definition answer_ok (l : list Table.t) (rs : list change_row) : Prop := ∀ r t c b row n row',
  r ∈ rs → read_change l r = Ok (t, c) →
  (∀ c', b = Some c' → ∃ r' t', r' ∈ rs ∧ read_change l r' = Ok (t', c')) →
  convertChange FormatFloat t c b = Ok row → 0 ≤ n < 2 ^ 64 → Apply fs cfg (Row.set_Ordinal n row) = Ok row' → Row_ok row' = true.

Lemma captures_ok l all before n rs rows : captures l before n rs rows → answer_ok l all → (∀ r, r ∈ rs → r ∈ all) →
  (∀ c', before = Some c' → ∃ r' t', r' ∈ all ∧ read_change l r' = Ok (t', c')) →
  ∀ row row', row ∈ rows → Apply fs cfg row = Ok row' → Row_ok row' = true.
Proof.
  intros Hc Hok. induction Hc as [|n r t c row rs rows Hr _ Hcv _ IH|n r t c rs rows Hr _ _ IH|n b r t c row rs rows Hr _ _ Hcv _ IH];
    intros Hin Hb row1 row' H Ha.
  - by apply elem_of_nil in H.
  - apply elem_of_cons in H as [->|H].
    + eapply (Hok r t c None row _ row'); [apply Hin; left|done|done|done|apply u64_range|done].
    + eapply IH; [intros; apply Hin; by right|done|done|done].
  - eapply IH; [intros; apply Hin; by right| |done|done]. intros c' [= <-]. exists r, t. split; [apply Hin; left|done].
  - apply elem_of_cons in H as [->|H].
    + eapply (Hok r t c (Some b) row _ row'); [apply Hin; left|done|done|done|apply u64_range|done].
    + eapply IH; [intros; apply Hin; by right|done|done|done].
Qed.

(** ** What SQL Server shows *)

(** A row of a change table. *)
Record ct_row := mkCT {
  ct_start : lsn;
  ct_sequence : string;
  ct_command : Z;
  ct_operation : Z;
  ct_mask : string;
  ct_values : list (option string)
}.

(** What has been captured of each table. *)
Definition history := Table.t → list ct_row.

Definition between (lo hi : lsn) (r : ct_row) : bool := negb (lsn_lt (ct_start r) lo) && negb (lsn_lt hi (ct_start r)).

Definition change_of (w : nat) (i : nat) (t : Table.t) (r : ct_row) : change_row :=
  mkChangeRow (Z.of_nat i) (ct_sequence r) (if Table.HasCommandID t then ct_command r else 0) (ct_operation r) (ct_mask r)
    (ct_values r ++ replicate (w - length (ct_values r)) None).

(** The changes of the transaction [x]. *)
Definition changes_at (h : history) (l : list Table.t) (x : lsn) : list change_row :=
  concat (imap (λ i t, change_of (width l) i t <$> List.filter (λ r, String.eqb (ct_start r) x) (h t)) l).

(** [x] is a transaction with changes in the tables [l]. *)
Definition started (h : history) (l : list Table.t) (x : lsn) : Prop := ∃ t r, t ∈ l ∧ r ∈ h t ∧ ct_start r = x.

(** The answers [q] are those of SQL Server on the history [h]: the change tables
    [ct] hold what was captured up to the high watermark [upper] and is not below
    the low watermark of the table; the next number after [x] is the least one
    greater; the queries return what they ask for, in the order they ask for. *)
Definition shows (h : history) (l : list Table.t) (q : querier) : Prop := ∃ (ct : history) (upper : lsn) (low : Table.t → lsn),
  (∀ r, q_bytes q "SELECT sys.fn_cdc_get_max_lsn()" [] = Got r → r = upper) ∧
  (∀ x r, q_bytes q "SELECT sys.fn_cdc_increment_lsn(@p1)" [x] = Got r →
     ∀ y, String.length y = 10%nat → lsn_lt x y = negb (lsn_lt y r)) ∧
  (∀ t r, t ∈ l → q_bytes q "SELECT sys.fn_cdc_get_min_lsn(@p1)" [Table.CaptureInstance t] = Got r → r = low t) ∧
  (∀ t, t ∈ l → List.filter (between (low t) upper) (ct t) ≡ₚ List.filter (between (low t) upper) (h t)) ∧
  (∀ from r, q_bytes q (next_query l) [from; upper] = Got r →
     if String.eqb r "" then ∀ t c, t ∈ l → c ∈ ct t → between from upper c = false
     else (∃ t c, t ∈ l ∧ c ∈ ct t ∧ ct_start c = r ∧ between from upper c = true) ∧
       ∀ t c, t ∈ l → c ∈ ct t → between from upper c = true → lsn_lt (ct_start c) r = false) ∧
  (∀ x rs, q_changes q (changesQuery l).1 x = Got (rs, Got tt) →
     rs ≡ₚ changes_at ct l x ∧ Sorted (λ a b, change_lt b a = false) rs).

(** The numbers of a history have ten bytes. *)
Definition history_ok (h : history) (l : list Table.t) : Prop :=
  ∀ t r, t ∈ l → r ∈ h t → String.length (ct_start r) = 10%nat.

(** ** From answers to the history *)

Lemma lsn_le_trans a b c : lsn_lt b a = false → lsn_lt c b = false → lsn_lt c a = false.
Proof.
  unfold lsn_lt. intros H1 H2. apply not_true_iff_false. intros H3. destruct (string_ltb_total a b) as [->|[E|E]]; [congruence| |congruence].
  rewrite (string_ltb_trans _ _ _ H3 E) in H2. done.
Qed.

Lemma lsn_lt_le_trans a b c : lsn_lt a b = true → lsn_lt c b = false → lsn_lt a c = true.
Proof.
  unfold lsn_lt. intros H1 H2. destruct (string_ltb_total b c) as [->|[E|E]]; [done| |congruence]. by eapply string_ltb_trans.
Qed.

Lemma lsn_lt_asym a b : lsn_lt a b = true → lsn_lt b a = false.
Proof.
  unfold lsn_lt. intros H. apply not_true_iff_false. intros H2. pose proof (string_ltb_trans _ _ _ H H2) as E.
  by rewrite string_ltb_irrefl in E.
Qed.

#[global] Instance lsn_lt_strict : StrictLt lsn_lt.
Proof. split; [apply string_ltb_irrefl|apply string_ltb_trans]. Qed.

Lemma filter_Permutation {A} (P : A → bool) l k : l ≡ₚ k → List.filter P l ≡ₚ List.filter P k.
Proof.
  induction 1 as [| |x y l|]; cbn; repeat destruct (P _); try done; [by constructor|by constructor|by etrans].
Qed.

Lemma concat_imap_Permutation {A B} (f g : nat → A → list B) l : (∀ i x, l !! i = Some x → f i x ≡ₚ g i x) →
  concat (imap f l) ≡ₚ concat (imap g l).
Proof.
  revert f g. induction l as [|x l IH]; intros f g H; [done|]. cbn. apply Permutation_app; [by apply (H 0%nat)|].
  apply IH. intros i y Hy. by apply (H (S i)).
Qed.

(** A transaction above the low watermarks is in the change tables as it was. *)
Lemma changes_retained ct h l upper low x :
  (∀ t, t ∈ l → List.filter (between (low t) upper) (ct t) ≡ₚ List.filter (between (low t) upper) (h t)) →
  (∀ t, t ∈ l → lsn_lt x (low t) = false) → lsn_lt upper x = false → changes_at ct l x ≡ₚ changes_at h l x.
Proof.
  intros Hct Hlow Hup. apply concat_imap_Permutation. intros i t Ht%list_elem_of_lookup_2. apply fmap_Permutation.
  assert (∀ k : list ct_row, List.filter (λ r, String.eqb (ct_start r) x) k =
    List.filter (λ r, String.eqb (ct_start r) x) (List.filter (between (low t) upper) k)) as E.
  { intros k. rewrite filter_filter. apply filter_ext_in. intros r _. destruct (String.eqb_spec (ct_start r) x) as [<-|]; [|by destruct (between _ _ _)].
    unfold between. by rewrite (Hlow t Ht), Hup. }
  rewrite (E (ct t)), (E (h t)). by apply filter_Permutation, Hct.
Qed.

Lemma change_retained (ct h : history) (l : list Table.t) upper low t r :
  (∀ t, t ∈ l → List.filter (between (low t) upper) (ct t) ≡ₚ List.filter (between (low t) upper) (h t)) →
  t ∈ l → between (low t) upper r = true → r ∈ ct t ↔ r ∈ h t.
Proof.
  intros Hct Ht Hb. assert (∀ k : list ct_row, r ∈ k ↔ r ∈ List.filter (between (low t) upper) k) as E.
  { intros k. rewrite !list_elem_of_In, filter_In. naive_solver. }
  rewrite (E (ct t)), (E (h t)). by rewrite (Hct t Ht).
Qed.

Lemma validate_low q from l : validate_tables q from l = Ok tt → ∀ t, t ∈ l →
  ∃ r, q_bytes q "SELECT sys.fn_cdc_get_min_lsn(@p1)" [Table.CaptureInstance t] = Got r ∧ lsn_lt from r = false.
Proof.
  induction l as [|t0 l IH]; intros H t Ht; [by apply elem_of_nil in Ht|]. cbn [validate_tables] in H.
  apply bind_Ok in H as (m & [Hm _]%getLSN_Ok & H). apply bind_Ok in H as ([] & Hv & H).
  unfold validateRange in Hv. apply bind_Ok in Hv as ([] & _ & Hv%fail_if_Ok).
  apply elem_of_cons in Ht as [->|Ht]; [by exists m|by apply IH].
Qed.

(** ** A poll *)

(** [ms] carries the changes of the transaction [x], in their order. *)
Definition sent (h : history) (l : list Table.t) (x : lsn) (ms : list Message.t) : Prop :=
  ∃ rs rows, rs ≡ₚ changes_at h l x ∧ increasing change_lt rs ∧ captures l None 0 rs rows ∧
    transaction_messages fs cfg (rows_message x) (end_message x) rows ms.

(** The stream has moved from [last] to [last']: the transactions [xs] are those in
    between, in order, and each is sent once. *)
Definition streamed (h : history) (l : list Table.t) (last last' : lsn) (xs : list lsn) (mss : list (list Message.t)) : Prop :=
  String.length last' = 10%nat ∧ lsn_lt last' last = false ∧ increasing lsn_lt xs ∧
  (∀ x, x ∈ xs ↔ started h l x ∧ lsn_lt last x = true ∧ lsn_lt last' x = false) ∧ Forall2 (sent h l) xs mss.

Lemma streamed_none h l last last' : String.length last' = 10%nat → lsn_lt last' last = false →
  (∀ x, started h l x → lsn_lt last x = true → lsn_lt last' x = false → False) → streamed h l last last' [] [].
Proof.
  intros Hl Hle Hn. split_and!; try done; [constructor|]. intros x. split; [by intros ?%elem_of_nil|].
  intros (H1 & H2 & H3). exfalso. eauto.
Qed.

Lemma streamed_trans h l a b c xs ys mss mss' : streamed h l a b xs mss → streamed h l b c ys mss' →
  streamed h l a c (xs ++ ys) (mss ++ mss').
Proof.
  intros (L1 & O1 & I1 & E1 & F1) (L2 & O2 & I2 & E2 & F2). split_and!; [done|by eapply lsn_le_trans| | |by apply Forall2_app].
  - apply increasing_app; [apply lsn_lt_strict|]. split_and!; [done|done|]. intros x y (_ & _ & Hx)%E1 (_ & Hy & _)%E2.
    destruct (string_ltb_total b x) as [->|[E|E]]; [done|unfold lsn_lt in *; congruence|by eapply string_ltb_trans].
  - intros x. rewrite elem_of_app, E1, E2. split.
    + intros [(? & ? & H)|(? & H & ?)]; split_and!; try done.
      * by eapply lsn_le_trans.
      * destruct (string_ltb_total a b) as [->|[E|E]]; [done|by eapply string_ltb_trans|unfold lsn_lt in *; congruence].
    + intros (? & H & H'). destruct (lsn_lt b x) eqn:E; auto.
Qed.

Context (h : history) (expected : Inspection.t) (N : nat).
Notation tables := (Inspection.Tables expected).
Hypothesis Hlim : limits_ok cfg.
Hypothesis Hhist : history_ok h tables.

Hypothesis Hrows : ∀ x, answer_ok tables (changes_at h tables x).
Hypothesis HN : ∀ x, (length (changes_at h tables x) ≤ N)%nat.

Lemma lsn_message_ok kind x c : utf8_valid kind = true → uint_ok 64 c = true →
  Message_ok (Message.mk "" "" "" "" 0 "" kind (lsn_String x) c (lsn_String x) [] None [] None "") = true.
Proof. intros Hk Hc. unfold Message_ok. rewrite !andb_true_iff. split_and!; try done; apply utf8_lsn. Qed.

(** A queue that has gained [ms] and published it, with the checkpoint [x]. *)
Definition gained (st : State.t) (log : list Message.t) (x : lsn) (ms : list Message.t) (s' : Store) : Prop :=
  ∃ st' ys, drained s' st' (log ++ ys) ∧ Forall2 stamped ms ys ∧ State.DurableLSN st' = lsn_String x ∧
    State.Generation st' = State.Generation st ∧ State.Phase st' = State.Phase st.

Lemma publish_gained s st log ms st1 log1 s1 x s' : drained s st log → extends st log ms st1 log1 → Inv s1 st1 log1 →
  Publish s1 (lsn_String x) false = (s', Ok tt) → gained st log x ms s'.
Proof.
  intros _ [(ys & -> & Hy) _ _ Hph Hgen _ _] HI1 Hp.
  apply (PublishSource_Inv _ _ _ _ _ _ _ HI1) in Hp as [_ HI2]; [|apply utf8_lsn|done].
  eexists _, ys. split; [split; [exact HI2|done]|]. by split_and!.
Qed.

(** The rows of a transaction that was read, its end and its publication. *)
Lemma transaction_gained x rs rows env s st log env1 s1 b env2 s2 b2 env3 s3 s' :
  rs ≡ₚ changes_at h tables x → captures tables None 0 rs rows → (length rows ≤ length rs)%nat → drained s st log →
  Z.of_nat (length log + (2 * N + 2)) < 2 ^ 64 - 1 →
  add_all (add full fs cfg) rows (mkBatcher (rows_message x) 0) env s = (env1, s1, Ok b) →
  flush full b env1 s1 = (env2, s2, Ok b2) →
  append full (end_message x (Message.Chunk (b_msg b2))) env2 s2 = (env3, s3, Ok tt) →
  Publish s3 (lsn_String x) false = (s', Ok tt) →
  ∃ ms, transaction_messages fs cfg (rows_message x) (end_message x) rows ms ∧ gained st log x ms s' ∧ (length ms ≤ 2 * N + 2)%nat.
Proof.
  intros Hp Hc Hlen Hdr Hbd Hadd Hfl Happ Hpub.
  assert (length rows ≤ N)%nat as HlenN by (rewrite Hlen, Hp; apply HN).
  assert (∀ row row', row ∈ rows → Apply fs cfg row = Ok row' → Row_ok row' = true) as Hrok.
  { eapply captures_ok; [done|apply (Hrows x)| |done]. intros r. by rewrite Hp. }
  destruct (transaction_staged full fs cfg Hlim (rows_message x) (end_message x) rows env s st log env1 s1 b env2 s2 b2 env3 s3)
    as (ms & st1 & log1 & HI1 & He1 & Hl & Hms); try done; [by apply lsn_message_ok|intros c; by apply lsn_message_ok|apply Hdr|lia|].
  exists ms. split_and!; [done|by eapply publish_gained|lia].
Qed.

(** A transaction that is the first of the range is the only one up to itself. *)
Lemma poll_transaction_step io last from upper found ct low env s st log env' s' progress :
  (∀ t, t ∈ tables → List.filter (between (low t) upper) (ct t) ≡ₚ List.filter (between (low t) upper) (h t)) →
  (∀ t, t ∈ tables → lsn_lt from (low t) = false) →
  (∀ y, String.length y = 10%nat → lsn_lt last y = negb (lsn_lt y from)) →
  (∃ t c, t ∈ tables ∧ c ∈ ct t ∧ ct_start c = found ∧ between from upper c = true) →
  (∀ t c, t ∈ tables → c ∈ ct t → between from upper c = true → lsn_lt (ct_start c) found = false) →
  (∀ x rs, q_changes (po_q io) (changesQuery tables).1 x = Got (rs, Got tt) →
     rs ≡ₚ changes_at ct tables x ∧ Sorted (λ a b, change_lt b a = false) rs) →
  drained s st log → Z.of_nat (length log + (2 * N + 2)) < 2 ^ 64 - 1 →
  poll_transaction FormatFloat fs cfg io expected from upper found env s = (env', s', Ok progress) →
  progress = true ∧ ∃ ms, streamed h tables last found [found] [ms] ∧ gained st log found ms s' ∧ (length ms ≤ 2 * N + 2)%nat.
Proof.
  intros Hct Hlow Hinc (t0 & c0 & Ht0 & Hc0 & E0 & Hb0) Hmin Hchg Hdr Hbd H. unfold poll_transaction, readChanges in H.
  apply staging_bind_Ok in H as (? & ? & x & (-> & -> & [Ex Hlen]%binaryLSN_Ok)%pure_Ok & H). subst x.
  apply staging_bind_Ok in H as (? & ? & u & (-> & -> & [Hge Hle]%fail_if_Ok%orb_false_iff)%pure_Ok & H).
  apply staging_bind_Ok in H as (env1 & s1 & [count b] & H1 & H).
  apply staging_bind_Ok in H1 as (? & ? & [rs ending] & (-> & -> & Hq%dbError_Ok)%pure_Ok & H1). cbn [fst snd] in *.
  apply read_changes_rows in H1 as (rows & Hc & Hadd & -> & Hrl & -> & Hs & _).
  st_inv H. repeat match goal with u : unit |- _ => destruct u end.
  destruct (Hchg _ _ Hq) as [Hp Hord]. pose proof (strictly_ordered _ Hord Hs) as Hinc'.
  assert (∀ t, t ∈ tables → lsn_lt (ct_start c0) (low t) = false) as Hlow' by (intros; eapply lsn_le_trans; [by apply Hlow|done]).
  rewrite (changes_retained ct h tables upper low _ Hct Hlow' Hle) in Hp.
  match goal with Hf : flush _ _ _ _ = _, Ha : append _ _ _ _ = _, Hpu : Publish _ _ _ = _ |- _ =>
    destruct (transaction_gained _ rs rows env s st log _ _ _ _ _ _ _ _ _ Hp Hc Hrl Hdr Hbd Hadd Hf Ha Hpu) as (ms & Hms & Hg & Hml) end.
  assert (lsn_lt last (ct_start c0) = true) as Hnew by (rewrite (Hinc _ Hlen); by rewrite Hge).
  split; [done|]. exists ms. split; [|by split]. split_and!; [done|by apply lsn_lt_asym|constructor; constructor| |constructor; [by exists rs, rows|constructor]].
  intros x. rewrite list_elem_of_singleton. split.
  - intros ->. split_and!; [|done|apply string_ltb_irrefl]. exists t0, c0. split_and!; [done| |done].
    apply (change_retained ct h tables upper low); [done|done| |done]. unfold between. by rewrite (Hlow' t0 Ht0), Hle.
  - intros ((t & r & Ht & Hr & <-) & Hx & Hx'). rewrite (Hinc _ (Hhist t r Ht Hr)) in Hx. apply negb_true_iff in Hx.
    assert (lsn_lt upper (ct_start r) = false) as Hup by (by eapply lsn_le_trans).
    assert (between from upper r = true) as Hbt by (unfold between; by rewrite Hx, Hup).
    assert (r ∈ ct t) as Hrc.
    { apply (change_retained ct h tables upper low); [done|done| |done]. unfold between. rewrite Hup.
      by rewrite (lsn_le_trans _ _ _ (Hlow t Ht) Hx). }
    pose proof (Hmin t r Ht Hrc Hbt). destruct (string_ltb_total (ct_start r) (ct_start c0)) as [?|[?|?]]; unfold lsn_lt in *; congruence.
Qed.

Lemma poll_step io last env s st log env' s' progress :
  shows h tables (po_q io) → drained s st log → State.DurableLSN st = lsn_String last → String.length last = 10%nat →
  Z.of_nat (length log + (2 * N + 2)) < 2 ^ 64 - 1 →
  poll FormatFloat fs cfg io expected env s = (env', s', Ok progress) →
  ∃ last' xs mss, streamed h tables last last' xs mss ∧ gained st log last' (concat mss) s' ∧
    Z.of_nat (length (concat mss)) ≤ 2 * Z.of_nat N + 2.
Proof.
  intros (ct & upper & low & Hmax & Hinc & Hmn & Hct & Hnext & Hchg) Hdr Hlast Hlen Hbd H. unfold poll in H.
  apply staging_bind_Ok in H as (? & ? & st0 & (-> & -> & Hst)%get_state_Ok & H).
  unfold GetState in Hst. rewrite (inv_read _ _ _ (proj1 Hdr)) in Hst. injection Hst as <-.
  apply staging_bind_Ok in H as (? & ? & x & (-> & -> & Hx)%pure_Ok & H). rewrite Hlast, parse_lsn in Hx by done. injection Hx as <-.
  apply staging_bind_Ok in H as (? & ? & [] & (-> & -> & _)%pure_Ok & H). apply map_err_Ok in H.
  apply staging_bind_Ok in H as (? & ? & current & (-> & -> & _)%pure_Ok & H).
  apply staging_bind_Ok in H as (? & ? & [] & (-> & -> & _)%pure_Ok & H).
  apply staging_bind_Ok in H as (? & ? & u & (-> & -> & [Hu Hul]%getLSN_Ok)%pure_Ok & H). rewrite (Hmax _ Hu) in *. clear u Hu.
  apply staging_bind_Ok in H as (? & ? & [] & (-> & -> & Hle%fail_if_Ok)%pure_Ok & H).
  destruct (String.eqb_spec upper last) as [->|Hne].
  { apply staging_bind_Ok in H as (? & ? & [] & (-> & -> & _)%pure_Ok & (-> & -> & ->)%staging_ret_Ok).
    exists last, [], []. split_and!; [|exists st, []; rewrite app_nil_r; by split_and!|cbn; lia].
    apply streamed_none; [done|done|]. intros y _ H1 H2. congruence. }
  apply staging_bind_Ok in H as (? & ? & from & (-> & -> & [Hf Hfl]%getLSN_Ok)%pure_Ok & H).
  apply staging_bind_Ok in H as (? & ? & [] & (-> & -> & Hv)%pure_Ok & H).
  apply staging_bind_Ok in H as (? & ? & found & (-> & -> & Hfound%dbError_Ok)%pure_Ok & H).
  pose proof (Hinc last from Hf) as Hinc'. specialize (Hnext from found Hfound).
  assert (∀ t, t ∈ tables → lsn_lt from (low t) = false) as Hlow.
  { intros t Ht. destruct (validate_low _ _ _ Hv t Ht) as (r & Hr & E). by rewrite (Hmn t r Ht Hr) in E. }
  destruct (String.eqb_spec found "") as [E|Hfne].
  - apply staging_bind_Ok in H as (? & ? & [] & (-> & -> & _)%pure_Ok & H).
    apply staging_bind_Ok in H as (? & s1 & [] & [-> Hp]%on_queue_Ok & (-> & -> & ->)%staging_ret_Ok).
    subst found. exists upper, [], []. split_and!; [|by eapply publish_gained; [done|apply extends_refl|apply Hdr|]|cbn; lia].
    apply streamed_none; [done|done|]. intros y (t & r & Ht & Hr & <-) H1 H2. rewrite (Hinc' _ (Hhist t r Ht Hr)) in H1.
    apply negb_true_iff in H1. assert (r ∈ ct t) as Hrc.
    { apply (change_retained ct h tables upper low); [done|done| |done]. unfold between. by rewrite H2, (lsn_le_trans _ _ _ (Hlow t Ht) H1). }
    specialize (Hnext t r Ht Hrc). unfold between in Hnext. rewrite H1, H2 in Hnext. done.
  - destruct Hnext as [Hex Hmin].
    apply (poll_transaction_step io last from upper found ct low) with (log := log) (st := st) in H as [_ (ms & Hs & Hg & Hml)]; try done.
    exists found, [found], [ms]. cbn [concat]. rewrite app_nil_r. split_and!; [done|done|lia].
Qed.

Lemma polls_steps ios last env s st log env' s' :
  Forall (λ io, shows h tables (po_q io)) ios → drained s st log → State.DurableLSN st = lsn_String last →
  String.length last = 10%nat → Z.of_nat (length log + length ios * (2 * N + 2)) < 2 ^ 64 - 1 →
  polls FormatFloat fs cfg ios expected env s = (env', s', Ok tt) →
  ∃ last' xs mss, streamed h tables last last' xs mss ∧ gained st log last' (concat mss) s'.
Proof.
  intros Hios. revert last env s st log. induction Hios as [|io ios Hio _ IH]; intros last env s st log Hdr Hd Hlen Hbd; cbn [polls].
  { intros (-> & -> & _)%staging_ret_Ok. exists last, [], []. split; [|exists st, []; rewrite app_nil_r; by split_and!].
    apply streamed_none; [done|apply string_ltb_irrefl|]. intros x _ H1 H2. congruence. }
  intros (env1 & s1 & progress & H1%map_err_Ok & H2)%staging_bind_Ok. cbn [length] in Hbd.
  eapply poll_step in H1 as (last1 & xs & mss & Hs & Hg & Hml); try done; [|lia].
  pose proof Hg as (st1 & ys & Hdr1 & Hy & Hd1 & Hgen & Hph). apply Forall2_length in Hy as Hyl.
  destruct (IH last1 env1 s1 st1 (log ++ ys) Hdr1 Hd1) as (last2 & xs2 & mss2 & Hs2 & Hg2); [apply Hs|rewrite length_app; lia|done|].
  exists last2, (xs ++ xs2), (mss ++ mss2). split; [by eapply streamed_trans|]. rewrite concat_app.
  destruct Hg2 as (st2 & zs & Hdr2 & Hz & Hd2 & Hgen2 & Hph2). exists st2, (ys ++ zs). rewrite app_assoc.
  split_and!; [done|by apply Forall2_app|done|congruence|congruence].
Qed.
End transaction.

(** ** Polls that fail *)

Section failures.
Context (FormatFloat : Z → Z → string) (fs : filesystem) (cfg : config.Config.t).

Lemma runs_read_changes l all ending rs : answer_ok FormatFloat fs cfg l all → (∀ r, r ∈ rs → r ∈ all) → ∀ before previous count b,
  (∀ c', before = Some c' → ∃ r' t', r' ∈ all ∧ read_change l r' = Ok (t', c')) → carries "transaction_rows" b [] →
  runs (2 * length rs) (read_changes FormatFloat fs cfg l rs ending before previous count b)
    (λ x ms, carries "transaction_rows" x.2 []).
Proof.
  intros Hok. induction rs as [|r rs IH]; intros Hin before previous count b Hb Hm; cbn [read_changes].
  { apply (runs_bind 0 0 _ _ (λ _ _, True)); [by apply runs_pure|]. intros [] ? _.
    apply (runs_bind 0 0 _ _ (λ _ _, True)); [by apply runs_pure|]. intros [] ? _. by apply runs_ret. }
  assert (∀ r, r ∈ rs → r ∈ all) as Hin' by (intros; apply Hin; by right).
  apply (runs_bind 0 (2 * length (r :: rs)) _ _ (λ x _, read_change l r = Ok x)); [by apply runs_pure|]. intros [t c] ? Hr. cbn [fst snd].
  apply (runs_bind 0 (2 * length (r :: rs)) _ _ (λ x _, next_change FormatFloat t before previous c = Ok x)); [by apply runs_pure|].
  intros [row|] ? Hn.
  - apply next_change_row in Hn as [_ [Hcv _]]. apply (runs_weaken (2 + 2 * length rs) _ _ (λ x _, carries "transaction_rows" x.2 [])); [|cbn [length]; lia|done].
    eapply runs_bind; [apply runs_add; [done|]|].
    + intros row' Ha. eapply (Hok r t c before row _ row'); [apply Hin; left|done|done|done|apply u64_range|done].
    + intros b' ? (? & ? & _). apply IH; by try split_and!.
  - apply next_change_row in Hn as [_ [_ ->]]. eapply runs_weaken; [apply IH; [done| |done]|cbn [length]; lia|done].
    intros c' [= <-]. exists r, t. split; [apply Hin; left|done].
Qed.

Lemma poll_fails io expected n :
  (∀ x rs ending, q_changes (po_q io) (changesQuery (Inspection.Tables expected)).1 x = Got (rs, ending) →
     answer_ok FormatFloat fs cfg (Inspection.Tables expected) rs ∧ (length rs ≤ n)%nat) →
  fails (2 * n + 2) (poll FormatFloat fs cfg io expected).
Proof.
  intros Hans. unfold poll. apply (fails_bind 0 _ _ _ (λ _ _, True)).
  { intros env s st log env' s' r HI _ H. injection H as _ <- <-. exists [], st, log. split_and!; [done|apply extends_refl|cbn; lia|].
    unfold GetState. by rewrite (inv_read _ _ _ HI). }
  intros st ? _. do 2 (apply fails_pure; intros). apply fails_map_err. do 4 (apply fails_pure; intros). case_if.
  { apply fails_pure. intros. eapply runs_fails, runs_ret with (post := λ _ _, True). done. }
  do 3 (apply fails_pure; intros). case_if; [apply fails_pure; intros; apply fails_publish|].
  unfold poll_transaction, readChanges. do 2 (apply fails_pure; intros).
  match goal with H : binaryLSN _ = Ok ?x |- _ => rename x into next end.
  apply (fails_bind (2 * n) 2 _ _ (λ x _, carries "transaction_rows" x.2 [])).
  - apply (runs_bind 0 (2 * n) _ _ (λ x _, dbError (q_changes (po_q io) (changesQuery (Inspection.Tables expected)).1 next) = Ok x)).
    { by apply runs_pure. }
    intros [rs ending] ? Hq%dbError_Ok. destruct (Hans _ _ _ Hq) as [Hok Hlen].
    eapply runs_weaken; [apply (runs_read_changes _ rs); [done|done|done|]|cbn [fst]; lia|done].
    split_and!; [by apply lsn_message_ok|done|constructor].
  - intros [count b] ? Hb. do 3 (apply fails_pure; intros). apply (fails_bind 1 1 _ _ (carries "transaction_rows")).
    { by apply runs_flush. }
    intros b' ? (Hb' & _). apply (fails_bind 1 0 _ _ (λ _ _, True)).
    { eapply runs_weaken; [apply runs_append, lsn_message_ok; [done|]|done|done].
      unfold Message_ok in Hb'. bool_prop. done. }
    intros [] ? _. apply fails_pure. intros. apply fails_publish.
Qed.
End failures.

(** ** Snapshots *)

Section snapshot.
Context (FormatFloat : Z → Z → string) (fs : filesystem) (cfg : config.Config.t) (io : snapshot_io).
Hypothesis Hlim : limits_ok cfg.

(** The rows of a table as the transaction reads them. *)
Definition table_rows (t : Table.t) (rows : list Row.t) : Prop := ∃ raws,
  q_values (sn_q io) (rows_query t) = Got (raws, Got tt) ∧ Forall2 (λ raw row, read_row FormatFloat t raw = Ok row) raws rows.

(** The schema and the rows of a table can be carried by the wire format. *)
Definition table_ok (t : Table.t) : Prop := Message_ok (schema_message t) = true ∧
  ∀ rows row row', table_rows t rows → row ∈ rows → Apply fs cfg row = Ok row' → Row_ok row' = true.

Lemma fence_rows_add t l b env s env' s' b' : snapshot_rows FormatFloat fs cfg t l b env s = (env', s', Ok b') →
  ∃ rows, Forall2 (λ raw row, read_row FormatFloat t raw = Ok row) l rows ∧ add_all (add full fs cfg) rows b env s = (env', s', Ok b').
Proof.
  revert b env s. induction l as [|raw l IH]; intros b env s; cbn [snapshot_rows].
  { intros (-> & -> & ->)%staging_ret_Ok. by exists []. }
  intros (? & ? & row & (-> & -> & Hr)%pure_Ok & H)%staging_bind_Ok. apply staging_bind_Ok in H as (env2 & s2 & b2 & Ha & H).
  apply IH in H as (rows & Hrs & Has). exists (row :: rows). split; [by constructor|]. apply staging_bind_Ok. by eexists _, _, _.
Qed.

(** [ms] holds the tables, each with its rows. *)
Definition tables_messages (l : list Table.t) (ms : list Message.t) : Prop := ∃ mss, ms = concat mss ∧
  Forall2 (λ t ms, ∃ rows, table_rows t rows ∧ table_messages fs cfg (schema_message t) rows ms) l mss.

Definition raws_of (t : Table.t) : nat := match q_values (sn_q io) (rows_query t) with Got (l, _) => length l | Failed _ => 0 end.
Definition tables_bound (l : list Table.t) : nat := sum_list_with (λ t, 2 * raws_of t + 2)%nat l.

Lemma snapshot_tables_staged l : Forall table_ok l →
  stages (tables_bound l) (snapshot_tables FormatFloat fs cfg (sn_q io) l 0) (λ _ ms, tables_messages l ms).
Proof.
  induction 1 as [|t l [Hm Hrows] _ IH]; cbn [snapshot_tables]; [by apply stages_ret; exists []|].
  intros env s st log env' s' [] HI Hb H. unfold tables_bound in Hb. cbn [sum_list_with] in Hb. fold (tables_bound l) in Hb.
  apply staging_bind_Ok in H as (env1 & s1 & [] & Happ & H).
  apply staging_bind_Ok in H as (env2 & s2 & b & H1%map_err_Ok & H). apply staging_bind_Ok in H as (env3 & s3 & b' & Hfl & H).
  unfold snapshotRows in H1. apply staging_bind_Ok in H1 as (? & ? & [raws ending] & (-> & -> & Hq%dbError_Ok)%pure_Ok & H1).
  apply staging_bind_Ok in H1 as (? & ? & b1 & Hr & H1). cbn [fst snd] in *.
  apply staging_bind_Ok in H1 as (? & ? & [] & (-> & -> & Hend%dbError_Ok)%pure_Ok & (-> & -> & ->)%staging_ret_Ok). subst ending.
  apply fence_rows_add in Hr as (rows & Hf & Hadd). assert (raws_of t = length rows) as En.
  { unfold raws_of. rewrite Hq. by eapply Forall2_length. }
  assert (table_rows t rows) as Htr by (by exists raws).
  destruct (table_staged full fs cfg Hlim (schema_message t) rows env s st log _ _ _ _ _ _ _ _ Hm ltac:(intros; by eapply Hrows)
    HI ltac:(lia) Happ Hadd Hfl) as [Hsz (ms & st1 & log1 & HI1 & He1 & Hl1 & Htm)].
  pose proof (extends_length _ _ _ _ _ He1) as Hlog. rewrite Hsz in H.
  destruct (IH env3 s3 st1 log1 env' s' tt HI1 ltac:(lia) H) as (ms' & st2 & log2 & HI2 & He2 & Hl2 & mss & -> & Hmss).
  exists (ms ++ concat mss), st2, log2. unfold tables_bound. cbn [sum_list_with]. fold (tables_bound l).
  split_and!; [done|by eapply extends_trans|rewrite length_app; lia|]. exists (ms :: mss). split; [done|]. constructor; [|done]. by exists rows.
Qed.

(** What the queue holds after a snapshot whose fence is [fence]. *)
Definition snapshot_queued (l : list Table.t) (fence : lsn) (generation : string) (st : State.t) (log : list Message.t) : Prop :=
  ∃ ms xs, tables_messages l ms ∧ Forall2 stamped (begin_message l :: ms ++ [kind_message "snapshot_end"]) xs ∧
    log = Message.set_LSN (lsn_String fence) <$> xs ∧ State.Phase st = "stream" ∧ State.DurableLSN st = lsn_String fence ∧
    State.ReadySeq st = State.NextSeq st ∧ State.Generation st = generation.

Lemma fence_stages l : Forall table_ok l → Message_ok (begin_message l) = true →
  stages (1 + (tables_bound l + 1))
    (_ ← append full (begin_message l); _ ← snapshot_tables FormatFloat fs cfg (sn_q io) l 0; append full (kind_message "snapshot_end"))
    (λ _ ms, ∃ ms', tables_messages l ms' ∧ ms = begin_message l :: ms' ++ [kind_message "snapshot_end"]).
Proof.
  intros Ht Hm. eapply stages_bind; [by apply stages_append|]. intros [] ms ->.
  eapply stages_bind; [by apply snapshot_tables_staged|]. intros [] ms Hst.
  eapply stages_weaken; [by apply stages_append|lia|]. intros [] ms' ->. by exists ms.
Qed.
End snapshot.

(** ** The theorems *)

(** C19 Polling captures every committed transaction exactly once and in the order of
    the log.  After any number of polls that succeed, the checkpoint has moved
    from [last] to some [last'], and what the queue has gained, all of it
    published, are the transactions of the captured tables with a log sequence
    number in between, each with all its changes in their order, the two images of
    an update as one row, in chunks within the limits.  The change tables may be
    cleaned up meanwhile: the test of the low watermarks makes sure that nothing
    that was not read is missing. *)
Theorem cdc_captured FormatFloat fs cfg h expected N ios last env s st log env' s' :
  limits_ok cfg → history_ok h (Inspection.Tables expected) →
  (∀ x, answer_ok FormatFloat fs cfg (Inspection.Tables expected) (changes_at h (Inspection.Tables expected) x)) →
  (∀ x, (length (changes_at h (Inspection.Tables expected) x) ≤ N)%nat) →
  Forall (λ io, shows h (Inspection.Tables expected) (po_q io)) ios →
  drained s st log → State.DurableLSN st = lsn_String last → String.length last = 10%nat →
  Z.of_nat (length log + length ios * (2 * N + 2)) < 2 ^ 64 - 1 →
  polls FormatFloat fs cfg ios expected env s = (env', s', Ok tt) →
  ∃ last' xs mss, streamed FormatFloat fs cfg h (Inspection.Tables expected) last last' xs mss ∧
    gained st log last' (concat mss) s'.
Proof. intros. by eapply polls_steps. Qed.

(** A poll that fails, for whatever reason and after any number of rows, publishes
    nothing: the recovery of the next attempt leaves the queue as it was before the
    poll, with the same checkpoint and nothing unpublished. *)
Theorem poll_recovers FormatFloat fs cfg io expected n env s st log env' s' e :
  (∀ x rs ending, q_changes (po_q io) (changesQuery (Inspection.Tables expected)).1 x = Got (rs, ending) →
     answer_ok FormatFloat fs cfg (Inspection.Tables expected) rs ∧ (length rs ≤ n)%nat) →
  drained s st log → Z.of_nat (length log + (2 * n + 2)) < 2 ^ 64 - 1 →
  poll FormatFloat fs cfg io expected env s = (env', s', Err e) →
  ∃ s'', Recover s' = (s'', Ok tt) ∧ same_queue st log s''.
Proof. intros Hans. apply fails_recover. by apply poll_fails. Qed.

(** C22 A snapshot that succeeds replaces the contents of the queue by itself: the
    begin, for every table its schema and the rows the locking transaction read,
    in chunks within the limits, the end; all of it carries the log sequence number
    at which the fence was captured, is published at once, and starts the stream
    there, in the generation named by the fence's token. *)
Theorem fence_snapshot FormatFloat fs cfg io info token env s env' s' st log :
  limits_ok cfg → sn_token io = Ok token → State_ok (snapshot_state cfg info (hex_encode token)) = true →
  Message_ok (begin_message (Inspection.Tables info)) = true →
  Forall (table_ok FormatFloat fs cfg io) (Inspection.Tables info) → Inv s st log →
  Z.of_nat (tables_bound io (Inspection.Tables info)) < 2 ^ 64 - 5 →
  snapshot FormatFloat fs cfg io info env s = (env', s', Ok tt) →
  ∃ fence st' log', waitFence io (Inspection.Fence info) (hex_encode token) = Ok fence ∧ Inv s' st' log' ∧
    snapshot_queued FormatFloat fs cfg io (Inspection.Tables info) fence (hex_encode token) st' log'.
Proof.
  intros Hlim Htk Hst Hbm Ht HI Hb H. unfold snapshot in H. rewrite Htk in H. st_inv H.
  repeat match goal with u : unit |- _ => destruct u end.
  match goal with H : Initialize _ _ = _ |- _ => rename H into Hini end.
  match goal with H : FinalizeSnapshotLSN _ _ = _ |- _ => rename H into Hfin end.
  match goal with H : Publish _ _ _ = _ |- _ => rename H into Hpub end.
  match goal with H : wrap _ (waitFence _ _ _) = Ok ?x |- _ => apply wrap_Ok in H; rename H into Hwait; rename x into fence end.
  apply (Initialize_Inv _ _ _ _ _ HI Hst) in Hini.
  edestruct (fence_stages FormatFloat fs cfg io Hlim) as (ms & st1 & log1 & HI1 & He & _ & ms' & Hms & ->);
    [exact Ht|exact Hbm|exact Hini| |apply staging_bind_Ok; eexists _, _, _; split; [eassumption|]; apply staging_bind_Ok;
      eexists _, _, _; split; eassumption|]; [cbn [length]; lia|].
  apply (FinalizeSnapshotLSN_Inv _ _ _ _ _ HI1) in Hfin as (_ & _ & st2 & HI2 & _ & _ & _ & _ & _ & Hg2); [|apply utf8_lsn].
  apply (PublishSource_Inv _ _ _ _ _ _ _ HI2) in Hpub as [_ HI3]; [|apply utf8_lsn|done].
  destruct He as [(xs & -> & Hx) _ _ _ Hg1 _ _]. exists fence. eexists _, _. split; [done|]. split; [exact HI3|]. exists ms', xs.
  split_and!; try done. cbn in *. congruence.
Qed.

(** ** Two transactions of one table *)

Lemma ltb_bytes a x b y : String.ltb (String a x) (String b y) = true ↔
  byte_val a < byte_val b ∨ (byte_val a = byte_val b ∧ String.ltb x y = true).
Proof.
  rewrite ltb_cons. unfold Ascii.compare, byte_val. rewrite N.compare_lt_iff.
  split; (intros [?|[E ?]]; [left; lia|right; split; [|done]]); [by rewrite E|by apply byte_val_inj].
Qed.

(** Consecutive numbers that differ in the last byte. *)
Lemma increment_last p a b y : byte_val b = byte_val a + 1 → String.length y = S (String.length p) →
  lsn_lt (p +:+ String a "") y = negb (lsn_lt y (p +:+ String b "")).
Proof.
  intros Hab. revert y. induction p as [|c p IH]; intros [|d y] Hl; try done.
  - destruct y; [|done]. cbn [String.append]. apply eq_true_iff_eq. unfold lsn_lt. rewrite negb_true_iff, <-not_true_iff_false.
    rewrite !ltb_bytes, string_ltb_irrefl. split; [intros [?|[_ ?]] [?|[_ ?]]; (done || lia)|].
    intros H. destruct (Z.lt_ge_cases (byte_val a) (byte_val d)); [by left|]. exfalso. apply H. left. lia.
  - cbn [String.append]. specialize (IH y ltac:(cbn in Hl; lia)). apply eq_true_iff_eq. unfold lsn_lt in *.
    rewrite negb_true_iff, <-not_true_iff_false. rewrite !ltb_bytes, IH, negb_true_iff.
    destruct (String.ltb y (p +:+ String b "")); [|destruct (Z.eq_dec (byte_val c) (byte_val d))].
    + split; [intros [?|[_ ?]]; [|done]|]; [intros [?|[? _]]; lia|]. intros H. left. destruct (Z.lt_trichotomy (byte_val c) (byte_val d)) as [|[|]]; [done|..];
        exfalso; apply H; auto.
    + split; [intros _ [?|[_ ?]]; (done || lia)|]. auto.
    + split; [intros [?|[? _]] [?|[? _]]; lia|]. intros H. left. destruct (Z.lt_trichotomy (byte_val c) (byte_val d)) as [|[|]]; [done|done|].
      exfalso; apply H; auto.
Qed.

Definition at_byte (n : Z) : lsn := of_bytes (replicate 9 0 ++ [n]).

Definition no_floats (bits width : Z) : string := "".

Definition demo_mssql_columns : list column_row :=
  [mkColumnRow "id" "int" 4 10 0 false None false true (Some 1) None true;
   mkColumnRow "data" "varbinary" (-1) 0 0 true None false false (Some 2) None true].
Definition demo_fence_columns : list column_row :=
  [mkColumnRow "token" "varchar" 64 0 0 false None false true (Some 1) None true].

Definition demo_mssql_table : Table.t :=
  Table.mk "sqlserver" "public" "t" ""
    [Column.mk "id" "int" true None true "int" 1 4 None; Column.mk "data" "varbinary(max)" false None false "varbinary" 2 (-1) None]
    1 11 "public_t" "2026" true.
Definition demo_fence : Table.t :=
  Table.mk "sqlserver" "" "" "" [Column.mk "token" "varchar(64)" true None true "varchar" 1 64 None] 2 12 "fence" "2026" true.
Definition demo_mssql_info : Inspection.t := Inspection.mk "16.0.1" "Developer" "db" "host/1/2" [demo_mssql_table] demo_fence.

(** An insertion, and an update whose long value is unchanged. *)
Definition demo_history : history := λ _,
  [mkCT (at_byte 17) (at_byte 1) 1 2 (of_bytes [3]) [Some "1"; Some "0A"];
   mkCT (at_byte 20) (at_byte 1) 1 3 (of_bytes [1]) [Some "1"; None];
   mkCT (at_byte 20) (at_byte 1) 1 4 (of_bytes [1]) [Some "2"; Some "0A"]].

Definition demo_increments (x : lsn) : answer string :=
  if String.eqb x (at_byte 16) then Got (at_byte 17) else if String.eqb x (at_byte 17) then Got (at_byte 18) else Failed io_EOF.
Definition demo_next (from : lsn) : answer string :=
  if String.eqb from (at_byte 17) then Got (at_byte 17) else if String.eqb from (at_byte 18) then Got (at_byte 20) else Failed io_EOF.

Definition demo_bytes (text : string) (args : list string) : answer string :=
  if String.eqb text "SELECT sys.fn_cdc_get_max_lsn()" then Got (at_byte 20)
  else if String.eqb text "SELECT sys.fn_cdc_get_min_lsn(@p1)" then Got (at_byte 1)
  else if String.eqb text "SELECT sys.fn_cdc_increment_lsn(@p1)" then match args with [x] => demo_increments x | _ => Failed io_EOF end
  else match args with [from; _] => demo_next from | _ => Failed io_EOF end.

Definition demo_q : querier :=
  mkQuerier (Got ("16.0.1", "Developer", "db", "host/1/2", true, 1))
    (λ ref, if String.eqb (config.Table.Name ref) "t" then Got ([mkInstance 1 11 "public_t" "2026" true false], Got tt)
            else Got ([mkInstance 2 12 "fence" "2026" true false], Got tt))
    (λ o _, if o =? 1 then Got (demo_mssql_columns, Got tt) else Got (demo_fence_columns, Got tt))
    demo_bytes
    (λ _ x, Got (changes_at demo_history [demo_mssql_table] x, Got tt))
    (λ _, Got ([[Some "1"; Some "0A"]; [Some "2"; None]], Got tt)).

Definition demo_poll : poll_io := mkPoll (Got tt) demo_q demo_q (Got tt) (Got tt).

Definition demo_lsn_ops : list Op := [OInitialize demo_state; OPublish (lsn_String (at_byte 16)) true ""].
Definition demo_lsn_queue : Store * State.t * list Message.t := default demo_queue_open (exec demo_lsn_ops demo_queue_open).

Lemma demo_lsn_drained : drained demo_lsn_queue.1.1 demo_lsn_queue.1.2 demo_lsn_queue.2.
Proof.
  split; [|vm_compute; reflexivity].
  apply reach_Inv, (exec_reach demo_lsn_ops demo_queue_open demo_lsn_queue); [vm_compute; reflexivity|apply reach_open].
Qed.

Definition demo_polled : list obs * Store * result unit :=
  polls no_floats no_files demo_capture_cfg [demo_poll; demo_poll; demo_poll] demo_mssql_info
    (replicate 6 (mkObs (Ok (2 ^ 40)) demo_time [])) demo_lsn_queue.1.1.

Lemma demo_polled_Ok :
  polls no_floats no_files demo_capture_cfg [demo_poll; demo_poll; demo_poll] demo_mssql_info
    (replicate 6 (mkObs (Ok (2 ^ 40)) demo_time [])) demo_lsn_queue.1.1 = (demo_polled.1.1, demo_polled.1.2, Ok tt).
Proof. vm_compute. reflexivity. Qed.

Lemma demo_history_elem t c : c ∈ demo_history t →
  c = mkCT (at_byte 17) (at_byte 1) 1 2 (of_bytes [3]) [Some "1"; Some "0A"] ∨
  c = mkCT (at_byte 20) (at_byte 1) 1 3 (of_bytes [1]) [Some "1"; None] ∨
  c = mkCT (at_byte 20) (at_byte 1) 1 4 (of_bytes [1]) [Some "2"; Some "0A"].
Proof. unfold demo_history. rewrite !elem_of_cons, elem_of_nil. naive_solver. Qed.

Lemma demo_shows : shows demo_history [demo_mssql_table] demo_q.
Proof.
  exists demo_history, (at_byte 20), (λ _, at_byte 1). split_and!.
  - by intros r [= <-].
  - intros x r H y Hy. change (demo_increments x = Got r) in H. unfold demo_increments in H.
    destruct (String.eqb_spec x (at_byte 16)) as [->|]; [|destruct (String.eqb_spec x (at_byte 17)) as [->|]; [|done]];
      injection H as <-; by apply (increment_last (of_bytes (replicate 9 0))).
  - by intros t r _ [= <-].
  - done.
  - intros from r H. change (demo_next from = Got r) in H. unfold demo_next in H.
    destruct (String.eqb_spec from (at_byte 17)) as [->|]; [|destruct (String.eqb_spec from (at_byte 18)) as [->|]; [|done]];
      injection H as <-.
    + change (String.eqb (at_byte 17) "") with false. split.
      * eexists demo_mssql_table, _. split_and!; [left|left|done|done].
      * intros t c _ Hc%demo_history_elem _. destruct Hc as [->|[->| ->]]; done.
    + change (String.eqb (at_byte 20) "") with false. split.
      * eexists demo_mssql_table, _. split_and!; [left|right; left|done|done].
      * intros t c _ Hc%demo_history_elem Hb. destruct Hc as [->|[->| ->]]; done.
  - intros x rs [= <-]. split; [done|]. unfold changes_at. cbn [imap concat demo_history List.filter ct_start].
    rewrite app_nil_r. destruct (String.eqb_spec (at_byte 17) x) as [<-|]; [by repeat constructor|].
    destruct (String.eqb (at_byte 20) x); by repeat constructor.
Qed.

Lemma demo_changes x r : r ∈ changes_at demo_history [demo_mssql_table] x →
  ∃ c, c ∈ demo_history demo_mssql_table ∧ r = change_of 2 0 demo_mssql_table c.
Proof.
  unfold changes_at. cbn [imap concat]. rewrite app_nil_r. intros (c & -> & Hc)%list_elem_of_fmap. exists c. split; [|done].
  apply list_elem_of_In. apply list_elem_of_In, filter_In in Hc. tauto.
Qed.

Lemma demo_answer_ok x : answer_ok no_floats no_files demo_capture_cfg [demo_mssql_table] (changes_at demo_history [demo_mssql_table] x).
Proof.
  intros r t c b row n row' Hr Hread Hb Hcv Hn Ha. apply demo_changes in Hr as (c0 & Hc0%demo_history_elem & ->).
  assert (b = None ∨ ∃ c1 t1 k1, c1 ∈ demo_history demo_mssql_table ∧
    read_change [demo_mssql_table] (change_of 2 0 demo_mssql_table c1) = Ok (t1, k1) ∧ b = Some k1) as Hb'.
  { destruct b as [k|]; [right|by left]. destruct (Hb k eq_refl) as (r' & t' & (c1 & Hc1 & ->)%demo_changes & Hr'). by exists c1, t', k. }
  clear Hb. destruct Hb' as [->|(c1 & t1 & k1 & Hc1%demo_history_elem & Hread1 & ->)];
    [|destruct Hc1 as [->|[->| ->]]; vm_compute in Hread1; injection Hread1 as <- <-];
    destruct Hc0 as [->|[->| ->]]; vm_compute in Hread; injection Hread as <- <-;
    vm_compute in Hcv; try discriminate Hcv; injection Hcv as <-; vm_compute in Ha; injection Ha as <-; row_ok n.
Qed.

Lemma demo_changes_length x : (length (changes_at demo_history [demo_mssql_table] x) ≤ 3)%nat.
Proof.
  unfold changes_at. cbn [imap concat demo_history List.filter ct_start].
  destruct (String.eqb (at_byte 17) x), (String.eqb (at_byte 20) x); cbn; lia.
Qed.

Lemma cdc_captured_witness : ∃ last' xs mss,
  streamed no_floats no_files demo_capture_cfg demo_history [demo_mssql_table] (at_byte 16) last' xs mss ∧
  gained demo_lsn_queue.1.2 demo_lsn_queue.2 last' (concat mss) demo_polled.1.2.
Proof.
  refine (cdc_captured no_floats no_files demo_capture_cfg demo_history demo_mssql_info 3 [demo_poll; demo_poll; demo_poll]
    (at_byte 16) (replicate 6 (mkObs (Ok (2 ^ 40)) demo_time [])) demo_lsn_queue.1.1 demo_lsn_queue.1.2 demo_lsn_queue.2
    demo_polled.1.1 demo_polled.1.2 _ _ demo_answer_ok demo_changes_length _ demo_lsn_drained _ _ _ demo_polled_Ok).
  - unfold limits_ok. cbn. lia.
  - intros t r _ Hr%demo_history_elem. destruct Hr as [->|[->| ->]]; reflexivity.
  - constructor; [exact demo_shows|]. constructor; [exact demo_shows|]. constructor; [exact demo_shows|constructor].
  - vm_compute. reflexivity.
  - reflexivity.
  - vm_compute. reflexivity.
Defined.

(** A poll whose commit fails. *)
Definition demo_failing : poll_io := mkPoll (Got tt) demo_q demo_q (Failed ErrBadConn) (Got tt).
Definition demo_failed : list obs * Store * result bool :=
  poll no_floats no_files demo_capture_cfg demo_failing demo_mssql_info (replicate 6 (mkObs (Ok (2 ^ 40)) demo_time [])) demo_lsn_queue.1.1.

Lemma demo_failed_Err :
  poll no_floats no_files demo_capture_cfg demo_failing demo_mssql_info (replicate 6 (mkObs (Ok (2 ^ 40)) demo_time []))
    demo_lsn_queue.1.1 = (demo_failed.1.1, demo_failed.1.2, Err (databaseError ErrBadConn)).
Proof. vm_compute. reflexivity. Qed.

Lemma poll_recovers_witness : ∃ s'', Recover demo_failed.1.2 = (s'', Ok tt) ∧ same_queue demo_lsn_queue.1.2 demo_lsn_queue.2 s''.
Proof.
  refine (poll_recovers no_floats no_files demo_capture_cfg demo_failing demo_mssql_info 3
    (replicate 6 (mkObs (Ok (2 ^ 40)) demo_time [])) demo_lsn_queue.1.1 demo_lsn_queue.1.2 demo_lsn_queue.2 demo_failed.1.1
    demo_failed.1.2 (databaseError ErrBadConn) _ demo_lsn_drained _ demo_failed_Err).
  - intros x rs ending H. injection H as <- <-. split; [apply demo_answer_ok|apply demo_changes_length].
  - vm_compute. reflexivity.
Defined.

Definition demo_fence_cfg : config.Config.t :=
  config.Config.mk "" (config.Config.GRPC_ config.Defaults) (config.Config.Replay_ config.Defaults) "sqlserver"
    (config.SQLServer.mk true config.Table.zero "1s" "30s" "1m" "1m") (config.Config.SQLServerLegacy_ config.Defaults)
    (config.Config.MySQL_ config.Defaults) (config.Config.FileWatch_ config.Defaults) "src" "sqlserver://db" ""
    [config.Table.mk "public" "t"] [] "data" "" ∅ (10 * 2 ^ 30) 0 1 1024 4096 "30s" "1s" "60s" ""
    (config.Config.Log_ config.Defaults) true "".

(** The fence is captured after one query that does not find it. *)
Definition demo_fence_io : snapshot_io :=
  mkSnapshotIO (Ok "token") (Got tt) (λ _, Got tt) demo_q (λ _ _, Got tt) (Got tt) (Got tt)
    (λ _ _, [Got None; Got (Some (at_byte 16))]).

Definition demo_fence_after : list obs * Store * result unit :=
  snapshot no_floats no_files demo_fence_cfg demo_fence_io demo_mssql_info
    (replicate 6 (mkObs (Ok (2 ^ 40)) demo_time [])) demo_queue_open.1.1.

Lemma demo_fence_Ok :
  snapshot no_floats no_files demo_fence_cfg demo_fence_io demo_mssql_info
    (replicate 6 (mkObs (Ok (2 ^ 40)) demo_time [])) demo_queue_open.1.1 = (demo_fence_after.1.1, demo_fence_after.1.2, Ok tt).
Proof. vm_compute. reflexivity. Qed.

Lemma fence_snapshot_witness : ∃ fence st' log', waitFence demo_fence_io demo_fence (hex_encode "token") = Ok fence ∧
  Inv demo_fence_after.1.2 st' log' ∧
  snapshot_queued no_floats no_files demo_fence_cfg demo_fence_io [demo_mssql_table] fence (hex_encode "token") st' log'.
Proof.
  refine (fence_snapshot no_floats no_files demo_fence_cfg demo_fence_io demo_mssql_info "token"
    (replicate 6 (mkObs (Ok (2 ^ 40)) demo_time [])) demo_queue_open.1.1 demo_fence_after.1.1 demo_fence_after.1.2
    demo_queue_open.1.2 demo_queue_open.2 _ _ _ _ _ demo_open_Inv _ demo_fence_Ok).
  - unfold limits_ok. cbn. lia.
  - reflexivity.
  - vm_compute. reflexivity.
  - vm_compute. reflexivity.
  - constructor; [|constructor]. split; [vm_compute; reflexivity|]. intros rows row row' (raws & Hq & Hf) Hin Ha.
    injection Hq as <-. apply Forall2_cons_inv_l in Hf as (r1 & rs & H1 & Hf & ->).
    apply Forall2_cons_inv_l in Hf as (r2 & rs' & H2 & Hf & ->). apply Forall2_nil_inv_l in Hf as ->.
    vm_compute in H1. injection H1 as <-. vm_compute in H2. injection H2 as <-.
    rewrite !elem_of_cons, elem_of_nil in Hin. destruct Hin as [->|[->|[]]]; vm_compute in Ha; injection Ha as <-; vm_compute; reflexivity.
  - vm_compute. reflexivity.
Defined.
