(* ===== verification/Legacy.v ===== *)
(** * The collector for old SQL Servers (internal/sqlserverlegacy)

    Triggers write every change of a captured table into an outbox of the source
    database; the collector queues a statement of the outbox as a transaction,
    publishes it together with a note of the statement, and then deletes it from
    the outbox.  The catalog is given by its answers; the outbox is a state that
    the collector's deletions and the triggers' insertions change, and every call to
    the database can fail, before or after its effect. *)

From S2P Require Import Prelude Bytes Sorting Encoding Sha256 Json JsonStruct GoTime GoPath Config Event Syncv1 FileEmbed Reconcile Queue QueueInv QueueSpec Batch SqlClient.

#[local] Opaque marshal unmarshal.

Module sqlserverlegacy.

(** ** The catalog (catalog.go) *)

Definition schemaVersion : Z := 3.

Module Column.
Record t := mk {
  Name : string;
  Type_ : string;
  NotNull : bool;
  Default : option string;
  Primary : bool;
  BaseType : string;
  Ordinal : Z;
  MaxLength : Z
}.
End Column.

Module Table.
Record t := mk {
  SourceType : string;
  Schema : string;
  Name : string;
  RowIdentity : string;
  Columns : list Column.t;
  ObjectID : Z;
  TriggerName : string;
  Modern : bool
}.
End Table.

Module Inspection.
Record t := mk {
  Version : string;
  Edition : string;
  Database : string;
  SystemID : string;
  Installed : bool;
  Tables : list Table.t
}.
End Inspection.

Definition jbool (b : bool) : option json := Some (JBool b).

Definition Column_json (c : Column.t) : json :=
  struct_json
    [("name", str (Column.Name c)); ("type", str (Column.Type_ c)); ("not_null", jbool (Column.NotNull c));
     ("default", null_str (Column.Default c)); ("primary_key", jbool (Column.Primary c));
     ("base_type", str (Column.BaseType c)); ("capture_ordinal", num (Column.Ordinal c));
     ("max_length", num (Column.MaxLength c))].

Definition Table_json (t : Table.t) : json :=
  struct_json
    [("source_type", str (Table.SourceType t)); ("schema", str (Table.Schema t)); ("name", str (Table.Name t));
     ("row_identity", omit_str (Table.RowIdentity t)); ("columns", Some (JArr (Column_json <$> Table.Columns t)));
     ("object_id", num (Table.ObjectID t)); ("trigger_name", str (Table.TriggerName t));
     ("modern", if Table.Modern t then jbool true else None)].

Definition schemaHash (l : list Table.t) : string :=
  hex_encode (sha256 (print (default JNull (null_list Table_json l)))).

Definition quote (name : string) : string := "[" +:+ double_byte "]" name +:+ "]".
Definition sqlName (t : Table.t) : string := quote (Table.Schema t) +:+ "." +:+ quote (Table.Name t).

Definition legacyLOB (base : string) : bool := existsb (String.eqb base) ["text"; "ntext"; "image"].

Definition typeName (base : string) (length precision scale : Z) : result string :=
  if existsb (String.eqb base) ["varchar"; "nvarchar"; "char"; "nchar"; "binary"; "varbinary"] then
    let length := if String.eqb base "nvarchar" || String.eqb base "nchar" then Z.quot length 2 else length in
    Ok (base +:+ "(" +:+ FormatInt length +:+ ")")
  else if existsb (String.eqb base) ["decimal"; "numeric"] then
    Ok (base +:+ "(" +:+ FormatInt precision +:+ "," +:+ FormatInt scale +:+ ")")
  else if existsb (String.eqb base)
            ["bigint"; "int"; "smallint"; "tinyint"; "bit"; "money"; "smallmoney"; "float"; "real"; "datetime";
             "smalldatetime"; "uniqueidentifier"; "timestamp"] then Ok base
  else if existsb (String.eqb base) ["text"; "ntext"; "image"] then Ok base
  else Err (errorf "unsupported sqlserver 2000 type %q").

(** A row of the query on columns. *)
Record column_row := mkColumnRow {
  cr_ordinal : Z;
  cr_name : string;
  cr_base : string;
  cr_length : Z;
  cr_precision : Z;
  cr_scale : Z;
  cr_nullable : bool;
  cr_computed : bool;
  cr_primary : bool
}.

(** The answers about the catalog: the server, a table by its owner and name ([None]
    is no row), its columns, whether the managed tables exist, whether a trigger
    does, the control row, and the rows of a table by the text of the query. *)
Record querier := mkQuerier {
  q_server : answer (string * string * string);
  q_object : string → string → answer (option Z);
  q_columns : Z → rows column_row;
  q_installed : list string → answer Z;
  q_trigger : string → answer Z;
  q_control : string → answer (string * Z * string * string);
  q_values : string → rows (list (option string))
}.

Section config.
Context (cfg : config.Config.t).

Notation Owner := (config.SQLServerLegacy.Owner (config.Config.SQLServerLegacy_ cfg)).
Notation Prefix := (config.SQLServerLegacy.Prefix (config.Config.SQLServerLegacy_ cfg)).

Definition names : string * string * string :=
  let o := quote Owner +:+ "." in
  (o +:+ quote (Prefix +:+ "_control"), o +:+ quote (Prefix +:+ "_events"), o +:+ quote (Prefix +:+ "_values")).

Definition manifestName : string := quote Owner +:+ "." +:+ quote (Prefix +:+ "_tables").

Definition triggerName (objectID : Z) : string := Prefix +:+ "_tr_" +:+ FormatInt objectID.

Fixpoint read_columns (modern : bool) (l : list column_row) : result (list Column.t) :=
  match l with
  | [] => Ok []
  | r :: l' =>
      if cr_computed r then read_columns modern l'
      else
        _ ← fail_if (legacyLOB (cr_base r) && negb modern)
              (errors_New "text, ntext and image columns are unsupported in strict legacy capture");
        ty ← typeName (cr_base r) (cr_length r) (cr_precision r) (cr_scale r);
        cs ← read_columns modern l';
        Ok (Column.mk (cr_name r) ty (negb (cr_nullable r)) None (cr_primary r) (cr_base r) (cr_ordinal r) (cr_length r) :: cs)
  end.

Definition readTable (q : querier) (ref : config.Table.t) (modern : bool) : result Table.t :=
  object ← dbError (q_object q (config.Table.Schema ref) (config.Table.Name ref));
  id ← or_err object (errors_New "source table does not exist");
  found ← dbError (q_columns q id);
  columns ← read_columns modern found.1;
  _ ← dbError found.2;
  _ ← fail_if (bool_decide (columns = [])) (errors_New "table has no capturable columns");
  let keyless := negb (existsb Column.Primary columns) in
  _ ← fail_if (keyless && existsb (λ c, legacyLOB (Column.BaseType c)) columns)
        (errors_New "text, ntext and image require a primary key on SQL Server 2008 R2");
  Ok (Table.mk "sqlserver_legacy" (config.Table.Schema ref) (config.Table.Name ref) (if keyless then "full_row" else "")
        columns id (triggerName id) modern).

Fixpoint inspect_tables (q : querier) (modern : bool) (l : list config.Table.t) (seen : list Z) : result (list Table.t) :=
  match l with
  | [] => Ok []
  | ref :: l' =>
      t ← wrap "inspect legacy table %s: " (readTable q ref modern);
      _ ← fail_if (bool_decide (Table.ObjectID t ∈ seen)) (errors_New "duplicate sqlserver legacy source object");
      r ← inspect_tables q modern l' (Table.ObjectID t :: seen);
      Ok (t :: r)
  end.

(** Whether every table has its trigger; the first that has none ends the search. *)
Fixpoint triggers_exist (q : querier) (l : list Table.t) : result bool :=
  match l with
  | [] => Ok true
  | t :: l' =>
      exists_ ← dbError (q_trigger q (quote (Table.Schema t) +:+ "." +:+ quote (Table.TriggerName t)));
      if exists_ =? 0 then Ok false else triggers_exist q l'
  end.

Definition table_lt (a b : config.Table.t) : bool := String.ltb (config.Table.String a) (config.Table.String b).

Definition inspect (q : querier) : result Inspection.t :=
  server ← dbError (q_server q);
  let '(version, edition, database) := server in
  let modern := HasPrefix version "10.50." in
  _ ← fail_if (negb (HasPrefix version "8.") && negb modern) (errors_New "sqlserver_legacy requires sql server 2000 or 2008 R2");
  tables ← inspect_tables q modern (order_by table_lt (config.Config.Tables cfg)) [];
  let '(control, events, values) := names in
  installed ← dbError (q_installed q [control; events; values; manifestName]);
  ready ← ((if installed =? 1 then triggers_exist q tables else Ok false) : result bool);
  if (ready : bool) then
    row ← dbError (q_control q control);
    let '(product, v, system, hash) := row in
    _ ← fail_if (negb (String.eqb product "go-sync/sqlserver-legacy"))
          (errors_New "sqlserver legacy object names collide with an unmanaged installation");
    _ ← fail_if (negb (v =? schemaVersion)) (errors_New "sqlserver legacy outbox schema version is unsupported");
    Ok (Inspection.mk version edition database system (String.eqb hash (schemaHash tables)) tables)
  else Ok (Inspection.mk version edition database "" false tables).
End config.

(** ** Connecting (connection.go) *)

(** [msdsn] is the driver's parser: the database of a valid DSN, and whether
    encryption is disabled.  The first connection that answers is used. *)
Definition open (msdsn : string → option (string * bool)) (dsn : string) (ping ping71 : answer unit) : result unit :=
  parsed ← or_err (msdsn dsn) (errors_New "invalid sqlserver legacy dsn");
  _ ← fail_if (String.eqb parsed.1 "") (errors_New "sqlserver legacy dsn must specify database");
  _ ← fail_if (negb parsed.2)
        (errors_New "sqlserver legacy dsn must set encrypt=disable because SQL Server 2000 does not support the driver's TLS handshake");
  match ping, ping71 with
  | Got _, _ => Ok tt
  | Failed _, Got _ => Ok tt
  | Failed c, Failed c' => Err (errors_Join (databaseError c) (databaseError c'))
  end.

Definition retryable (e : error) : bool :=
  match as_database e with
  | None => false
  | Some (ServerError n) => (n =? 1205) || (n =? 1222)
  | Some c => connection_lost c
  end.

(** ** Rows (rows.go) *)

Definition snapshotField (c : Column.t) : string :=
  let name := quote (Column.Name c) in
  let base := Column.BaseType c in
  if existsb (String.eqb base) ["binary"; "varbinary"; "timestamp"; "float"; "real"; "image"] then
    "CONVERT(varbinary(max)," +:+ name +:+ ")"
  else if String.eqb base "ntext" then "CONVERT(nvarchar(max)," +:+ name +:+ ")"
  else if String.eqb base "text" then "CONVERT(varchar(max)," +:+ name +:+ ")"
  else if existsb (String.eqb base) ["datetime"; "smalldatetime"] then "CONVERT(varchar(30)," +:+ name +:+ ",126)"
  else if existsb (String.eqb base) ["money"; "smallmoney"] then "CONVERT(varchar(100)," +:+ name +:+ ",2)"
  else if String.eqb base "bit" then "CONVERT(varchar(1)," +:+ name +:+ ")"
  else if existsb (String.eqb base) ["decimal"; "numeric"; "bigint"; "int"; "smallint"; "tinyint"; "uniqueidentifier"] then
    "CONVERT(varchar(100)," +:+ name +:+ ")"
  else name.

Definition snapshotFields (t : Table.t) : list string := snapshotField <$> Table.Columns t.

(** A row of the values table: the ordinal, whether the value is NULL, and the value
    as text, as Unicode text or as bytes. *)
Record value_row := mkValue {
  v_ordinal : Z;
  v_null : bool;
  v_text : option string;
  v_unicode : option string;
  v_binary : option string
}.

(** An event of the outbox with its values. *)
Record box_event := mkEvent {
  e_id : Z;
  e_statement : string;
  e_object : Z;
  e_operation : string;
  e_values : list value_row
}.

Section rows.
(** [strconv.FormatFloat(x, 'g', -1, width)] on the bits of [x] *)
Context (FormatFloat : Z → Z → string).

Definition normalizeFloat (raw base : string) : result (option string) :=
  _ ← fail_if (negb (slen raw =? 4) && negb (slen raw =? 8)) (errors_New "invalid sqlserver legacy float width");
  let value := from_big_endian (bytes raw) in
  Ok (Some (if String.eqb base "real" then FormatFloat (u32 value) 32 else FormatFloat value 64)).

Definition normalize (c : Column.t) (raw : string) (isNull isBinary : bool) : result (option string) :=
  if isNull then Ok None
  else if String.eqb (Column.BaseType c) "float" || String.eqb (Column.BaseType c) "real" then
    normalizeFloat raw (Column.BaseType c)
  else if isBinary then Ok (Some ("0x" +:+ hex_encode raw))
  else if String.eqb (Column.BaseType c) "bit" then
    if String.eqb raw "0" then Ok (Some "false")
    else if String.eqb raw "1" then Ok (Some "true")
    else Err (errors_New "invalid sqlserver legacy bit value")
  else Ok (Some raw).

(** There are as many values as columns. *)
Fixpoint key_of (full_row : bool) (cols : list Column.t) (values : list Event.Column.t) : result (list Event.Column.t) :=
  match cols, values with
  | c :: cols', v :: values' =>
      if negb full_row && negb (Column.Primary c) then key_of full_row cols' values'
      else
        _ ← fail_if (Column.Primary c && bool_decide (Event.Column.Value v = None)) (errors_New "sqlserver legacy primary key is null");
        r ← key_of full_row cols' values';
        Ok (v :: r)
  | [], _ => Ok []
  | _ :: _, [] => Err (errors_New "panic: index out of range")
  end.

Definition key (t : Table.t) (values : list Event.Column.t) : result (list Event.Column.t) :=
  key_of (String.eqb (Table.RowIdentity t) "full_row") (Table.Columns t) values.

Fixpoint snapshot_columns (cols : list Column.t) (values : list (option string)) : result (list Event.Column.t) :=
  match cols, values with
  | c :: cols', v :: values' =>
      let isBinary := existsb (String.eqb (Column.BaseType c)) ["binary"; "varbinary"; "image"; "timestamp"; "float"; "real"] in
      x ← normalize c (default "" v) (bool_decide (v = None)) isBinary;
      r ← snapshot_columns cols' values';
      Ok (Event.Column.mk (Column.Name c) (Column.Type_ c) x "" None :: r)
  | [], _ => Ok []
  | _ :: _, [] => Err (errors_New "panic: index out of range")
  end.

Definition snapshotRow (t : Table.t) (values : list (option string)) : result Row.t :=
  columns ← snapshot_columns (Table.Columns t) values;
  k ← key t columns;
  Ok (Row.mk (Table.RowIdentity t) (Table.Schema t) (Table.Name t) "read" k [] columns 0).

(** The columns of an event after [n] of them. *)
Fixpoint event_columns (t : Table.t) (n : nat) (l : list value_row) : result (list Event.Column.t) :=
  match l with
  | [] => Ok []
  | r :: l' =>
      match if v_ordinal r =? Z.of_nat n + 1 then Table.Columns t !! n else None with
      | None => Err (errors_New "sqlserver legacy outbox column sequence is invalid")
      | Some c =>
          let raw := match v_unicode r with Some u => u | None => default "" (v_text r) end in
          x ← match v_binary r with
              | Some b => normalize c b (v_null r) true
              | None => normalize c raw (v_null r) false
              end;
          cs ← event_columns t (S n) l';
          Ok (Event.Column.mk (Column.Name c) (Column.Type_ c) x "" None :: cs)
      end
  end.

(** The row of an event, given the rows found for its values. *)
Definition event_row (t : Table.t) (operation : string) (values : list value_row * answer unit) : result Row.t :=
  columns ← event_columns t 0 values.1;
  _ ← dbError values.2;
  _ ← fail_if (negb (length columns =? length (Table.Columns t))%nat) (errors_New "sqlserver legacy outbox row is incomplete");
  k ← key t columns;
  if String.eqb operation "I" then Ok (Row.mk (Table.RowIdentity t) (Table.Schema t) (Table.Name t) "insert" k [] columns 0)
  else if String.eqb operation "D" then Ok (Row.mk (Table.RowIdentity t) (Table.Schema t) (Table.Name t) "delete" k [] [] 0)
  else Err (errorf "invalid sqlserver legacy operation %q").

Definition find_table (l : list Table.t) (object : Z) : result Table.t :=
  or_err (List.find (λ t, Table.ObjectID t =? object) l)
    (errors_New "sqlserver legacy outbox references an unconfigured table").

(** ** The source database *)

(** The objects the collector manages: the control row (product, version, identity,
    scope), the tables for events and values, the list of triggers (object, owner,
    name, schema), and the triggers by name with whether their text is managed. *)
Record managed := mkManaged {
  m_control : option (string * Z * string * string);
  m_events : bool;
  m_values : bool;
  m_manifest : option (list (Z * string * string * string));
  m_triggers : gmap string bool
}.

Record source := mkSource { s_box : list box_event; s_managed : managed }.

(** How a call ends: well, with a failure before its effect, or with one after it. *)
Inductive fault := NoFault | Before (c : cause) | After (c : cause).

(** What happens at a call: the events that triggers have committed meanwhile, and
    how it ends. *)
Record tick := mkTick { t_arrive : list box_event; t_fault : fault }.

Record world := mkWorld { wo_obs : list obs; wo_store : Store; wo_source : source; wo_ticks : list tick }.

Definition legacy (A : Type) := world → world * result A.

#[global] Instance legacy_ret : MRet legacy := λ A a w, (w, Ok a).
#[global] Instance legacy_bind : MBind legacy := λ A B f c w,
  match c w with
  | (w', Ok a) => f a w'
  | (w', Err e) => (w', Err e)
  end.

Definition lpure {A} (r : result A) : legacy A := λ w, (w, r).

Definition lift {A} (c : staging A) : legacy A := λ w,
  let '(env, s, r) := c (wo_obs w) (wo_store w) in (mkWorld env s (wo_source w) (wo_ticks w), r).

Definition arrive (l : list box_event) (src : source) : source := mkSource (s_box src ++ l) (s_managed src).

(** A call to the database; without calls left the context is cancelled. *)
Definition call {A} (f : source → source * A) : legacy A := λ w,
  match wo_ticks w with
  | [] => (w, Err (databaseError (OtherCause "context canceled")))
  | t :: ts =>
      let src := arrive (t_arrive t) (wo_source w) in
      match t_fault t with
      | NoFault => let '(src', a) := f src in (mkWorld (wo_obs w) (wo_store w) src' ts, Ok a)
      | Before c => (mkWorld (wo_obs w) (wo_store w) src ts, Err (databaseError c))
      | After c => (mkWorld (wo_obs w) (wo_store w) (f src).1 ts, Err (databaseError c))
      end
  end.

Definition query {A} (f : source → A) : legacy A := call (λ src, (src, f src)).

(** A statement inside a transaction. *)
Definition exec_ : legacy unit := query (λ _, tt).

Fixpoint execs (n : nat) : legacy unit :=
  match n with
  | O => mret tt
  | S n' => _ ← exec_; execs n'
  end.

(** The deferred rollback; what it undoes was not visible. *)
Definition rolling {A} (c : legacy A) : legacy A := λ w,
  match c w with
  | (w', Err e) =>
      match exec_ w' with
      | (w'', Err e') => (w'', Err (errors_Join e e'))
      | (w'', Ok _) => (w'', Err e)
      end
  | x => x
  end.

Definition lmap_err {A} (f : error → error) (c : legacy A) : legacy A := λ w,
  match c w with
  | (w', Err e) => (w', Err (f e))
  | x => x
  end.

Fixpoint leach {A} (f : A → legacy unit) (l : list A) : legacy unit :=
  match l with
  | [] => mret tt
  | x :: l' => _ ← f x; leach f l'
  end.

(** ** The outbox (stream.go, rows.go) *)

Definition id_lt (a b : box_event) : bool := e_id a <? e_id b.

Definition of_statement (statement : string) (e : box_event) : bool := String.eqb (e_statement e) statement.

(** [SELECT TOP 1 ... ORDER BY change_id] *)
Definition first_event (l : list box_event) : option box_event := head (order_by id_lt l).

Definition headers_of (statement : string) (l : list box_event) : list box_event :=
  order_by id_lt (List.filter (of_statement statement) l).

Definition values_of (id : Z) (l : list box_event) : list value_row :=
  match List.find (λ e, e_id e =? id) l with Some e => e_values e | None => [] end.

Definition deleteStatement (statement : string) (allowMissing : bool) : legacy unit :=
  _ ← exec_;
  rolling (
    _ ← exec_;
    count ← query (λ src, length (List.filter (of_statement statement) (s_box src)));
    _ ← lpure (fail_if ((count <? 1)%nat && negb allowMissing)
                 (errors_New "sqlserver legacy statement disappeared before acknowledgement"));
    call (λ src, (mkSource (List.filter (λ e, negb (of_statement statement e)) (s_box src)) (s_managed src), tt))).

Definition deleteEvent (id : Z) : legacy unit :=
  _ ← exec_;
  rolling (
    _ ← exec_;
    affected ← query (λ src, length (List.filter (λ e, e_id e =? id) (s_box src)));
    _ ← lpure (fail_if (negb (affected =? 1)%nat)
                 (errors_New "sqlserver legacy outbox event disappeared before acknowledgement"));
    call (λ src, (mkSource (List.filter (λ e, negb (e_id e =? id)) (s_box src)) (s_managed src), tt))).

Definition position (id : Z) : string :=
  "legacy:" +:+ (if id <? 0 then "-" +:+ dec_pad 19 (- id) else dec_pad 20 id).

Definition parsePosition (value : string) : result Z :=
  _ ← fail_if (negb (HasPrefix value "legacy:")) (errors_New "invalid sqlserver legacy position");
  id ← or_err (ParseInt (TrimPrefix value "legacy:") 64) (errors_New "invalid sqlserver legacy position");
  _ ← fail_if (id <? 0) (errors_New "invalid sqlserver legacy position");
  Ok id.

(** Every round makes a call, so that there are at most as many rounds as calls. *)
Fixpoint discard_loop (fuel : nat) (boundary : Z) : legacy unit :=
  match fuel with
  | O => lpure (Err ErrCanceled)
  | S fuel' =>
      found ← query (λ src, first_event (List.filter (λ e, e_id e <=? boundary) (s_box src)));
      match found with
      | None => mret tt
      | Some e => _ ← deleteEvent (e_id e); discard_loop fuel' boundary
      end
  end.

Definition discardSnapshotEvents (checkpoint : string) : legacy unit := λ w,
  match parsePosition checkpoint with
  | Err e => (w, Err e)
  | Ok boundary => discard_loop (S (length (wo_ticks w))) boundary w
  end.

Definition finishSourceCleanup : legacy unit :=
  st ← lift get_state;
  if String.eqb (State.SourceCleanup st) "" then mret tt
  else
    _ ← deleteStatement (State.SourceCleanup st) true;
    lift (on_queue (λ s, ClearSourceCleanup s (State.SourceCleanup st))).

(** ** Polling *)

Definition full : string := "insufficient queue/disk capacity for a complete legacy snapshot or event".

Context (fs : filesystem) (cfg : config.Config.t).

Definition transaction_of (statement : string) : string := "legacy-statement:" +:+ statement.

Definition rows_message (statement lsn : string) : Message.t :=
  Message.mk "" "" "" "" 0 "" "transaction_rows" (transaction_of statement) 0 lsn [] None [] None "".
Definition end_message (statement lsn : string) (chunk : Z) : Message.t :=
  Message.mk "" "" "" "" 0 "" "transaction_end" (transaction_of statement) chunk lsn [] None [] None "".

(** A row of the statement: the number of rows and the batch. *)
Definition consume (durable : Z) (statement : string) (maximum : Z) (row : Row.t) (x : Z * batcher) : staging (Z * batcher) :=
  let b := if x.1 =? 0 then mkBatcher (rows_message statement (position (Z.max durable maximum))) (b_size x.2) else x.2 in
  let ordinal := u64 (x.1 + 1) in
  b ← add full fs cfg (Row.set_Ordinal ordinal row) b;
  mret (ordinal, b).

Fixpoint read_events (tables : list Table.t) (durable : Z) (statement : string) (maximum : Z) (l : list box_event)
    (x : Z * batcher) : legacy (Z * batcher) :=
  match l with
  | [] => mret x
  | e :: l' =>
      t ← lpure (find_table tables (e_object e));
      values ← query (λ src, values_of (e_id e) (s_box src));
      row ← lpure (event_row t (e_operation e) (values, Got tt));
      x ← lift (consume durable statement maximum row x);
      read_events tables durable statement maximum l' x
  end.

(** The oldest statement: its identifier, the greatest identifier of its events, and
    the batch; nothing if the outbox is empty. *)
Definition readStatement (tables : list Table.t) (durable : Z) : legacy (option (string * Z * batcher)) :=
  found ← query (λ src, e_statement <$> first_event (s_box src));
  match found with
  | None => mret None
  | Some statement =>
      headers ← query (λ src, headers_of statement (s_box src));
      _ ← lpure (fail_if (bool_decide (headers = [])) (errors_New "sqlserver legacy statement disappeared during read"));
      let maximum := foldl (λ m e, Z.max m (e_id e)) 0 headers in
      x ← read_events tables durable statement maximum headers (0, mkBatcher Message.zero 0);
      mret (Some (statement, maximum, x.2))
  end.

Definition same_source (expected current : Inspection.t) : result unit :=
  _ ← fail_if (negb (String.eqb (Inspection.SystemID current) (Inspection.SystemID expected)) ||
               negb (String.eqb (Inspection.Database current) (Inspection.Database expected)))
        (errors_New "sqlserver legacy source identity changed");
  fail_if (negb (String.eqb (schemaHash (Inspection.Tables current)) (schemaHash (Inspection.Tables expected))))
    (errors_New "sqlserver legacy schema changed; explicit reinitialization is required").

Definition poll (q : querier) (expected : Inspection.t) : legacy bool :=
  current ← lpure (inspect cfg q);
  _ ← lpure (same_source expected current);
  st ← lift get_state;
  durable ← lpure (parsePosition (State.DurableLSN st));
  found ← readStatement (Inspection.Tables expected) durable;
  match found with
  | None => mret false
  | Some (statement, maximum, b) =>
      let checkpoint := position (Z.max durable maximum) in
      b ← lift (flush full b);
      _ ← lift (append full (end_message statement checkpoint (Message.Chunk (b_msg b))));
      _ ← lift (on_queue (λ s, PublishSource s checkpoint false statement));
      _ ← deleteStatement statement false;
      _ ← lift (on_queue (λ s, ClearSourceCleanup s statement));
      mret true
  end.

(** ** The snapshot (collector.go, rows.go) *)

Fixpoint snapshot_rows (t : Table.t) (l : list (list (option string))) (b : batcher) : staging batcher :=
  match l with
  | [] => mret b
  | values :: l' =>
      row ← pure (snapshotRow t values);
      b ← add full fs cfg row b;
      snapshot_rows t l' b
  end.

Definition rows_query (t : Table.t) : string := "SELECT " +:+ Join (snapshotFields t) "," +:+ " FROM " +:+ sqlName t.

Definition snapshotRows (q : querier) (t : Table.t) (b : batcher) : staging batcher :=
  rs ← pure (dbError (q_values q (rows_query t)));
  b ← snapshot_rows t rs.1 b;
  _ ← pure (dbError rs.2);
  mret b.

Definition kind_message (kind : string) : Message.t := Message.mk "" "" "" "" 0 "" kind "" 0 "" [] None [] None "".
Definition schema_message (t : Table.t) : Message.t :=
  Message.mk "" "" "" "" 0 "" "schema" "" 0 "" [] (Some (Table_json t)) [] None "".
Definition begin_message (l : list Table.t) : Message.t :=
  Message.mk "" "" "" "" 0 "" "snapshot_begin" "" 0 ""
    ((λ t, TableRef.mk (Table.Schema t) (Table.Name t)) <$> l) None [] None "".

Fixpoint snapshot_tables (q : querier) (l : list Table.t) (size : Z) : staging unit :=
  match l with
  | [] => mret tt
  | t :: l' =>
      _ ← append full (schema_message t);
      b ← map_err (wrapf "sqlserver legacy snapshot table %d: ") (snapshotRows q t (mkBatcher (kind_message "snapshot_rows") size));
      b ← flush full b;
      snapshot_tables q l' (b_size b)
  end.

Definition snapshot_state (info : Inspection.t) (generation : string) : State.t :=
  State.mk (if existsb (λ t, String.eqb (Table.RowIdentity t) "full_row") (Inspection.Tables info) then "v2" else "")
    (config.Config.SourceID cfg) generation (config.Fingerprint cfg) (Inspection.SystemID info) 0
    (Inspection.Database info) (schemaHash (Inspection.Tables info)) "" "" "" "" "" 0 0 0 0 0 0.

(** The begin, the tables and the end. *)
Definition snapshot_messages (q : querier) (l : list Table.t) : staging unit :=
  _ ← append full (begin_message l);
  _ ← snapshot_tables q l 0;
  append full (kind_message "snapshot_end").

(** [SELECT MAX(change_id)] *)
Definition greatest_id (l : list box_event) : Z := foldl (λ m e, Z.max m (e_id e)) 0 l.

(** Every table is locked, the greatest identifier of the outbox is the boundary. *)
Definition snapshot (token : result string) (q : querier) (info : Inspection.t) : legacy unit :=
  _ ← lpure (fail_if (negb (config.SQLServerLegacy.AllowSnapshotLocks (config.Config.SQLServerLegacy_ cfg)))
               (errors_New "initial sqlserver legacy snapshot requires explicit sqlserver_legacy.allow_snapshot_locks=true"));
  token ← lpure token;
  _ ← lift (on_queue (λ s, Initialize s (snapshot_state info (hex_encode token))));
  _ ← exec_;
  rolling (
    _ ← lmap_err (wrapf "lock legacy snapshot table %d: ") (execs (length (Inspection.Tables info)));
    boundary ← query (λ src, greatest_id (s_box src));
    _ ← lift (snapshot_messages q (Inspection.Tables info));
    _ ← exec_;
    _ ← lift (on_queue (λ s, FinalizeSnapshotLSN s (position boundary)));
    _ ← lift (on_queue (λ s, Publish s (position boundary) true));
    discardSnapshotEvents (position boundary)).

(** ** Attempts (collector.go) *)

Definition acquireLease (conn : answer unit) (code : answer Z) (close : result unit) : result unit :=
  _ ← dbError conn;
  match code with
  | Failed c => Err (closing close (databaseError c))
  | Got n =>
      if n <? 0 then Err (closing close (errors_New "another sqlserver legacy collector owns the source lease")) else Ok tt
  end.

Definition check_state (st : State.t) (info : Inspection.t) : result unit :=
  if String.eqb (State.Phase st) "" then Ok tt
  else
    _ ← fail_if (negb (Inspection.Installed info) ||
                 negb (String.eqb (State.Fingerprint st) (config.Fingerprint cfg)) ||
                 negb (String.eqb (State.SystemID st) (Inspection.SystemID info)) ||
                 negb (String.eqb (State.Database st) (Inspection.Database info)))
          (errors_New "sqlserver legacy source identity, installation or capture scope changed");
    fail_if (String.eqb (State.Phase st) "stream" &&
             negb (String.eqb (State.SchemaHash st) (schemaHash (Inspection.Tables info))))
      (errors_New "sqlserver legacy schema changed; explicit reinitialization is required before trigger replacement").

Fixpoint polls (l : list querier) (expected : Inspection.t) : legacy unit :=
  match l with
  | [] => mret tt
  | q :: l' => _ ← poll q expected; polls l' expected
  end.

(** ** Installing (install.go) *)

Definition hasLegacyLOB (t : Table.t) : bool := existsb (λ c, legacyLOB (Column.BaseType c)) (Table.Columns t).

Definition trigger_of (t : Table.t) : string := quote (Table.Schema t) +:+ "." +:+ quote (Table.TriggerName t).

Definition allMissing (m : managed) : bool :=
  bool_decide (m_control m = None) && negb (m_events m) && negb (m_values m) && bool_decide (m_manifest m = None).
Definition allPresent (m : managed) : bool :=
  negb (bool_decide (m_control m = None)) && m_events m && m_values m && negb (bool_decide (m_manifest m = None)).

Definition removeManagedTriggers (m : managed) : legacy managed :=
  let l := default [] (m_manifest m) in
  _ ← exec_;
  _ ← execs (length l);
  _ ← exec_;
  mret (mkManaged (m_control m) (m_events m) (m_values m) (Some [])
          (foldl (λ ts '(_, owner, name, _), delete (quote owner +:+ "." +:+ quote name) ts) (m_triggers m) l)).

Definition installTrigger (t : Table.t) (m : managed) : legacy managed :=
  _ ← exec_;
  match m_triggers m !! trigger_of t with
  | Some owned =>
      _ ← exec_;
      _ ← lpure (fail_if (negb owned) (errors_New "sqlserver legacy trigger name collides with an unmanaged object"));
      mret m
  | None =>
      _ ← exec_;
      mret (mkManaged (m_control m) (m_events m) (m_values m) (m_manifest m) (<[trigger_of t := true]> (m_triggers m)))
  end.

(** The table is noted unless its object is. *)
Definition note_table (t : Table.t) (m : managed) : managed :=
  let l := default [] (m_manifest m) in
  if existsb (λ '(o, _, _, _), o =? Table.ObjectID t) l then m
  else mkManaged (m_control m) (m_events m) (m_values m)
         (Some (l ++ [(Table.ObjectID t, Table.Schema t, Table.TriggerName t, schemaHash [t])])) (m_triggers m).

Fixpoint install_tables (l : list Table.t) (m : managed) : legacy managed :=
  match l with
  | [] => mret m
  | t :: l' =>
      m ← installTrigger t m;
      _ ← exec_;
      install_tables l' (note_table t m)
  end.

(** The managed tables, created or checked; [guid] is [NEWID()]. *)
Definition install_objects (guid : string) (tables : list Table.t) (m : managed) (pending : legacy nat) : legacy managed :=
  if allMissing m then
    _ ← execs 6;
    mret (mkManaged (Some ("go-sync/sqlserver-legacy", schemaVersion, guid, schemaHash tables)) true true (Some []) (m_triggers m))
  else
    _ ← exec_;
    match m_control m with
    | None => lpure (Err (databaseError (OtherCause "sql: no rows in result set")))
    | Some (product, version, system, hash) =>
        _ ← lpure (fail_if (negb (String.eqb product "go-sync/sqlserver-legacy"))
                     (errors_New "sqlserver legacy object names collide with an unmanaged installation"));
        _ ← lpure (fail_if (negb (version =? schemaVersion))
                     (errors_New "sqlserver legacy installation has an unsupported schema version"));
        if String.eqb hash (schemaHash tables) then mret m
        else
          n ← pending;
          _ ← lpure (fail_if (negb (n =? 0)%nat) (errors_New "sqlserver legacy schema changed while outbox events are pending"));
          m ← removeManagedTriggers m;
          _ ← exec_;
          mret (mkManaged (Some (product, version, system, schemaHash tables)) (m_events m) (m_values m) (m_manifest m) (m_triggers m))
    end.

Definition install (guid : string) (tables : list Table.t) : legacy unit :=
  _ ← exec_;
  rolling (
    m ← query s_managed;
    _ ← lpure (fail_if (negb (allMissing m) && negb (allPresent m))
                 (errors_New "partial sqlserver legacy installation found; manual repair required"));
    m ← install_objects guid tables m (query (λ src, length (s_box src)));
    m ← install_tables tables m;
    call (λ src, (mkSource (s_box src) m, tt))).

(** *** The text of a trigger *)

Definition variableType (c : Column.t) : string :=
  let base := Column.BaseType c in
  if String.eqb base "timestamp" then "binary(8)"
  else if String.eqb base "text" then "varchar(max)"
  else if String.eqb base "ntext" then "nvarchar(max)"
  else if String.eqb base "image" then "varbinary(max)"
  else Column.Type_ c.

Definition valueExpressions (c : Column.t) (variable : string) : string * string * string :=
  let base := Column.BaseType c in
  if existsb (String.eqb base) ["binary"; "varbinary"; "timestamp"; "float"; "real"; "image"] then
    ("NULL", "NULL", "CONVERT(varbinary(max)," +:+ variable +:+ ")")
  else if existsb (String.eqb base) ["nvarchar"; "nchar"; "ntext"] then
    ("NULL", "CONVERT(nvarchar(max)," +:+ variable +:+ ")", "NULL")
  else if String.eqb base "text" then ("CONVERT(varchar(max)," +:+ variable +:+ ")", "NULL", "NULL")
  else if existsb (String.eqb base) ["datetime"; "smalldatetime"] then ("CONVERT(varchar(30)," +:+ variable +:+ ",126)", "NULL", "NULL")
  else if existsb (String.eqb base) ["money"; "smallmoney"] then ("CONVERT(varchar(100)," +:+ variable +:+ ",2)", "NULL", "NULL")
  else ("CONVERT(varchar(8000)," +:+ variable +:+ ")", "NULL", "NULL").

Definition nl : string := of_bytes [10].

Definition trigger_field (t : Table.t) (deleted : bool) (c : Column.t) : string :=
  let field := quote (Column.Name c) in
  if Table.Modern t && hasLegacyLOB t then
    if deleted && legacyLOB (Column.BaseType c) then "CAST(NULL AS " +:+ variableType c +:+ ")"
    else if deleted then "d." +:+ field
    else "b." +:+ field
  else field.

Definition variable (i : nat) : string := "@v" +:+ FormatInt (Z.of_nat i + 1).

Definition trigger_insert (values : string) (i : nat) (c : Column.t) : string :=
  let v := variable i in
  let '(text, unicode, binary) := valueExpressions c v in
  "INSERT INTO " +:+ values +:+ " (change_id,ordinal,is_null,value_text,value_unicode,value_binary) VALUES (@id," +:+
  FormatInt (Z.of_nat i + 1) +:+ ",CASE WHEN " +:+ v +:+ " IS NULL THEN 1 ELSE 0 END," +:+ text +:+ "," +:+ unicode +:+ "," +:+ binary +:+ ")".

Definition trigger_body (t : Table.t) (cursor from operation : string) (deleted : bool) : string :=
  let '(_, events, values) := names cfg in
  let variables := Join (imap (λ i _, variable i) (Table.Columns t)) "," in
  "DECLARE " +:+ cursor +:+ " CURSOR LOCAL STATIC READ_ONLY FOR SELECT " +:+ Join (trigger_field t deleted <$> Table.Columns t) "," +:+
  " FROM " +:+ from +:+ nl +:+
  "OPEN " +:+ cursor +:+ nl +:+ "FETCH NEXT FROM " +:+ cursor +:+ " INTO " +:+ variables +:+ nl +:+ "WHILE @@FETCH_STATUS=0 BEGIN" +:+ nl +:+
  "INSERT INTO " +:+ events +:+ " (statement_id,object_id,operation) VALUES (@statement," +:+ FormatInt (Table.ObjectID t) +:+ ",'" +:+
  operation +:+ "')" +:+ nl +:+
  "SET @id=CONVERT(bigint,SCOPE_IDENTITY())" +:+ nl +:+ Join (imap (trigger_insert values) (Table.Columns t)) nl +:+ nl +:+
  "FETCH NEXT FROM " +:+ cursor +:+ " INTO " +:+ variables +:+ nl +:+ "END" +:+ nl +:+ "CLOSE " +:+ cursor +:+ nl +:+
  "DEALLOCATE " +:+ cursor +:+ nl.

Definition triggerSQL (t : Table.t) : string :=
  let joins := (λ c, "b." +:+ quote (Column.Name c) +:+ "=i." +:+ quote (Column.Name c)) <$>
                 List.filter Column.Primary (Table.Columns t) in
  let lob := Table.Modern t && hasLegacyLOB t in
  let deletedSource := if lob then "deleted AS d" else "deleted" in
  let insertedSource := if lob then sqlName t +:+ " AS b INNER JOIN inserted AS i ON " +:+ Join joins " AND " else "inserted" in
  "CREATE TRIGGER " +:+ trigger_of t +:+ " ON " +:+ sqlName t +:+ " FOR INSERT,UPDATE,DELETE AS" +:+ nl +:+
  "/* go-sync legacy managed v1 */" +:+ nl +:+ "SET NOCOUNT ON" +:+ nl +:+ "DECLARE @statement uniqueidentifier,@id bigint" +:+ nl +:+
  "DECLARE " +:+ Join (imap (λ i c, variable i +:+ " " +:+ variableType c) (Table.Columns t)) "," +:+ nl +:+
  "SET @statement=NEWID()" +:+ nl +:+ "IF EXISTS(SELECT 1 FROM deleted) BEGIN" +:+ nl +:+
  trigger_body t "go_sync_deleted" deletedSource "D" true +:+ "END" +:+ nl +:+
  "IF EXISTS(SELECT 1 FROM inserted) BEGIN" +:+ nl +:+
  trigger_body t "go_sync_inserted" insertedSource "I" false +:+ "END".

(** *** An attempt *)

(** What an attempt is given: opening and closing the database, the lease and its
    end, the answers of the inspections before and after an installation, the
    identity drawn by an installation, the token of a snapshot, its answers, the
    answers of the polls, and the error that ends the waiting. *)
Record attempt_io := mkAttempt {
  at_open : result unit;
  at_close : result unit;
  at_lease : result unit;
  at_release : result unit;
  at_q : querier;
  at_again : querier;
  at_guid : string;
  at_token : result string;
  at_rows : querier;
  at_polls : list querier;
  at_stop : error
}.

Definition ensure_installed (io : attempt_io) (info : Inspection.t) : legacy Inspection.t :=
  if Inspection.Installed info then mret info
  else
    _ ← lpure (fail_if (negb (config.SQLServerLegacy.AutoInstall (config.Config.SQLServerLegacy_ cfg)))
                 (errors_New "sqlserver legacy outbox is not installed and auto_install is false"));
    _ ← lmap_err (wrapf "install sqlserver legacy outbox: ") (install (at_guid io) (Inspection.Tables info));
    info ← lpure (inspect cfg (at_again io));
    _ ← lpure (fail_if (negb (Inspection.Installed info)) (errors_New "sqlserver legacy installation did not become ready"));
    mret info.

(** The incremental capture; [start] is the snapshot, or the end of an earlier one. *)
Definition streaming (start : legacy unit) (l : list querier) (info : Inspection.t) : legacy unit :=
  _ ← start;
  _ ← finishSourceCleanup;
  polls l info.

Definition attempt (io : attempt_io) : legacy unit :=
  _ ← lift get_state;
  _ ← lift (on_queue Recover);
  _ ← lpure (at_open io);
  lmap_err (closing (at_close io)) (
    _ ← lpure (at_lease io);
    lmap_err (closing (at_release io)) (
      info ← lpure (inspect cfg (at_q io));
      st ← lift get_state;
      _ ← lpure (check_state st info);
      info ← ensure_installed io info;
      _ ← streaming (if String.eqb (State.Phase st) "stream" then discardSnapshotEvents (State.SnapshotLSN st)
                     else snapshot (at_token io) (at_rows io) info) (at_polls io) info;
      lpure (Err (at_stop io)))).

(** [Run]: the waits between attempts. *)
Definition run_waits (maximum minimum : Z) (l : list error) : list Z := retry_waits retryable maximum minimum l.

(** ** Scanning a table (reconcile.go) *)

Context (float_text : string → option string).

Fixpoint scan_rows (t : Table.t) (l : list (list (option string))) (b : list accumulator) : result (list accumulator) :=
  match l with
  | [] => Ok b
  | values :: l' =>
      row ← snapshotRow t values;
      b ← Add float_text b row;
      scan_rows t l' b
  end.

(** [opened] is [open]. *)
Definition Reconcile (opened : result unit) (begin : answer unit) (q : querier) (commit rb : answer unit)
    (request : syncv1.ReconcileRequest.t) : result syncv1.ReconcileResult.t :=
  let schema := syncv1.ReconcileRequest.SourceSchema request in
  let name := syncv1.ReconcileRequest.Table request in
  _ ← fail_if (negb (bool_decide (config.Table.mk schema name ∈ config.Config.Tables cfg)))
        (errors_New "reconciliation table is outside the configured capture scope");
  _ ← opened;
  _ ← dbError begin;
  let body :=
    info ← inspect cfg q;
    table ← or_err (List.find (λ t, String.eqb (Table.Schema t) schema && String.eqb (Table.Name t) name) (Inspection.Tables info))
              (errors_New "reconciliation table disappeared");
    b ← NewBuilder (syncv1.ReconcileRequest.Buckets request);
    rs ← dbError (q_values q (rows_query table +:+ " WITH (HOLDLOCK)"));
    b ← scan_rows table rs.1 b;
    _ ← dbError rs.2;
    _ ← dbError commit;
    Ok (syncv1.ReconcileResult.mk (syncv1.ReconcileRequest.RequestId request) (Table.Schema table) (Table.Name table)
          (Column.Name <$> Table.Columns table) (Column.Name <$> List.filter Column.Primary (Table.Columns table))
          ((λ d, syncv1.BucketDigest.mk (dg_bucket d) (dg_rows d) (dg_hash d)) <$> builder_digests b) "" ""
          (Column.Type_ <$> Table.Columns table)) in
  match body with Err e => Err (rollback rb e) | r => r end.
End rows.

End sqlserverlegacy.
