(* ===== verification/LegacyProps.v ===== *)
(** * Correctness of the collector for old SQL Servers

    Every statement of the outbox is queued exactly once, whatever calls to the
    database fail, before or after their effect, and whenever the collector is
    restarted: the note that is published with a statement lets the next attempt
    finish its deletion. *)

From S2P Require Import Prelude Bytes Sorting Encoding Json JsonStruct GoTime GoPath Config Event FileEmbed Queue QueueInv QueueSpec Batch SqlClient Legacy.

#[local] Opaque marshal unmarshal.

Import sqlserverlegacy.

(** ** Positions *)

Lemma utf8_dec_pad w z : utf8_valid (dec_pad w z) = true.
Proof.
  apply utf8_valid_ascii, is_digit_ascii. unfold dec_pad. by rewrite all_bytes_append, zeros_digits, dec_digits.
Qed.

Lemma utf8_box_position id : utf8_valid (position id) = true.
Proof.
  unfold position. apply utf8_valid_append; [done|]. case_if; [apply utf8_valid_append; [done|]|]; apply utf8_dec_pad.
Qed.

Lemma transaction_of_inj a b : transaction_of a = transaction_of b → a = b.
Proof. apply (inj (String.append "legacy-statement:")). Qed.

(** ** Accounts of the outbox *)

(** The transactions that have an end among [l]. *)
Definition ended (l : list Message.t) : list string :=
  Message.Transaction <$> List.filter (λ m, String.eqb (Message.Kind m) "transaction_end") l.

Definition tx (e : box_event) : string := transaction_of (e_statement e).

(** The events that are committed during calls. *)
Definition arrivals (l : list tick) : list box_event := concat (t_arrive <$> l).

Lemma arrivals_app a b : arrivals (a ++ b) = arrivals a ++ arrivals b.
Proof. unfold arrivals. by rewrite fmap_app, concat_app. Qed.

Section accounts.
(** The events there will ever be, and among them those to be captured, which come
    after the boundary. *)
Context (known all : list box_event) (boundary : Z).

Definition named (e : box_event) : Prop := utf8_valid (e_statement e) = true ∧ e_statement e ≠ "".
Hypothesis Hknown : ∀ e, e ∈ known → named e.
Hypothesis Hall : ∀ e, e ∈ all → boundary < e_id e.

(** What the triggers will write: the events of [t] belong to statements of which
    nothing has been seen before. *)
Definition fresh (en : list string) (box : list box_event) (ticks : list tick) : Prop :=
  ∀ l1 t l2 e, ticks = l1 ++ t :: l2 → e ∈ t_arrive t →
    boundary < e_id e ∧ tx e ∉ en ∧ ∀ f, f ∈ box ++ arrivals l1 → e_statement f ≠ e_statement e.

(** The transactions [en] are published, [cleanup] is the one whose deletion is not
    confirmed. *)
Record core (en : list string) (cleanup : string) (box : list box_event) (ticks : list tick) : Prop := {
  core_once : NoDup en;
  core_box : ∀ e, e ∈ box → tx e ∈ en → cleanup = e_statement e;
  core_cleanup : cleanup ≠ "" → transaction_of cleanup ∈ en;
  core_all : ∀ e, e ∈ all → e ∈ box ++ arrivals ticks ∨ tx e ∈ en;
  core_known : ∀ e, e ∈ box ++ arrivals ticks → e ∈ known;
  core_fresh : fresh en box ticks
}.

Lemma core_arrive en c box t ts : core en c box (t :: ts) → core en c (box ++ t_arrive t) ts.
Proof.
  assert (∀ e, e ∈ (box ++ t_arrive t) ++ arrivals ts ↔ e ∈ box ++ arrivals (t :: ts)) as E.
  { intros e. unfold arrivals. cbn. rewrite !elem_of_app. tauto. }
  intros [H1 H2 H3 H4 H5 H6]. split.
  - done.
  - intros e [He|He]%elem_of_app Ht; [auto|]. by destruct (H6 [] t ts e eq_refl He) as (_ & ? & _).
  - done.
  - intros e He. rewrite E. auto.
  - intros e. rewrite E. auto.
  - intros l1 t' l2 e -> He. destruct (H6 (t :: l1) t' l2 e eq_refl He) as (? & ? & Hf). split_and!; [done|done|].
    intros f Hin. apply Hf. cbn. by rewrite app_assoc.
Qed.

Lemma core_remove en c box ticks (P : box_event → bool) : core en c box ticks →
  (∀ e, e ∈ box → P e = false → tx e ∈ en ∨ e ∉ all) → core en c (List.filter P box) ticks.
Proof.
  assert (∀ e, e ∈ List.filter P box ↔ e ∈ box ∧ P e = true) as E by (intros; by rewrite !list_elem_of_In, filter_In).
  intros [H1 H2 H3 H4 H5 H6] Hrem. split; try done.
  - intros e [? _]%E. auto.
  - intros e He. rewrite elem_of_app, E. destruct (H4 e He) as [[Hb|Hf]%elem_of_app|]; [|auto|auto].
    destruct (P e) eqn:HP; [auto|]. destruct (Hrem e Hb HP); [auto|done].
  - intros e He. apply H5. apply elem_of_app in He as [[? _]%E|?]; apply elem_of_app; auto.
  - intros l1 t l2 e Ht He. destruct (H6 l1 t l2 e Ht He) as (? & ? & Hf). split_and!; [done|done|].
    intros f Hin. apply Hf. apply elem_of_app in Hin as [[? _]%E|?]; apply elem_of_app; auto.
Qed.

Lemma core_publish en box ticks e : core en "" box ticks → e ∈ box → core (en ++ [tx e]) (e_statement e) box ticks.
Proof.
  intros [H1 H2 H3 H4 H5 H6] He. destruct (Hknown e) as [_ Hne]; [apply H5, elem_of_app; auto|].
  assert (tx e ∉ en) as Hnew by (intros Hin; by apply Hne; rewrite <-(H2 e He Hin)).
  split.
  - apply NoDup_app. split_and!; [done| |apply NoDup_singleton]. intros x Hx ->%list_elem_of_singleton. done.
  - intros f Hf [Hin|Hin%list_elem_of_singleton]%elem_of_app; [|by apply transaction_of_inj in Hin].
    exfalso. destruct (Hknown f) as [_ Hn]; [apply H5, elem_of_app; auto|]. by apply Hn; rewrite <-(H2 f Hf Hin).
  - intros _. apply elem_of_app. right. by apply list_elem_of_singleton.
  - intros f Hf. rewrite (elem_of_app en). destruct (H4 f Hf); auto.
  - done.
  - intros l1 t l2 f Ht Hf. destruct (H6 l1 t l2 f Ht Hf) as (Hb & Hn & Hd). split_and!; [done| |done].
    rewrite not_elem_of_app, list_elem_of_singleton. split; [done|]. intros E%transaction_of_inj.
    apply (Hd e); [apply elem_of_app; auto|done].
Qed.

Lemma core_clear en c box ticks : core en c box ticks → (∀ e, e ∈ box → e_statement e ≠ c) → core en "" box ticks.
Proof.
  intros [H1 H2 H3 H4 H5 H6] Hn. split; try done. intros e He Hin. exfalso. by apply (Hn e He); rewrite (H2 e He Hin).
Qed.

(** ** A logic for computations on the source *)

Context (boundary_lsn : string).

(** The queue holds [log], published, and [xs], not published; [k] messages can be
    staged besides two for every call to come; [pins] are events of the outbox. *)
Definition holds (c : string) (X : list Message.t → Prop) (pins : list box_event) (k : nat) (w : world) : Prop := ∃ st log xs,
  Inv (wo_store w) st (log ++ xs) ∧ State.ReadySeq st = Z.of_nat (length log) ∧ State.SnapshotLSN st = boundary_lsn ∧
  State.Phase st = "stream" ∧ State.SourceCleanup st = c ∧ core (ended log) c (s_box (wo_source w)) (wo_ticks w) ∧ X xs ∧
  (∀ e, e ∈ pins → e ∈ s_box (wo_source w)) ∧ Z.of_nat (length (log ++ xs) + 2 * length (wo_ticks w) + k) < 2 ^ 64 - 1.

(** What holds whatever happens. *)
Definition balanced (w : world) : Prop := ∃ c, holds c (λ _, True) [] 0 w.

Definition hoare {A} (P : world → Prop) (c : legacy A) (Q : A → world → Prop) : Prop :=
  ∀ w w' r, P w → c w = (w', r) → match r with Ok a => Q a w' | Err _ => balanced w' end.

Lemma holds_weaken c X pins k c' X' pins' k' w : holds c X pins k w → c = c' → (∀ xs, X xs → X' xs) →
  (∀ e, e ∈ pins' → e ∈ pins) → (k' ≤ k)%nat → holds c' X' pins' k' w.
Proof.
  intros (st & log & xs & ? & ? & ? & ? & ? & ? & ? & ? & ?) <- HX Hp Hk. exists st, log, xs. split_and!; auto; lia.
Qed.

Lemma holds_balanced c X pins k w : holds c X pins k w → balanced w.
Proof. intros H. exists c. eapply holds_weaken; [done|done|done|by intros e ?%elem_of_nil|lia]. Qed.

Lemma hoare_ret {A} (P : world → Prop) (a : A) (Q : A → world → Prop) : (∀ w, P w → Q a w) → hoare P (mret a) Q.
Proof. intros H w w' r HP [= <- <-]. auto. Qed.

Lemma hoare_bind {A B} P (c : legacy A) (f : A → legacy B) R Q : hoare P c R → (∀ a, hoare (R a) (f a) Q) → hoare P (c ≫= f) Q.
Proof.
  intros Hc Hf w w' r HP. unfold mbind, legacy_bind. destruct (c w) as [w1 [a|e]] eqn:E; specialize (Hc _ _ _ HP E); cbn in Hc.
  - intros E2. by apply (Hf a w1).
  - by intros [= <- <-].
Qed.

Lemma hoare_pre {A} (P P' : world → Prop) (c : legacy A) Q : hoare P' c Q → (∀ w, P w → P' w) → hoare P c Q.
Proof. intros H HP w w' r Hw. apply H. auto. Qed.

Lemma hoare_post {A} P (c : legacy A) (Q Q' : A → world → Prop) : hoare P c Q → (∀ a w, Q a w → Q' a w) → hoare P c Q'.
Proof. intros H HQ w w' r Hw E. specialize (H w w' r Hw E). destruct r; auto. Qed.

(** A fact that the precondition gives. *)
Lemma hoare_fact {A} (P : world → Prop) (φ : Prop) (c : legacy A) Q : (∀ w, P w → φ) → (φ → hoare P c Q) → hoare P c Q.
Proof. intros H1 H2 w w' r HP. by apply (H2 (H1 w HP)). Qed.

Lemma hoare_lpure {A} c X pins k (r : result A) :
  hoare (holds c X pins k) (lpure r) (λ a w, r = Ok a ∧ holds c X pins k w).
Proof. intros w w' r' H [= <- <-]. destruct r; [done|by eapply holds_balanced]. Qed.

Lemma holds_arrive c X pins k w t ts : wo_ticks w = t :: ts → holds c X pins k w →
  holds c X pins (k + 2) (mkWorld (wo_obs w) (wo_store w) (arrive (t_arrive t) (wo_source w)) ts).
Proof.
  intros Ht (st & log & xs & HI & Hr & Hs & Hph & Hc & Hcore & HX & Hp & Hb). rewrite Ht in *. exists st, log, xs.
  split_and!; try done; cbn; [by apply core_arrive|intros e He; apply elem_of_app; auto|cbn in Hb; lia].
Qed.

Lemma hoare_query {A} c X pins k (f : source → A) :
  hoare (holds c X pins k) (query f) (λ a w, a = f (wo_source w) ∧ holds c X pins (k + 2) w).
Proof.
  intros w w' r H. unfold query, call. destruct (wo_ticks w) as [|t ts] eqn:Ht.
  { intros [= <- <-]. by eapply holds_balanced. }
  pose proof (holds_arrive _ _ _ _ _ _ _ Ht H) as H'. destruct (t_fault t); intros [= <- <-]; [done|by eapply holds_balanced..].
Qed.

(** A call that removes events which are published or not to be captured. *)
Lemma hoare_remove c X k (P : box_event → bool) :
  (∀ en box ticks e, core en c box ticks → e ∈ box → P e = false → tx e ∈ en ∨ e ∉ all) →
  hoare (holds c X [] k) (call (λ src, (mkSource (List.filter P (s_box src)) (s_managed src), tt)))
    (λ _ w, holds c X [] (k + 2) w ∧ ∀ e, e ∈ s_box (wo_source w) → P e = true).
Proof.
  intros Hrem w w' r H. unfold call. destruct (wo_ticks w) as [|t ts] eqn:Ht.
  { intros [= <- <-]. by eapply holds_balanced. }
  apply (holds_arrive _ _ _ _ _ _ _ Ht) in H. assert (holds c X [] (k + 2) (mkWorld (wo_obs w) (wo_store w)
    (mkSource (List.filter P (s_box (arrive (t_arrive t) (wo_source w)))) (s_managed (arrive (t_arrive t) (wo_source w)))) ts)) as H'.
  { destruct H as (st & log & xs & HI & Hr & Hs & Hph & Hc & Hcore & HX & Hp & Hb). exists st, log, xs.
    split_and!; try done; [|by intros e ?%elem_of_nil]. apply core_remove; [done|]. intros e. by eapply Hrem. }
  destruct (t_fault t); intros [= <- <-]; [|by eapply holds_balanced..].
  split; [done|]. cbn. intros e. rewrite list_elem_of_In, filter_In. tauto.
Qed.

Lemma balanced_exec w w' r : balanced w → exec_ w = (w', r) → balanced w'.
Proof.
  intros [c H] E. pose proof (hoare_query c (λ _, True) [] 0 (λ _, tt) w w' r H E) as Hq. destruct r; [|done].
  destruct Hq as [_ Hq]. by eapply holds_balanced.
Qed.

Lemma hoare_rolling {A} P (c : legacy A) Q : hoare P c Q → hoare P (rolling c) Q.
Proof.
  intros Hc w w' r HP. unfold rolling. destruct (c w) as [w1 [a|e]] eqn:E; specialize (Hc _ _ _ HP E); cbn in Hc.
  - by intros [= <- <-].
  - destruct (exec_ w1) as [w2 [[]|e2]] eqn:E2; intros [= <- <-]; by eapply balanced_exec.
Qed.

(** A computation on the queue that publishes nothing. *)
Lemma hoare_lift {A} c pins k n (X : list Message.t → Prop) (m : staging A) post : runs n m post → (n ≤ k)%nat →
  hoare (holds c X pins k) (lift m)
    (λ a w, holds c (λ xs, ∃ xs0 ys ms, xs = xs0 ++ ys ∧ X xs0 ∧ Forall2 stamped ms ys ∧ post a ms) pins (k - n) w).
Proof.
  intros Hm Hk w w' r (st & log & xs & HI & Hr & Hs & Hph & Hc & Hcore & HX & Hp & Hb). unfold lift.
  destruct (m (wo_obs w) (wo_store w)) as [[env s] r'] eqn:E. intros [= <- <-].
  destruct (Hm _ _ _ _ _ _ _ HI ltac:(lia) E) as (ms & st' & log' & HI' & [(ys & -> & Hys) Er Ed Eph Eg Ec Es] & Hl & Hpost).
  assert (∀ X' : list Message.t → Prop, X' (xs ++ ys) → holds c X' pins (k - n) (mkWorld env s (wo_source w) (wo_ticks w))) as Hh.
  { intros X' HX'. exists st', log, (xs ++ ys). rewrite app_assoc. cbn. apply Forall2_length in Hys. rewrite !length_app in *.
    split_and!; try done; try congruence; lia. }
  destruct r' as [a|e]; [apply Hh; by exists xs, ys, ms|]. by eapply holds_balanced, (Hh (λ _, True)).
Qed.

Lemma hoare_get_state c X pins k : hoare (holds c X pins k) (lift get_state)
  (λ st w, State.SourceCleanup st = c ∧ State.SnapshotLSN st = boundary_lsn ∧ State.Phase st = "stream" ∧ holds c X pins k w).
Proof.
  intros w w' r H. unfold lift, get_state. intros [= <- <-]. pose proof H as (st & log & xs & HI & Hr & Hs & Hph & Hc & _).
  unfold GetState. rewrite (inv_read _ _ _ HI). by destruct w.
Qed.

Lemma holds_pin c X pins k w e : holds c X pins k w → e ∈ s_box (wo_source w) → holds c X (e :: pins) k w.
Proof.
  intros (st & log & xs & HI & Hr & Hs & Hph & Hc & Hcore & HX & Hp & Hb) He. exists st, log, xs. split_and!; try done.
  intros f [->|?]%elem_of_cons; auto.
Qed.

Lemma holds_known c X pins k w e : holds c X pins k w → e ∈ s_box (wo_source w) → e ∈ known.
Proof.
  intros (st & log & xs & HI & Hr & Hs & Hph & Hc & Hcore & _) He. apply (core_known _ _ _ _ Hcore), elem_of_app. auto.
Qed.

(** *** Publishing and cleaning up *)

Lemma ended_app a b : ended (a ++ b) = ended a ++ ended b.
Proof. unfold ended. by rewrite List.filter_app, fmap_app. Qed.

Lemma ended_stamped ms xs : Forall2 stamped ms xs → ended xs = ended ms.
Proof.
  induction 1 as [|m x ms xs Hs _ IH]; [done|]. destruct (stamped_fields _ _ Hs) as (Hk & Ht & _). unfold ended in *. cbn.
  rewrite Hk. destruct (String.eqb _ _); cbn; by rewrite IH, ?Ht.
Qed.

Lemma hoare_publish e lsn k : e ∈ known → utf8_valid lsn = true →
  hoare (holds "" (λ xs, ended xs = [tx e]) [e] k) (lift (on_queue (λ s, PublishSource s lsn false (e_statement e))))
    (λ _ w, holds (e_statement e) (λ xs, xs = []) [] k w).
Proof.
  intros He Hu w w' r (st & log & xs & HI & Hr & Hs & Hph & Hc & Hcore & HX & Hp & Hb). unfold lift, on_queue.
  destruct (PublishSource_total _ _ _ lsn (e_statement e) HI) as [s' E]. rewrite E. intros [= <- <-].
  apply (PublishSource_Inv _ _ _ _ _ _ _ HI) in E as [_ HI']; [|done|by apply Hknown].
  eexists _, (log ++ xs), []. rewrite app_nil_r. split_and!; try done; cbn.
  - apply (inv_next _ _ _ HI).
  - rewrite ended_app, HX. apply core_publish; [by rewrite <-Hc in *|]. apply Hp. left.
  - by intros f ?%elem_of_nil.
Qed.

Lemma hoare_clear c k : hoare (λ w, holds c (λ xs, xs = []) [] k w ∧ ∀ e, e ∈ s_box (wo_source w) → e_statement e ≠ c)
  (lift (on_queue (λ s, ClearSourceCleanup s c))) (λ _ w, holds "" (λ xs, xs = []) [] k w).
Proof.
  intros w w' r [(st & log & xs & HI & Hr & Hs & Hph & Hc & Hcore & HX & Hp & Hb) Hn]. unfold lift, on_queue.
  destruct (ClearSourceCleanup (wo_store w) c) as [s' [[]|e]] eqn:E.
  - intros [= <- <-]. apply (ClearSourceCleanup_Inv _ _ _ _ _ HI) in E as [_ HI']. eexists _, log, xs.
    split_and!; try done. cbn. by eapply core_clear.
  - exfalso. unfold ClearSourceCleanup, Update in E. rewrite (inv_read _ _ _ HI) in E. autorewrite with go in E.
    by rewrite Hc, String.eqb_refl in E.
Qed.

Lemma hoare_deleteStatement c b k : c ≠ "" → hoare (holds c (λ xs, xs = []) [] k) (deleteStatement c b)
  (λ _ w, holds c (λ xs, xs = []) [] k w ∧ ∀ e, e ∈ s_box (wo_source w) → e_statement e ≠ c).
Proof.
  intros Hc. unfold deleteStatement. eapply hoare_bind; [apply hoare_query|]. intros []. apply hoare_rolling.
  eapply hoare_pre; [|by intros w [_ H]]. eapply hoare_bind; [apply hoare_query|]. intros [].
  eapply hoare_pre; [|by intros w [_ H]]. eapply hoare_bind; [apply hoare_query|]. intros n.
  eapply hoare_pre; [|by intros w [_ H]]. eapply hoare_bind; [apply hoare_lpure|]. intros [].
  eapply hoare_pre; [|by intros w [_ H]]. eapply hoare_post; [apply hoare_remove|].
  - intros en box ticks e Hcore He Hs. apply negb_false_iff, String.eqb_eq in Hs. left. unfold tx. rewrite Hs.
    by apply (core_cleanup _ _ _ _ Hcore).
  - intros [] w [H Hs]. split; [eapply holds_weaken; [done|done|done|done|lia]|]. intros e He. specialize (Hs e He).
    unfold of_statement in Hs. by bool_prop.
Qed.

Lemma hoare_finish c k : hoare (holds c (λ xs, xs = []) [] k) finishSourceCleanup (λ _ w, holds "" (λ xs, xs = []) [] k w).
Proof.
  unfold finishSourceCleanup. eapply hoare_bind; [apply hoare_get_state|]. intros st w w' r (Hc & _ & _ & H).
  destruct (String.eqb_spec (State.SourceCleanup st) "") as [E|E].
  - intros [= <- <-]. by rewrite <-Hc, E in H.
  - rewrite Hc in *. revert w w' r H. change (hoare (holds c (λ xs, xs = []) [] k)
      (_ ← deleteStatement c true; lift (on_queue (λ s, ClearSourceCleanup s c))) (λ _ w, holds "" (λ xs, xs = []) [] k w)).
    eapply hoare_bind; [by apply hoare_deleteStatement|]. intros []. apply hoare_clear.
Qed.

(** *** The events of the snapshot *)

Lemma hoare_deleteEvent c id k : id ≤ boundary → hoare (holds c (λ xs, xs = []) [] k) (deleteEvent id) (λ _ w, holds c (λ xs, xs = []) [] k w).
Proof.
  intros Hid. unfold deleteEvent. eapply hoare_bind; [apply hoare_query|]. intros []. apply hoare_rolling.
  eapply hoare_pre; [|by intros w [_ H]]. eapply hoare_bind; [apply hoare_query|]. intros [].
  eapply hoare_pre; [|by intros w [_ H]]. eapply hoare_bind; [apply hoare_query|]. intros n.
  eapply hoare_pre; [|by intros w [_ H]]. eapply hoare_bind; [apply hoare_lpure|]. intros [].
  eapply hoare_pre; [|by intros w [_ H]]. eapply hoare_post; [apply hoare_remove|].
  - intros en box ticks e Hcore He Hs. apply negb_false_iff, Z.eqb_eq in Hs. right. intros Hin%Hall. lia.
  - intros [] w [H _]. eapply holds_weaken; [done|done|done|done|lia].
Qed.

Lemma first_event_elem l e : first_event l = Some e → e ∈ l.
Proof.
  unfold first_event. intros H. rewrite <-(order_by_perm id_lt l). destruct (order_by id_lt l); [done|]. injection H as ->. left.
Qed.

Lemma hoare_discard fuel c k : hoare (holds c (λ xs, xs = []) [] k) (discard_loop fuel boundary) (λ _ w, holds c (λ xs, xs = []) [] k w).
Proof.
  induction fuel as [|fuel IH]; cbn [discard_loop].
  { intros w w' r H [= <- <-]. by eapply holds_balanced. }
  eapply hoare_bind; [apply hoare_query|]. intros found. destruct found as [e|].
  - apply (hoare_fact _ (e_id e ≤ boundary)).
    { intros w [Hf _]. symmetry in Hf. apply first_event_elem, list_elem_of_In, filter_In in Hf as [_ Hf]. by bool_prop. }
    intros Hid. apply (hoare_pre _ (holds c (λ xs, xs = []) [] k)); [|intros w [_ H]; eapply holds_weaken; [done|done|done|done|lia]].
    eapply hoare_bind; [by apply hoare_deleteEvent|]. intros []. apply IH.
  - apply hoare_ret. intros w [_ H]. eapply holds_weaken; [done|done|done|done|lia].
Qed.

(** *** Reading a statement *)

Context (FormatFloat : Z → Z → string) (fs : filesystem) (cfg : config.Config.t).

(** The rows of the events in [tables] can be carried by the wire format. *)
Context (tables : list Table.t).
Definition events_ok : Prop := ∀ e v t row n row', e ∈ known → t ∈ tables → (v = [] ∨ ∃ e', e' ∈ known ∧ v = e_values e') →
  event_row FormatFloat t (e_operation e) (v, Got tt) = Ok row → 0 ≤ n < 2 ^ 64 →
  Apply fs cfg (Row.set_Ordinal n row) = Ok row' → Row_ok row' = true.
Hypothesis Hevents : events_ok.

Definition are_rows (ms : list Message.t) : Prop := Forall (λ m, Message.Kind m = "transaction_rows") ms.

(** The batch of a statement while it is read. *)
Definition batch_reads (x : Z * batcher) : Prop :=
  Message_ok (b_msg x.2) = true ∧ (x.1 = 0 ∧ rows_of x.2 = [] ∨ Message.Kind (b_msg x.2) = "transaction_rows").

Lemma box_message_ok kind statement lsn c : utf8_valid kind = true → utf8_valid statement = true → utf8_valid lsn = true →
  uint_ok 64 c = true →
  Message_ok (Message.mk "" "" "" "" 0 "" kind (transaction_of statement) c lsn [] None [] None "") = true.
Proof.
  intros Hk Hs Hl Hc. unfold Message_ok. rewrite !andb_true_iff. split_and!; first [done|by apply utf8_valid_append].
Qed.

Lemma runs_consume durable statement maximum row x : batch_reads x → utf8_valid statement = true →
  (∀ n row', 0 ≤ n < 2 ^ 64 → Apply fs cfg (Row.set_Ordinal n row) = Ok row' → Row_ok row' = true) →
  runs 2 (consume fs cfg durable statement maximum row x) (λ y ms, batch_reads y ∧ are_rows ms).
Proof.
  intros [Hm Hk] Hs Hok. unfold consume. apply (runs_bind 2 0 _ _ (carries "transaction_rows")).
  - apply runs_add; [|intros row' Ha; eapply Hok; [apply u64_range|done]]. case_if; bool_prop.
    + split_and!; [|done|constructor]. apply box_message_ok; [done|done|apply utf8_box_position|done].
    + destruct Hk as [[? _]|Hk]; [done|]. split_and!; [done|done|constructor].
  - intros b ms (Hb & Hbk & Hms). apply runs_ret. rewrite app_nil_r. split; [|done]. split; [done|by right].
Qed.

Lemma runs_flush_reads x : batch_reads x → runs 1 (flush full x.2) (λ b ms, Message_ok (b_msg b) = true ∧ are_rows ms).
Proof.
  intros [Hm [[_ Hr]|Hk]].
  - unfold flush, row_count. rewrite Hr. apply runs_ret. by split; [|constructor].
  - eapply runs_weaken; [apply (runs_flush full "transaction_rows"); by split_and!|done|]. by intros b ms (? & _ & ?).
Qed.

Lemma are_rows_stamped xs ys ms : are_rows xs → Forall2 stamped ms ys → are_rows ms → are_rows (xs ++ ys).
Proof.
  intros Hx Hs Hm. apply Forall_app. split; [done|]. clear Hx. induction Hs as [|m y ms ys Hs _ IH]; [constructor|].
  apply Forall_cons in Hm as [Hk Hm]. constructor; [|by apply IH]. by destruct (stamped_fields _ _ Hs) as [-> _].
Qed.

Lemma are_rows_ended ms : are_rows ms → ended ms = [].
Proof. unfold ended. induction 1 as [|m ms Hk _ IH]; [done|]. cbn. by rewrite Hk. Qed.

Lemma values_known l id : (∀ e, e ∈ l → e ∈ known) → values_of id l = [] ∨ ∃ e', e' ∈ known ∧ values_of id l = e_values e'.
Proof.
  intros H. unfold values_of. destruct (List.find _ l) as [e|] eqn:E; [|by left]. right. exists e. split; [|done].
  apply H, list_elem_of_In. by apply find_some in E as [? _].
Qed.

Lemma find_table_elem l object t : find_table l object = Ok t → t ∈ l.
Proof. unfold find_table. intros [H _]%or_err_Ok%find_some. by apply list_elem_of_In. Qed.

Lemma hoare_read_events tables' durable statement maximum l c pins k x : tables' ⊆ tables → batch_reads x → utf8_valid statement = true →
  (∀ e, e ∈ l → e ∈ known) →
  hoare (holds c are_rows pins k) (read_events FormatFloat fs cfg tables' durable statement maximum l x)
    (λ y w, batch_reads y ∧ holds c are_rows pins k w).
Proof.
  intros Hsub Hx Hs. revert x Hx. induction l as [|e l IH]; intros x Hx Hl; cbn [read_events]; [apply hoare_ret; auto|].
  eapply hoare_bind; [apply hoare_lpure|]. intros t.
  apply (hoare_fact _ (t ∈ tables)); [intros w [Ht%find_table_elem _]; by apply Hsub|]. intros Ht. eapply hoare_pre; [|by intros w [_ H]].
  eapply hoare_bind; [apply hoare_query|]. intros v.
  apply (hoare_fact _ (v = [] ∨ ∃ e', e' ∈ known ∧ v = e_values e')).
  { intros w [-> H]. apply values_known. intros f. by eapply holds_known. }
  intros Hv. eapply hoare_pre; [|by intros w [_ H]]. eapply hoare_bind; [apply hoare_lpure|]. intros row.
  apply (hoare_fact _ (event_row FormatFloat t (e_operation e) (v, Got tt) = Ok row)); [by intros w [H _]|]. intros Hrow.
  eapply hoare_pre; [|by intros w [_ H]]. eapply hoare_bind.
  { eapply (hoare_lift c pins (k + 2) 2); [apply runs_consume; [done|done|]|lia].
    intros n row' Hn Ha. by eapply (Hevents e v t row n row'); [apply Hl; left|..]. }
  intros y. apply (hoare_fact _ (batch_reads y)).
  { by intros w (st & log & xs & _ & _ & _ & _ & _ & _ & (xs0 & ys & ms & _ & _ & _ & Hy & _) & _). }
  intros Hy. eapply hoare_pre; [apply IH; [done|intros f Hf; apply Hl; by right]|]. intros w H.
  eapply holds_weaken; [exact H|done| |done|lia]. intros xs (xs0 & ys & ms & -> & Hx0 & Hst & _ & Hms). by eapply are_rows_stamped.
Qed.

Lemma first_statement l statement : e_statement <$> first_event l = Some statement → ∃ e, e ∈ l ∧ e_statement e = statement.
Proof. intros (e & He & ->)%fmap_Some. exists e. by split; [apply first_event_elem|]. Qed.

Lemma headers_elem statement l e : e ∈ headers_of statement l → e ∈ l.
Proof. unfold headers_of. rewrite (order_by_perm id_lt), list_elem_of_In, filter_In, <-list_elem_of_In. by intros [? _]. Qed.

Lemma hoare_readStatement tables' durable k : tables' ⊆ tables →
  hoare (holds "" (λ xs, xs = []) [] k) (readStatement FormatFloat fs cfg tables' durable) (λ found w,
    match found with
    | None => holds "" (λ xs, xs = []) [] k w
    | Some (statement, maximum, b) => ∃ e n, e_statement e = statement ∧ e ∈ known ∧ batch_reads (n, b) ∧ holds "" are_rows [e] (k + 2) w
    end).
Proof.
  intros Hsub. unfold readStatement. eapply hoare_bind; [apply hoare_query|]. intros [statement|].
  2: { apply hoare_ret. intros w [_ H]. eapply holds_weaken; [exact H|done|done|done|lia]. }
  intros w w' r [Hf H]. symmetry in Hf. apply first_statement in Hf as (e & He & <-).
  pose proof (holds_known _ _ _ _ _ _ H He) as Hk. pose proof (holds_pin _ _ _ _ _ _ H He) as H'. clear H He. revert w w' r H'.
  eapply hoare_bind; [apply hoare_query|]. intros headers.
  apply (hoare_fact _ (∀ f, f ∈ headers → f ∈ known)); [intros w [-> H] f Hf%headers_elem; by eapply holds_known|]. intros Hh.
  eapply hoare_pre; [|by intros w [_ H]]. eapply hoare_bind; [apply hoare_lpure|]. intros [].
  eapply hoare_pre.
  - eapply hoare_bind; [eapply (hoare_read_events _ _ _ _ _ "" [e] (k + 2)); [done| |by apply Hknown|done]; split; [done|by left]|].
    intros [n b]. apply hoare_ret. intros w [Hb H]. by exists e, n.
  - intros w [_ H]. eapply holds_weaken; [exact H|done|intros xs ->; constructor|done|lia].
Qed.

(** *** A poll *)

Lemma hoare_poll q expected k : Inspection.Tables expected ⊆ tables →
  hoare (holds "" (λ xs, xs = []) [] k) (poll FormatFloat fs cfg q expected) (λ _ w, holds "" (λ xs, xs = []) [] k w).
Proof.
  intros Hsub. unfold poll. eapply hoare_bind; [apply hoare_lpure|]. intros current. eapply hoare_pre; [|by intros w [_ H]].
  eapply hoare_bind; [apply hoare_lpure|]. intros []. eapply hoare_pre; [|by intros w [_ H]].
  eapply hoare_bind; [apply hoare_get_state|]. intros st. eapply hoare_pre; [|by intros w (_ & _ & _ & H)].
  eapply hoare_bind; [apply hoare_lpure|]. intros durable. eapply hoare_pre; [|by intros w [_ H]].
  eapply hoare_bind; [by apply hoare_readStatement|]. intros [[[statement maximum] b]|]; [|by apply hoare_ret].
  intros w w' r (e & n & <- & He & Hb & H). revert w w' r H. destruct (Hknown e He) as [Hu Hne].
  eapply hoare_bind; [by eapply (hoare_lift "" [e] (k + 2) 1 _ (flush full (n, b).2)); [apply runs_flush_reads|lia]|]. intros b'.
  apply (hoare_fact _ (Message_ok (b_msg b') = true)).
  { by intros w (st' & log & xs & _ & _ & _ & _ & _ & _ & (xs0 & ys & ms & _ & _ & _ & [Hy _]) & _). }
  intros Hm. eapply hoare_pre.
  - eapply hoare_bind; [eapply (hoare_lift "" [e] (k + 1) 1 are_rows); [apply runs_append|lia]|].
    + apply box_message_ok; [done|done|apply utf8_box_position|]. unfold Message_ok in Hm. by bool_prop.
    + intros []. eapply hoare_bind; [eapply hoare_pre; [by apply (hoare_publish e _ k); [|apply utf8_box_position]|]|].
      * intros w H. eapply holds_weaken; [exact H|done| |done|lia]. intros xs (xs0 & ys & ms & -> & Hr & Hs & ->).
        by rewrite ended_app, (are_rows_ended _ Hr), (ended_stamped _ _ Hs).
      * intros []. eapply hoare_bind; [by apply hoare_deleteStatement|]. intros []. eapply hoare_bind; [apply hoare_clear|].
        intros []. by apply hoare_ret.
  - intros w H. eapply holds_weaken; [exact H|done| |done|lia].
    intros xs (xs0 & ys & ms & -> & Hr & Hs & _ & Hms). by eapply are_rows_stamped.
Qed.

Lemma hoare_polls l expected k : Inspection.Tables expected ⊆ tables →
  hoare (holds "" (λ xs, xs = []) [] k) (polls FormatFloat fs cfg l expected) (λ _ w, holds "" (λ xs, xs = []) [] k w).
Proof.
  intros Hsub. induction l as [|q l IH]; cbn [polls]; [by apply hoare_ret|]. eapply hoare_bind; [by apply hoare_poll|]. intros b. apply IH.
Qed.

(** *** Attempts *)

Lemma hoare_lmap_err {A} P f (c : legacy A) Q : hoare P c Q → hoare P (lmap_err f c) Q.
Proof.
  intros Hc w w' r HP. unfold lmap_err. destruct (c w) as [w1 [a|e]] eqn:E; specialize (Hc _ _ _ HP E); by intros [= <- <-].
Qed.

Lemma hoare_Recover : hoare balanced (lift (on_queue Recover)) (λ _ w, ∃ c, holds c (λ xs, xs = []) [] 0 w).
Proof.
  intros w w' r [c (st & log & xs & HI & Hr & Hs & Hph & Hc & Hcore & _ & Hp & Hb)]. unfold lift, on_queue.
  destruct (Recover (wo_store w)) as [s' [[]|e]] eqn:E; intros [= <- <-].
  - destruct (Recover_effect _ _ _ _ HI E) as (st' & HI' & Er & _ & _ & Eph & _ & _ & Ec & Es). rewrite Hr, Nat2Z.id, take_app_length in HI'.
    exists c, st', log, []. rewrite app_nil_r. rewrite length_app in Hb. split_and!; try done; try congruence. cbn; lia.
  - unfold Recover in E. apply Update_atomic in E as ->. exists c, st, log, xs. by split_and!.
Qed.

Hypothesis Hposition : parsePosition boundary_lsn = Ok boundary.

Lemma installed_state st info : State.Phase st = "stream" → check_state cfg st info = Ok tt → Inspection.Installed info = true.
Proof.
  intros Hph. unfold check_state. rewrite Hph. cbn [String.eqb]. intros H. apply bind_Ok in H as ([] & H%fail_if_Ok & _).
  rewrite !orb_false_iff in H. destruct H as [[[H _] _] _]. by apply negb_false_iff.
Qed.

Lemma hoare_streaming c l info : Inspection.Tables info ⊆ tables → hoare (holds c (λ xs, xs = []) [] 0)
  (streaming FormatFloat fs cfg (discardSnapshotEvents boundary_lsn) l info) (λ _ w, balanced w).
Proof.
  intros Hsub. unfold streaming. apply (hoare_bind _ _ _ (λ _, holds c (λ xs, xs = []) [] 0));
    [|intros []; eapply hoare_bind; [apply (hoare_finish c 0)|intros []]].
  - intros w w' r H E. unfold discardSnapshotEvents in E. rewrite Hposition in E. by eapply hoare_discard.
  - eapply hoare_post; [by apply hoare_polls|]. intros [] w H. by eapply holds_balanced.
Qed.

(** The tables that the source answers are among [tables]. *)
Definition inspects (io : attempt_io) : Prop := ∀ info, inspect cfg (at_q io) = Ok info → Inspection.Tables info ⊆ tables.

Lemma hoare_attempt io : inspects io → hoare balanced (attempt FormatFloat fs cfg io) (λ _ w, balanced w).
Proof.
  intros Hio. unfold attempt. apply (hoare_bind _ _ _ (λ _, balanced)); [intros w w' r [c H] E|intros _].
  { pose proof (hoare_get_state _ _ _ _ _ _ _ H E) as Hq. destruct r; [|done]. destruct Hq as (_ & _ & _ & Hq). by exists c. }
  eapply hoare_bind; [apply hoare_Recover|]. intros [] w w' r [c H]. revert w w' r H.
  eapply hoare_bind; [apply hoare_lpure|]. intros []. apply hoare_lmap_err. eapply hoare_pre; [|by intros w [_ H]].
  eapply hoare_bind; [apply hoare_lpure|]. intros []. apply hoare_lmap_err. eapply hoare_pre; [|by intros w [_ H]].
  eapply hoare_bind; [apply hoare_lpure|]. intros info. intros w w' r [Hinfo H]. revert w w' r H.
  eapply hoare_bind; [apply hoare_get_state|]. intros st. intros w w' r (Hc & Hs & Hph & H). revert w w' r H.
  eapply hoare_bind; [apply hoare_lpure|]. intros []. intros w w' r [Hck H]. revert w w' r H.
  unfold ensure_installed. rewrite (installed_state _ _ Hph Hck), Hph, Hs.
  apply (hoare_bind _ _ _ (λ a w, a = info ∧ holds c (λ xs, xs = []) [] 0 w)); [by apply hoare_ret|].
  intros info' w w' r [-> H]. revert w w' r H. eapply hoare_bind; [apply hoare_streaming; auto|].
  intros [] w w' r Hb [= <- <-]. done.
Qed.

(** The collector, started again and again. *)
Lemma balanced_attempts l w : Forall inspects l → balanced w → balanced (foldl (λ w io, (attempt FormatFloat fs cfg io w).1) w l).
Proof.
  intros Hl. revert w. induction Hl as [|io l Hio _ IH]; intros w H; [done|]. cbn. apply IH. destruct (attempt FormatFloat fs cfg io w) as [w' r] eqn:E.
  pose proof (hoare_attempt io Hio w w' r H E) as Hq. by destruct r.
Qed.
End accounts.

(** ** What a poll queues *)

(** A decomposition of computations that succeeded. *)
Lemma legacy_bind_Ok {A B} (c : legacy A) (f : A → legacy B) w w' b :
  (c ≫= f) w = (w', Ok b) ↔ ∃ w1 a, c w = (w1, Ok a) ∧ f a w1 = (w', Ok b).
Proof.
  unfold mbind, legacy_bind. split.
  - destruct (c w) as [w1 [a|e]]; [|done]. intros E. by exists w1, a.
  - by intros (w1 & a & -> & E).
Qed.

Lemma legacy_ret_Ok {A} (a : A) w w' a' : (mret a : legacy A) w = (w', Ok a') ↔ w' = w ∧ a' = a.
Proof. unfold mret, legacy_ret. naive_solver. Qed.

Lemma lpure_Ok {A} (r : result A) w w' a : lpure r w = (w', Ok a) ↔ w' = w ∧ r = Ok a.
Proof. unfold lpure. naive_solver. Qed.

Lemma legacy_lift_Ok {A} (m : staging A) w w' a : lift m w = (w', Ok a) ↔
  m (wo_obs w) (wo_store w) = (wo_obs w', wo_store w', Ok a) ∧ wo_source w' = wo_source w ∧ wo_ticks w' = wo_ticks w.
Proof.
  unfold lift. destruct (m _ _) as [[env s] r]. split.
  - intros [= <- <-]. done.
  - destruct w' as [? ? ? ?]. cbn. intros ([= <- <- <-] & -> & ->). done.
Qed.

Lemma rolling_Ok {A} (c : legacy A) w w' a : rolling c w = (w', Ok a) → c w = (w', Ok a).
Proof. unfold rolling. destruct (c w) as [w1 [b|e]]; [done|]. by destruct (exec_ w1) as [w2 [|]]. Qed.

(** From [w] to [w'] the calls [l] have been made, and [f] is what they have done to
    the outbox and its new events. *)
Definition elapsed (l : list tick) (f : list box_event → list box_event) (w w' : world) : Prop :=
  wo_ticks w = l ++ wo_ticks w' ∧ s_box (wo_source w') = f (s_box (wo_source w) ++ arrivals l).

Lemma elapsed_trans l l' f w w1 w' : elapsed l id w w1 → elapsed l' f w1 w' → elapsed (l ++ l') f w w'.
Proof.
  intros [T1 B1] [T2 B2]. split; [by rewrite T1, T2, app_assoc|]. by rewrite B2, B1, arrivals_app, app_assoc.
Qed.

Lemma elapsed_same w w' : wo_source w' = wo_source w → wo_ticks w' = wo_ticks w → elapsed [] id w w'.
Proof. intros Hs Ht. split; [done|]. by rewrite Hs, app_nil_r. Qed.

Lemma call_Ok {A} (f : source → source * A) w w' a : call f w = (w', Ok a) → ∃ t ts, wo_ticks w = t :: ts ∧
  (let src := arrive (t_arrive t) (wo_source w) in w' = mkWorld (wo_obs w) (wo_store w) (f src).1 ts ∧ a = (f src).2).
Proof.
  unfold call. destruct (wo_ticks w) as [|t ts]; [done|]. destruct (t_fault t); [|done..]. cbn.
  destruct (f _) as [src' b] eqn:E. intros [= <- <-]. exists t, ts. by rewrite E.
Qed.

Lemma query_Ok {A} (f : source → A) w w' a : query f w = (w', Ok a) → ∃ l, elapsed l id w w' ∧ a = f (wo_source w') ∧
  wo_obs w' = wo_obs w ∧ wo_store w' = wo_store w.
Proof.
  intros (t & ts & Ht & -> & ->)%call_Ok. exists [t]. split_and!; try done. split; [done|]. unfold arrivals. cbn. by rewrite app_nil_r.
Qed.

Lemma values_of_elem l e : NoDup (e_id <$> l) → e ∈ l → values_of (e_id e) l = e_values e.
Proof.
  intros Hnd He. unfold values_of. induction l as [|f l IH]; [by apply elem_of_nil in He|]. cbn [List.find].
  rewrite fmap_cons in Hnd. apply NoDup_cons in Hnd as [Hf Hnd]. destruct (Z.eqb_spec (e_id f) (e_id e)) as [E|E].
  - apply elem_of_cons in He as [->|He]; [done|]. exfalso. apply Hf. rewrite E. by apply list_elem_of_fmap_2.
  - apply elem_of_cons in He as [->|He]; [done|by apply IH].
Qed.

(** The rows with their ordinals, after [n] of them. *)
Definition numbered (n : Z) (rows : list Row.t) : list Row.t := imap (λ i, Row.set_Ordinal (n + Z.of_nat i + 1)) rows.

Lemma numbered_cons n row rows : numbered n (row :: rows) = Row.set_Ordinal (n + 1) row :: numbered (n + 1) rows.
Proof. unfold numbered. cbn. rewrite Z.add_0_r. f_equal. apply imap_ext. intros i r _. cbn. f_equal. lia. Qed.

Section content.
Context (FormatFloat : Z → Z → string) (fs : filesystem) (cfg : config.Config.t).

(** The row that an event is queued as. *)
Definition event_reads (tables : list Table.t) (e : box_event) (row : Row.t) : Prop := ∃ t,
  find_table tables (e_object e) = Ok t ∧ event_row FormatFloat t (e_operation e) (e_values e, Got tt) = Ok row.

(** The batch that the rows of [l] are added to: the first row opens it. *)
Definition batch_of (lsn statement : string) (l : list box_event) (n : Z) (b : batcher) : batcher :=
  match l with
  | [] => b
  | _ => if n =? 0 then mkBatcher (rows_message statement lsn) (b_size b) else b
  end.

Lemma read_events_rows tables durable statement maximum l : ∀ n b w w' n' b', 0 ≤ n → n + Z.of_nat (length l) < 2 ^ 64 →
  (∀ e, e ∈ l → e ∈ s_box (wo_source w)) → NoDup (e_id <$> s_box (wo_source w) ++ arrivals (wo_ticks w)) →
  read_events FormatFloat fs cfg tables durable statement maximum l (n, b) w = (w', Ok (n', b')) →
  ∃ rows k, Forall2 (event_reads tables) l rows ∧ elapsed k id w w' ∧
    add_all (add full fs cfg) (numbered n rows) (batch_of (position (Z.max durable maximum)) statement l n b) (wo_obs w) (wo_store w) =
      (wo_obs w', wo_store w', Ok b').
Proof.
  induction l as [|e l IH]; intros n b w w' n' b' Hn Hlen Hin Hnd; cbn [read_events].
  { intros (-> & [= -> ->])%legacy_ret_Ok. exists [], []. split_and!; [done|by apply elapsed_same|done]. }
  intros (? & t & (-> & Ht)%lpure_Ok & H)%legacy_bind_Ok.
  apply legacy_bind_Ok in H as (w1 & v & (k & Hk & -> & Ho & Hs)%query_Ok & H).
  apply legacy_bind_Ok in H as (? & row & (-> & Hr)%lpure_Ok & H).
  apply legacy_bind_Ok in H as (w2 & [n1 b1] & (Hc & Hso & Hti)%legacy_lift_Ok & H).
  assert (NoDup (e_id <$> s_box (wo_source w1) ++ arrivals (wo_ticks w1))) as Hnd1.
  { destruct Hk as [Et ->]. by rewrite Et, arrivals_app, app_assoc in Hnd. }
  assert (∀ e', e' ∈ e :: l → e' ∈ s_box (wo_source w1)) as Hin1.
  { destruct Hk as [_ ->]. intros e' He'. apply elem_of_app. auto. }
  rewrite values_of_elem in Hr; [|by rewrite fmap_app, NoDup_app in Hnd1; destruct Hnd1|apply Hin1; left].
  unfold consume in Hc. apply staging_bind_Ok in Hc as (env2 & s2 & b2 & Hadd & (Eo & Es & [= -> ->])%staging_ret_Ok). cbn [fst snd] in Hadd.
  rewrite <-Eo, <-Es in Hadd. clear env2 s2 Eo Es.
  cbn [length] in Hlen. rewrite u64_small in * by lia.
  apply IH in H as (rows & k' & Hrows & Hk' & Hall); [|lia|lia|rewrite Hso; intros; apply Hin1; by right|by rewrite Hso, Hti].
  exists (row :: rows), (k ++ k'). split_and!.
  - constructor; [by exists t|done].
  - eapply elapsed_trans; [done|]. by eapply (elapsed_trans [] k'); [apply elapsed_same|].
  - rewrite numbered_cons. cbn [add_all]. apply staging_bind_Ok. eexists _, _, b2. rewrite <-Ho, <-Hs. split; [exact Hadd|].
    destruct l; [done|]. cbn [batch_of] in Hall. by destruct (Z.eqb_spec (n + 1) 0); [lia|].
Qed.

(** *** The oldest statement *)

#[local] Instance id_lt_strict : StrictLt id_lt.
Proof. split; unfold id_lt; intros; bool_prop; lia. Qed.

Lemma first_event_least l e : NoDup (e_id <$> l) → first_event l = Some e → ∀ f, f ∈ l → e_id e ≤ e_id f.
Proof.
  intros Hnd He f Hf. assert (increasing id_lt (order_by id_lt l)) as Hs.
  { apply order_by_sorted; [apply id_lt_strict| |by eapply NoDup_fmap_1]. intros x y Hx Hy.
    destruct (Z.lt_trichotomy (e_id x) (e_id y)) as [?|[E|?]]; [right; left; by apply Z.ltb_lt| |right; right; by apply Z.ltb_lt].
    left. apply list_elem_of_lookup in Hx as [i Hi]. apply list_elem_of_lookup in Hy as [j Hj].
    assert (i = j) as <- by (eapply (NoDup_lookup _ i j); [exact Hnd|by rewrite list_lookup_fmap, Hi|by rewrite list_lookup_fmap, Hj; cbn; rewrite E]).
    congruence. }
  unfold first_event in He. rewrite <-(order_by_perm id_lt l) in Hf. destruct (order_by id_lt l) as [|x k]; [done|]. injection He as ->.
  apply StronglySorted_inv in Hs as [_ Hs]. apply elem_of_cons in Hf as [->|Hf]; [done|]. rewrite Forall_forall in Hs.
  specialize (Hs f Hf). unfold id_lt in Hs. bool_prop. lia.
Qed.

(** Triggers commit the events of a statement at once. *)
Definition atomic (box : list box_event) (ticks : list tick) : Prop := ∀ l1 t l2 e f, ticks = l1 ++ t :: l2 → e ∈ t_arrive t →
  f ∈ box ++ arrivals l1 → e_statement f ≠ e_statement e.

Lemma atomic_later box l1 l2 l3 f e : atomic box (l1 ++ l2 ++ l3) → f ∈ box ++ arrivals l1 → e ∈ arrivals l2 → e_statement e ≠ e_statement f.
Proof.
  intros Ha Hf He. unfold arrivals in He. rewrite list_elem_of_In, in_concat in He. destruct He as (x & Hx & He).
  rewrite <-list_elem_of_In in Hx. rewrite <-list_elem_of_In in He. apply list_elem_of_fmap in Hx as (t & -> & (a & b & ->)%list_elem_of_split).
  apply not_eq_sym. eapply (Ha (l1 ++ a) t (b ++ l3)); [by rewrite <-!app_assoc|done|].
  rewrite arrivals_app, app_assoc. apply elem_of_app. by left.
Qed.

Lemma headers_later box l1 l2 l3 f : atomic box (l1 ++ l2 ++ l3) → f ∈ box ++ arrivals l1 →
  headers_of (e_statement f) (box ++ arrivals (l1 ++ l2)) = headers_of (e_statement f) (box ++ arrivals l1).
Proof.
  intros Ha Hf. unfold headers_of. rewrite arrivals_app, app_assoc, List.filter_app. f_equal.
  rewrite (filter_none (of_statement _) (arrivals l2)); [by rewrite app_nil_r|].
  apply Forall_forall. intros e He. unfold of_statement. apply String.eqb_neq. by eapply atomic_later.
Qed.

Lemma headers_length statement box l l' : (length (headers_of statement (box ++ arrivals l)) ≤ length (box ++ arrivals (l ++ l')))%nat.
Proof. unfold headers_of. rewrite order_by_perm, List.filter_length_le, arrivals_app, app_assoc, (length_app (_ ++ _)). lia. Qed.

(** *** A poll that succeeds *)

Lemma deleteStatement_Ok statement missing w w' : deleteStatement statement missing w = (w', Ok tt) → ∃ l,
  elapsed l (List.filter (λ e, negb (of_statement statement e))) w w' ∧ wo_obs w' = wo_obs w ∧ wo_store w' = wo_store w.
Proof.
  unfold deleteStatement. intros (w1 & [] & (l1 & E1 & _ & O1 & S1)%query_Ok & H)%legacy_bind_Ok. apply rolling_Ok in H.
  apply legacy_bind_Ok in H as (w2 & [] & (l2 & E2 & _ & O2 & S2)%query_Ok & H).
  apply legacy_bind_Ok in H as (w3 & n & (l3 & E3 & _ & O3 & S3)%query_Ok & H).
  apply legacy_bind_Ok in H as (? & [] & (-> & _)%lpure_Ok & H). apply call_Ok in H as (t & ts & Ht & -> & _). cbn [wo_obs wo_store].
  exists (l1 ++ l2 ++ l3 ++ [t]). split; [|split; congruence]. do 3 (eapply elapsed_trans; [eassumption|]).
  split; [done|]. unfold arrivals. cbn. by rewrite app_nil_r.
Qed.

Lemma readStatement_Ok tables durable w w' statement maximum b :
  atomic (s_box (wo_source w)) (wo_ticks w) → NoDup (e_id <$> s_box (wo_source w) ++ arrivals (wo_ticks w)) →
  Z.of_nat (length (s_box (wo_source w) ++ arrivals (wo_ticks w))) < 2 ^ 64 →
  readStatement FormatFloat fs cfg tables durable w = (w', Ok (Some (statement, maximum, b))) → ∃ l e rows,
    elapsed l id w w' ∧ e ∈ s_box (wo_source w') ∧ e_statement e = statement ∧ (∀ f, f ∈ s_box (wo_source w) → e_id e ≤ e_id f) ∧
    (∀ l', wo_ticks w = l ++ l' → ∀ k l'', l' = k ++ l'' →
       headers_of statement (s_box (wo_source w) ++ arrivals (l ++ k)) = headers_of statement (s_box (wo_source w'))) ∧
    maximum = greatest_id (headers_of statement (s_box (wo_source w'))) ∧
    Forall2 (event_reads tables) (headers_of statement (s_box (wo_source w'))) rows ∧
    add_all (add full fs cfg) (numbered 0 rows) (mkBatcher (rows_message statement (position (Z.max durable maximum))) 0)
      (wo_obs w) (wo_store w) = (wo_obs w', wo_store w', Ok b).
Proof.
  intros Hat Hnd Hlen H. unfold readStatement in H. apply legacy_bind_Ok in H as (w1 & found & (l1 & E1 & -> & O1 & S1)%query_Ok & H).
  destruct (first_event (s_box (wo_source w1))) as [e|] eqn:He; cbn [fmap option_fmap option_map] in H; [|by apply legacy_ret_Ok in H as [_ ?]].
  apply legacy_bind_Ok in H as (w2 & headers & (l2 & E2 & -> & O2 & S2)%query_Ok & H).
  apply legacy_bind_Ok in H as (? & [] & (-> & Hne%fail_if_Ok)%lpure_Ok & H).
  apply legacy_bind_Ok in H as (w3 & [n3 b3] & H & (-> & [= -> -> ->])%legacy_ret_Ok). cbn [snd].
  pose proof (elapsed_trans _ _ _ _ _ _ E1 E2) as E12. destruct E1 as [T1 B1], E12 as [T12 B12]. cbn [id] in B1, B12.
  assert (NoDup (e_id <$> s_box (wo_source w1))) as Hnd1.
  { rewrite T1, arrivals_app, app_assoc, fmap_app, NoDup_app in Hnd. rewrite B1. apply Hnd. }
  assert (length (headers_of (e_statement e) (s_box (wo_source w2))) ≤ length (s_box (wo_source w) ++ arrivals (wo_ticks w)))%nat as Hhl.
  { rewrite B12, T12. apply headers_length. }
  apply read_events_rows in H as (rows & l3 & Hrows & E3 & Hadd); [|lia|lia|apply headers_elem|by rewrite B12; rewrite T12, arrivals_app, app_assoc in Hnd].
  pose proof (elapsed_trans (l1 ++ l2) l3 id w w2 w3 (conj T12 B12) E3) as E123. pose proof (first_event_elem _ _ He) as Hin.
  assert (∀ k l', wo_ticks w = l1 ++ k ++ l' → headers_of (e_statement e) (s_box (wo_source w) ++ arrivals (l1 ++ k)) =
            headers_of (e_statement e) (s_box (wo_source w1))) as Hsame.
  { intros k l' Hk. rewrite B1. eapply (headers_later _ l1 k l'); [by rewrite <-Hk|by rewrite <-B1]. }
  rewrite <-!app_assoc in T12.
  assert (headers_of (e_statement e) (s_box (wo_source w3)) = headers_of (e_statement e) (s_box (wo_source w2))) as E32.
  { destruct E123 as [T123 B123]. rewrite B123, B12, (Hsame l2 _ T12). cbn [id]. rewrite <-!app_assoc in *. by apply (Hsame (l2 ++ l3) (wo_ticks w3)); rewrite T123, <-!app_assoc. }
  exists ((l1 ++ l2) ++ l3), e, rows. rewrite E32. split_and!; try done.
  - destruct E123 as [_ B123]. rewrite B123. cbn [id]. rewrite <-app_assoc, arrivals_app, app_assoc, <-B1. apply elem_of_app. by left.
  - intros f Hf. eapply first_event_least; [done|done|]. rewrite B1. apply elem_of_app. by left.
  - intros l' Hl k l'' ->. rewrite B12. rewrite (Hsame l2 _ T12). rewrite <-!app_assoc in *. apply (Hsame (l2 ++ l3 ++ k) l''). rewrite Hl. by rewrite <-!app_assoc.
  - rewrite <-O1, <-O2, <-S1, <-S2. destruct (headers_of _ _); [by rewrite bool_decide_true in Hne|done].
Qed.

(** The transaction of a statement: a row for each of its events, in their order. *)
Definition statement_queued (tables : list Table.t) (statement lsn : string) (l : list box_event) (ms : list Message.t) : Prop :=
  ∃ rows, Forall2 (event_reads tables) l rows ∧
    transaction_messages fs cfg (rows_message statement lsn) (end_message statement lsn) (numbered 0 rows) ms.

Lemma numbered_ok tables known l rows : events_ok known FormatFloat fs cfg tables → (∀ e, e ∈ l → e ∈ known) → Forall2 (event_reads tables) l rows →
  Z.of_nat (length l) < 2 ^ 64 → ∀ row row', row ∈ numbered 0 rows → Apply fs cfg row = Ok row' → Row_ok row' = true.
Proof.
  intros Hok Hl Hrows Hlen row row' (i & r & -> & Hr)%elem_of_lookup_imap Ha.
  destruct (Forall2_lookup_r _ _ _ _ _ Hrows Hr) as (e & He & t & Ht & Hrow). pose proof (lookup_lt_Some _ _ _ He) as Hi.
  apply list_elem_of_lookup_2 in He. eapply (Hok e (e_values e) t r); [by apply Hl|by eapply find_table_elem|right; exists e; by split; [apply Hl|]|done| |done]. lia.
Qed.

(** The queue after a statement is staged, published, and its note is cleared. *)
Lemma statement_published statement lsn rows env s st log env1 s1 b env2 s2 b2 env3 s3 s4 s5 :
  limits_ok cfg → utf8_valid statement = true → utf8_valid lsn = true →
  (∀ row row', row ∈ rows → Apply fs cfg row = Ok row' → Row_ok row' = true) →
  Inv s st log → Z.of_nat (length log + (2 * length rows + 2)) < 2 ^ 64 - 1 →
  add_all (add full fs cfg) rows (mkBatcher (rows_message statement lsn) 0) env s = (env1, s1, Ok b) →
  flush full b env1 s1 = (env2, s2, Ok b2) →
  append full (end_message statement lsn (Message.Chunk (b_msg b2))) env2 s2 = (env3, s3, Ok tt) →
  PublishSource s3 lsn false statement = (s4, Ok tt) → ClearSourceCleanup s4 statement = (s5, Ok tt) → ∃ ms ys st',
    transaction_messages fs cfg (rows_message statement lsn) (end_message statement lsn) rows ms ∧
    drained s5 st' (log ++ ys) ∧ Forall2 stamped ms ys ∧ State.DurableLSN st' = lsn ∧ State.SourceCleanup st' = "".
Proof.
  intros Hlim Hu Hl Hok HI Hb Hadd Hfl Happ Hpub Hcl.
  destruct (transaction_staged full fs cfg Hlim (rows_message statement lsn) (end_message statement lsn) rows env s st log env1 s1 b env2 s2 b2 env3 s3)
    as (ms & st1 & log1 & HI1 & [(ys & -> & Hys) _ _ _ _ _ _] & _ & Hms); try done;
    [by apply box_message_ok|intros c; by apply box_message_ok|].
  apply (PublishSource_Inv _ _ _ _ _ _ _ HI1) in Hpub as [_ HI2]; [|done|done].
  apply (ClearSourceCleanup_Inv _ _ _ _ _ HI2) in Hcl as [_ HI3]. exists ms, ys. eexists. split_and!; [done|split; [exact HI3|done]|done..].
Qed.

Lemma poll_captures q expected w w' st log :
  let tables := Inspection.Tables expected in let known := s_box (wo_source w) ++ arrivals (wo_ticks w) in
  limits_ok cfg → (∀ e, e ∈ known → named e) → events_ok known FormatFloat fs cfg tables → NoDup (e_id <$> known) →
  atomic (s_box (wo_source w)) (wo_ticks w) → drained (wo_store w) st log →
  Z.of_nat (length log + (2 * length known + 2)) < 2 ^ 64 - 1 →
  poll FormatFloat fs cfg q expected w = (w', Ok true) → ∃ l e ms ys st' durable,
    let evs := headers_of (e_statement e) (s_box (wo_source w) ++ arrivals l) in
    elapsed l (List.filter (λ f, negb (of_statement (e_statement e) f))) w w' ∧
    e ∈ s_box (wo_source w) ++ arrivals l ∧ (∀ f, f ∈ s_box (wo_source w) → e_id e ≤ e_id f) ∧
    parsePosition (State.DurableLSN st) = Ok durable ∧ State.DurableLSN st' = position (Z.max durable (greatest_id evs)) ∧
    statement_queued tables (e_statement e) (State.DurableLSN st') evs ms ∧
    drained (wo_store w') st' (log ++ ys) ∧ Forall2 stamped ms ys ∧ State.SourceCleanup st' = "".
Proof.
  intros tables known Hlim Hnamed Hok Hnd Hat [HI Hdr] Hbd H. unfold poll in H.
  apply legacy_bind_Ok in H as (? & current & (-> & _)%lpure_Ok & H). apply legacy_bind_Ok in H as (? & [] & (-> & _)%lpure_Ok & H).
  apply legacy_bind_Ok in H as (w1 & st0 & ((O1 & S1 & Hst)%get_state_Ok & So1 & T1)%legacy_lift_Ok & H).
  unfold GetState in Hst. rewrite (inv_read _ _ _ HI) in Hst. injection Hst as <-.
  apply legacy_bind_Ok in H as (? & durable & (-> & Hd)%lpure_Ok & H). apply legacy_bind_Ok in H as (w2 & found & Hr & H).
  destruct found as [[[statement maximum] b]|]; [|by apply legacy_ret_Ok in H as [_ ?]].
  apply readStatement_Ok in Hr as (l1 & e & rows & [T2 B2] & Hin & <- & Hleast & Hlater & -> & Hrows & Hadd);
    [|by rewrite So1, T1|by rewrite So1, T1|rewrite So1, T1; fold known; lia].
  rewrite So1, T1, O1, S1 in *. clear w1 So1 T1 O1 S1. set (maximum := greatest_id _) in *. cbn [id] in B2.
  apply legacy_bind_Ok in H as (w3 & b3 & (Hfl & So3 & T3)%legacy_lift_Ok & H).
  apply legacy_bind_Ok in H as (w4 & [] & (Happ & So4 & T4)%legacy_lift_Ok & H).
  apply legacy_bind_Ok in H as (w5 & [] & ([O5 Hpub]%on_queue_Ok & So5 & T5)%legacy_lift_Ok & H).
  apply legacy_bind_Ok in H as (w6 & [] & (l2 & E6 & O6 & S6)%deleteStatement_Ok & H).
  apply legacy_bind_Ok in H as (w7 & [] & ([O7 Hcl]%on_queue_Ok & So7 & T7)%legacy_lift_Ok & (-> & _)%legacy_ret_Ok).
  assert (∀ f, f ∈ headers_of (e_statement e) (s_box (wo_source w2)) → f ∈ known) as Hsub.
  { intros f Hf%headers_elem. rewrite B2 in Hf. unfold known. rewrite T2, arrivals_app, app_assoc. apply elem_of_app. by left. }
  assert (Z.of_nat (length (headers_of (e_statement e) (s_box (wo_source w2)))) ≤ Z.of_nat (length known)) as Hhl.
  { unfold known. rewrite B2, T2. apply inj_le, headers_length. }
  rewrite <-S6 in Hpub. pose proof (Forall2_length _ _ _ Hrows) as Hlr. destruct (Hnamed e) as [Hu _].
  { unfold known. rewrite T2, arrivals_app, app_assoc. apply elem_of_app. left. by rewrite <-B2. }
  destruct (statement_published (e_statement e) (position (Z.max durable maximum)) (numbered 0 rows) _ _ st log _ _ b _ _ b3 _ _ _ _
    Hlim Hu (utf8_box_position _) ltac:(eapply numbered_ok; [done|done|done|lia]) HI ltac:(unfold numbered; rewrite length_imap; lia)
    Hadd Hfl Happ Hpub Hcl) as (ms & ys & st' & Hms & Hdr' & Hys & Hlsn & Hclean).
  assert (elapsed (l1 ++ l2) (List.filter (λ f, negb (of_statement (e_statement e) f))) w w7) as E.
  { eapply (elapsed_trans _ _ _ _ w2); [by split|]. destruct E6 as [T6 B6]. rewrite T5, T4, T3 in T6. rewrite So5, So4, So3 in B6.
    split; [by rewrite T7|by rewrite So7]. }
  exists (l1 ++ l2), e, ms, ys, st', durable. destruct E as [T B]. rewrite (Hlater (l2 ++ wo_ticks w7)) with (l'' := wo_ticks w7) by (by rewrite ?T, ?app_assoc).
  split_and!; [by split| |done|done|by rewrite Hlsn|rewrite Hlsn; by exists rows|done|done|done].
  rewrite arrivals_app, app_assoc, <-B2. apply elem_of_app. by left.
Qed.
End content.

(** ** The theorems *)

(** C20 However often the collector is stopped and started again, whatever calls to the
    database fail, before or after their effect, and whatever statements are
    committed meanwhile, no statement is published twice, and every event after the
    boundary of the snapshot is still in the outbox, or not yet committed, or its
    statement is published. *)
Theorem legacy_exactly_once FormatFloat fs cfg tables boundary l w st log :
  let known := s_box (wo_source w) ++ arrivals (wo_ticks w) in
  (∀ e, e ∈ known → named e ∧ tx e ∉ ended log) → events_ok known FormatFloat fs cfg tables →
  (∀ e, e ∈ arrivals (wo_ticks w) → boundary < e_id e) → atomic (s_box (wo_source w)) (wo_ticks w) →
  drained (wo_store w) st log → NoDup (ended log) → State.Phase st = "stream" → State.SourceCleanup st = "" →
  parsePosition (State.SnapshotLSN st) = Ok boundary → Z.of_nat (length log + 2 * length (wo_ticks w)) < 2 ^ 64 - 1 →
  Forall (inspects cfg tables) l →
  let w' := foldl (λ w io, (attempt FormatFloat fs cfg io w).1) w l in
  ∃ st' log' xs, Inv (wo_store w') st' (log' ++ xs) ∧ State.ReadySeq st' = Z.of_nat (length log') ∧ NoDup (ended log') ∧
    ∀ e, e ∈ known → boundary < e_id e → e ∈ s_box (wo_source w') ++ arrivals (wo_ticks w') ∨ tx e ∈ ended log'.
Proof.
  intros known Hknown Hok Hlate Hat [HI Hr] Hnd Hph Hc Hpos Hb Hl w'.
  destruct (balanced_attempts known (List.filter (λ e, boundary <? e_id e) known) boundary (λ e He, proj1 (Hknown e He))
    ltac:(intros e [_ ?]%list_elem_of_In%filter_In; by bool_prop) (State.SnapshotLSN st) FormatFloat fs cfg tables Hok Hpos l w Hl)
    as (c & st' & log' & xs & HI' & Hr' & _ & _ & _ & Hcore & _).
  - exists "", st, log, []. rewrite app_nil_r. split_and!; try done; [by rewrite Hr; apply (inv_next _ _ _ HI)| |by intros e ?%elem_of_nil|lia].
    split; try done.
    + intros e He Hin. exfalso. apply (Hknown e); [apply elem_of_app; by left|done].
    + intros e [He _]%list_elem_of_In%filter_In. left. by apply list_elem_of_In.
    + intros l1 t l2 e Ht He. assert (e ∈ arrivals (wo_ticks w)) as Ha.
      { rewrite Ht. unfold arrivals. rewrite fmap_app, concat_app. cbn. rewrite !elem_of_app. auto. }
      split_and!; [by apply Hlate|apply Hknown, elem_of_app; by right|intros f Hf; by eapply Hat].
  - exists st', log', xs. split_and!; [done|done|apply Hcore|]. intros e He Hid. apply (core_all _ _ _ _ _ _ _ Hcore).
    apply list_elem_of_In, filter_In. split; [by apply list_elem_of_In|by apply Z.ltb_lt].
Qed.

(** C21 A poll that makes progress takes the oldest statement of the outbox: it queues,
    and publishes with the new checkpoint, the rows of all the events of that
    statement, in their order and numbered from one, in chunks within the limits, and
    removes exactly that statement from the outbox, whatever is committed meanwhile. *)
Theorem statement_captured FormatFloat fs cfg q expected w w' st log :
  let tables := Inspection.Tables expected in let known := s_box (wo_source w) ++ arrivals (wo_ticks w) in
  limits_ok cfg → (∀ e, e ∈ known → named e) → events_ok known FormatFloat fs cfg tables → NoDup (e_id <$> known) →
  atomic (s_box (wo_source w)) (wo_ticks w) → drained (wo_store w) st log →
  Z.of_nat (length log + (2 * length known + 2)) < 2 ^ 64 - 1 →
  poll FormatFloat fs cfg q expected w = (w', Ok true) → ∃ l e ms ys st' durable,
    let evs := headers_of (e_statement e) (s_box (wo_source w) ++ arrivals l) in
    elapsed l (List.filter (λ f, negb (of_statement (e_statement e) f))) w w' ∧
    e ∈ s_box (wo_source w) ++ arrivals l ∧ (∀ f, f ∈ s_box (wo_source w) → e_id e ≤ e_id f) ∧
    parsePosition (State.DurableLSN st) = Ok durable ∧ State.DurableLSN st' = position (Z.max durable (greatest_id evs)) ∧
    statement_queued FormatFloat fs cfg tables (e_statement e) (State.DurableLSN st') evs ms ∧
    drained (wo_store w') st' (log ++ ys) ∧ Forall2 stamped ms ys ∧ State.SourceCleanup st' = "".
Proof. apply poll_captures. Qed.

(** ** A deletion whose answer is lost *)

Definition no_float_text (bits width : Z) : string := "".

Definition demo_box_cfg : config.Config.t :=
  config.Config.mk "" (config.Config.GRPC_ config.Defaults) (config.Config.Replay_ config.Defaults) "sqlserver_legacy"
    (config.Config.SQLServer_ config.Defaults) (config.SQLServerLegacy.mk false true "dbo" "gosync" "1s" "30s" "1m")
    (config.Config.MySQL_ config.Defaults) (config.Config.FileWatch_ config.Defaults) "src" "sqlserver://db" ""
    [config.Table.mk "dbo" "t"] [] "data" "" ∅ (10 * 2 ^ 30) 0 1 1024 4096 "30s" "1s" "60s" ""
    (config.Config.Log_ config.Defaults) true "".

Definition demo_box_table : Table.t :=
  Table.mk "sqlserver_legacy" "dbo" "t" "" [Column.mk "id" "int" true None true "int" 1 4; Column.mk "v" "varbinary(8)" false None false "varbinary" 2 8]
    7 "gosync_tr_7" true.

Definition demo_box_q : querier :=
  mkQuerier (Got ("10.50.1600.1", "Standard", "db")) (λ _ _, Got (Some 7))
    (λ _, Got ([mkColumnRow 1 "id" "int" 4 10 0 false false true; mkColumnRow 2 "v" "varbinary" 8 0 0 true false false], Got tt))
    (λ _, Got 1) (λ _, Got 1) (λ _, Got ("go-sync/sqlserver-legacy", 3, "sys", schemaHash [demo_box_table])) (λ _, Got ([], Got tt)).

Definition demo_box_info : Inspection.t := Inspection.mk "10.50.1600.1" "Standard" "db" "sys" true [demo_box_table].

Lemma demo_inspect : inspect demo_box_cfg demo_box_q = Ok demo_box_info.
Proof. vm_compute. reflexivity. Qed.

Definition demo_value (i : Z) (text binary : option string) : value_row := mkValue i false text None binary.
Definition demo_values (id : string) : list value_row := [demo_value 1 (Some id) None; demo_value 2 None (Some "x")].

(** An event that the snapshot contains, an update, and an insertion committed later. *)
Definition demo_box : list box_event :=
  [mkEvent 3 "S0" 7 "I" (demo_values "1"); mkEvent 6 "S1" 7 "D" (demo_values "1"); mkEvent 7 "S1" 7 "I" (demo_values "2")].
Definition demo_later : list box_event := [mkEvent 8 "S2" 7 "I" (demo_values "3")].

Definition demo_box_ops : list Op :=
  [OInitialize (snapshot_state demo_box_cfg demo_box_info "g1"); OFinalize (position 5); OPublish (position 5) true ""].
Definition demo_box_queue : Store * State.t * list Message.t := default demo_queue_open (exec demo_box_ops demo_queue_open).

Lemma demo_box_drained : drained demo_box_queue.1.1 demo_box_queue.1.2 demo_box_queue.2.
Proof.
  split; [|vm_compute; reflexivity].
  apply reach_Inv, (exec_reach demo_box_ops demo_queue_open demo_box_queue); [vm_compute; reflexivity|apply reach_open].
Qed.

(** The connection breaks after the deletion of the first statement is committed. *)
Definition demo_ticks : list tick :=
  replicate 13 (mkTick [] NoFault) ++ [mkTick demo_later (After ErrBadConn)] ++ replicate 20 (mkTick [] NoFault).

Definition demo_world : world :=
  mkWorld (replicate 6 (mkObs (Ok (2 ^ 40)) demo_time [])) demo_box_queue.1.1 (mkSource demo_box (mkManaged None true true None ∅)) demo_ticks.

Definition demo_attempt : attempt_io :=
  mkAttempt (Ok tt) (Ok tt) (Ok tt) (Ok tt) demo_box_q demo_box_q "" (Ok "token") demo_box_q [demo_box_q; demo_box_q] ErrCanceled.

Lemma demo_events e : e ∈ s_box (wo_source demo_world) ++ arrivals (wo_ticks demo_world) →
  e = mkEvent 3 "S0" 7 "I" (demo_values "1") ∨ e = mkEvent 6 "S1" 7 "D" (demo_values "1") ∨
  e = mkEvent 7 "S1" 7 "I" (demo_values "2") ∨ e = mkEvent 8 "S2" 7 "I" (demo_values "3").
Proof.
  change (s_box (wo_source demo_world) ++ arrivals (wo_ticks demo_world)) with (demo_box ++ demo_later).
  unfold demo_box, demo_later. cbn [app]. rewrite !elem_of_cons, elem_of_nil. naive_solver.
Qed.

Lemma demo_events_ok :
  events_ok (s_box (wo_source demo_world) ++ arrivals (wo_ticks demo_world)) no_float_text no_files demo_box_cfg [demo_box_table].
Proof.
  intros e v t row n row' He%demo_events Ht%list_elem_of_singleton Hv Hrow Hn Ha. subst t.
  assert (v = [] ∨ v = demo_values "1" ∨ v = demo_values "2" ∨ v = demo_values "3") as Hv'.
  { destruct Hv as [->|(e' & He'%demo_events & ->)]; [by left|]. destruct He' as [->|[->|[->| ->]]]; cbn; auto. }
  clear Hv. destruct Hv' as [->|[->|[->| ->]]]; destruct He as [->|[->|[->| ->]]];
    vm_compute in Hrow; try discriminate Hrow; injection Hrow as <-; vm_compute in Ha; injection Ha as <-; row_ok n.
Qed.

Lemma demo_ticks_split l1 t l2 e : demo_ticks = l1 ++ t :: l2 → e ∈ t_arrive t → l1 = replicate 13 (mkTick [] NoFault) ∧ t_arrive t = demo_later.
Proof.
  intros H He. assert (demo_ticks !! length l1 = Some t) as Hl by (by rewrite H, list_lookup_middle).
  unfold demo_ticks in Hl. destruct (decide (length l1 = 13%nat)) as [E|E].
  - rewrite E in Hl. injection Hl as <-. split; [|done]. unfold demo_ticks in H. by apply app_inj_1 in H as [H _].
  - exfalso. assert (t = mkTick [] NoFault) as ->; [|by apply elem_of_nil in He].
    apply lookup_app_Some in Hl as [Hl|[Hge Hl]]; [by apply lookup_replicate in Hl as [-> _]|]. rewrite length_replicate in *.
    destruct (length l1 - 13)%nat eqn:En; [lia|]. cbn [app lookup list_lookup] in Hl. by apply lookup_replicate in Hl as [-> _].
Qed.

Lemma demo_atomic : atomic (s_box (wo_source demo_world)) (wo_ticks demo_world).
Proof.
  intros l1 t l2 e f Ht He Hf. destruct (demo_ticks_split _ _ _ _ Ht He) as [-> Et]. rewrite Et in He.
  change (f ∈ demo_box) in Hf. unfold demo_box in Hf. apply list_elem_of_singleton in He as ->.
  rewrite !elem_of_cons, elem_of_nil in Hf. by destruct Hf as [->|[->|[->|[]]]].
Qed.

Definition demo_restarted : world := foldl (λ w io, (attempt no_float_text no_files demo_box_cfg io w).1) demo_world [demo_attempt; demo_attempt].

Lemma legacy_exactly_once_witness : ∃ st' log' xs, Inv (wo_store demo_restarted) st' (log' ++ xs) ∧
  State.ReadySeq st' = Z.of_nat (length log') ∧ NoDup (ended log') ∧
  ∀ e, e ∈ s_box (wo_source demo_world) ++ arrivals (wo_ticks demo_world) → 5 < e_id e →
    e ∈ s_box (wo_source demo_restarted) ++ arrivals (wo_ticks demo_restarted) ∨ tx e ∈ ended log'.
Proof.
  refine (legacy_exactly_once no_float_text no_files demo_box_cfg [demo_box_table] 5 [demo_attempt; demo_attempt] demo_world
    demo_box_queue.1.2 demo_box_queue.2 _ demo_events_ok _ demo_atomic demo_box_drained _ _ _ _ _ _).
  - intros e He%demo_events. replace (ended demo_box_queue.2) with (@nil string) by (vm_compute; reflexivity).
    split; [|by intros ?%elem_of_nil]. by destruct He as [->|[->|[->| ->]]].
  - change (arrivals (wo_ticks demo_world)) with demo_later. by intros e ->%list_elem_of_singleton.
  - replace (ended demo_box_queue.2) with (@nil string) by (vm_compute; reflexivity). constructor.
  - vm_compute. reflexivity.
  - vm_compute. reflexivity.
  - vm_compute. reflexivity.
  - vm_compute. reflexivity.
  - constructor; [|constructor; [|constructor]]; intros info H; change (inspect demo_box_cfg demo_box_q = Ok info) in H;
      rewrite demo_inspect in H; injection H as <-; done.
Defined.

(** A poll before the connection breaks. *)
Definition demo_polled_box : world := (poll no_float_text no_files demo_box_cfg demo_box_q demo_box_info demo_world).1.

Lemma demo_polled_box_Ok : poll no_float_text no_files demo_box_cfg demo_box_q demo_box_info demo_world = (demo_polled_box, Ok true).
Proof. vm_compute. reflexivity. Qed.

Lemma statement_captured_witness : ∃ l e ms ys st' durable,
  let evs := headers_of (e_statement e) (s_box (wo_source demo_world) ++ arrivals l) in
  elapsed l (List.filter (λ f, negb (of_statement (e_statement e) f))) demo_world demo_polled_box ∧
  e ∈ s_box (wo_source demo_world) ++ arrivals l ∧ (∀ f, f ∈ s_box (wo_source demo_world) → e_id e ≤ e_id f) ∧
  parsePosition (State.DurableLSN demo_box_queue.1.2) = Ok durable ∧ State.DurableLSN st' = position (Z.max durable (greatest_id evs)) ∧
  statement_queued no_float_text no_files demo_box_cfg [demo_box_table] (e_statement e) (State.DurableLSN st') evs ms ∧
  drained (wo_store demo_polled_box) st' (demo_box_queue.2 ++ ys) ∧ Forall2 stamped ms ys ∧ State.SourceCleanup st' = "".
Proof.
  refine (statement_captured no_float_text no_files demo_box_cfg demo_box_q demo_box_info demo_world demo_polled_box
    demo_box_queue.1.2 demo_box_queue.2 _ _ demo_events_ok _ demo_atomic demo_box_drained _ demo_polled_box_Ok).
  - unfold limits_ok. cbn. lia.
  - intros e He%demo_events. by destruct He as [->|[->|[->| ->]]].
  - change (NoDup [3; 6; 7; 8]). apply (bool_decide_unpack _). vm_compute. exact I.
  - vm_compute. reflexivity.
Defined.
