(* ===== verification/Capture.v ===== *)
(** * The PostgreSQL collector (internal/capture)

    The catalog of captured tables, the decoding of wal2json records into row
    changes, the decoder that stages a transaction and publishes it at its
    commit, the snapshot, the schema refresh and the loop of the replication
    stream.  PostgreSQL and its drivers are arguments: the answers to queries,
    the frames of the stream and the parsers of pglogrepl. *)

From S2P Require Import Prelude Bytes Sorting Encoding Sha256 Json JsonStruct GoTime GoPath Config Event Syncv1 FileEmbed Reconcile Queue QueueInv QueueSpec Batch.

#[local] Opaque marshal unmarshal.

Module capture.

(** ** Tables (postgres.go) *)

Module Column.
Record t := mk {
  Name : string;
  Type_ : string;
  OID : Z;
  NotNull : bool;
  Default : option string;
  Primary : bool
}.
End Column.

Module Table.
Record t := mk {
  RowIdentity : string;
  Schema : string;
  Name : string;
  OID : Z;
  Identity : string;
  Columns : list Column.t
}.
End Table.

Definition jbool (b : bool) : option json := Some (JBool b).

Definition Column_json (c : Column.t) : json :=
  struct_json
    [("name", str (Column.Name c)); ("type", str (Column.Type_ c)); ("type_oid", num (Column.OID c));
     ("not_null", jbool (Column.NotNull c)); ("default", null_str (Column.Default c));
     ("primary_key", jbool (Column.Primary c))].

Definition Table_json (t : Table.t) : json :=
  struct_json
    [("row_identity", omit_str (Table.RowIdentity t)); ("schema", str (Table.Schema t)); ("name", str (Table.Name t));
     ("oid", num (Table.OID t)); ("replica_identity", str (Table.Identity t));
     ("columns", null_list Column_json (Table.Columns t))].

Definition KeyNames (t : Table.t) : list string :=
  Column.Name <$> List.filter Column.Primary (Table.Columns t).

Definition schemaHash (l : list Table.t) : string :=
  hex_encode (sha256 (print (default JNull (null_list Table_json l)))).

(** A row of the catalog query. *)
Record catalog_row := mkCatalogRow {
  cr_oid : Z;
  cr_kind : string;
  cr_persistence : string;
  cr_identity : string;
  cr_inherited : bool;
  cr_column : Column.t;
  cr_rowSecurity : bool;
  cr_generated : string
}.

(** The loop over the rows of a table: its identifier and replica identity are
    those of the last row. *)
Fixpoint catalog_rows (t : Table.t) (l : list catalog_row) : result Table.t :=
  match l with
  | [] => Ok t
  | r :: l' =>
      _ ← fail_if (negb (String.eqb (cr_kind r) "r") || negb (String.eqb (cr_persistence r) "p") || cr_inherited r)
            (errorf "%s must be an ordinary persistent, non-inherited table");
      _ ← fail_if (cr_rowSecurity r || negb (String.eqb (cr_generated r) ""))
            (errorf "%s: row security and generated columns are unsupported");
      catalog_rows (Table.mk (Table.RowIdentity t) (Table.Schema t) (Table.Name t) (cr_oid r) (cr_identity r)
                      (Table.Columns t ++ [cr_column r])) l'
  end.

Definition catalog_table (want : config.Table.t) (rows : result (list catalog_row)) : result Table.t :=
  rows ← rows;
  t ← catalog_rows (Table.mk "" (config.Table.Schema want) (config.Table.Name want) 0 "" []) rows;
  _ ← fail_if (bool_decide (length (Table.Columns t) = 0%nat)) (errorf "table %s missing or has no columns");
  if bool_decide (KeyNames t = []) then
    _ ← fail_if (negb (String.eqb (Table.Identity t) "f"))
          (errorf "table %s has no primary key; configure explicitly: ALTER TABLE %s REPLICA IDENTITY FULL;");
    Ok (Table.mk "full_row" (Table.Schema t) (Table.Name t) (Table.OID t) (Table.Identity t) (Table.Columns t))
  else
    _ ← fail_if (negb (String.eqb (Table.Identity t) "d") && negb (String.eqb (Table.Identity t) "f"))
          (errorf "table %s needs default/full replica identity");
    Ok t.

Fixpoint catalog (query : config.Table.t → result (list catalog_row)) (l : list config.Table.t) : result (list Table.t) :=
  match l with
  | [] => Ok []
  | want :: l' => t ← catalog_table want (query want); r ← catalog query l'; Ok (t :: r)
  end.

(** What [Inspect] reads, before the identification of the system. *)
Record settings := mkSettings {
  version : Z;
  wal_level : string;
  slots : Z;
  senders : Z;
  replicationRole : bool;
  encoding : string
}.

Module Inspection.
Record t := mk {
  Version : Z;
  SystemID : string;
  Timeline : Z;
  Database : string;
  Tables : list Table.t
}.
End Inspection.

Definition Inspect (read : result settings) (query : config.Table.t → result (list catalog_row))
    (identify : result (string * Z * string)) (cfg : config.Config.t) : result Inspection.t :=
  s ← read;
  _ ← fail_if (version s <? 90400) (errorf "postgresql 9.4 or newer is required");
  _ ← fail_if (String.eqb (encoding s) "SQL_ASCII")
        (errorf "sql_ascii databases are unsupported because json cannot preserve arbitrary text bytes");
  _ ← fail_if (negb (String.eqb (wal_level s) "logical") || (slots s <? 1) || (senders s <? 1) || negb (replicationRole s))
        (errorf "logical wal, replication role, slots and wal senders are required");
  tables ← catalog query (config.Config.Tables cfg);
  '(system, timeline, database) ← identify;
  Ok (Inspection.mk (version s) system timeline database tables).

(** A name in the list of wal2json's add-tables option. *)
Fixpoint filterName (s : string) : string :=
  match s with
  | EmptyString => EmptyString
  | String c r =>
      if string_elem c (" \.,*'" +:+ of_bytes [9; 10; 13]) then String "\" (String c (filterName r))
      else String c (filterName r)
  end.

Definition pluginTables (cfg : config.Config.t) : string :=
  double_byte "'" (Join ((λ t, filterName (config.Table.Schema t) +:+ "." +:+ filterName (config.Table.Name t)) <$>
                       config.Config.Tables cfg) ",").

(** ** Records of wal2json (decode.go) *)

Module wireColumn.
Record t := mk { Name : string; Type_ : string; OID : Z; Value : option json }.
Definition zero : t := mk "" "" 0 None.
End wireColumn.

Module record.
Record t := mk {
  Action : string;
  XID : Z;
  LSN : string;
  NextLSN : string;
  Schema : string;
  Table : string;
  Columns : list wireColumn.t;
  Identity : list wireColumn.t
}.
Definition zero : t := mk "" 0 "" "" "" "" [] [].
End record.

Definition wireColumn_of (v : json) : option wireColumn.t :=
  dec_struct wireColumn.zero (λ ms,
    name ← obj_fold "name" dec_str "" ms;
    type ← obj_fold "type" dec_str "" ms;
    oid ← obj_fold "typeoid" (dec_uint 32) 0 ms;
    value ← obj_fold "value" dec_raw None ms;
    Some (wireColumn.mk name type oid value)) v.

Definition record_of (v : json) : option record.t :=
  dec_struct record.zero (λ ms,
    action ← obj_fold "action" dec_str "" ms;
    xid ← obj_fold "xid" (dec_uint 32) 0 ms;
    lsn ← obj_fold "lsn" dec_str "" ms;
    nextlsn ← obj_fold "nextlsn" dec_str "" ms;
    schema ← obj_fold "schema" dec_str "" ms;
    table ← obj_fold "table" dec_str "" ms;
    columns ← obj_fold "columns" (dec_list wireColumn_of) [] ms;
    identity ← obj_fold "identity" (dec_list wireColumn_of) [] ms;
    Some (record.mk action xid lsn nextlsn schema table columns identity)) v.

(** The raw text of a column value.  A scalar is written in one way only, up to
    the escapes of a string, which [Text] removes; wal2json writes no others (the
    spaces of an array or an object are not kept). *)
Definition raw_value (c : wireColumn.t) : string :=
  match wireColumn.Value c with Some v => print v | None => "" end.

Definition known_columns (t : Table.t) : gmap string Column.t :=
  foldl (λ m c, <[Column.Name c := c]> m) ∅ (Table.Columns t).

(** The columns of a record, checked against the captured schema; [seen] are the
    names before. *)
Fixpoint decode_columns (known : gmap string Column.t) (seen : list string) (l : list wireColumn.t) : result (list Event.Column.t) :=
  match l with
  | [] => Ok []
  | c :: l' =>
      expected ← or_err (known !! wireColumn.Name c) errSchemaMismatch;
      _ ← fail_if (bool_decide (wireColumn.Name c ∈ seen) ||
                   negb (String.eqb (Column.Type_ expected) (wireColumn.Type_ c)) ||
                   negb (Column.OID expected =? wireColumn.OID c)) errSchemaMismatch;
      v ← Text (raw_value c);
      let v := if wireColumn.OID c =? 17 then String.append "\x" <$> v else v in
      r ← decode_columns known (wireColumn.Name c :: seen) l';
      Ok (Event.Column.mk (wireColumn.Name c) (Column.Type_ expected) v "" None :: r)
  end.

Definition by_name (l : list Event.Column.t) : gmap string Event.Column.t :=
  foldl (λ m c, <[Event.Column.Name c := c]> m) ∅ l.

Definition operation (action : string) : string :=
  if String.eqb action "I" then "insert" else if String.eqb action "U" then "update"
  else if String.eqb action "D" then "delete" else "".

(** The key columns of a table without a primary key: all of them. *)
Fixpoint full_keys (action : string) (values old : gmap string Event.Column.t) (l : list Column.t) :
    result (list Event.Column.t * list Event.Column.t) :=
  match l with
  | [] => Ok ([], [])
  | c :: l' =>
      let previous := default Event.Column.zero (old !! Column.Name c) in
      if String.eqb action "D" then
        '(key, oldKey) ← full_keys action values old l';
        Ok (previous :: key, oldKey)
      else
        value ← match values !! Column.Name c with
                | Some v => Ok v
                | None => if String.eqb action "U" then Ok previous else Err errSchemaMismatch
                end;
        '(key, oldKey) ← full_keys action values old l';
        Ok (value :: key, if String.eqb action "U" then previous :: oldKey else oldKey)
  end.

(** A primary key column, which is present and not null. *)
Definition key_column (m : gmap string Event.Column.t) (name text : string) : result Event.Column.t :=
  match m !! name with
  | Some v => match Event.Column.Value v with Some _ => Ok v | None => Err (errors_New text) end
  | None => Err (errors_New text)
  end.

Fixpoint primary_keys (action : string) (values old : gmap string Event.Column.t) (l : list string) :
    result (list Event.Column.t * list Event.Column.t) :=
  match l with
  | [] => Ok ([], [])
  | name :: l' =>
      if String.eqb action "D" then
        v ← key_column old name "delete missing primary key";
        '(key, oldKey) ← primary_keys action values old l';
        Ok (v :: key, oldKey)
      else
        v ← key_column values name "row missing primary key";
        ov ← (if String.eqb action "U" then
                ov ← key_column old name "update missing old primary key"; Ok [ov]
              else Ok []);
        '(key, oldKey) ← primary_keys action values old l';
        Ok (v :: key, ov ++ oldKey)
  end.

Definition convert (r : record.t) (t : Table.t) : result Row.t :=
  let action := record.Action r in
  let known := known_columns t in
  columns ← decode_columns known [] (record.Columns r);
  old ← decode_columns known [] (record.Identity r);
  let values := by_name columns in
  let oldValues := by_name old in
  let row identity key oldKey :=
    Row.mk identity (record.Schema r) (record.Table r) (operation action) key oldKey columns 0 in
  if String.eqb (Table.RowIdentity t) "full_row" then
    _ ← fail_if ((String.eqb action "U" || String.eqb action "D") &&
                 negb (base.size oldValues =? length (Table.Columns t))%nat)
          (errorf "full-row identity missing columns; refusing partial row matching");
    '(key, oldKey) ← full_keys action values oldValues (Table.Columns t);
    Ok (row "full_row" key oldKey)
  else
    '(key, oldKey) ← primary_keys action values oldValues (KeyNames t);
    _ ← fail_if (String.eqb action "I" && negb (length columns =? length (Table.Columns t))%nat) errSchemaMismatch;
    Ok (row "" key oldKey).

(** ** The decoder *)

Record decoder := mkDecoder {
  d_b : batcher;
  d_durable : Z;
  d_active : bool;
  d_skip : bool;
  d_end : Z;
  d_xid : Z;
  d_ordinal : Z
}.

Section capture.
(** [pglogrepl.ParseLSN] *)
Context (ParseLSN : string → option Z).
Context (fs : filesystem) (cfg : config.Config.t) (tables : gmap (string * string) Table.t).

Definition full : string :=
  "insufficient queue/disk capacity for a complete snapshot or transaction; increase capacity".

Definition newDecoder (start : Z) : decoder := mkDecoder (mkBatcher Message.zero 0) start false false 0 0 0.

(** A message with a kind, a transaction, a checkpoint and a chunk number. *)
Definition transaction_message (kind lsn : string) (chunk : Z) : Message.t :=
  Message.mk "" "" "" "" 0 "" kind lsn chunk lsn [] None [] None "".

(** Begin *)
Definition begin (r : record.t) (d : decoder) : result decoder :=
  _ ← fail_if (d_active d) (errorf "nested transaction");
  e ← or_err (ParseLSN (record.NextLSN r)) (errorf "begin missing transaction end lsn");
  _ ← fail_if (e =? 0) (errorf "begin missing transaction end lsn");
  Ok (mkDecoder (mkBatcher (transaction_message "transaction_rows" (record.NextLSN r) 0) (b_size (d_b d)))
        (d_durable d) true (e <=? d_durable d) e (record.XID r) 0).

(** Commit *)
Definition commit (r : record.t) (d : decoder) : staging decoder :=
  _ ← pure (fail_if (negb (d_active d) || negb (record.XID r =? d_xid d)) (errorf "commit without matching begin"));
  e ← pure (or_err (ParseLSN (record.NextLSN r)) (errorf "commit lsn mismatch"));
  _ ← pure (fail_if (negb (e =? d_end d)) (errorf "commit lsn mismatch"));
  let stop b durable := mkDecoder b durable false (d_skip d) (d_end d) (d_xid d) (d_ordinal d) in
  if d_skip d then mret (stop (d_b d) (d_durable d))
  else
    b ← flush full (d_b d);
    _ ← append full (transaction_message "transaction_end" (record.NextLSN r) (Message.Chunk (b_msg b)));
    _ ← on_queue (λ s, Publish s (record.NextLSN r) false);
    mret (stop b e).

(** The row of a record. *)
Definition row_of (ordinal : Z) (r : record.t) : result Row.t :=
  t ← or_err (tables !! (record.Schema r, record.Table r)) (errorf "unexpected table in replication stream");
  row ← convert r t;
  Ok (Row.set_Ordinal ordinal row).

(** Insert, update, delete *)
Definition change (r : record.t) (d : decoder) : staging decoder :=
  _ ← pure (fail_if (negb (d_active d) || negb (record.XID r =? d_xid d)) (errorf "row outside matching transaction"));
  if d_skip d then mret d
  else
    let ordinal := u64 (d_ordinal d + 1) in
    row ← pure (row_of ordinal r);
    b ← add_pg full fs cfg row (d_b d);
    mret (mkDecoder b (d_durable d) (d_active d) (d_skip d) (d_end d) (d_xid d) ordinal).

Definition one_of (s : string) (l : list string) : bool := existsb (String.eqb s) l.

Definition do_record (r : record.t) (d : decoder) : staging decoder :=
  let a := record.Action r in
  if String.eqb a "B" then pure (begin r d)
  else if String.eqb a "C" then commit r d
  else if one_of a ["I"; "U"; "D"] then change r d
  else if String.eqb a "T" then pure (Err (errorf "truncate requires explicit reinitialization"))
  else if String.eqb a "M" then pure (Err (errorf "unexpected logical message"))
  else pure (Err (errorf "unknown wal2json action %q")).

Fixpoint do_records (l : list record.t) (d : decoder) : staging decoder :=
  match l with
  | [] => mret d
  | r :: l' => d' ← do_record r d; do_records l' d'
  end.

(** The records of a frame, decoded one at a time; an error leaves the decoder as
    the record before it did. *)
Fixpoint consume_loop (fuel : nat) (data : string) (d : decoder) (env : list obs) (s : Store) :
    list obs * Store * decoder * result unit :=
  match fuel with
  | O => (env, s, d, Err (errorf "invalid wal2json record"))
  | S f =>
      if String.eqb (skip_ws data) "" then (env, s, d, Ok tt)
      else
        match config.decode_first data with
        | None => (env, s, d, Err (errorf "invalid wal2json record"))
        | Some (v, rest) =>
            match record_of v with
            | None => (env, s, d, Err (errorf "invalid wal2json record"))
            | Some r =>
                match do_record r d env s with
                | (env', s', Ok d') => consume_loop f rest d' env' s'
                | (env', s', Err e) => (env', s', d, Err e)
                end
            end
        end
  end.

Definition consume (data : string) (d : decoder) (env : list obs) (s : Store) : list obs * Store * decoder * result unit :=
  if i64 (config.Config.MaxRowBytes cfg * 2) <? slen data then (env, s, d, Err (errorf "wal record exceeds hard limit"))
  else consume_loop (S (String.length data)) data d env s.

(** ** The replication stream (capture.go) *)

(** What a frame of the stream asks for. *)
Inductive frame :=
  | CopyData (data : string)
  | ErrorResponse (e : error)
  | CopyDone
  | OtherMessage.

(** [pglogrepl]'s parsers of the two kinds of frames. *)
Context (ParseKeepalive : string → result bool) (ParseXLogData : string → result string).
(** The catalog the refresh reads. *)
Context (LSN_String : Z → string) (query : config.Table.t → result (list catalog_row)).

(** The first byte of a frame. *)
Definition keepalive_id : ascii := "k".
Definition xlog_id : ascii := "w".

(** The schema is published at the last checkpoint, and the stream starts again. *)
Definition refreshSchemaForReplay (durable : Z) (oldHash : string) : staging unit :=
  _ ← pure (fail_if (negb (String.eqb (config.DeliveryTransport cfg) "grpc"))
              (errorf "postgres schema changed; online adaptation requires the standard gRPC server"));
  current ← pure (catalog query (config.Config.Tables cfg));
  let hash := schemaHash current in
  _ ← pure (fail_if (String.eqb hash oldHash) errSchemaMismatch);
  _ ← on_queue Recover;
  let schema kind doc := Message.mk "" "" "" hash 0 "" kind "" 0 "" [] doc [] None "" in
  _ ← each (λ t, put (schema "schema" (Some (Table_json t)))) current;
  _ ← put (schema "schema_end" None);
  on_queue (λ s, PublishSchema s (LSN_String durable) hash).

(** The end of a turn: the positions confirmed to PostgreSQL, and whether the
    stream goes on. *)
Inductive turn :=
  | Continue (d : decoder) (feedback : list Z)
  | Refreshed.

Definition frame_received (oldHash : string) (f : frame) (d : decoder) : staging turn := λ env s,
  match f with
  | CopyData "" => (env, s, Err (errorf "empty replication frame"))
  | CopyData (String c payload) =>
      if Ascii.eqb c keepalive_id then
        if slen payload <? 17 then (env, s, Err (errorf "short keepalive frame"))
        else
          match ParseKeepalive payload with
          | Err e => (env, s, Err e)
          | Ok reply => (env, s, Ok (Continue d (if reply then [d_durable d] else [])))
          end
      else if Ascii.eqb c xlog_id then
        if slen payload <? 24 then (env, s, Err (errorf "short xlog frame"))
        else
          match ParseXLogData payload with
          | Err e => (env, s, Err e)
          | Ok wal =>
              match consume wal d env s with
              | (env', s', d', Ok _) => (env', s', Ok (Continue d' []))
              | (env', s', d', Err errSchemaMismatch) =>
                  (_ ← refreshSchemaForReplay (d_durable d') oldHash; mret Refreshed) env' s'
              | (env', s', d', Err e) => (env', s', Err e)
              end
          end
      else (env, s, Err (errorf "unsupported replication frame"))
  | ErrorResponse e => (env, s, Err e)
  | CopyDone => (env, s, Err (errorf "logical replication ended unexpectedly"))
  | OtherMessage => (env, s, Ok (Continue d []))
  end.

(** Before the stream starts: the checkpoint, and the slot, which must not be ahead
    of it. *)
Definition stream_start (st : State.t) (slot : result (string * string * bool)) (confirmed : result (option string)) :
    result decoder :=
  start ← or_err (ParseLSN (State.DurableLSN st)) (errorf "failed to parse LSN");
  '(plugin, db, active) ← match slot with Ok x => Ok x | Err _ => Err (errorf "required slot unavailable: %w") end;
  _ ← fail_if (negb (String.eqb plugin "wal2json") || negb (String.eqb db (State.Database st)) || active)
        (errorf "slot does not match capture or is already active");
  c ← confirmed;
  _ ← match c with
      | None => Ok tt
      | Some text =>
          lsn ← or_err (ParseLSN text) (errorf "failed to parse LSN");
          fail_if (start <? lsn) (errorf "slot is ahead of local durable checkpoint; possible lost local state")
      end;
  Ok (newDecoder start).

(** The loop: every five seconds the durable position is confirmed; a turn
    receives a frame, or none before the timeout. *)
Inductive event := Timer | Frame (f : frame) | NoFrame.

Fixpoint stream_loop (oldHash : string) (l : list event) (d : decoder) : staging (decoder * list Z * bool) :=
  match l with
  | [] => mret (d, [], false)
  | Timer :: l' => '(d', fb, stop) ← stream_loop oldHash l' d; mret (d', d_durable d :: fb, stop)
  | NoFrame :: l' => stream_loop oldHash l' d
  | Frame f :: l' =>
      t ← frame_received oldHash f d;
      match t with
      | Refreshed => mret (d, [], true)
      | Continue d1 fb1 => '(d', fb, stop) ← stream_loop oldHash l' d1; mret (d', fb1 ++ fb, stop)
      end
  end.

(** ** The snapshot (capture.go) *)

(** A value of a row in text form; booleans are spelled out. *)
Definition snapshot_value (c : Column.t) (raw : option string) : Event.Column.t :=
  let text v := if Column.OID c =? 16 then (if String.eqb v "t" then "true" else "false") else v in
  Event.Column.mk (Column.Name c) (Column.Type_ c) (text <$> raw) "" None.

Definition snapshot_row (t : Table.t) (op : string) (ordinal : Z) (raws : list (option string)) : Row.t :=
  let columns := zip_with snapshot_value (Table.Columns t) raws in
  let key := snd <$> List.filter (Column.Primary ∘ fst) (zip (Table.Columns t) columns) in
  if String.eqb (Table.RowIdentity t) "full_row" then
    Row.mk "full_row" (Table.Schema t) (Table.Name t) op columns [] columns ordinal
  else Row.mk "" (Table.Schema t) (Table.Name t) op key [] columns ordinal.

Fixpoint snapshot_rows (t : Table.t) (ordinal : Z) (l : list (list (option string))) : list Row.t :=
  match l with
  | [] => []
  | raws :: l' => snapshot_row t "read" (u64 (ordinal + 1)) raws :: snapshot_rows t (u64 (ordinal + 1)) l'
  end.

(** The answers of PostgreSQL during a snapshot. *)
Record snapshot_io := mkSnapshotIO {
  io_exists : result bool;
  io_replication : result unit;
  io_slot : result (string * string * string * bool);
  io_drop : result unit;
  io_token : result string;
  io_create : result (string * string);
  io_begin : result unit;
  io_query : config.Table.t → result (list catalog_row);
  io_rows : Table.t → result (list (list (option string)) * result unit);
  io_commit : result unit
}.

Definition snapshot_state (info : Inspection.t) (token : string) : State.t :=
  State.mk (if existsb (λ t, String.eqb (Table.RowIdentity t) "full_row") (Inspection.Tables info) then "v2" else "")
    (config.Config.SourceID cfg) (hex_encode token) (config.Fingerprint cfg) (Inspection.SystemID info)
    (Inspection.Timeline info) (Inspection.Database info) (schemaHash (Inspection.Tables info)) (config.Config.Slot cfg)
    "" "" "" "" 0 0 0 0 0 0.

(** An existing slot is replaced only if the queue owns it. *)
Definition replace_slot (io : snapshot_io) (info : Inspection.t) (previous : State.t) : result unit :=
  exists_ ← io_exists io;
  _ ← fail_if (exists_ && String.eqb (State.Phase previous) "")
        (errorf "configured slot already exists but has no local ownership record");
  _ ← io_replication io;
  if (exists_ : bool) then
    '(plugin, database, kind, active) ← io_slot io;
    _ ← fail_if (negb (String.eqb plugin "wal2json") || negb (String.eqb database (Inspection.Database info)) ||
                 negb (String.eqb kind "logical") || active)
          (errorf "refusing to replace a slot with different ownership or an active consumer");
    io_drop io
  else Ok tt.

Definition kind_message (kind lsn : string) : Message.t :=
  Message.mk "" "" "" "" 0 "" kind "" 0 lsn [] None [] None "".

(** The messages before the rows. *)
Definition snapshot_header (point : string) (current : list Table.t) : list Message.t :=
  Message.mk "" "" "" "" 0 "" "snapshot_begin" "" 0 point
    ((λ t, TableRef.mk (config.Table.Schema t) (config.Table.Name t)) <$> config.Config.Tables cfg) None [] None "" ::
  ((λ t, Message.mk "" "" "" "" 0 "" "schema" "" 0 "" [] (Some (Table_json t)) [] None "") <$> current).

Fixpoint stage_tables (io : snapshot_io) (l : list Table.t) (b : batcher) : staging batcher :=
  match l with
  | [] => mret b
  | t :: l' =>
      data ← pure (io_rows io t);
      b ← add_all (add_pg full fs cfg) (snapshot_rows t 0 data.1) b;
      _ ← pure data.2;
      stage_tables io l' b
  end.

Definition snapshot (io : snapshot_io) (info : Inspection.t) (previous : State.t) : staging unit :=
  _ ← pure (replace_slot io info previous);
  token ← pure (io_token io);
  let st := snapshot_state info token in
  _ ← on_queue (λ s, Initialize s st);
  slot ← pure (io_create io);
  let point := slot.2 in
  _ ← pure (fail_if (String.eqb slot.1 "") (errorf "slot did not export a snapshot"));
  _ ← on_queue (λ s, SnapshotPoint s point);
  _ ← pure (io_begin io);
  current ← pure (catalog (io_query io) (config.Config.Tables cfg));
  _ ← pure (fail_if (negb (String.eqb (schemaHash current) (State.SchemaHash st)))
              (errorf "schema changed while opening snapshot"));
  _ ← each (append full) (snapshot_header point current);
  b ← stage_tables io current (mkBatcher (kind_message "snapshot_rows" "") 0);
  _ ← flush full b;
  _ ← append full (kind_message "snapshot_end" point);
  _ ← pure (io_commit io);
  on_queue (λ s, Publish s point true).

(** ** An attempt (capture.go) *)

(** The stored state belongs to this configuration and this source. *)
Definition check_state (st : State.t) (info : Inspection.t) : result unit :=
  if String.eqb (State.Phase st) "" then Ok tt
  else
    _ ← fail_if (negb (String.eqb (State.Fingerprint st) (config.Fingerprint cfg)) ||
                 negb (String.eqb (State.Slot st) (config.Config.Slot cfg)))
          (errorf "capture configuration differs from persisted state");
    _ ← fail_if (negb (String.eqb (State.SystemID st) (Inspection.SystemID info)) ||
                 negb (String.eqb (State.Database st) (Inspection.Database info)) ||
                 negb (State.Timeline st =? Inspection.Timeline info))
          (errorf "source identity/timeline changed; automatic failover is unsupported");
    fail_if (String.eqb (State.Phase st) "stream" &&
             negb (String.eqb (State.SchemaHash st) (schemaHash (Inspection.Tables info))))
      (errorf "schema changed while collector was offline; explicit reinitialization is required").

(** [stream] is the replication stream, as above. *)
Definition attempt (inspect : result Inspection.t) (ensure : result unit) (io : snapshot_io)
    (stream : list Table.t → Z → staging unit) : staging unit :=
  _ ← on_queue Recover;
  info ← pure inspect;
  st ← get_state;
  _ ← pure (check_state st info);
  _ ← pure ensure;
  _ ← (if String.eqb (State.Phase st) "stream" then mret tt else snapshot io info st);
  stream (Inspection.Tables info) (Inspection.Version info).
End capture.

(** ** Retrying (capture.go) *)

(** The errors of an attempt as [errors.Is] and [errors.As] tell them apart. *)
Inductive failure :=
  | PgError (code : string)
  | NetworkError          (** a net.OpError, or a net.Error that timed out *)
  | DeadlineExceeded
  | SafeToRetry
  | SchemaRefreshed       (** [errSchemaRefreshed] *)
  | ConnectionClosed      (** net.ErrClosed, io.EOF, io.ErrUnexpectedEOF *)
  | OtherFailure (e : error).

Definition transient (f : failure) : bool :=
  match f with
  | PgError code => HasPrefix code "08" || existsb (String.eqb code) ["57P01"; "57P02"; "57P03"; "53300"]
  | NetworkError | DeadlineExceeded | SafeToRetry | SchemaRefreshed | ConnectionClosed => true
  | OtherFailure _ => false
  end.

(** After a failed attempt: return, or wait and try again with the next delay. *)
Inductive next := Return | Again (wait delay : Z).

Definition run_next (minDelay maxDelay delay : Z) (f : failure) : next :=
  if negb (transient f) then Return
  else match f with
       | SchemaRefreshed => Again 0 minDelay
       | _ => Again delay (Z.min (i64 (delay * 2)) maxDelay)
       end.

(** The delays before the attempts that follow a list of failures. *)
Fixpoint run_waits (minDelay maxDelay delay : Z) (l : list failure) : list Z :=
  match l with
  | [] => []
  | f :: l' =>
      match run_next minDelay maxDelay delay f with
      | Return => []
      | Again wait delay' => wait :: run_waits minDelay maxDelay delay' l'
      end
  end.

(** ** Scanning a table (capture.go, Reconcile) *)

Definition scan_digests (float_text : string → option string) (buckets : Z) (t : Table.t)
    (data : list (list (option string)) * result unit) : result (list Digest) :=
  b ← NewBuilder buckets;
  b ← add_rows float_text b (snapshot_row t "" 0 <$> data.1);
  _ ← data.2;
  Ok (builder_digests b).

(** [begin] is the connection and the transaction, [rows] the query. *)
Definition Reconcile (float_text : string → option string) (cfg : config.Config.t) (begin : result unit)
    (query : config.Table.t → result (list catalog_row))
    (rows : Table.t → result (list (list (option string)) * result unit)) (commit : result unit)
    (request : syncv1.ReconcileRequest.t) : result syncv1.ReconcileResult.t :=
  let want := config.Table.mk (syncv1.ReconcileRequest.SourceSchema request) (syncv1.ReconcileRequest.Table request) in
  _ ← fail_if (negb (bool_decide (want ∈ config.Config.Tables cfg)))
        (errorf "reconciliation table is outside the configured capture scope");
  _ ← begin;
  table ← catalog_table want (query want);
  data ← rows table;
  digests ← scan_digests float_text (syncv1.ReconcileRequest.Buckets request) table data;
  _ ← commit;
  Ok (syncv1.ReconcileResult.mk (syncv1.ReconcileRequest.RequestId request) (Table.Schema table) (Table.Name table)
        (Column.Name <$> Table.Columns table) (KeyNames table)
        ((λ d, syncv1.BucketDigest.mk (dg_bucket d) (dg_rows d) (dg_hash d)) <$> digests) "" ""
        (Column.Type_ <$> Table.Columns table)).

End capture.
