(* ===== verification/CaptureProps.v ===== *)
(** * Correctness of the PostgreSQL collector

    A transaction of the replication stream reaches the queue as a whole, with
    its rows in order, and is confirmed to PostgreSQL only after that; a
    transaction that was published before is skipped. *)

From S2P Require Import Prelude Bytes Encoding Json JsonTerm JsonStruct GoTime GoPath Config Event FileEmbed Queue QueueInv QueueSpec Batch Capture.

#[local] Opaque marshal unmarshal.

Import capture.

Section transaction.
Context (ParseLSN : string → option Z).
Context (fs : filesystem) (cfg : config.Config.t) (tables : gmap (string * string) Table.t).
Hypothesis Hlim : limits_ok cfg.

Notation do_record := (do_record ParseLSN fs cfg tables).
Notation do_records := (do_records ParseLSN fs cfg tables).

(** The rows of a list of changes, numbered after [n]. *)
Fixpoint rows_of_changes (n : Z) (l : list record.t) : option (list Row.t) :=
  match l with
  | [] => Some []
  | r :: l' =>
      match row_of tables (u64 (n + 1)) r with
      | Ok row => cons row <$> rows_of_changes (u64 (n + 1)) l'
      | Err _ => None
      end
  end.

Definition is_change (r : record.t) : Prop := record.Action r ∈ ["I"; "U"; "D"].

Lemma do_record_change r d : is_change r → do_record r d = change fs cfg tables r d.
Proof.
  unfold is_change. rewrite !elem_of_cons. unfold capture.do_record.
  intros [->|[->|[->|Hin]]]; [done..|]. by apply elem_of_nil in Hin.
Qed.

Lemma changes_add l d env s env' s' d' : Forall is_change l → d_skip d = false →
  do_records l d env s = (env', s', Ok d') →
  ∃ rows, rows_of_changes (d_ordinal d) l = Some rows ∧
    add_all (add_pg full fs cfg) rows (d_b d) env s = (env', s', Ok (d_b d')) ∧
    d_durable d' = d_durable d ∧ d_active d' = d_active d ∧ d_skip d' = false ∧ d_end d' = d_end d ∧ d_xid d' = d_xid d.
Proof.
  intros Hl. revert d env s. induction Hl as [|r l Hr _ IH]; intros d env s Hs; cbn [capture.do_records].
  { intros (-> & -> & ->)%staging_ret_Ok. by exists []. }
  rewrite do_record_change by done. intros (env1 & s1 & d1 & H1 & H2)%staging_bind_Ok.
  unfold change in H1. rewrite Hs in H1. st_inv H1.
  match goal with H : row_of _ _ _ = Ok ?row |- _ => rename row into row0; rename H into Hrow end.
  apply IH in H2 as (rows & Hrows & Hadd & E1 & E2 & E3 & E4 & E5); [|done]. cbn in *.
  exists (row0 :: rows). rewrite Hrow, Hrows. split_and!; try done. cbn [add_all].
  apply staging_bind_Ok. by eexists _, _, _.
Qed.

Lemma do_records_app a b d env s env' s' d' : do_records (a ++ b) d env s = (env', s', Ok d') →
  ∃ env1 s1 d1, do_records a d env s = (env1, s1, Ok d1) ∧ do_records b d1 env1 s1 = (env', s', Ok d').
Proof.
  revert d env s. induction a as [|r a IH]; intros d env s; cbn [app capture.do_records].
  { intros H. by exists env, s, d. }
  intros (env1 & s1 & d1 & H1 & H2)%staging_bind_Ok. apply IH in H2 as (env2 & s2 & d2 & H2 & H3).
  exists env2, s2, d2. split; [|done]. apply staging_bind_Ok. by eexists _, _, _.
Qed.

(** A transaction of the stream: a begin, changes and a commit. *)
Definition transaction (rb : record.t) (rs : list record.t) (rc : record.t) : Prop :=
  record.Action rb = "B" ∧ Forall is_change rs ∧ record.Action rc = "C".

(** A decoder between transactions. *)
Definition idle (d : decoder) : Prop := d_active d = false ∧ b_size (d_b d) = 0.

Lemma transaction_message_ok kind lsn c : utf8_valid kind = true → utf8_valid lsn = true → 0 ≤ c < 2 ^ 64 →
  Message_ok (transaction_message kind lsn c) = true.
Proof.
  intros Hk Hl Hc. assert (uint_ok 64 c = true) as Hu by (unfold uint_ok; apply andb_true_iff; lia).
  unfold Message_ok. rewrite !andb_true_iff. by split_and!.
Qed.

(** The rows of the changes can be carried by the wire format. *)
Definition rows_ok (rs : list record.t) : Prop :=
  ∀ rows row row', rows_of_changes 0 rs = Some rows → row ∈ rows → Apply fs cfg row = Ok row' → Row_ok row' = true.

Lemma length_rows n l rows : rows_of_changes n l = Some rows → length rows = length l.
Proof.
  revert n rows. induction l as [|r l IH]; intros n rows; cbn; [by intros [= <-]|].
  destruct (row_of _ _ _); [|done]. destruct (rows_of_changes _ l) as [rows'|] eqn:E; [|done].
  intros [= <-]. cbn. by erewrite IH.
Qed.

(** What the queue holds after a transaction: its chunks and its end, published. *)
Definition transaction_queued (lsn : string) (rs : list record.t) (st : State.t) (log : list Message.t)
    (st' : State.t) (log' : list Message.t) : Prop :=
  ∃ rows rows' rss xs,
    rows_of_changes 0 rs = Some rows ∧ Forall2 (embeds fs cfg) rows rows' ∧
    concat rss = rows' ∧ Forall (good_chunk cfg) rss ∧
    log' = log ++ xs ∧
    Forall2 stamped (chunk_messages (transaction_message "transaction_rows" lsn 0) 0 rss ++
                     [transaction_message "transaction_end" lsn (Z.of_nat (length rss))]) xs ∧
    State.ReadySeq st' = State.NextSeq st' ∧ State.DurableLSN st' = lsn ∧
    State.Generation st' = State.Generation st ∧ State.Phase st' = State.Phase st.

(** The commit of a transaction that is not skipped. *)
Lemma commit_inv rc d env s env' s' d' : d_skip d = false → commit ParseLSN rc d env s = (env', s', Ok d') →
  ∃ env1 s1 b s2 e, ParseLSN (record.NextLSN rc) = Some e ∧ e = d_end d ∧
    flush full (d_b d) env s = (env1, s1, Ok b) ∧
    append full (transaction_message "transaction_end" (record.NextLSN rc) (Message.Chunk (b_msg b))) env1 s1 = (env', s2, Ok tt) ∧
    Publish s2 (record.NextLSN rc) false = (s', Ok tt) ∧
    d_durable d' = e ∧ d_active d' = false ∧ d_b d' = b.
Proof.
  intros Hs H. unfold commit in H. rewrite Hs in H. st_inv H. bool_prop. subst.
  repeat match goal with a : unit |- _ => destruct a end. eexists _, _, _, _, _. by split_and!.
Qed.

Lemma capture_transaction rb rs rc d env s env' s' d' st log e : transaction rb rs rc → idle d →
  ParseLSN (record.NextLSN rb) = Some e → d_durable d < e → record.NextLSN rc = record.NextLSN rb →
  utf8_valid (record.NextLSN rb) = true → rows_ok rs →
  Inv s st log → Z.of_nat (length log + 2 * length rs + 3) < 2 ^ 64 - 1 →
  do_records (rb :: rs ++ [rc]) d env s = (env', s', Ok d') →
  idle d' ∧ d_durable d' = e ∧
  ∃ st' log', Inv s' st' log' ∧ transaction_queued (record.NextLSN rb) rs st log st' log'.
Proof.
  intros (Hab & Hrs & Hac) [Hact Hsize] He Hlt Hlsn Hutf Hrows HI Hbd. cbn [capture.do_records].
  intros (env1 & s1 & d1 & H1 & H2)%staging_bind_Ok. unfold capture.do_record in H1. rewrite Hab in H1. cbn in H1.
  unfold begin in H1. rewrite Hact, He in H1. st_inv H1. bool_prop.
  match goal with H : Some e = Some _ |- _ => injection H as <- end.
  apply do_records_app in H2 as (env2 & s2 & d2 & H2 & H3).
  apply changes_add in H2 as (rows & Er & Hadd & Ed & Ea & Es & Ee & Ex); [|done|cbn; by apply Z.leb_gt]. cbn in *.
  apply staging_bind_Ok in H3 as (env3 & s3 & d3 & H3 & (-> & -> & ->)%staging_ret_Ok).
  unfold capture.do_record in H3. rewrite Hac in H3. cbn in H3.
  apply commit_inv in H3 as (env4 & s4 & b & s5 & e' & He' & -> & Hfl & Happ & Hpub & Hdur & Hdact & Hb); [|done].
  rewrite Hlsn, Ee in *. rewrite Hsize in Hadd. pose proof (length_rows _ _ _ Er) as Hlen.
  set (t := transaction_message "transaction_rows" (record.NextLSN rb) 0) in *.
  assert (Message_ok t = true) as Ht by (by apply transaction_message_ok).
  destruct (batch_stages full fs cfg t Hlim Ht (add_pg full fs cfg) rows (λ r b, add_pg_eq full fs cfg r b) eq_refl eq_refl
    ltac:(lia) (λ r r', Hrows rows r r' Er) env s st log env4 s4 b HI ltac:(lia))
    as (ms & st1 & log1 & HI1 & Hext1 & Hlms & rows' & rss & Hemb & -> & Hgood & Hcat & Hchunk & Hbs);
    [apply staging_bind_Ok; by eexists _, _, _|].
  pose proof (extends_length _ _ _ _ _ Hext1) as Hlog1. rewrite Hchunk in Happ.
  assert (length rss ≤ 2 * length rows + 1)%nat as Hrss by (by unfold chunk_messages in Hlms; rewrite length_imap in Hlms).
  apply (append_Inv _ _ _ _ _ _ st1 log1) in Happ as (st2 & log2 & HI2 & Hext2);
    [|apply transaction_message_ok; (done || lia)|lia|done].
  apply (PublishSource_Inv _ _ _ _ _ _ _ HI2) in Hpub as [_ HI3]; [|done|done].
  pose proof (extends_trans _ _ _ _ _ _ _ _ Hext1 Hext2) as [(xs & Hxs & Hst) _ _ Hph Hgen _ _].
  split_and!; [split; [done|by rewrite Hb]|done|]. exists (published (record.NextLSN rb) false "" st2), log2.
  split; [done|]. exists rows, rows', rss, xs. split_and!; done.
Qed.

(** ** Skipped transactions *)

Lemma changes_skip l d env s env' s' d' : Forall is_change l → d_skip d = true →
  do_records l d env s = (env', s', Ok d') → s' = s ∧ d' = d.
Proof.
  intros Hl Hs. revert env s. induction Hl as [|r l Hr _ IH]; intros env s; cbn [capture.do_records].
  { by intros (-> & -> & ->)%staging_ret_Ok. }
  rewrite do_record_change by done. intros (env1 & s1 & d1 & H1 & H2)%staging_bind_Ok.
  unfold change in H1. rewrite Hs in H1. st_inv H1. by eapply IH.
Qed.

(** A transaction published before the stream was started again changes nothing. *)
Lemma skip_transaction rb rs rc d env s env' s' d' e : transaction rb rs rc → idle d →
  ParseLSN (record.NextLSN rb) = Some e → e ≤ d_durable d →
  do_records (rb :: rs ++ [rc]) d env s = (env', s', Ok d') →
  s' = s ∧ idle d' ∧ d_durable d' = d_durable d.
Proof.
  intros (Hab & Hrs & Hac) [Hact Hsize] He Hle. cbn [capture.do_records].
  intros (env1 & s1 & d1 & H1 & H2)%staging_bind_Ok. unfold capture.do_record in H1. rewrite Hab in H1. cbn in H1.
  unfold begin in H1. rewrite Hact, He in H1. st_inv H1. bool_prop.
  match goal with H : Some e = Some _ |- _ => injection H as <- end.
  apply do_records_app in H2 as (env2 & s2 & d2 & H2 & H3).
  apply changes_skip in H2 as [-> ->]; [|done|cbn; by apply Z.leb_le].
  apply staging_bind_Ok in H3 as (env3 & s3 & d3 & H3 & (-> & -> & ->)%staging_ret_Ok).
  unfold capture.do_record in H3. rewrite Hac in H3. cbn in H3. unfold commit in H3. cbn in H3.
  rewrite (proj2 (Z.leb_le _ _) Hle) in H3. st_inv H3. done.
Qed.

(** ** The confirmed position *)

(** Records whose rows and positions the wire format carries. *)
Definition record_ok (r : record.t) : Prop :=
  utf8_valid (record.NextLSN r) = true ∧
  ∀ n row row', 0 ≤ n < 2 ^ 64 → row_of tables n r = Ok row → Apply fs cfg row = Ok row' → Row_ok row' = true.

(** The decoder and the queue agree: what is confirmed is the checkpoint. *)
Record agree (d : decoder) (st : State.t) (log : list Message.t) : Prop := {
  ag_durable : ParseLSN (State.DurableLSN st) = Some (d_durable d);
  ag_idle : d_active d = false ∨ d_skip d = true → b_size (d_b d) = 0;
  ag_batch : d_active d = true → d_skip d = false →
    d_durable d < d_end d ∧
    ∃ t c rs, collecting t c rs (d_b d) ∧ Message_ok t = true ∧ room cfg (d_b d) ∧ forallb Row_ok rs = true ∧
      0 ≤ c ≤ Z.of_nat (length log)
}.

Lemma begin_agree r d d' st log : record_ok r → agree d st log → begin ParseLSN r d = Ok d' →
  agree d' st log ∧ d_durable d' = d_durable d.
Proof.
  intros [Hu _] [Hd Hi Hb] H. unfold begin in H. result_inv H. bool_prop. cbn. split; [|done].
  match goal with H : d_active d = false |- _ => rename H into Hact end. pose proof (Hi (or_introl Hact)) as Hsz. destruct Hlim as (L1 & L2 & L3).
  split; cbn; [done|done|]. intros _ Hlt. bool_prop. split; [done|].
  exists (transaction_message "transaction_rows" (record.NextLSN r) 0), 0, []. unfold room, row_count, rows_of. cbn.
  split_and!; try done; try lia. by apply transaction_message_ok.
Qed.

Lemma change_agree r d env s env' s' d' st log : record_ok r → agree d st log → Inv s st log →
  Z.of_nat (length log + 3) < 2 ^ 64 - 1 → change fs cfg tables r d env s = (env', s', Ok d') →
  d_durable d' = d_durable d ∧
  ∃ ms st' log', Inv s' st' log' ∧ extends st log ms st' log' ∧ (length ms ≤ 2)%nat ∧ agree d' st' log'.
Proof.
  intros [_ Hok] Hag HI Hbd H. unfold change in H. st_inv H.
  { split; [done|]. exists [], st, log. split_and!; [done|apply extends_refl|cbn; lia|done]. }
  bool_prop. match goal with H : d_active d = true |- _ => rename H into Hact end. cbn. split; [done|]. destruct Hag as [Hd Hi Hb].
  destruct (Hb Hact E) as (Hlt & t & c & rs & Hcol & Ht & Hroom & Hrs & Hc).
  match goal with H : add_pg _ _ _ ?row0 _ _ _ = _, Hr : row_of _ _ _ = Ok ?row0 |- _ =>
    rewrite (add_pg_eq full fs cfg row0) in H by done;
    destruct (add_stages full fs cfg t Hlim Ht c rs (d_b d) row0 Hcol Hroom Hrs ltac:(lia) (λ row', Hok _ row0 row' (u64_range _) Hr)
      _ _ _ _ _ _ _ HI ltac:(lia) H) as (ms & st' & log' & HI' & Hext & Hlen & row' & Hemb & rss & rs' & -> & Hg & Hcol' & Hroom' & Hcat)
  end.
  exists (chunk_messages t c rss), st', log'. split_and!; [done..|]. pose proof (extends_length _ _ _ _ _ Hext) as Hl.
  unfold chunk_messages in Hl, Hlen. rewrite length_imap in Hl, Hlen.
  split; cbn; [by rewrite (ext_durable _ _ _ _ _ Hext)|intros [?|?]; congruence|]. intros _ _. split; [done|].
  exists t, (c + Z.of_nat (length rss)), rs'. split_and!; try done; try lia.
  eapply (Row_ok_concat rss rs' rs [row']); [done|]. rewrite forallb_app, Hrs. cbn. by rewrite (proj2 Hemb).
Qed.

Lemma commit_agree r d env s env' s' d' st log : record_ok r → agree d st log → Inv s st log →
  Z.of_nat (length log + 3) < 2 ^ 64 - 1 → commit ParseLSN r d env s = (env', s', Ok d') →
  d_durable d ≤ d_durable d' ∧
  ∃ st' log', Inv s' st' log' ∧ agree d' st' log' ∧ (length log' ≤ length log + 2)%nat ∧
    State.ReadySeq st ≤ State.ReadySeq st' ∧ log `prefix_of` log' ∧ State.Generation st' = State.Generation st.
Proof.
  intros [Hu _] Hag HI Hbd H. destruct (d_skip d) eqn:Es.
  { unfold commit in H. rewrite Es in H. st_inv H. cbn. split; [done|]. exists st, log. destruct Hag as [Hd Hi Hb].
    split_and!; try done; [|lia]. split; cbn; [done|intros _; apply Hi; by right|done]. }
  assert (d_active d = true) as Hact.
  { unfold commit in H. st_inv H; bool_prop; done. }
  apply commit_inv in H as (env1 & s1 & b & s2 & e & He & -> & Hfl & Happ & Hpub & Hdur & Hdact & Hb); [|done].
  destruct Hag as [Hd Hi Hbt]. destruct (Hbt Hact Es) as (Hlt & t & c & rs & Hcol & Ht & Hroom & Hrs & Hc).
  destruct (flush_stages full t Ht c rs (d_b d) Hcol Hrs ltac:(lia) _ _ _ _ _ _ _ HI ltac:(lia) Hfl)
    as (ms & st1 & log1 & HI1 & Hext1 & Hl1 & Hcase).
  pose proof (extends_length _ _ _ _ _ Hext1) as Hlog1.
  assert (b_size b = 0 ∧ 0 ≤ Message.Chunk (b_msg b) < 2 ^ 64) as [Hbs Hch].
  { destruct Hcase as [(-> & _ & ->)|(_ & _ & [-> ->])]; [destruct Hcol as [-> ->]|]; cbn; (split; [done|lia]). }
  apply (append_Inv _ _ _ _ _ _ st1 log1) in Happ as (st2 & log2 & HI2 & Hext2);
    [|by apply transaction_message_ok|lia|done].
  pose proof (extends_length _ _ _ _ _ Hext2) as Hlog2. cbn [length] in Hlog2.
  apply (PublishSource_Inv _ _ _ _ _ _ _ HI2) in Hpub as [_ HI3]; [|done|done].
  pose proof (extends_trans _ _ _ _ _ _ _ _ Hext1 Hext2) as [(xs & Hxs & _) Hready _ _ Hgen _ _].
  rewrite Hdur. split; [lia|]. exists (published (record.NextLSN r) false "" st2), log2. split_and!; [done| |lia| | |done].
  - split; [by rewrite Hdur|intros _; by rewrite Hb|congruence].
  - cbn. pose proof (inv_ready _ _ _ HI2). lia.
  - rewrite Hxs. by apply prefix_app_r.
Qed.

Lemma records_agree l : Forall record_ok l → ∀ d env s env' s' d' st log, agree d st log → Inv s st log →
  Z.of_nat (length log + 2 * length l + 1) < 2 ^ 64 - 1 → do_records l d env s = (env', s', Ok d') →
  d_durable d ≤ d_durable d' ∧
  ∃ st' log', Inv s' st' log' ∧ agree d' st' log' ∧ (length log' ≤ length log + 2 * length l)%nat ∧
    State.ReadySeq st ≤ State.ReadySeq st' ∧ log `prefix_of` log' ∧ State.Generation st' = State.Generation st.
Proof.
  induction 1 as [|r l Hr _ IH]; intros d env s env' s' d' st log Hag HI Hbd; cbn [capture.do_records].
  { intros (-> & -> & ->)%staging_ret_Ok. split; [done|]. exists st, log. split_and!; (done || lia). }
  intros (env1 & s1 & d1 & H1 & H2)%staging_bind_Ok. cbn [length] in Hbd.
  assert (d_durable d ≤ d_durable d1 ∧ ∃ st1 log1, Inv s1 st1 log1 ∧ agree d1 st1 log1 ∧ (length log1 ≤ length log + 2)%nat ∧
    State.ReadySeq st ≤ State.ReadySeq st1 ∧ log `prefix_of` log1 ∧ State.Generation st1 = State.Generation st)
    as (Hd & st1 & log1 & HI1 & Hag1 & Hl1 & Hr1 & Hp1 & Hg1).
  { unfold capture.do_record in H1. st_inv H1; try done.
    - eapply begin_agree in Hag as [Hag Hd]; [|done..]. split; [lia|]. exists st, log. split_and!; (done || lia).
    - eapply commit_agree; (done || lia).
    - eapply change_agree in Hag as (Hd & ms & st1 & log1 & HI1 & He & Hl & Hag1); [|done|done|lia|done].
      split; [lia|]. exists st1, log1. pose proof (extends_length _ _ _ _ _ He). destruct He as [(xs & -> & _) Hre _ _ Hge _ _].
      split_and!; try done; try lia. by apply prefix_app_r. }
  apply (IH _ _ _ _ _ _ _ _ Hag1 HI1) in H2 as (Hd2 & st2 & log2 & HI2 & Hag2 & Hl2 & Hr2 & Hp2 & Hg2); [|lia].
  split; [lia|]. exists st2, log2. cbn [length]. split_and!; try done; try lia; [by etrans|congruence].
Qed.
End transaction.

(** ** The loop over the records of a frame *)

Section frame.
Context (ParseLSN : string → option Z) (fs : filesystem) (cfg : config.Config.t) (tables : gmap (string * string) Table.t).

(** The runs of the loop as it is written, without a bound: it ends at the end of
    the data, at a document that is not a record, or at a record that fails. *)
Inductive consumes : string → decoder → list obs → Store → list obs * Store * decoder * result unit → Prop :=
  | consumes_end data d env s : skip_ws data = "" → consumes data d env s (env, s, d, Ok tt)
  | consumes_invalid data d env s : skip_ws data ≠ "" →
      (config.decode_first data = None ∨ ∃ v rest, config.decode_first data = Some (v, rest) ∧ record_of v = None) →
      consumes data d env s (env, s, d, Err (errorf "invalid wal2json record"))
  | consumes_fails data d env s v rest r env' s' e : skip_ws data ≠ "" →
      config.decode_first data = Some (v, rest) → record_of v = Some r →
      do_record ParseLSN fs cfg tables r d env s = (env', s', Err e) → consumes data d env s (env', s', d, Err e)
  | consumes_record data d env s v rest r env' s' d' out : skip_ws data ≠ "" →
      config.decode_first data = Some (v, rest) → record_of v = Some r →
      do_record ParseLSN fs cfg tables r d env s = (env', s', Ok d') → consumes rest d' env' s' out →
      consumes data d env s out.

Lemma consume_loop_runs fuel data d env s : (String.length data < fuel)%nat →
  consumes data d env s (consume_loop ParseLSN fs cfg tables fuel data d env s).
Proof.
  revert data d env s. induction fuel as [|fuel IH]; intros data d env s Hf; [lia|]. cbn [consume_loop].
  destruct (String.eqb_spec (skip_ws data) "") as [E|E]; [by apply consumes_end|].
  destruct (config.decode_first data) as [[v rest]|] eqn:Ed; [|by apply consumes_invalid; auto].
  destruct (record_of v) as [r|] eqn:Er; [|by apply consumes_invalid; eauto].
  destruct (do_record _ _ _ _ r d env s) as [[env' s'] [d'|e]] eqn:Eo; [|by eapply consumes_fails].
  eapply consumes_record; [done..|]. apply IH. apply (proj1 (parse_shorter _)) in Ed. lia.
Qed.
End frame.

(** ** The theorems *)

(** C12 A transaction of the replication stream that is consumed without an error is
    queued as a whole or not at all.  If it ends beyond the checkpoint, the queue
    gains its chunks and its end and publishes them together: the chunks hold the
    rows of the changes, numbered and with their files embedded, in order, each
    chunk within the configured limits and numbered from 0, the end carries the
    number of chunks, and the end of the transaction is the new checkpoint.
    Otherwise it was queued before, and nothing changes. *)
Theorem transaction_captured ParseLSN fs cfg tables rb rs rc d env s env' s' d' st log e :
  limits_ok cfg → transaction rb rs rc → idle d →
  ParseLSN (record.NextLSN rb) = Some e → record.NextLSN rc = record.NextLSN rb →
  utf8_valid (record.NextLSN rb) = true → rows_ok fs cfg tables rs →
  Inv s st log → Z.of_nat (length log + 2 * length rs + 3) < 2 ^ 64 - 1 →
  do_records ParseLSN fs cfg tables (rb :: rs ++ [rc]) d env s = (env', s', Ok d') →
  idle d' ∧
  (if decide (e ≤ d_durable d) then s' = s ∧ d_durable d' = d_durable d
   else d_durable d' = e ∧ ∃ st' log', Inv s' st' log' ∧
          transaction_queued fs cfg tables (record.NextLSN rb) rs st log st' log').
Proof.
  intros Hlim Ht Hi He Hl Hu Hr HI Hbd H. destruct (decide (e ≤ d_durable d)) as [Hle|Hgt].
  - by eapply skip_transaction in H as (-> & Hi' & Hd).
  - eapply capture_transaction in H as (Hi' & Hd & Hq); try done. lia.
Qed.

(** C13 What the collector confirms to PostgreSQL is never ahead of its queue: after
    any records of a stream that started at the queue's checkpoint, the position to
    confirm is again the checkpoint of the queue, it has not moved back, and
    everything the queue held and published before is still there. *)
Theorem confirmed_durable ParseLSN fs cfg tables l st slot confirmed d env s env' s' d' log :
  limits_ok cfg → Forall (record_ok fs cfg tables) l →
  stream_start ParseLSN st slot confirmed = Ok d → Inv s st log →
  Z.of_nat (length log + 2 * length l + 1) < 2 ^ 64 - 1 →
  do_records ParseLSN fs cfg tables l d env s = (env', s', Ok d') →
  d_durable d ≤ d_durable d' ∧
  ∃ st' log', Inv s' st' log' ∧ ParseLSN (State.DurableLSN st') = Some (d_durable d') ∧
    State.ReadySeq st ≤ State.ReadySeq st' ∧ log `prefix_of` log' ∧ State.Generation st' = State.Generation st.
Proof.
  intros Hlim Hl Hs HI Hbd H. assert (agree ParseLSN cfg d st log) as Hag.
  { unfold stream_start in Hs. result_inv Hs; by split. }
  destruct (records_agree ParseLSN fs cfg tables Hlim l Hl _ _ _ _ _ _ _ _ Hag HI Hbd H)
    as (Hd & st' & log' & HI' & [Hd' _ _] & _ & ?). split; [done|]. by exists st', log'.
Qed.

(** C14 Consuming a frame ends: a frame beyond the limit is refused, and otherwise
    every record takes at least a byte of the data, so that the loop has a finite
    run from any data and any state, and [consume] returns its outcome. *)
Theorem consume_terminates ParseLSN fs cfg tables data d env s :
  if i64 (config.Config.MaxRowBytes cfg * 2) <? slen data
  then consume ParseLSN fs cfg tables data d env s = (env, s, d, Err (errorf "wal record exceeds hard limit"))
  else consumes ParseLSN fs cfg tables data d env s (consume ParseLSN fs cfg tables data d env s).
Proof. unfold consume. destruct (_ <? _); [done|]. apply consume_loop_runs. lia. Qed.

(** ** A transaction with two rows *)

Definition demo_columns : list Column.t :=
  [Column.mk "id" "integer" 23 true None true; Column.mk "data" "bytea" 17 false None false].
Definition demo_table : Table.t := Table.mk "" "public" "t" 16384 "d" demo_columns.
Definition demo_tables : gmap (string * string) Table.t := {[ ("public", "t") := demo_table ]}.
Definition demo_parse (s : string) : option Z :=
  if String.eqb s "0/10" then Some 16 else if String.eqb s "0/20" then Some 32 else None.
Definition demo_wire (name type : string) (oid : Z) (v : json) : wireColumn.t := wireColumn.mk name type oid (Some v).
Definition demo_begin : record.t := record.mk "B" 7 "0/18" "0/20" "" "" [] [].
Definition demo_commit : record.t := record.mk "C" 7 "0/18" "0/20" "" "" [] [].
Definition demo_changes : list record.t :=
  [record.mk "I" 7 "" "" "public" "t" [demo_wire "id" "integer" 23 (JNum "1"); demo_wire "data" "bytea" 17 (JStr "ff")] [];
   record.mk "D" 7 "" "" "public" "t" [] [demo_wire "id" "integer" 23 (JNum "1")]].

(** The stream after the transaction. *)
Definition demo_after : list obs * Store * result decoder :=
  do_records demo_parse no_files demo_capture_cfg demo_tables (demo_begin :: demo_changes ++ [demo_commit])
    (newDecoder 16) demo_obs demo_queue.1.1.
Definition demo_decoder : decoder := match demo_after.2 with Ok d => d | Err _ => newDecoder 0 end.

Lemma demo_after_Ok : demo_after = (demo_after.1.1, demo_after.1.2, Ok demo_decoder).
Proof. vm_compute. reflexivity. Qed.

Lemma transaction_captured_witness :
  d_durable demo_decoder = 32 ∧ ∃ st' log', Inv demo_after.1.2 st' log' ∧
    transaction_queued no_files demo_capture_cfg demo_tables "0/20" demo_changes demo_queue.1.2 demo_queue.2 st' log'.
Proof.
  refine (proj2 (transaction_captured demo_parse no_files demo_capture_cfg demo_tables demo_begin demo_changes demo_commit
    (newDecoder 16) demo_obs demo_queue.1.1 demo_after.1.1 demo_after.1.2 demo_decoder demo_queue.1.2 demo_queue.2 32
    _ _ _ _ _ _ _ demo_queue_Inv _ demo_after_Ok)).
  - unfold limits_ok. cbn. lia.
  - split_and!; [reflexivity| |reflexivity]. repeat constructor; apply (bool_decide_unpack _); reflexivity.
  - split; reflexivity.
  - reflexivity.
  - reflexivity.
  - reflexivity.
  - intros rows row row' Hrows Hin Ha. vm_compute in Hrows. injection Hrows as <-.
    rewrite !elem_of_cons in Hin. destruct Hin as [->|[->|Hin]]; [| |by apply elem_of_nil in Hin];
      vm_compute in Ha; injection Ha as <-; vm_compute; reflexivity.
  - vm_compute. reflexivity.
Defined.

Lemma demo_records_ok : Forall (record_ok no_files demo_capture_cfg demo_tables) (demo_begin :: demo_changes ++ [demo_commit]).
Proof.
  repeat constructor; try reflexivity; intros n row row' Hn Hrow Ha;
    vm_compute in Hrow; (discriminate || injection Hrow as <-); vm_compute in Ha; injection Ha as <-; row_ok n.
Qed.

Lemma confirmed_durable_witness :
  16 ≤ d_durable demo_decoder ∧
  ∃ st' log', Inv demo_after.1.2 st' log' ∧ demo_parse (State.DurableLSN st') = Some (d_durable demo_decoder) ∧
    State.ReadySeq demo_queue.1.2 ≤ State.ReadySeq st' ∧ demo_queue.2 `prefix_of` log' ∧
    State.Generation st' = State.Generation demo_queue.1.2.
Proof.
  refine (confirmed_durable demo_parse no_files demo_capture_cfg demo_tables (demo_begin :: demo_changes ++ [demo_commit])
    demo_queue.1.2 (Ok ("wal2json", "db", false)) (Ok (Some "0/10")) (newDecoder 16) demo_obs demo_queue.1.1
    demo_after.1.1 demo_after.1.2 demo_decoder demo_queue.2 _ demo_records_ok _ demo_queue_Inv _ demo_after_Ok).
  - unfold limits_ok. cbn. lia.
  - vm_compute. reflexivity.
  - vm_compute. reflexivity.
Defined.
