(* ===== verification/MySQLProps.v ===== *)
(** * Correctness of the MySQL collector

    A checkpoint names the position it was made from; a transaction of the binary
    log is queued as a whole with its end as the next checkpoint; a snapshot is
    queued with every row of every table and starts the stream at the position
    the lock fixed. *)

From S2P Require Import Prelude Bytes Encoding Json JsonStruct GoTime GoPath Config Event FileEmbed Queue QueueInv QueueSpec Batch MySQL.

#[local] Opaque marshal unmarshal.

Import mysql.

(** ** Positions *)

Lemma dec_pad_digits w z : all_bytes is_digit (dec_pad w z) = true.
Proof. unfold dec_pad. by rewrite all_bytes_append, zeros_digits, dec_digits. Qed.

Lemma utf8_position p : utf8_valid (encodePosition p) = true.
Proof.
  unfold encodePosition. apply utf8_valid_append; [done|].
  apply utf8_valid_append; [apply utf8_valid_ascii, b64_encode_ascii|].
  apply utf8_valid_append; [done|apply utf8_valid_ascii, is_digit_ascii, dec_pad_digits].
Qed.

Lemma Split_position p : Split (encodePosition p) ":" =
  ["mysql"; "v1"; base64_raw_url_encode (Position.Name p); dec_pad 20 (Position.Pos p)].
Proof.
  unfold encodePosition.
  change ("mysql:v1:" +:+ base64_raw_url_encode (Position.Name p) +:+ ":" +:+ dec_pad 20 (Position.Pos p))
    with ("mysql" +:+ String ":" ("v1" +:+ String ":" (base64_raw_url_encode (Position.Name p) +:+
            String ":" (dec_pad 20 (Position.Pos p))))).
  rewrite !Split_append by (done || apply raw_url_no_colon). rewrite Split_no_sep; [done|].
  apply (all_bytes_elem is_digit); [done|apply dec_pad_digits].
Qed.

Lemma decode_encode_position p : 0 ≤ Position.Pos p < 2 ^ 32 →
  decodePosition (encodePosition p) =
    if String.eqb (Position.Name p) "" then Err (errorf "invalid mysql checkpoint file")
    else if Position.Pos p <? 4 then Err (errorf "invalid mysql checkpoint position")
    else Ok p.
Proof.
  intros Hp. unfold decodePosition. rewrite Split_position. cbn [String.eqb negb orb]. go.
  rewrite base64_raw_url_decode_encode. go. destruct (String.eqb _ ""); [done|].
  unfold ParseUint. rewrite parse_dec_pad by lia. cbn [mbind option_bind].
  rewrite (proj2 (Z.ltb_lt _ _)) by lia. go. destruct (_ <? 4); [done|]. by destruct p.
Qed.

(** ** Rows of events *)

Section transaction.
Context (FormatFloat : Z → Z → string) (fs : filesystem) (cfg : config.Config.t).
Hypothesis Hlim : limits_ok cfg.

Notation makeRow := (makeRow FormatFloat).
Notation stream_event := (stream_event FormatFloat fs cfg).
Notation stream_events := (stream_events FormatFloat fs cfg).

(** The rows of a list of images, numbered after [n]. *)
Fixpoint image_rows (t : Table.t) (op : string) (n : Z) (l : list (option (list value) * option (list value))) : option (list Row.t) :=
  match l with
  | [] => Some []
  | (b, a) :: l' =>
      match makeRow t op b a (u64 (n + 1)) with
      | Ok row => cons row <$> image_rows t op (u64 (n + 1)) l'
      | Err _ => None
      end
  end.

(** The rows of an event: none for a table that is not captured. *)
Definition event_rows (tables : gmap string Table.t) (n : Z) (ev : binlog_event) : option (list Row.t) :=
  match ev_body ev with
  | Rows schema table typ _ rows =>
      match tables !! table_key schema table with
      | None => Some []
      | Some t => match images typ rows with Ok (op, l) => image_rows t op n l | Err _ => None end
      end
  | _ => Some []
  end.

Fixpoint events_rows (tables : gmap string Table.t) (n : Z) (l : list binlog_event) : option (list Row.t) :=
  match l with
  | [] => Some []
  | ev :: l' =>
      rows ← event_rows tables n ev;
      rows' ← events_rows tables (bump n (length rows)) l';
      Some (rows ++ rows')
  end.

(** Two streamers that differ in the batch and the count of rows only. *)
Definition same_place (st st' : streamer) : Prop :=
  s_file st' = s_file st ∧ s_transaction st' = s_transaction st ∧ s_info st' = s_info st ∧ s_tables st' = s_tables st.

(** The rows of [st'] are those of [st] and [rows]. *)
Definition adds (rows : list Row.t) (st : streamer) (env : list obs) (s : Store) (env' : list obs) (s' : Store) (st' : streamer) : Prop :=
  add_all (add full fs cfg) rows (s_b st) env s = (env', s', Ok (s_b st')) ∧
  s_ordinal st' = bump (s_ordinal st) (length rows) ∧ same_place st st'.

Lemma adds_nil st env s : adds [] st env s env s st.
Proof. by split_and!. Qed.

Lemma adds_app a b st env s env1 s1 st1 env' s' st' :
  adds a st env s env1 s1 st1 → adds b st1 env1 s1 env' s' st' → adds (a ++ b) st env s env' s' st'.
Proof.
  intros (H1 & O1 & P1) (H2 & O2 & P2). split_and!.
  - apply add_all_app. by eexists _, _, _.
  - by rewrite O2, O1, length_app, bump_add.
  - unfold same_place in *. naive_solver congruence.
Qed.

Lemma add_images_rows t op l st env s env' s' st' :
  add_images FormatFloat fs cfg t op l st env s = (env', s', Ok st') →
  ∃ rows, image_rows t op (s_ordinal st) l = Some rows ∧ adds rows st env s env' s' st'.
Proof.
  revert st env s. induction l as [|[b a] l IH]; intros st env s; cbn [add_images image_rows].
  { intros (-> & -> & ->)%staging_ret_Ok. exists []. split; [done|apply adds_nil]. }
  intros (env1 & s1 & st1 & H1 & H2)%staging_bind_Ok. unfold add_row in H1. st_inv H1.
  match goal with H : mysql.makeRow _ _ _ _ _ _ = Ok ?r |- _ => rename r into row; rewrite H end.
  apply IH in H2 as (rows & Hr & Hadd). cbn [s_ordinal] in Hr. rewrite Hr. exists (row :: rows). split; [done|].
  refine (adds_app [row] rows _ _ _ _ _ _ _ _ _ _ Hadd). split_and!; try done. cbn [add_all].
  apply staging_bind_Ok. by eexists _, _, _.
Qed.

(** Events inside a transaction. *)
Definition inner (ev : binlog_event) : Prop :=
  match ev_body ev with Rows _ _ _ _ _ | OtherBody => True | _ => False end.

Lemma inner_rows ev st env s env' s' st' : inner ev → stream_event ev st env s = (env', s', Ok st') →
  ∃ rows, event_rows (s_tables st) (s_ordinal st) ev = Some rows ∧ adds rows st env s env' s' st'.
Proof.
  unfold inner, mysql.stream_event, event_rows. destruct (ev_body ev) as [|schema table typ skipped rows| | |]; try done.
  - intros _. unfold rows_event. destruct (s_tables st !! _) as [t|].
    + intros H. st_inv H. match goal with H : images _ _ = Ok ?x |- _ => rewrite H; destruct x as [op l] end.
      by apply add_images_rows.
    + intros (-> & -> & ->)%staging_ret_Ok. exists []. split; [done|apply adds_nil].
  - intros _ (-> & -> & ->)%staging_ret_Ok. exists []. split; [done|apply adds_nil].
Qed.

Lemma inners_rows l st env s env' s' st' : Forall inner l → stream_events l st env s = (env', s', Ok st') →
  ∃ rows, events_rows (s_tables st) (s_ordinal st) l = Some rows ∧ adds rows st env s env' s' st'.
Proof.
  intros Hl. revert st env s. induction Hl as [|ev l Hev _ IH]; intros st env s; cbn [mysql.stream_events events_rows].
  { intros (-> & -> & ->)%staging_ret_Ok. exists []. split; [done|apply adds_nil]. }
  intros (env1 & s1 & st1 & H1 & H2)%staging_bind_Ok. apply inner_rows in H1 as (rows & Hr & Hadd); [|done].
  apply IH in H2 as (rows' & Hr' & Hadd'). destruct Hadd as (Ha & Ho & Hf & Ht & Hi & Htb). rewrite Htb, Ho in Hr'.
  exists (rows ++ rows'). cbn. rewrite Hr. cbn. rewrite Hr'. split; [done|]. by eapply adds_app.
Qed.

(** A streamer between transactions. *)
Definition idle (st : streamer) : Prop :=
  s_ordinal st = 0 ∧ s_b st = mkBatcher (rows_message (s_transaction st)) 0.

(** The event that begins a transaction. *)
Definition begins (ev : binlog_event) : Prop :=
  ∃ text, ev_body ev = Query text ∧ ToUpper (TrimSpace text) = "BEGIN".

(** The rows of the events can be carried by the wire format. *)
Definition events_ok (tables : gmap string Table.t) (l : list binlog_event) : Prop :=
  ∀ rows row row', events_rows tables 0 l = Some rows → row ∈ rows → Apply fs cfg row = Ok row' → Row_ok row' = true.

Lemma position_message_ok kind p : utf8_valid kind = true →
  Message_ok (Message.mk "" "" "" "" 0 "" kind (encodePosition p) 0 "" [] None [] None "") = true.
Proof. intros Hk. unfold Message_ok. rewrite !andb_true_iff. split_and!; try done. apply utf8_position. Qed.

Lemma stream_events_app a b st env s env' s' st' : stream_events (a ++ b) st env s = (env', s', Ok st') →
  ∃ env1 s1 st1, stream_events a st env s = (env1, s1, Ok st1) ∧ stream_events b st1 env1 s1 = (env', s', Ok st').
Proof.
  revert st env s. induction a as [|ev a IH]; intros st env s; cbn [app mysql.stream_events].
  { intros H. by exists env, s, st. }
  intros (env1 & s1 & st1 & H1 & H2)%staging_bind_Ok. apply IH in H2 as (env2 & s2 & st2 & H2 & H3).
  exists env2, s2, st2. split; [|done]. apply staging_bind_Ok. by eexists _, _, _.
Qed.

(** What the queue holds after a transaction with identifier [tx]. *)
Definition transaction_queued (tx lsn : string) (rows : list Row.t) (st : State.t) (log : list Message.t)
    (st' : State.t) (log' : list Message.t) : Prop :=
  ∃ rows' rss xs, Forall2 (embeds fs cfg) rows rows' ∧ concat rss = rows' ∧ Forall (good_chunk cfg) rss ∧
    log' = log ++ xs ∧
    Forall2 stamped (match rows with [] => [] | _ => chunk_messages (rows_message tx) 0 rss ++ [end_message tx] end) xs ∧
    State.ReadySeq st' = State.NextSeq st' ∧ State.DurableLSN st' = lsn ∧
    State.Generation st' = State.Generation st ∧ State.Phase st' = State.Phase st.

(** The end of a transaction with the rows collected. *)
Lemma xid_queued pos rows st0 env0 s0 st env s env' s' st' qst log :
  s_b st0 = mkBatcher (rows_message (s_transaction st0)) 0 → s_ordinal st0 = 0 →
  (∃ p, s_transaction st0 = encodePosition p) →
  (∀ row row', row ∈ rows → Apply fs cfg row = Ok row' → Row_ok row' = true) →
  Inv s0 qst log → Z.of_nat (length log + 2 * length rows + 2) < 2 ^ 64 - 1 →
  adds rows st0 env0 s0 env s st → xid_event pos st env s = (env', s', Ok st') →
  idle st' ∧ ∃ qst' log', Inv s' qst' log' ∧
    transaction_queued (s_transaction st0) (encodePosition (Position.mk (s_file st0) pos)) rows qst log qst' log'.
Proof.
  intros Hb0 Ho0 [p Hp] Hok HI Hbd (Hadd & Ho & Hf & Ht & _ & _) H. rewrite Ho0, bump_small in Ho by lia.
  unfold xid_event in H. apply staging_bind_Ok in H as (env1 & s1 & b & H1 & H2). st_inv H2. rewrite Hf, Ht in *.
  rewrite Hb0 in Hadd. match goal with H : Publish _ _ _ = _ |- _ => rename H into Hpub end.
  assert (b_size b = 0 ∧ ∃ st1 ms, ∃ log1, Inv s1 st1 log1 ∧ extends qst log ms st1 log1 ∧ ∃ rows' rss,
    Forall2 (embeds fs cfg) rows rows' ∧ concat rss = rows' ∧ Forall (good_chunk cfg) rss ∧
    ms = match rows with [] => [] | _ => chunk_messages (rows_message (s_transaction st0)) 0 rss ++ [end_message (s_transaction st0)] end)
    as (Hsize & st1 & ms & log1 & HI1 & He & rows' & rss & Hemb & Hcat & Hgood & Hms).
  { destruct rows as [|r0 rows0].
    - cbn in Hadd. injection Hadd as <- <- Eb. rewrite Ho in H1. cbn in H1. injection H1 as <- <- <-. rewrite <-Eb.
      split; [done|]. exists qst, [], log. split; [done|]. split; [apply extends_refl|]. exists [], []. by split_and!.
    - rewrite (proj2 (Z.eqb_neq _ _)) in H1 by (rewrite Ho; cbn [length]; lia). st_inv H1.
      match goal with H : flush _ _ _ _ = _ |- _ => rename H into Hfl end.
      match goal with H : append _ _ _ _ = (_, _, Ok ?u) |- _ => destruct u; rename H into Happ end.
      assert (Message_ok (rows_message (s_transaction st0)) = true) as Hm by (rewrite Hp; by apply position_message_ok).
      destruct (batch_stages full fs cfg _ Hlim Hm (add full fs cfg) (r0 :: rows0) (λ r b _, eq_refl) eq_refl eq_refl
        ltac:(lia) Hok env0 s0 qst log _ _ _ HI ltac:(lia) ltac:(apply staging_bind_Ok; by eexists _, _, _))
        as (ms & st1 & log1 & HI1 & He1 & Hl & rows' & rss & Hemb & -> & Hgood & Hcat & _ & Hsz).
      pose proof (extends_length _ _ _ _ _ He1) as Hlog.
      apply (append_Inv _ _ _ _ _ _ st1 log1) in Happ as (st2 & log2 & HI2 & He2);
        [|rewrite Hp; by apply position_message_ok|lia|done].
      split; [done|]. eexists st2, _, log2. split; [done|]. split; [by eapply extends_trans|]. by exists rows', rss. }
  apply (PublishSource_Inv _ _ _ _ _ _ _ HI1) in Hpub as [_ HI2]; [|apply utf8_position|done].
  split; [split; cbn; [done|by rewrite Hsize]|]. destruct He as [(xs & -> & Hx) _ _ Hph Hgen _ _].
  exists (published (encodePosition (Position.mk (s_file st0) pos)) false "" st1), (log ++ xs). split; [done|].
  exists rows', rss, xs. subst ms. by split_and!.
Qed.

Lemma binlog_transaction eb l ex st env s env' s' st' qst log : begins eb → Forall inner l → ev_body ex = XID →
  idle st → events_ok (s_tables st) l → Inv s qst log →
  (∀ rows, events_rows (s_tables st) 0 l = Some rows → Z.of_nat (length log + 2 * length rows + 2) < 2 ^ 64 - 1) →
  stream_events (eb :: l ++ [ex]) st env s = (env', s', Ok st') →
  idle st' ∧ ∃ rows qst' log', events_rows (s_tables st) 0 l = Some rows ∧ Inv s' qst' log' ∧
    transaction_queued (encodePosition (Position.mk (s_file st) (ev_LogPos eb)))
      (encodePosition (Position.mk (s_file st) (ev_LogPos ex))) rows qst log qst' log'.
Proof.
  intros (text & Eb & Etext) Hl Ex [Ho Hb] Hok HI Hbd. cbn [mysql.stream_events].
  intros (env1 & s1 & st1 & H1 & H2)%staging_bind_Ok.
  unfold mysql.stream_event, query_event in H1. rewrite Eb, Etext in H1.
  change (String.eqb "BEGIN" "BEGIN") with true in H1. apply staging_ret_Ok in H1 as (-> & -> & ->).
  set (st1 := at_position _ st) in H2. apply stream_events_app in H2 as (env2 & s2 & st2 & H2 & H3).
  apply inners_rows in H2 as (rows & Hr & Hadd); [|done]. cbn in Hr. rewrite Ho in Hr.
  apply staging_bind_Ok in H3 as (env3 & s3 & st3 & H3 & (-> & -> & ->)%staging_ret_Ok).
  unfold mysql.stream_event in H3. rewrite Ex in H3.
  eapply (xid_queued _ rows st1 env s) in H3 as [Hi (qst' & log' & HI' & Hq)]; try done.
  - split; [done|]. by exists rows, qst', log'.
  - cbn. by rewrite Hb.
  - by eexists.
  - intros row row'. by apply (Hok rows).
  - by apply Hbd.
Qed.
End transaction.

(** ** Snapshots *)

Section snapshot.
Context (FormatFloat : Z → Z → string) (fs : filesystem) (cfg : config.Config.t) (io : snapshot_io).
Hypothesis Hlim : limits_ok cfg.

(** The rows of a table, numbered after [n]. *)
Definition table_rows (t : Table.t) (n : Z) : option (list Row.t) :=
  image_rows FormatFloat t "read" n ((λ raws, (None, Some (text_values raws))) <$> (io_rows io t).1).

(** The messages of the tables, whose rows are numbered after [n]. *)
Fixpoint tables_staged (l : list Table.t) (n : Z) (ms : list Message.t) : Prop :=
  match l with
  | [] => ms = []
  | t :: l' => ∃ rows rows' rss ms',
      table_rows t n = Some rows ∧ Forall2 (embeds fs cfg) rows rows' ∧ concat rss = rows' ∧ Forall (good_chunk cfg) rss ∧
      ms = schema_message t :: chunk_messages (kind_message "snapshot_rows") 0 rss ++ ms' ∧
      tables_staged l' (bump n (length rows)) ms'
  end.

(** A bound on the number of messages of the tables. *)
Definition tables_bound (l : list Table.t) : nat := sum_list_with (λ t, 2 + 2 * length (io_rows io t).1)%nat l.

(** The names of a table, and its rows, can be carried by the wire format. *)
Definition table_ok (t : Table.t) : Prop :=
  Message_ok (schema_message t) = true ∧
  ∀ raws n row row', raws ∈ (io_rows io t).1 → 0 ≤ n < 2 ^ 64 →
    makeRow FormatFloat t "read" None (Some (text_values raws)) n = Ok row → Apply fs cfg row = Ok row' → Row_ok row' = true.

Lemma snapshot_rows_add t l total b env s env' s' total' b' :
  snapshot_rows FormatFloat fs cfg t l total b env s = (env', s', Ok (total', b')) →
  ∃ rows, image_rows FormatFloat t "read" total ((λ raws, (None, Some (text_values raws))) <$> l) = Some rows ∧
    add_all (add full fs cfg) rows b env s = (env', s', Ok b') ∧ total' = bump total (length rows) ∧ length rows = length l ∧
    ∀ row, row ∈ rows → ∃ raws n, raws ∈ l ∧ 0 ≤ n < 2 ^ 64 ∧
      makeRow FormatFloat t "read" None (Some (text_values raws)) n = Ok row.
Proof.
  revert total b env s. induction l as [|raws l IH]; intros total b env s; cbn [snapshot_rows].
  { intros (-> & -> & [= -> ->])%staging_ret_Ok. exists []. split_and!; try done. by intros row ?%elem_of_nil. }
  intros H. apply staging_bind_Ok in H as (env1 & s1 & row & (-> & -> & Hrow)%pure_Ok & H).
  apply staging_bind_Ok in H as (env2 & s2 & b2 & Hadd & H).
  apply IH in H as (rows & Hr & Hadds & -> & Hlen & Hin). exists (row :: rows).
  cbn [fmap list_fmap map image_rows]. rewrite Hrow. cbn [fmap list_fmap map] in Hr. rewrite Hr.
  split_and!; try done.
  - apply staging_bind_Ok. by eexists _, _, _.
  - symmetry. apply (bump_add total 1).
  - cbn. by rewrite Hlen.
  - intros row0 [->|Hr0]%elem_of_cons.
    + exists raws, (u64 (total + 1)). split_and!; [left|apply u64_range..|done].
    + destruct (Hin row0 Hr0) as (raws0 & n & ? & ?). exists raws0, n. split; [by right|done].
Qed.

Lemma snapshot_tables_stages l total : Forall table_ok l → Z.of_nat (tables_bound l) < 2 ^ 64 - 3 →
  stages (tables_bound l) (snapshot_tables FormatFloat fs cfg io l total 0) (λ _ ms, tables_staged l total ms).
Proof.
  intros Hl. revert total. induction Hl as [|t l [Hmsg Hrows] _ IH]; intros total Hb; cbn [snapshot_tables].
  { by apply stages_ret. }
  assert (tables_bound (t :: l) = 1 + (2 * length (io_rows io t).1 + 1 + tables_bound l))%nat as E
    by (unfold tables_bound; cbn [sum_list_with]; lia).
  rewrite E in *. clear E. eapply stages_bind; [by apply stages_append|]. intros [] ms ->.
  intros env s st log env' s' [] HI Hbd H.
  apply staging_bind_Ok in H as (env1 & s1 & [total' b] & H1 & H).
  apply snapshot_rows_add in H1 as (rows & Hr & Hadd & -> & Hlen & Hin).
  apply staging_bind_Ok in H as (env2 & s2 & u & (-> & -> & _)%pure_Ok & H).
  apply staging_bind_Ok in H as (env3 & s3 & b' & Hfl & H). cbn [fst snd] in *.
  destruct (batch_stages full fs cfg (kind_message "snapshot_rows") Hlim eq_refl (add full fs cfg) rows (λ r b _, eq_refl)
    eq_refl eq_refl ltac:(lia) ltac:(intros row row' Hr0; destruct (Hin row Hr0) as (raws & n & ? & ? & ?); by apply (Hrows raws n))
    env s st log env3 s3 b' HI ltac:(lia) ltac:(apply staging_bind_Ok; by eexists _, _, _))
    as (ms & st1 & log1 & HI1 & He1 & Hl1 & rows' & rss & Hemb & -> & Hgood & Hcat & _ & Hsz).
  pose proof (extends_length _ _ _ _ _ He1) as Hlog. rewrite Hsz in H.
  destruct (IH (bump total (length rows)) ltac:(lia) env3 s3 st1 log1 env' s' tt HI1 ltac:(lia) H)
    as (ms' & st2 & log2 & HI2 & He2 & Hl2 & Hst).
  exists (chunk_messages (kind_message "snapshot_rows") 0 rss ++ ms'), st2, log2.
  split_and!; [done|by eapply extends_trans|rewrite length_app; lia|].
  exists rows, rows', rss, ms'. by split_and!.
Qed.

(** What the queue holds after a snapshot at [boundary] of the tables [current]. *)
Definition snapshot_queued (current : Inspection.t) (boundary : Position.t) (token : string) (st : State.t) (log : list Message.t) : Prop :=
  ∃ ms xs, tables_staged (Inspection.Tables current) 0 ms ∧
    Forall2 stamped (begin_message (Inspection.Tables current) :: ms ++ [kind_message "snapshot_end"]) xs ∧
    log = Message.set_LSN (encodePosition boundary) <$> xs ∧
    State.Phase st = "stream" ∧ State.DurableLSN st = encodePosition boundary ∧
    State.ReadySeq st = State.NextSeq st ∧ State.Generation st = hex_encode token.

Lemma snapshot_stages current : Forall table_ok (Inspection.Tables current) →
  Message_ok (begin_message (Inspection.Tables current)) = true →
  Z.of_nat (tables_bound (Inspection.Tables current)) < 2 ^ 64 - 5 →
  stages (1 + (tables_bound (Inspection.Tables current) + 1))
    (_ ← append full (begin_message (Inspection.Tables current));
     _ ← snapshot_tables FormatFloat fs cfg io (Inspection.Tables current) 0 0;
     append full (kind_message "snapshot_end"))
    (λ _ ms, ∃ ms', tables_staged (Inspection.Tables current) 0 ms' ∧
      ms = begin_message (Inspection.Tables current) :: ms' ++ [kind_message "snapshot_end"]).
Proof.
  intros Ht Hm Hb. eapply stages_bind; [by apply stages_append|]. intros [] ms ->.
  eapply stages_bind; [apply snapshot_tables_stages; [done|lia]|]. intros [] ms Hst.
  eapply stages_weaken; [by apply stages_append|lia|]. intros [] ms' ->. by exists ms.
Qed.
End snapshot.

(** ** The theorems *)

(** A checkpoint of the MySQL collector names its position: decoding the text
    of a position gives the position back, unless the file is empty or the offset
    is inside the header of a binary log, which are refused. *)
Theorem position_round_trip p : 0 ≤ Position.Pos p < 2 ^ 32 →
  decodePosition (encodePosition p) =
    if String.eqb (Position.Name p) "" then Err (errorf "invalid mysql checkpoint file")
    else if Position.Pos p <? 4 then Err (errorf "invalid mysql checkpoint position")
    else Ok p.
Proof. apply decode_encode_position. Qed.

(** C15 A transaction of the binary log is queued as a whole: from its begin to its
    commit the rows of captured tables are collected, in order, numbered and with
    their files embedded, into chunks within the limits, which follow one another
    in the queue with the end of the transaction after them; all of it is published
    at once, with the position of the commit as the checkpoint.  A transaction
    without captured rows moves the checkpoint only. *)
Theorem binlog_captured FormatFloat fs cfg eb l ex st env s env' s' st' qst log :
  limits_ok cfg → begins eb → Forall inner l → ev_body ex = XID → idle st →
  events_ok FormatFloat fs cfg (s_tables st) l → Inv s qst log →
  (∀ rows, events_rows FormatFloat (s_tables st) 0 l = Some rows →
           Z.of_nat (length log + 2 * length rows + 2) < 2 ^ 64 - 1) →
  stream_events FormatFloat fs cfg (eb :: l ++ [ex]) st env s = (env', s', Ok st') →
  idle st' ∧ ∃ rows qst' log', events_rows FormatFloat (s_tables st) 0 l = Some rows ∧ Inv s' qst' log' ∧
    transaction_queued fs cfg (encodePosition (Position.mk (s_file st) (ev_LogPos eb)))
      (encodePosition (Position.mk (s_file st) (ev_LogPos ex))) rows qst log qst' log'.
Proof. intros Hlim. by apply binlog_transaction. Qed.

(** A snapshot that succeeds replaces the contents of the queue by itself: the
    begin, for every table its schema and its rows in chunks within the limits, the
    end; all of it carries the position fixed under the lock, is published at once,
    and starts the stream at that position, in a new generation. *)
Theorem snapshot_captured FormatFloat fs cfg io info current boundary token env s env' s' st log :
  limits_ok cfg → inspect (io_source io) cfg = Ok current → snapshot_boundary (io_status io) = Ok boundary →
  io_token io = Ok token → State_ok (snapshot_state cfg current token) = true →
  Message_ok (begin_message (Inspection.Tables current)) = true →
  Forall (table_ok FormatFloat fs cfg io) (Inspection.Tables current) → Inv s st log →
  Z.of_nat (tables_bound io (Inspection.Tables current)) < 2 ^ 64 - 5 →
  snapshot FormatFloat fs cfg io info env s = (env', s', Ok tt) →
  ∃ st' log', Inv s' st' log' ∧ snapshot_queued FormatFloat fs cfg io current boundary token st' log'.
Proof.
  intros Hlim Hc Hbd Htk Hst Hbm Ht HI Hb H. unfold snapshot in H. rewrite Hc, Hbd, Htk in H. st_inv H.
  repeat match goal with u : unit |- _ => destruct u end.
  match goal with H : Initialize _ _ = _ |- _ => rename H into Hini end.
  match goal with H : FinalizeSnapshotLSN _ _ = _ |- _ => rename H into Hfin end.
  match goal with H : Publish _ _ _ = _ |- _ => rename H into Hpub end.
  apply (Initialize_Inv _ _ _ _ _ HI Hst) in Hini.
  edestruct (snapshot_stages FormatFloat fs cfg io Hlim) as (ms & st1 & log1 & HI1 & He & _ & ms' & Hms & ->);
    [exact Ht|exact Hbm|exact Hb|exact Hini| |apply staging_bind_Ok; eexists _, _, _; split; [eassumption|]; apply staging_bind_Ok;
      eexists _, _, _; split; eassumption|]; [cbn [length]; lia|].
  apply (FinalizeSnapshotLSN_Inv _ _ _ _ _ HI1) in Hfin as (_ & _ & st2 & HI2 & _ & _ & _ & _ & _ & Hg2); [|apply utf8_position].
  apply (PublishSource_Inv _ _ _ _ _ _ _ HI2) in Hpub as [_ HI3]; [|apply utf8_position|done].
  destruct He as [(xs & -> & Hx) _ _ _ Hg1 _ _]. eexists _, _. split; [exact HI3|]. exists ms', xs.
  split_and!; try done. cbn in *. congruence.
Qed.

(** ** A snapshot and a transaction of one table *)

(** Whether the rows that embedding makes of some rows can be carried. *)
Definition rows_okb (fs : filesystem) (cfg : config.Config.t) (l : list Row.t) : bool :=
  forallb (λ row, match Apply fs cfg row with Ok row' => Row_ok row' | Err _ => true end) l.

Lemma rows_okb_spec fs cfg l : rows_okb fs cfg l = true → ∀ row row', row ∈ l → Apply fs cfg row = Ok row' → Row_ok row' = true.
Proof.
  unfold rows_okb. rewrite forallb_forall. intros H row row' Hin%list_elem_of_In Ha. specialize (H row Hin). by rewrite Ha in H.
Qed.

Lemma position_round_trip_witness :
  decodePosition (encodePosition (Position.mk "binlog.000003" 154)) = Ok (Position.mk "binlog.000003" 154).
Proof. refine (position_round_trip (Position.mk "binlog.000003" 154) _). cbn. lia. Defined.

Definition no_floats (bits width : Z) : string := "".

Definition demo_mysql_table : Table.t :=
  Table.mk "public" "t" "InnoDB" "primary_key"
    [Column.mk "id" "int" "int(11)" false true; Column.mk "data" "blob" "blob" true false].
Definition demo_mysql_info : Inspection.t := Inspection.mk "5.7.44" "uuid" "public" "1" "ROW" "FULL" [demo_mysql_table].
Definition demo_streamer : streamer := new_streamer demo_mysql_info (Position.mk "binlog.000003" 154).

Definition demo_event (b : body) (pos : Z) : binlog_event := mkEvent b pos (Err (errorf "not asked")).
Definition demo_mysql_begin : binlog_event := demo_event (Query "begin") 219.
Definition demo_mysql_events : list binlog_event :=
  [demo_event OtherBody 270;
   demo_event (Rows "public" "t" RowsInsert [[]] [[VInt 1; VBytes "a"]; [VInt 2; VNil]]) 330;
   demo_event (Rows "public" "other" RowsInsert [[]] [[VInt 1]]) 370;
   demo_event (Rows "public" "t" RowsUpdate [[]; []] [[VInt 1; VBytes "a"]; [VInt 3; VBytes "b"]]) 400].
Definition demo_mysql_commit : binlog_event := demo_event XID 431.

Definition demo_stream_after : list obs * Store * result streamer :=
  stream_events no_floats no_files demo_capture_cfg (demo_mysql_begin :: demo_mysql_events ++ [demo_mysql_commit])
    demo_streamer (replicate 6 (mkObs (Ok (2 ^ 40)) demo_time [])) demo_queue.1.1.
Definition demo_stream_state : streamer := match demo_stream_after.2 with Ok x => x | Err _ => demo_streamer end.

Lemma demo_stream_Ok : demo_stream_after = (demo_stream_after.1.1, demo_stream_after.1.2, Ok demo_stream_state).
Proof. vm_compute. reflexivity. Qed.

Definition demo_mysql_rows : list Row.t :=
  default [] (events_rows no_floats (s_tables demo_streamer) 0 demo_mysql_events).

Lemma demo_mysql_rows_eq : events_rows no_floats (s_tables demo_streamer) 0 demo_mysql_events = Some demo_mysql_rows.
Proof. vm_compute. reflexivity. Qed.

Lemma demo_mysql_rows_ok : rows_okb no_files demo_capture_cfg demo_mysql_rows = true.
Proof. vm_compute. reflexivity. Qed.

Lemma binlog_captured_witness :
  idle demo_stream_state ∧ ∃ rows qst' log', events_rows no_floats (s_tables demo_streamer) 0 demo_mysql_events = Some rows ∧
    Inv demo_stream_after.1.2 qst' log' ∧
    transaction_queued no_files demo_capture_cfg (encodePosition (Position.mk "binlog.000003" 219))
      (encodePosition (Position.mk "binlog.000003" 431)) rows demo_queue.1.2 demo_queue.2 qst' log'.
Proof.
  refine (binlog_captured no_floats no_files demo_capture_cfg demo_mysql_begin demo_mysql_events demo_mysql_commit demo_streamer
    (replicate 6 (mkObs (Ok (2 ^ 40)) demo_time [])) demo_queue.1.1 demo_stream_after.1.1 demo_stream_after.1.2
    demo_stream_state demo_queue.1.2 demo_queue.2 _ _ _ _ _ _ demo_queue_Inv _ demo_stream_Ok).
  - unfold limits_ok. cbn. lia.
  - exists "begin". split; reflexivity.
  - repeat constructor.
  - reflexivity.
  - split; reflexivity.
  - intros rows row row' Hr Hin Ha. rewrite demo_mysql_rows_eq in Hr. injection Hr as <-.
    exact (rows_okb_spec _ _ demo_mysql_rows demo_mysql_rows_ok row row' Hin Ha).
  - intros rows Hr. rewrite demo_mysql_rows_eq in Hr. injection Hr as <-. vm_compute. reflexivity.
Defined.

Definition demo_snapshot_io : snapshot_io :=
  mkSnapshotIO (Ok tt) (Ok [("binlog.000003", Ok 154)]) (Ok tt)
    (mkSource (Ok ["5.7.44"; "uuid"; "public"; "1"; "ROW"; "FULL"]) (λ _, Ok ["InnoDB"])
       (λ _, Ok [("id", "int", "int(11)", "NO", "PRI"); ("data", "blob", "blob", "YES", "")]))
    (Ok tt) (Ok "token") (λ _, ([[Some "1"; Some "0x61"]; [Some "2"; None]], Ok tt)) (Ok tt).

Definition demo_snapshot_cfg : config.Config.t :=
  config.Config.mk "" (config.Config.GRPC_ config.Defaults) (config.Config.Replay_ config.Defaults) "mysql"
    (config.Config.SQLServer_ config.Defaults) (config.Config.SQLServerLegacy_ config.Defaults)
    (config.MySQL.mk 7 true "10s" "1m") (config.Config.FileWatch_ config.Defaults) "src" "mysql://u:p@db:3307/public" ""
    [config.Table.mk "public" "t"] [] "data" "" ∅ (10 * 2 ^ 30) 0 1 1024 4096 "30s" "1s" "60s" ""
    (config.Config.Log_ config.Defaults) true "".

Definition demo_snapshot_after : list obs * Store * result unit :=
  snapshot no_floats no_files demo_snapshot_cfg demo_snapshot_io demo_mysql_info
    (replicate 6 (mkObs (Ok (2 ^ 40)) demo_time [])) demo_queue_open.1.1.

Lemma demo_snapshot_Ok :
  snapshot no_floats no_files demo_snapshot_cfg demo_snapshot_io demo_mysql_info
    (replicate 6 (mkObs (Ok (2 ^ 40)) demo_time [])) demo_queue_open.1.1 =
  (demo_snapshot_after.1.1, demo_snapshot_after.1.2, Ok tt).
Proof. vm_compute. reflexivity. Qed.

Lemma snapshot_captured_witness :
  ∃ st' log', Inv demo_snapshot_after.1.2 st' log' ∧
    snapshot_queued no_floats no_files demo_snapshot_cfg demo_snapshot_io demo_mysql_info (Position.mk "binlog.000003" 154)
      "token" st' log'.
Proof.
  refine (snapshot_captured no_floats no_files demo_snapshot_cfg demo_snapshot_io demo_mysql_info demo_mysql_info
    (Position.mk "binlog.000003" 154) "token" (replicate 6 (mkObs (Ok (2 ^ 40)) demo_time [])) demo_queue_open.1.1
    demo_snapshot_after.1.1 demo_snapshot_after.1.2 demo_queue_open.1.2 demo_queue_open.2 _ _ _ _ _ _ _ demo_open_Inv _ demo_snapshot_Ok).
  - unfold limits_ok. cbn. lia.
  - vm_compute. reflexivity.
  - vm_compute. reflexivity.
  - reflexivity.
  - vm_compute. reflexivity.
  - vm_compute. reflexivity.
  - constructor; [|constructor]. split; [vm_compute; reflexivity|]. intros raws n row row' Hin Hn Hr Ha.
    cbn in Hin. rewrite !elem_of_cons, elem_of_nil in Hin. destruct Hin as [->|[->|[]]];
      vm_compute in Hr; injection Hr as <-; vm_compute in Ha; injection Ha as <-; row_ok n.
  - vm_compute. reflexivity.
Defined.
