(* ===== verification/FileWatch.v ===== *)
(** * The file collector (internal/filewatch)

    A scan walks the watched tree and records the state of every file that the
    patterns select; the changes against the known states are published one file
    at a time, each as a begin, the chunks of the content and an end; the known
    states are kept in a manifest.  The directory tree and what reading it returns
    are arguments. *)

From S2P Require Import Prelude Bytes Sorting Encoding Sha256 Json JsonStruct GoTime GoPath GoGlob Config Event Queue QueueInv QueueSpec Batch.

#[local] Opaque marshal unmarshal.

Module filewatch.

(** ** Walking a tree ([filepath.WalkDir]) *)

Record file_info := mkInfo {
  fi_size : Z;
  fi_mtime : Z;
  fi_perm : Z;
  fi_symlink : bool;
  fi_regular : bool
}.

(** An entry: its name, whether it is a directory, its metadata, the entries of a
    directory in lexical order, and the content of a file as it is hashed.  A
    context that is cancelled is an error of the entry at which it is noticed. *)
Inductive tree := Node (name : string) (dir : bool) (info : result file_info) (entries : result (list tree)) (content : result string).

Definition node_name (t : tree) : string := let 'Node name _ _ _ _ := t in name.

(** What the callback asks for: going on, [SkipDir], or an error. *)
Inductive walked (A : Type) :=
  | Next (a : A)
  | SkipDir (a : A)
  | Stop (e : error).
Arguments Next {A} _.
Arguments SkipDir {A} _.
Arguments Stop {A} _.

(** The callbacks of this package return the error of a directory that cannot be
    read. *)
Fixpoint walkDir {A} (fn : string → tree → A → walked A) (path : string) (t : tree) (a : A) : walked A :=
  let 'Node _ dir _ entries _ := t in
  match fn path t a with
  | Stop e => Stop e
  | SkipDir a => if dir then Next a else SkipDir a
  | Next a =>
      if negb dir then Next a
      else
        match entries with
        | Err e => Stop e
        | Ok l =>
            (fix loop (l : list tree) (a : A) : walked A :=
               match l with
               | [] => Next a
               | t' :: l' =>
                   match walkDir fn (Join2 path (node_name t')) t' a with
                   | Next a => loop l' a
                   | SkipDir a => Next a
                   | Stop e => Stop e
                   end
               end) l a
        end
  end.

Definition WalkDir {A} (fn : string → tree → A → walked A) (root : string) (t : result tree) (a : A) : result A :=
  t ← t;
  match walkDir fn root t a with
  | Next a | SkipDir a => Ok a
  | Stop e => Err e
  end.

(** ** Inspecting *)

Module Inspection.
Record t := mk { RootDir : string; Files : Z; Bytes : Z }.
End Inspection.

Definition inspect_entry (path : string) (t : tree) (r : Inspection.t) : walked Inspection.t :=
  let 'Node _ _ info _ _ := t in
  match info with
  | Err e => Stop e
  | Ok i =>
      if fi_symlink i || negb (fi_regular i) then Next r
      else Next (Inspection.mk (Inspection.RootDir r) (u64 (Inspection.Files r + 1)) (i64 (Inspection.Bytes r + fi_size i)))
  end.

Definition Inspect (cfg : config.Config.t) (t : result tree) : result Inspection.t :=
  let root := config.FileWatch.RootDir (config.Config.FileWatch_ cfg) in
  WalkDir inspect_entry root t (Inspection.mk root 0 0).

(** ** Scanning *)

Module fileState.
Record t := mk { Size : Z; ModTimeUnixNano : Z; Mode : Z; SHA256 : string }.

#[global] Instance eq_dec : EqDecision t.
Proof. solve_decision. Defined.
Definition zero : t := mk 0 0 0 "".
End fileState.

Section collector.
Context (cfg : config.Config.t).

Notation fw := (config.Config.FileWatch_ cfg).
Notation RootDir := (config.FileWatch.RootDir fw).
Notation ChunkBytes := (config.FileWatch.ChunkBytes fw).

Definition matchAny (patterns : list string) (name : string) : bool :=
  existsb (λ p, match Match p name with Some b => b | None => false end) patterns.

Definition matches (name : string) : bool :=
  let include := config.FileWatch.Include fw in
  if negb (length include =? 0)%nat && negb (matchAny include name) then false
  else negb (matchAny (config.FileWatch.Exclude fw) name).

Definition hashFile (content : result string) : result string :=
  c ← content; Ok (hex_encode (sha256 c)).

(** The states found so far and the directories that are watched; [add] is
    [watcher.Add]. *)
Definition scan_entry (add : string → result unit) (full : string) (t : tree)
    (a : gmap string fileState.t * gset string) : walked (gmap string fileState.t * gset string) :=
  let 'Node _ dir info _ content := t in
  let '(found, watched) := a in
  match info with
  | Err e => Stop e
  | Ok i =>
      if fi_symlink i then (if dir then SkipDir a else Next a)
      else if dir then
        if bool_decide (full ∈ watched) then Next a
        else match add full with Err e => Stop e | Ok _ => Next (found, {[full]} ∪ watched) end
      else if negb (fi_regular i) then Next a
      else
        match Rel RootDir full with
        | None => Stop (errorf "Rel: can't make path relative")
        | Some rel =>
            if negb (matches rel) then Next a
            else if config.FileWatch.MaxFileBytes fw <? fi_size i then Stop (errorf "file %q exceeds max_file_bytes")
            else
              match hashFile content with
              | Err e => Stop e
              | Ok digest => Next (<[rel := fileState.mk (fi_size i) (fi_mtime i) (fi_perm i) digest]> found, watched)
              end
        end
  end.

(** [root] is the opening of the root directory. *)
Definition scan (root : result unit) (add : string → result unit) (t : result tree) (watched : gset string) :
    result (gmap string fileState.t * gset string) :=
  _ ← root;
  WalkDir (scan_entry add) RootDir t (∅, watched).

(** ** Publishing *)

(** What happens while a file is published: the identifier drawn for it, the
    opening of the root and of the file, the reads ([io.ReadFull] of each chunk, at
    most [ChunkBytes] bytes; a context that is cancelled is an error), the size and
    modification time afterwards, and the time of the checkpoint. *)
Record reading := mkReading {
  rd_uuid : string;
  rd_root : result unit;
  rd_open : result unit;
  rd_reads : Z → result string;
  rd_stat : result (Z * Z);
  rd_now : Z
}.

Definition checkpoint (now : Z) : string := "file:" +:+ FormatInt now.

(** [errors.Join(err, c.q.Recover())] *)
Definition recovering (c : staging unit) : staging unit := λ env s,
  match c env s with
  | (env', s', Err e) => (env', (Recover s').1, Err e)
  | x => x
  end.

Definition file_message (kind transaction : string) (f : FileChange.t) : Message.t :=
  Message.mk "" "" "" "" 0 "" kind transaction 0 "" [] None [] (Some f) "".

Definition chunk_count (size : Z) : Z :=
  let n := u32 (Z.quot (i64 (i64 (size + ChunkBytes) - 1)) ChunkBytes) in
  if n =? 0 then 1 else n.

(** The chunks from [chunk] on, [n] of them; the result is what was hashed. *)
Fixpoint publish_chunks (n : nat) (chunk : Z) (rd : reading) (change : FileChange.t) (content : string) : staging string :=
  match n with
  | O => mret content
  | S n' =>
      data ← pure (rd_reads rd chunk);
      _ ← put (file_message "file_chunk" (rd_uuid rd)
                 (FileChange.set_Data (base64_encode data) (FileChange.set_Chunk chunk change)));
      publish_chunks n' (u32 (chunk + 1)) rd change (content +:+ data)
  end.

(** The file is the one that was scanned. *)
Definition unchanged (st : fileState.t) (rd : reading) (content : string) : bool :=
  match rd_stat rd with
  | Ok (size, mtime) =>
      (size =? fileState.Size st) && (mtime =? fileState.ModTimeUnixNano st) &&
      String.eqb (hex_encode (sha256 content)) (fileState.SHA256 st)
  | Err _ => false
  end.

Definition publishFile (rd : reading) (name operation : string) (st : fileState.t) : staging unit :=
  let chunks := chunk_count (fileState.Size st) in
  let change := FileChange.mk name operation (fileState.Size st) (fileState.ModTimeUnixNano st) (fileState.Mode st)
                  (fileState.SHA256 st) 0 chunks "" in
  _ ← put (file_message "file_begin" (rd_uuid rd) change);
  _ ← recovering (
    _ ← pure (rd_root rd);
    _ ← pure (rd_open rd);
    content ← publish_chunks (Z.to_nat chunks) 0 rd change "";
    _ ← pure (fail_if (negb (unchanged st rd content)) errFileChanged);
    put (file_message "file_end" (rd_uuid rd) change));
  on_queue (λ s, Publish s (checkpoint (rd_now rd)) false).

Definition allows (operation : string) : bool :=
  existsb (String.eqb operation) (config.FileWatch.Events fw).

(** The operation that takes the old state of a path to the current one. *)
Definition operation (before after : option fileState.t) : option string :=
  match before, after with
  | Some b, Some a => if decide (b = a) then None else Some "update"
  | None, Some _ => Some "create"
  | _, None => Some "delete"
  end.

Definition publish_change (rds : string → reading) (old current : gmap string fileState.t) (name : string) : staging unit :=
  match operation (old !! name) (current !! name) with
  | None => mret tt
  | Some op =>
      if negb (allows op) then mret tt
      else
        match current !! name with
        | None =>
            _ ← put (file_message "file_delete" "" (FileChange.mk name op 0 0 0 "" 0 0 ""));
            on_queue (λ s, Publish s (checkpoint (rd_now (rds name))) false)
        | Some after => publishFile (rds name) name op after
        end
  end.

(** The names in the order of [slices.Sort]; they are distinct, so that
    [slices.Compact] keeps them all. *)
Definition paths (old current : gmap string fileState.t) : list string :=
  order_by String.ltb ((map_to_list current).*1 ++ List.filter (λ n, bool_decide (current !! n = None)) (map_to_list old).*1).

Definition publishChanges (rds : string → reading) (old current : gmap string fileState.t) : staging unit :=
  each (publish_change rds old current) (paths old current).

(** ** The manifest *)

Definition fileState_json (s : fileState.t) : json :=
  struct_json
    [("size", num (fileState.Size s)); ("mod_time_unix_nano", num (fileState.ModTimeUnixNano s));
     ("mode", num (fileState.Mode s)); ("sha256", str (fileState.SHA256 s))].

Definition fileState_of (v : json) : option fileState.t :=
  dec_struct fileState.zero (λ ms,
    size ← obj_fold "size" (dec_int 64) 0 ms;
    mtime ← obj_fold "mod_time_unix_nano" (dec_int 64) 0 ms;
    mode ← obj_fold "mode" (dec_uint 32) 0 ms;
    sha ← obj_fold "sha256" dec_str "" ms;
    Some (fileState.mk size mtime mode sha)) v.

Definition dec_files (old : gmap string fileState.t) (v : json) : option (gmap string fileState.t) :=
  match v with
  | JNull => Some ∅
  | JObj ms => foldl (λ acc m, acc ← acc; x ← fileState_of m.2; Some (<[m.1 := x]> acc)) (Some old) ms
  | _ => None
  end.

Definition by_key (a b : string * fileState.t) : bool := String.ltb a.1 b.1.

(** A map is written in the order of its keys. *)
Definition manifest_json (files : gmap string fileState.t) : json :=
  JObj [("files", JObj ((λ kv, (kv.1, fileState_json kv.2)) <$> order_by by_key (map_to_list files)))].

Definition manifest_of (v : json) : option (gmap string fileState.t) :=
  dec_struct ∅ (λ ms, obj_fold "files" dec_files ∅ ms) v.

(** [disk] is what reading the manifest returns: no file, or its content. *)
Definition loadManifest (disk : result (option string)) : result (gmap string fileState.t) :=
  d ← disk;
  match d with
  | None => Ok ∅
  | Some payload => or_err (v ← parse payload; manifest_of v) (errorf "decode file manifest: %w")
  end.

(** The steps of the replacement: creating, restricting, writing, flushing and
    closing the temporary file, and renaming it; one that fails leaves the
    manifest as it was. *)
Definition saveManifest (steps : list (result unit)) (files : gmap string fileState.t) (disk : option string) :
    option string * result unit :=
  match foldr (λ r (k : result unit), _ ← r; k) (Ok tt) steps with
  | Ok _ => (Some (print (manifest_json files)), Ok tt)
  | Err e => (disk, Err e)
  end.

(** ** Running *)

(** The collector between scans: the known states, the directories that are
    watched, and the manifest on disk. *)
Record running := mkRunning {
  known : gmap string fileState.t;
  watching : gset string;
  disk : option string
}.

(** What a scan meets. *)
Record scan_env := mkScanEnv {
  sc_root : result unit;
  sc_tree : result tree;
  sc_add : string → result unit;
  sc_readings : string → reading;
  sc_save : list (result unit)
}.

(** [watched] is shared with the scan, which may fail after adding to it; the
    collector ends then. *)
Definition do_scan (v : scan_env) (r : running) : staging running := λ env s,
  match scan (sc_root v) (sc_add v) (sc_tree v) (watching r) with
  | Err e => (env, s, Err e)
  | Ok (current, watched) =>
      match publishChanges (sc_readings v) (known r) current env s with
      | (env', s', Err errFileChanged) => (env', s', Ok (mkRunning (known r) watched (disk r)))
      | (env', s', Err e) => (env', s', Err e)
      | (env', s', Ok _) =>
          let '(d, res) := saveManifest (sc_save v) current (disk r) in
          match res with
          | Err e => (env', s', Err e)
          | Ok _ => (env', s', Ok (mkRunning current watched d))
          end
      end
  end.

(** What wakes the loop: an event or the ticker, which start a scan, an error of
    the watcher, which is logged, or the end of the watcher. *)
Inductive wakeup := Wake (v : scan_env) | WatcherError | WatcherStopped.

Fixpoint run_loop (l : list wakeup) (r : running) : staging running :=
  match l with
  | [] => mret r
  | Wake v :: l' => r ← do_scan v r; run_loop l' r
  | WatcherError :: l' => run_loop l' r
  | WatcherStopped :: _ => pure (Err (errorf "filesystem watcher stopped"))
  end.

Definition kind_message (kind : string) : Message.t := Message.mk "" "" "" "" 0 "" kind "" 0 "" [] None [] None "".

(** Before the first scan: an empty snapshot of a new generation. *)
Definition start (uuid : string) (now : Z) : staging unit :=
  _ ← on_queue Recover;
  st ← get_state;
  if String.eqb (State.Phase st) "" || String.eqb (State.Phase st) "snapshot" then
    _ ← on_queue (λ s, Initialize s (State.mk "v2" (config.Config.SourceID cfg) uuid (config.Fingerprint cfg) "" 0 "" "" ""
                                       "" "" "" "" 0 0 0 0 0 0));
    _ ← put (kind_message "snapshot_begin");
    _ ← put (kind_message "snapshot_end");
    on_queue (λ s, Publish s (checkpoint now) true)
  else mret tt.

(** [first] is the scan at the start; [watcher] is its creation; the loop ends
    when the context does, after the wake-ups [l]. *)
Definition Run (uuid : string) (now : Z) (stored : result (option string)) (watcher : result unit) (first : scan_env)
    (l : list wakeup) : staging running :=
  _ ← start uuid now;
  files ← pure (loadManifest stored);
  _ ← pure watcher;
  r ← do_scan first (mkRunning files ∅ (match stored with Ok d => d | Err _ => None end));
  run_loop l r.
End collector.
End filewatch.
