(* ===== verification/Delivery.v ===== *)
(** * HTTP delivery (internal/delivery/delivery.go)

    [Sender.Send] posts one message and classifies the answer; [Sender.Run] is
    the loop that peeks at the queue, sends, retries with exponential backoff
    and acknowledges.  The network and the clock are inputs of a step, the
    requests that are posted its output.  The sender is modelled against an
    interface, [DeliveryQueue], that states what it relies on: [peek] shows the
    head of the pending messages and [ack] removes exactly that head; the durable
    queue is an instance. *)

From S2P Require Import Prelude Bytes Encoding Json JsonStruct GoTime Event Queue QueueInv QueueSpec.

#[local] Opaque marshal unmarshal.

(** ** The interface to the queue *)

Class DeliveryQueue (Q : Type) := {
  peek : Q → result (Message.t * string);
  ack : Q → Z → Z → string → Q * result unit;
  (** The messages awaiting delivery, in order. *)
  pending : Q → list Message.t → Prop
}.

Class DeliveryQueueLaws (Q : Type) `{DeliveryQueue Q} := {
  peek_law q l : pending q l →
    peek q = match l with [] => Err ErrEmpty | m :: _ => Ok (m, marshal m) end;
  ack_law q l now seq id q' : pending q l → ack q now seq id = (q', Ok tt) →
    ∃ m l', l = m :: l' ∧ seq = Message.Seq m ∧ id = Message.ID m ∧ pending q' l';
  ack_head q m l now : pending q (m :: l) →
    (ack q now (Message.Seq m) (Message.ID m)).2 = Ok tt;
  ack_error q now seq id q' e : ack q now seq id = (q', Err e) → q' = q
}.

(** ** Sending one message *)

(** What a POST comes to: no request could be built, no response arrived, or a
    response whose body is read up to a limit. *)
Inductive exchange :=
  | InvalidRequest
  | TransportFailed
  | Response (StatusCode : Z) (Body : string) (ReadFailed : bool).

(** A request and its answer: the idempotency key, the body, and what it came to. *)
Record post := mkPost { Key : string; Payload : string; Answer : exchange }.

(** What was posted, whether the request may be retried, and the result. *)
Definition Send (m : Message.t) (b : string) (x : exchange) : option post * bool * result unit :=
  let posted := Some (mkPost (Message.ID m) b x) in
  match x with
  | InvalidRequest => (None, false, Err (errorf "invalid http request"))
  | TransportFailed => (posted, true, Err (errorf "http transport failed"))
  | Response code body failed =>
      if negb (code =? 200) then
        (posted, (code =? 408) || (code =? 429) || (500 <=? code),
          Err (errors_New ("receiver returned http " +:+ FormatInt code)))
      else if failed then (posted, true, Err (errorf "read ack failed"))
      else
        let body := limit_string 65537 body in
        if 65536 <? slen body then (posted, false, Err (errorf "ack exceeds size limit"))
        else
          match parse body ≫= Ack_of with
          | None => (posted, false, Err (errorf "invalid ack json"))
          | Some a =>
              if negb (String.eqb (Ack.ID a) (Message.ID m)) || negb (Ack.Seq a =? Message.Seq m)
              then (posted, false, Err (errorf "ack does not match message"))
              else (posted, false, Ok tt)
          end
  end.

(** ** The delivery loop *)

Record Sender := mkSender { delay : Z; retries : Z }.

(** What an iteration of the loop observes. *)
Record Env := mkEnv {
  cancelled : bool;          (** [ctx.Err()] at the top of the loop *)
  cancelled_sending : bool;  (** [ctx.Err()] after a failed send *)
  cancelled_waiting : bool;  (** [Wait] was interrupted *)
  reply : exchange;
  now : Z;
  random : Z                 (** the jitter drawn, [rand.Int64N] *)
}.

Inductive outcome :=
  | Continue
  | Return (e : error).

(** The pause before a retry. *)
Definition jitter (delay random : Z) : Z := i64 (Z.quot delay 2 + random).

(** The range of the random part. *)
Definition jitter_range (delay : Z) : Z := Z.max 1 (Z.quot delay 2).

Section loop.
Context {Q : Type} `{DeliveryQueue Q}.
Context (minDelay maxDelay : Z).

(** One iteration of [Sender.Run]: the queue, the sender, what was posted, and
    whether the loop goes on. *)
Definition run_once (v : Env) (q : Q) (s : Sender) : Q * Sender * option post * outcome :=
  if cancelled v then (q, s, None, Return ErrCanceled)
  else
    match peek q with
    | Err ErrEmpty => (q, s, None, if cancelled_waiting v then Return ErrCanceled else Continue)
    | Err e => (q, s, None, Return e)
    | Ok (m, b) =>
        match Send m b (reply v) with
        | (p, retry, Err e) =>
            if cancelled_sending v then (q, s, p, Return ErrCanceled)
            else if negb retry then (q, s, p, Return e)
            else
              let retries' := u64 (retries s + 1) in
              if cancelled_waiting v then (q, mkSender (delay s) retries', p, Return ErrCanceled)
              else (q, mkSender (Z.min (i64 (delay s * 2)) maxDelay) retries', p, Continue)
        | (p, _, Ok _) =>
            match ack q (now v) (Message.Seq m) (Message.ID m) with
            | (q', Err e) => (q', s, p, Return e)
            | (q', Ok _) => (q', mkSender minDelay 0, p, Continue)
            end
        end
    end.

(** The loop interleaved with the capture side, which appends to the pending
    messages, and started again after it has returned: what was posted so far and
    all that was published. *)
Inductive trace : Q → Sender → list post → list Message.t → Prop :=
  | trace_start q l : pending q l → trace q (mkSender minDelay 0) [] l
  | trace_capture q q' s posts all k :
      trace q s posts all → (∀ l, pending q l → pending q' (l ++ k)) → trace q' s posts (all ++ k)
  | trace_send v q s posts all q' s' p o :
      trace q s posts all → 0 ≤ random v < jitter_range (delay s) → run_once v q s = (q', s', p, o) →
      trace q' (match o with Continue => s' | Return _ => mkSender minDelay 0 end) (posts ++ option_list p) all.
End loop.

(** *** What the receiver should see *)

(** A 200 response whose body, within the size limit, is the acknowledgement of the
    message: its id and its sequence number. *)
Definition acknowledges (m : Message.t) (x : exchange) : Prop :=
  ∃ body, x = Response 200 body false ∧ slen (limit_string 65537 body) ≤ 65536 ∧
    parse (limit_string 65537 body) ≫= Ack_of = Some (Ack.mk (Message.ID m) (Message.Seq m)).

(** The messages are posted in their order, each as often as needed, and the next one
    only after a post that was acknowledged; [n] messages are done. *)
Inductive posted (all : list Message.t) : list post → nat → Prop :=
  | posted_none : posted all [] 0
  | posted_again posts n m x : posted all posts n → all !! n = Some m →
      posted all (posts ++ [mkPost (Message.ID m) (marshal m) x]) n
  | posted_done posts n m x : posted all posts n → all !! n = Some m → acknowledges m x →
      posted all (posts ++ [mkPost (Message.ID m) (marshal m) x]) (S n).

(** ** The durable queue is an instance *)

#[global] Instance store_delivery : DeliveryQueue Store := {
  peek := Peek;
  ack := Ack;
  pending s l := ∃ st log, reach s st log ∧ queued (outbox st log) = l
}.

#[global] Instance store_delivery_laws : DeliveryQueueLaws Store.
Proof.
  split.
  - intros s l (st & log & HR & <-). pose proof (reach_Inv _ _ _ HR) as HI. apply peek_queued, HI.
  - intros s l now seq id s' (st & log & HR & <-) E. cbn in E.
    pose proof (reach_Inv _ _ _ HR) as HI.
    destruct (ack_sound s st log now seq id s' HI E) as (m & l & Eq & -> & ->).
    destruct (step_refines (OAck now (Message.Seq m) (Message.ID m)) s st log s' HI I E)
      as (st' & HI' & Hs). exists m, l. split_and!; try done.
    exists st', log. split.
    + eapply (reach_step _ _ _ (OAck now _ _)); [done|done|exact E|]. by apply inv_read with log.
    + cbn [log_after] in Hs. rewrite Hs.
      change (tail (queued (outbox st log)) = l). by rewrite Eq.
  - intros s m l now (st & log & HR & Eq). apply (ack_complete s st log now m l); [|done].
    by apply reach_Inv.
  - intros s now seq id s' e. apply (run_fail (OAck now seq id)).
Qed.

(** Publication by the capture side appends the staged messages to the pending
    ones. *)
Lemma publish_pending s st log lsn seal cleanup s' : reach s st log →
  utf8_valid lsn = true → utf8_valid cleanup = true →
  PublishSource s lsn seal cleanup = (s', Ok tt) →
  pending s' (queued (outbox st log) ++ staged (outbox st log)).
Proof.
  intros HR Hl Hc E. pose proof (reach_Inv _ _ _ HR) as HI.
  destruct (step_refines (OPublish lsn seal cleanup) s st log s' HI (conj Hl Hc) E) as (st' & HI' & Hs).
  exists st', log. split.
  - eapply (reach_step _ _ _ (OPublish lsn seal cleanup)); [done|done|exact E|]. by apply inv_read with log.
  - cbn [log_after spec] in Hs. by rewrite Hs.
Qed.

(** ** Properties of the loop *)

Section loop_properties.
Context {Q : Type} `{DeliveryQueueLaws Q}.
Context (minDelay maxDelay : Z).

Lemma Send_post m b x p retry r : Send m b x = (p, retry, r) →
  (p = None ∧ retry = false ∧ r ≠ Ok tt) ∨ p = Some (mkPost (Message.ID m) b x).
Proof. unfold Send. intros E. repeat case_match; simplify_eq; auto; by left. Qed.

Lemma Send_Ok m b x p retry : Send m b x = (p, retry, Ok tt) →
  p = Some (mkPost (Message.ID m) b x) ∧ acknowledges m x.
Proof.
  unfold Send. destruct x as [| |code body failed]; [done..|].
  destruct (Z.eqb_spec code 200) as [->|]; [|done]. cbn [negb]. destruct failed; [done|].
  destruct (Z.ltb_spec 65536 (slen (limit_string 65537 body))); [done|].
  destruct (parse _ ≫= Ack_of) as [a|] eqn:Ea; [|done].
  destruct (negb _ || negb _) eqn:Ec; [done|]. apply orb_false_iff in Ec as [Ec1 Ec2]. bool_prop.
  intros [= <- _]. split; [done|]. exists body. split_and!; try done. rewrite Ea. f_equal. destruct a. cbn in *. congruence.
Qed.

(** An iteration posts nothing and leaves the queue, or posts the message it peeks at;
    the message leaves the queue only if the post was acknowledged. *)
Lemma run_once_cases v q s q' s' p o : run_once minDelay maxDelay v q s = (q', s', p, o) →
  (p = None ∧ q' = q) ∨
  (∃ m b, p = Some (mkPost (Message.ID m) b (reply v)) ∧ peek q = Ok (m, b) ∧
     (q' = q ∨ acknowledges m (reply v) ∧ ack q (now v) (Message.Seq m) (Message.ID m) = (q', Ok tt))).
Proof.
  unfold run_once. destruct (cancelled v); [intros [= <- _ <- _]; by left|].
  destruct (peek q) as [[m b]|e] eqn:Ep; [|destruct e; intros [= <- _ <- _]; by left].
  destruct (Send m b (reply v)) as [[p1 retry] [[]|e]] eqn:Es.
  - apply Send_Ok in Es as [-> Hack]. destruct (ack q _ _ _) as [q1 [[]|e]] eqn:Ea; intros [= <- _ <- _]; right; exists m, b.
    + split_and!; [done|done|by right].
    + split_and!; [done|done|left]. by eapply ack_error.
  - intros E. assert (p = p1 ∧ q' = q) as [-> ->] by (repeat case_match; by simplify_eq).
    apply Send_post in Es as [(-> & _)| ->]; [by left|right]. exists m, b. split_and!; [done|done|by left].
Qed.

Lemma run_once_delay v q s q' s' p : run_once minDelay maxDelay v q s = (q', s', p, Continue) →
  s' = s ∨ s' = mkSender (Z.min (i64 (delay s * 2)) maxDelay) (u64 (retries s + 1)) ∨ s' = mkSender minDelay 0.
Proof.
  unfold run_once. intros E. repeat case_match; simplify_eq; auto.
Qed.

Lemma posted_more all k posts n : posted all posts n → posted (all ++ k) posts n.
Proof.
  induction 1 as [|posts n m x _ IH Hm|posts n m x _ IH Hm Ha]; [constructor| |];
    [apply posted_again|apply posted_done]; try done; by apply lookup_app_l_Some.
Qed.

Lemma trace_posted q s posts all : trace minDelay maxDelay q s posts all →
  ∃ n, posted all posts n ∧ pending q (drop n all) ∧ (n ≤ length all)%nat.
Proof.
  induction 1 as [q l Hl|q q' s posts all k _ (n & Hp & Hq & Hn) Hk|v q s posts all q' s' p o _ (n & Hp & Hq & Hn) _ E].
  - exists 0%nat. split_and!; [constructor|done|lia].
  - exists n. split_and!; [by apply posted_more| |rewrite length_app; lia].
    rewrite drop_app_le by done. by apply Hk.
  - apply run_once_cases in E as [(-> & ->)|(m & b & -> & Hpk & Hack)]; [exists n; cbn; by rewrite app_nil_r|].
    rewrite (peek_law _ _ Hq) in Hpk. destruct (drop n all) as [|m' l] eqn:Ed; [done|]. injection Hpk as -> <-.
    assert (all !! n = Some m) as Hm by by rewrite <-(Nat.add_0_r n), <-lookup_drop, Ed. cbn [option_list].
    destruct Hack as [->|[Ha Hq']]; [exists n; rewrite Ed; split_and!; [by apply posted_again|done|done]|].
    destruct (ack_law _ _ _ _ _ _ Hq Hq') as (m' & l' & [= <- <-] & _ & _ & Hl').
    exists (S n). split_and!; [by apply posted_done| |by apply lookup_lt_Some in Hm].
    by rewrite (drop_S _ m n Hm) in Ed; injection Ed as ->.
Qed.
End loop_properties.

(** ** Theorems *)

Lemma Ack_round a : utf8_valid (Ack.ID a) = true → 0 ≤ Ack.Seq a < 2 ^ 64 →
  parse (print (Ack_json a)) ≫= Ack_of = Some a.
Proof.
  intros Hu Hs. rewrite parse_print.
  - cbn [mbind option_bind]. unfold Ack_of, Ack_json. struct_fields. unfold str, num.
    cbn [dec_str mbind option_bind]. rewrite dec_num by done. by destruct a.
  - unfold Ack_json. struct_ok. by rewrite int_lexeme_FormatInt.
Qed.

(** C36. The receiver sees the published messages in their order, each under its id as
    the idempotency key, repeated until it is acknowledged: whatever the receiver
    answers, whenever the sender returns and is started again (also when the queue
    failed after an acknowledgement), and whatever the capture side publishes
    meanwhile, the next message is posted only after a post of the one before was
    answered by a 200 response whose bounded body acknowledges its id and number,
    and the messages still pending are exactly those that are not done.  The queue
    only has to keep its laws: [Peek] shows the first pending message, [Ack] removes
    it or fails without effect. *)
Theorem http_in_order {Q} `{DeliveryQueueLaws Q} minDelay maxDelay q s posts all :
  trace minDelay maxDelay q s posts all →
  ∃ n, posted all posts n ∧ pending q (drop n all) ∧ (n ≤ length all)%nat.
Proof. apply trace_posted. Qed.

(** A send is retried exactly after a transport failure, an unreadable
    response, or a status 408, 429 or 500 and above; anything else stops the
    sender without acknowledging. *)
Theorem send_retry_iff m b x :
  (Send m b x).1.2 = true ↔
    match x with
    | InvalidRequest => False
    | TransportFailed => True
    | Response code _ failed => (code = 200 ∧ failed = true) ∨ code = 408 ∨ code = 429 ∨ 500 ≤ code
    end.
Proof.
  destruct x as [| |code body failed]; [done..|]. unfold Send.
  destruct (Z.eqb_spec code 200) as [->|Hc]; cbn [negb].
  - destruct failed; [split; auto|].
    repeat case_match; cbn; split; try done; intros [[_ ?]|[?|[?|?]]]; done || lia.
  - cbn. rewrite !orb_true_iff, !Z.eqb_eq, Z.leb_le. intuition lia.
Qed.

(** The backoff stays between the configured minimum and maximum, and the
    pause before a retry lies between half the backoff and the backoff. *)
Theorem backoff_bounds {Q} `{DeliveryQueue Q} minDelay maxDelay q s posts all r :
  0 < minDelay → minDelay ≤ maxDelay → maxDelay < 2 ^ 62 →
  trace minDelay maxDelay q s posts all → 0 ≤ r < jitter_range (delay s) →
  minDelay ≤ delay s ≤ maxDelay ∧ delay s / 2 ≤ jitter (delay s) r ≤ delay s.
Proof.
  intros Hmin Hmax Hb Htr Hr.
  assert (minDelay ≤ delay s ≤ maxDelay) as Hd.
  { clear Hr. induction Htr as [| |v q s posts all q' s' p [|e] _ IH _ E]; [cbn; lia|done| |cbn; lia].
    apply run_once_delay in E as [->|[->| ->]]; cbn [delay]; [done| |lia].
    rewrite i64_small by lia. lia. }
  split; [done|]. unfold jitter, jitter_range in *. rewrite !Z.quot_div_nonneg in * by lia.
  rewrite i64_small; zdiv.
Qed.

(** A correct acknowledgement makes progress: when the receiver answers 200
    with the acknowledgement of the oldest pending message, that message is
    delivered and the loop goes on. *)
Theorem http_progress {Q} `{DeliveryQueueLaws Q} minDelay maxDelay v q s m l :
  pending q (m :: l) → Message_ok m = true → cancelled v = false →
  reply v = Response 200 (print (Ack_json (Ack.mk (Message.ID m) (Message.Seq m)))) false →
  slen (print (Ack_json (Ack.mk (Message.ID m) (Message.Seq m)))) ≤ 65536 →
  ∃ q', run_once minDelay maxDelay v q s =
    (q', mkSender minDelay 0, Some (mkPost (Message.ID m) (marshal m) (reply v)), Continue) ∧ pending q' l.
Proof.
  intros Hp Hm Hc Hr Hl. unfold run_once. rewrite Hc, (peek_law _ _ Hp), Hr.
  pose proof (ack_head q m l (now v) Hp) as Ha.
  unfold Message_ok in Hm. assert (Send m (marshal m) (Response 200 (print (Ack_json (Ack.mk (Message.ID m)
    (Message.Seq m)))) false) = (Some (mkPost (Message.ID m) (marshal m) (Response 200 (print (Ack_json (Ack.mk
    (Message.ID m) (Message.Seq m)))) false)), false, Ok tt)) as ->.
  { unfold Send. cbn [Z.eqb Pos.eqb negb].
    rewrite limit_string_all by lia.
    rewrite (proj2 (Z.ltb_ge _ _)) by done. bool_prop.
    rewrite Ack_round by (done || by apply uint_ok_range).
    cbn [Ack.ID Ack.Seq]. by rewrite String.eqb_refl, Z.eqb_refl. }
  destruct (ack q (now v) (Message.Seq m) (Message.ID m)) as [q' [[]|e]] eqn:E; [|done].
  exists q'. split; [done|]. destruct (ack_law _ _ _ _ _ _ Hp E) as (m' & l' & Hl' & _ & _ & H').
  by injection Hl' as -> ->.
Qed.

(** ** The theorems at a concrete run *)

Definition demo_ack : string :=
  print (Ack_json (Ack.mk (Message.ID demo_next) (Message.Seq demo_next))).

Definition demo_env : Env :=
  mkEnv false false false (Response 200 demo_ack false) (demo_time + 5 * second) 0.

Definition demo_sender : Sender := mkSender second 0.

Definition demo_post : post := mkPost (Message.ID demo_next) (marshal demo_next) (Response 200 demo_ack false).

Definition demo_sent : Store * Sender * option post * outcome :=
  run_once second (60 * second) demo_env demo_store demo_sender.

Lemma demo_sent_eq : demo_sent = (demo_sent.1.1.1, demo_sender, Some demo_post, Continue).
Proof. vm_compute. reflexivity. Qed.

Lemma demo_pending : pending demo_store [demo_next].
Proof. exists demo_st, demo_log. split; [exact demo_reach|exact demo_queued]. Qed.

Lemma demo_trace : trace second (60 * second) demo_sent.1.1.1 demo_sender [demo_post] [demo_next].
Proof.
  apply (trace_send _ _ demo_env demo_store demo_sender [] [demo_next] _ demo_sender (Some demo_post) Continue);
    [apply trace_start, demo_pending|cbn; split; [done|vm_compute; reflexivity]|exact demo_sent_eq].
Qed.

Lemma http_in_order_witness :
  ∃ n, posted [demo_next] [demo_post] n ∧ pending demo_sent.1.1.1 (drop n [demo_next]) ∧ (n ≤ 1)%nat.
Proof.
  exact (http_in_order second (60 * second) demo_sent.1.1.1 demo_sender [demo_post] [demo_next] demo_trace).
Defined.

Lemma backoff_bounds_witness :
  second ≤ delay demo_sender ≤ 60 * second ∧
  delay demo_sender / 2 ≤ jitter (delay demo_sender) 7 ≤ delay demo_sender.
Proof.
  apply (backoff_bounds second (60 * second) demo_sent.1.1.1 demo_sender [demo_post] [demo_next] 7);
    [done|done|done|exact demo_trace|split; [done|vm_compute; reflexivity]].
Defined.

Lemma http_progress_witness :
  ∃ q', run_once second (60 * second) demo_env demo_store demo_sender =
    (q', demo_sender, Some demo_post, Continue) ∧ pending q' [].
Proof.
  apply (http_progress second (60 * second) demo_env demo_store demo_sender demo_next []);
    [exact demo_pending|vm_compute; reflexivity|reflexivity|reflexivity|vm_compute; congruence].
Defined.
