(* ===== verification/GrpcDelivery.v ===== *)
(** * gRPC delivery (internal/delivery/grpc.go)

    The collector's end of the replication stream: the hello, the handling of
    every frame the server sends, what [connect] does when it returns, and the
    reconnection loop [Run].  Receiving is an input, sending is an output: a
    [Send] that fails is a frame that is lost and a stream that ends, which the
    composition with the server has as steps of its own.  The capture side is
    behind the interface [ReconcileController]. *)

From S2P Require Import Prelude Bytes GoTime Event Queue Syncv1.

(** ** The interface to the capture side *)

(** [ReconcileController]; the controller shares the queue with the sender, and
    what an operation observes outside the process is an argument. *)
Class ReconcileController (C E : Type) := {
  Reconcile : E → syncv1.ReconcileRequest.t → Store * C → (Store * C) * result (option syncv1.ReconcileResult.t);
  Resume : string → Store * C → (Store * C) * result unit;
  Repair : string → Store * C → (Store * C) * result unit
}.

(** ** The sender *)

(** The fields of the configuration [connect] reads; [metrics] and [reconcile]
    say whether the pointers are set. *)
Record GRPCSender := mkGRPCSender {
  SourceID : string;
  metrics : bool;
  metricsEvery : Z;
  reconcile : bool
}.

(** The variables of [connect], and the objects it works on. *)
Record stream_state (C : Type) := mkStream {
  queue : Store;
  controller : C;
  activeReconcile : string;
  lastMetrics : Z
}.
Arguments mkStream {C} _ _ _ _.
Arguments queue {C} _.
Arguments controller {C} _.
Arguments activeReconcile {C} _.
Arguments lastMetrics {C} _.

(** [time.Time{}] *)
Definition zero_time : Z := -62135596800 * second.

(** What the handling of one frame observes. *)
Record Env (E : Type) := mkEnv {
  now : Z;                    (** the clock *)
  GatherText : result string; (** the text of the metrics *)
  observed : E                (** what the controller observes *)
}.
Arguments mkEnv {E} _ _ _.
Arguments now {E} _.
Arguments GatherText {E} _.
Arguments observed {E} _.

(** Whether [connect] goes on receiving or returns. *)
Inductive outcome :=
  | Continue
  | Return (e : error).

Section connect.
Context {C E : Type} `{ReconcileController C E}.
Context (s : GRPCSender).

(** The first frame. *)
Definition hello (q : Store) : result syncv1.CollectorFrame :=
  '(generation, earliest, ready) ← Bounds q;
  _ ← fail_if (String.eqb generation "") (errorf "capture generation is not ready");
  Ok (syncv1.CollectorFrame_Hello
        (syncv1.Hello.mk (SourceID s) generation earliest ready "v2" (reconcile s))).

Definition sendMetrics (v : Env E) (c : stream_state C) :
    stream_state C * list syncv1.CollectorFrame * option error :=
  if negb (metrics s) || (Since (now v) (lastMetrics c) <? metricsEvery s) then (c, [], None)
  else
    match GatherText v with
    | Err e => (c, [], Some e)
    | Ok payload =>
        (mkStream (queue c) (controller c) (activeReconcile c) (now v),
         [syncv1.CollectorFrame_Metrics (syncv1.Metrics.mk payload (now v / 1000000))], None)
    end.

(** The answer to a digest request when nothing was computed. *)
Definition failed_result (r : syncv1.ReconcileRequest.t) (text : string) : syncv1.ReconcileResult.t :=
  syncv1.ReconcileResult.mk (syncv1.ReconcileRequest.RequestId r) (syncv1.ReconcileRequest.SourceSchema r)
    (syncv1.ReconcileRequest.Table r) [] [] [] "" text [].

Definition handle_reconcile (v : Env E) (r : syncv1.ReconcileRequest.t) (c : stream_state C) :
    stream_state C * list syncv1.CollectorFrame * outcome :=
  let id := syncv1.ReconcileRequest.RequestId r in
  if negb (reconcile s) then
    (mkStream (queue c) (controller c) id (lastMetrics c),
     [syncv1.CollectorFrame_ReconcileResult (failed_result r "collector does not support reconciliation")],
     Continue)
  else
    let '((q, k), res) := Reconcile (observed v) r (queue c, controller c) in
    let result :=
      match res with
      | Err _ => failed_result r "source reconciliation failed"
      | Ok None => failed_result r "collector returned an invalid reconciliation result"
      | Ok (Some computed) =>
          if String.eqb (syncv1.ReconcileResult.RequestId computed) id then computed
          else failed_result r "collector returned an invalid reconciliation result"
      end in
    (mkStream q k id (lastMetrics c), [syncv1.CollectorFrame_ReconcileResult result], Continue).

Definition handle_resume (r : syncv1.ResumeRequest.t) (c : stream_state C) :
    stream_state C * list syncv1.CollectorFrame * outcome :=
  let id := syncv1.ResumeRequest.RequestId r in
  if negb (reconcile s) then
    (c, [], Return (errorf "grpc server requested reconciliation resume from an unsupported collector"))
  else
    match Resume id (queue c, controller c) with
    | ((q, k), Err e) => (mkStream q k (activeReconcile c) (lastMetrics c), [], Return e)
    | ((q, k), Ok _) =>
        (mkStream q k "" (lastMetrics c),
         [syncv1.CollectorFrame_ResumeAccepted (syncv1.ResumeAccepted.mk id)], Continue)
    end.

Definition handle_repair (r : syncv1.RepairRequest.t) (c : stream_state C) :
    stream_state C * list syncv1.CollectorFrame * outcome :=
  let id := syncv1.RepairRequest.RequestId r in
  if negb (reconcile s) then
    (c, [], Return (errorf "grpc server requested repair from an unsupported collector"))
  else
    match Repair id (queue c, controller c) with
    | ((q, k), Err e) => (mkStream q k (activeReconcile c) (lastMetrics c), [], Return e)
    | ((q, k), Ok _) =>
        (mkStream q k "" (lastMetrics c),
         [syncv1.CollectorFrame_RepairAccepted (syncv1.RepairAccepted.mk id)], Return ErrRepairRestart)
    end.

Definition with_queue (q : Store) (c : stream_state C) : stream_state C :=
  mkStream q (controller c) (activeReconcile c) (lastMetrics c).

(** [sendMetrics], then the frames that follow it. *)
Definition then_metrics (v : Env E) (c : stream_state C) (rest : list syncv1.CollectorFrame) :
    stream_state C * list syncv1.CollectorFrame * outcome :=
  match sendMetrics v c with
  | (c, sent, Some e) => (c, sent, Return e)
  | (c, sent, None) => (c, sent ++ rest, Continue)
  end.

Definition handle_ack (v : Env E) (a : syncv1.Ack.t) (c : stream_state C) :
    stream_state C * list syncv1.CollectorFrame * outcome :=
  match GetState (queue c) with
  | Err e => (c, [], Return e)
  | Ok st =>
      let next := u64 (State.DeliveredSeq st + 1) in
      if negb (String.eqb (syncv1.Ack.Generation a) (State.Generation st)) || (next <? syncv1.Ack.Seq a)
      then (c, [], Return (errorf "grpc server returned a non-contiguous acknowledgement"))
      else if syncv1.Ack.Seq a =? next then
        match Ack (queue c) (now v) (syncv1.Ack.Seq a) (syncv1.Ack.MessageId a) with
        | (q, Err e) => (with_queue q c, [], Return e)
        | (q, Ok _) => then_metrics v (with_queue q c) []
        end
      else then_metrics v c []
  end.

Definition handle_pull (v : Env E) (p : syncv1.Pull.t) (c : stream_state C) :
    stream_state C * list syncv1.CollectorFrame * outcome :=
  match Bounds (queue c) with
  | Err e => (c, [], Return e)
  | Ok (generation, earliest, ready) =>
      let seq := syncv1.Pull.Seq p in
      if negb (String.eqb (syncv1.Pull.Generation p) "") &&
         negb (String.eqb (syncv1.Pull.Generation p) generation)
      then (c, [], Return (errorf "grpc server requested an unknown generation"))
      else if seq <? earliest then
        (c, [syncv1.CollectorFrame_ReplayUnavailable (syncv1.ReplayUnavailable.mk seq earliest)], Continue)
      else if ready <? seq then
        then_metrics v c [syncv1.CollectorFrame_Idle (syncv1.Idle.mk ready)]
      else
        match Get (queue c) seq with
        | Err e => (c, [], Return e)
        | Ok (m, raw) =>
            (c, [syncv1.CollectorFrame_Event (syncv1.Event.mk (Message.Seq m) (Message.ID m) raw)], Continue)
        end
  end.

(** One iteration of the loop of [connect]. *)
Definition handle_frame (v : Env E) (f : syncv1.ServerFrame) (c : stream_state C) :
    stream_state C * list syncv1.CollectorFrame * outcome :=
  match f with
  | syncv1.ServerFrame_Reconcile r => handle_reconcile v r c
  | syncv1.ServerFrame_Resume r => handle_resume r c
  | syncv1.ServerFrame_Repair r => handle_repair r c
  | syncv1.ServerFrame_Ack a => handle_ack v a c
  | syncv1.ServerFrame_Pull p => handle_pull v p c
  | syncv1.ServerFrame_empty => (c, [], Return (errorf "grpc server sent an empty frame"))
  end.

(** The deferred function: capture resumes after an interrupted reconciliation. *)
Definition disconnect (c : stream_state C) : Store * C :=
  if negb (String.eqb (activeReconcile c) "") && reconcile s
  then (Resume (activeReconcile c) (queue c, controller c)).1
  else (queue c, controller c).
End connect.

(** ** The reconnection loop *)

(** [status.Code] *)
Definition Code (e : error) : code :=
  match e with status_Error c _ => c | _ => Unknown end.

(** The errors [Run] returns instead of reconnecting. *)
Definition permanent (e : error) : bool :=
  match Code e with
  | Unauthenticated | PermissionDenied | InvalidArgument => true
  | _ => false
  end.

(** The delay after a connection that ended with [e]: [None] when [Run]
    returns. *)
Definition run_once (maxDelay : Z) (cancelled cancelled_waiting : bool) (e : error) (delay : Z) : option Z :=
  if cancelled || permanent e || cancelled_waiting then None
  else Some (Z.min maxDelay (i64 (delay * 2))).

(** The delays of successive connections, whatever they delivered. *)
Fixpoint run_delays (maxDelay : Z) (es : list error) (delay : Z) : list Z :=
  delay ::
    match es with
    | [] => []
    | e :: es' =>
        match run_once maxDelay false false e delay with
        | Some d => run_delays maxDelay es' d
        | None => []
        end
    end.
