(* ===== verification/CaptureController.v ===== *)
(** * The capture controller (internal/app/reconcile.go)

    [captureController] runs the capture goroutine and pauses it while the
    server compares digests: [Reconcile] stops it and scans the source only when
    the queue is drained, [Resume] and [Repair] start it again.  Goroutines are
    names: [live] are those inside [c.run], [cancel] is the one the controller
    can still cancel.  What a call observes, the expiry of its context while it
    waits for the goroutine and the answer of the source database, is an
    argument. *)

From S2P Require Import Prelude Bytes Sorting Event Queue QueueInv QueueSpec Syncv1 GrpcDelivery.

Record captureController := mkController {
  scan : bool;            (** [c.scan != nil] *)
  parent_done : bool;     (** [c.parent.Err() != nil] *)
  cancel : option nat;
  pausedFor : string;
  live : list nat;
  started : nat;
  fatal : option error
}.

(** What [Reconcile] observes. *)
Record scan_env := mkScan {
  expired : bool;
  scanned : result (option syncv1.ReconcileResult.t)
}.

Definition startLocked (c : captureController) : captureController :=
  mkController (scan c) (parent_done c) (Some (started c)) (pausedFor c) (live c ++ [started c])
    (S (started c)) (fatal c).

Definition newCaptureController (scan : bool) : captureController :=
  startLocked (mkController scan false None "" [] 0 None).

Definition pause (id : string) (c : captureController) : captureController :=
  mkController (scan c) (parent_done c) (cancel c) id (live c) (started c) (fatal c).

(** Cancel the goroutine and wait until it is done or the context is. *)
Definition stop (expired : bool) (c : captureController) : captureController * result unit :=
  match cancel c with
  | None => (c, Ok tt)
  | Some i =>
      let stopped l := mkController (scan c) (parent_done c) None (pausedFor c) l (started c) (fatal c) in
      if expired then (stopped (live c), Err ErrCanceled)
      else (stopped (List.filter (λ j, negb (Nat.eqb i j)) (live c)), Ok tt)
  end.

Definition resume (id : string) (c : captureController) : captureController * result unit :=
  if negb (String.eqb (pausedFor c) id) then
    (c, Err (errorf "reconciliation request is no longer active"))
  else
    let c := pause "" c in
    (if negb (parent_done c) && match cancel c with None => true | _ => false end then startLocked c else c,
     Ok tt).

Definition reconcile (v : scan_env) (r : syncv1.ReconcileRequest.t) (qc : Store * captureController) :
    (Store * captureController) * result (option syncv1.ReconcileResult.t) :=
  let '(q, c) := qc in
  let id := syncv1.ReconcileRequest.RequestId r in
  if negb (scan c) then ((q, c), Err (errorf "source engine does not support reconciliation"))
  else if negb (String.eqb (pausedFor c) "") && negb (String.eqb (pausedFor c) id) then
    ((q, c), Err (errorf "another reconciliation is active"))
  else
    match stop (expired v) (pause id c) with
    | (c, Err e) => ((q, c), Err e)
    | (c, Ok _) =>
        match GetState q with
        | Err e => ((q, c), Err e)
        | Ok st =>
            if negb (State.NextSeq st =? State.ReadySeq st) ||
               negb (State.DeliveredSeq st =? State.ReadySeq st)
            then ((q, (resume id c).1), Err ErrNotDrained)
            else ((q, c), scanned v)
        end
    end.

Definition repair (id : string) (qc : Store * captureController) :
    (Store * captureController) * result unit :=
  let '(q, c) := qc in
  if negb (String.eqb (pausedFor c) id) || match cancel c with None => false | _ => true end then
    ((q, c), Err (errorf "repair requires the matching paused reconciliation"))
  else
    match ResetForSnapshot q with
    | (q, Err e) => ((q, c), Err e)
    | (q, Ok _) =>
        let c := pause "" c in
        ((q, if negb (parent_done c) then startLocked c else c), Ok tt)
    end.

(** A goroutine returns from [c.run]; its error is fatal unless it, or the whole
    program, was cancelled. *)
Definition finish (i : nat) (e : option error) (c : captureController) : captureController :=
  let cancelled := parent_done c || negb (bool_decide (cancel c = Some i)) in
  let fatal' :=
    match fatal c, e with
    | None, Some e => if bool_decide (e = ErrCanceled) || cancelled then None else Some e
    | f, _ => f
    end in
  mkController (scan c) (parent_done c) (cancel c) (pausedFor c)
    (List.filter (λ j, negb (Nat.eqb i j)) (live c)) (started c) fatal'.

#[global] Instance controller_reconcile : ReconcileController captureController scan_env := {
  Reconcile := reconcile;
  Resume id qc := ((qc.1, (resume id qc.2).1), (resume id qc.2).2);
  Repair := repair
}.

(** ** Sequences of operations *)

Inductive op :=
  | CReconcile (v : scan_env) (r : syncv1.ReconcileRequest.t)
  | CResume (id : string)
  | CRepair (id : string)
  | CFinish (i : nat) (e : option error)
  | CShutdown
  | CQueue (q : Store)  (** the capture and delivery goroutines use the queue *).

Definition perform (o : op) (qc : Store * captureController) : Store * captureController :=
  match o with
  | CReconcile v r => (reconcile v r qc).1
  | CResume id => (qc.1, (resume id qc.2).1)
  | CRepair id => (repair id qc).1
  | CFinish i e => (qc.1, finish i e qc.2)
  | CShutdown =>
      let c := qc.2 in
      (qc.1, mkController (scan c) true (cancel c) (pausedFor c) (live c) (started c) (fatal c))
  | CQueue q => (q, qc.2)
  end.

(** The wait for the goroutine ended with the goroutine, not with the context. *)
Definition prompt (o : op) : bool :=
  match o with CReconcile v _ => negb (expired v) | _ => true end.

Definition performs (ops : list op) (qc : Store * captureController) : Store * captureController :=
  foldl (λ qc o, perform o qc) qc ops.

(** ** Exclusion *)

(** Only the goroutine the controller can cancel is live, and none is while
    capture is paused. *)
Record exclusive (c : captureController) : Prop := {
  ex_live : ∀ i, i ∈ live c → cancel c = Some i;
  ex_once : (length (live c) ≤ 1)%nat;
  ex_paused : pausedFor c ≠ "" → cancel c = None
}.

Lemma stop_prompt c : exclusive c ∨ (∃ id c0, exclusive c0 ∧ c = pause id c0) →
  stop false c = (mkController (scan c) (parent_done c) None (pausedFor c) [] (started c) (fatal c), Ok tt).
Proof.
  intros Hc. assert (∀ i, i ∈ live c → cancel c = Some i) as Hl.
  { destruct Hc as [[]|(id & c0 & [] & ->)]; done. }
  unfold stop. destruct (cancel c) as [i|] eqn:Ei.
  - rewrite filter_none; [done|]. apply Forall_forall. intros j Hj. specialize (Hl j Hj).
    injection Hl as ->. by rewrite Nat.eqb_refl.
  - destruct c as [? ? ? ? l ? ?]; cbn in *. destruct l as [|i l]; [by subst|].
    specialize (Hl i (list_elem_of_here _ _)). done.
Qed.

Lemma startLocked_exclusive c : live c = [] → pausedFor c = "" → exclusive (startLocked c).
Proof.
  intros Hl Hp. split; cbn; rewrite ?Hl, ?Hp; cbn; [|lia|done].
  by intros i ->%list_elem_of_singleton.
Qed.

Lemma resume_exclusive id c : exclusive c → exclusive (resume id c).1.
Proof.
  intros [Hl Ho Hp]. unfold resume. destruct (negb _) eqn:E; [done|].
  destruct c as [sc pd [k|] p l n f]; cbn in *; destruct pd; cbn; try (by split).
  assert (l = []) as -> by (destruct l as [|i l]; [done|]; specialize (Hl i (list_elem_of_here _ _)); done).
  by apply startLocked_exclusive.
Qed.

Lemma pause_id id c : pausedFor c = id → pause id c = c.
Proof. by intros <-; destruct c. Qed.

Lemma exclusive_stopped sc pd p n f : exclusive (mkController sc pd None p [] n f).
Proof. split; cbn; [by intros i ?%elem_of_nil|lia|done]. Qed.

Lemma reconcile_exclusive v r q c : exclusive c → expired v = false → exclusive (reconcile v r (q, c)).1.2.
Proof.
  intros Hc Hv. unfold reconcile. do 2 (case_match; [done|]).
  rewrite Hv, stop_prompt by eauto. destruct (GetState q); [|apply exclusive_stopped].
  case_match; [|apply exclusive_stopped]. apply (resume_exclusive _ _), exclusive_stopped.
Qed.

Lemma repair_exclusive id q c : exclusive c → exclusive (repair id (q, c)).1.2.
Proof.
  intros Hc. unfold repair. destruct (_ || _) eqn:E; [done|]. apply orb_false_iff in E as [Ep Ec].
  destruct (ResetForSnapshot q) as [q' [[]|e]]; [|done]. cbn. destruct Hc as [Hl Ho Hp].
  destruct (cancel c) eqn:En; [done|].
  assert (live c = []) as Hn by (destruct (live c) as [|i l]; [done|]; specialize (Hl i (list_elem_of_here _ _)); done).
  destruct (negb (parent_done c)); [by apply startLocked_exclusive|].
  split; cbn; rewrite ?Hn; cbn; [by intros i ?%elem_of_nil|lia|done].
Qed.

Lemma finish_exclusive i e c : exclusive c → exclusive (finish i e c).
Proof.
  intros [Hl Ho Hp]. split; cbn; [|etrans; [apply filter_length_le|done]|done].
  intros j Hj%list_elem_of_In%filter_In. apply Hl, list_elem_of_In, Hj.
Qed.

Lemma perform_exclusive o qc : exclusive qc.2 → prompt o = true → exclusive (perform o qc).2.
Proof.
  destruct qc as [q c]. intros Hc Ho. destruct o as [v r|id|id|i e| |q']; cbn -[reconcile repair].
  - apply reconcile_exclusive; [done|]. by apply negb_true_iff.
  - by apply resume_exclusive.
  - by apply repair_exclusive.
  - by apply finish_exclusive.
  - destruct Hc. by split.
  - exact Hc.
Qed.

Lemma performs_exclusive ops qc : exclusive qc.2 → forallb prompt ops = true →
  exclusive (performs ops qc).2.
Proof.
  revert qc. induction ops as [|o ops IH]; intros qc Hc Ho; [done|]. cbn in *.
  apply andb_true_iff in Ho as [? ?]. apply IH; [|done]. by apply perform_exclusive.
Qed.

Lemma new_exclusive sc : exclusive (newCaptureController sc).
Proof. by apply startLocked_exclusive. Qed.

(** ** Theorems *)

(** C30. As long as every wait for the capture goroutine ends with the goroutine,
    at most one capture runs, and a scan of the source is made only while none
    runs and every message of the queue is published and delivered: the digests
    describe exactly what the target has received. *)
Theorem scan_quiescent sc q0 ops v r q c q' c' res : forallb prompt ops = true → expired v = false →
  performs ops (q0, newCaptureController sc) = (q, c) → reconcile v r (q, c) = ((q', c'), Ok res) →
  (length (live c) ≤ 1)%nat ∧ live c' = [] ∧ q' = q ∧ scanned v = Ok res ∧
  pausedFor c' = syncv1.ReconcileRequest.RequestId r ∧
  ∃ st, GetState q = Ok st ∧ State.NextSeq st = State.ReadySeq st ∧ State.DeliveredSeq st = State.ReadySeq st.
Proof.
  intros Ho Hv Hc E. assert (exclusive c) as Hx.
  { change c with (q, c).2. rewrite <- Hc. by apply performs_exclusive; [apply new_exclusive|]. }
  split; [apply Hx|]. revert E. unfold reconcile. do 2 (case_match; [done|]).
  rewrite Hv, stop_prompt by eauto. destruct (GetState q) as [st|e]; [|done].
  case_match eqn:Ed; [done|]. intros [= <- <- <-].
  apply orb_false_iff in Ed as [?%negb_false_iff%Z.eqb_eq ?%negb_false_iff%Z.eqb_eq]. naive_solver.
Qed.

(** When the context of a reconciliation expires while the capture goroutine is
    still stopping, the deferred [Resume] of the stream starts a second capture
    beside the first. *)
Theorem expired_stop_overlap q v r : expired v = true → syncv1.ReconcileRequest.RequestId r ≠ "" →
  live (performs [CReconcile v r; CResume (syncv1.ReconcileRequest.RequestId r)]
          (q, newCaptureController true)).2 = [0; 1]%nat.
Proof.
  intros Hv Hr. cbn -[String.eqb]. rewrite Hv. cbn -[String.eqb].
  unfold resume. cbn -[String.eqb]. by rewrite String.eqb_refl.
Qed.

(** ** The theorem at a concrete run *)

Definition demo_request : syncv1.ReconcileRequest.t :=
  syncv1.ReconcileRequest.mk "r1" "public" "users" 16 true 0 false 60.

Definition demo_scan : scan_env := mkScan false (Ok None).

Definition demo_queue : Store := (Initialize (Open (mkDB None ∅) 1000 0) demo_state).1.

Lemma scan_quiescent_witness : ∃ q c, reconcile demo_scan demo_request
    (performs [CFinish 0 None; CReconcile demo_scan demo_request; CResume "r1"]
       (demo_queue, newCaptureController true)) = ((q, c), Ok None) ∧ live c = [].
Proof.
  eexists _, _. split; [vm_compute; reflexivity|].
  refine (proj1 (proj2 (scan_quiescent true demo_queue
    [CFinish 0 None; CReconcile demo_scan demo_request; CResume "r1"] demo_scan demo_request _ _ _ _ None
    eq_refl eq_refl (surjective_pairing _) _))).
  vm_compute. reflexivity.
Defined.
