(* ===== verification/ServerConfig.v ===== *)
(** * The configuration of the server (internal/serverconfig)

    The records of the configuration and the lookups the apply path makes:
    whether a table is configured, which column receives the content of an
    embedded file, and whether a file operation is applied. *)

From S2P Require Import Prelude Bytes.

Module GRPCConfig.
Record t := mk {
  ListenAddr : string;
  TLSCertFile : string;
  TLSKeyFile : string;
  MaxMessageBytes : Z
}.

#[global] Instance eq_dec : EqDecision t.
Proof. solve_decision. Defined.
End GRPCConfig.

Module VictoriaMetrics.
Record t := mk {
  URL : string;
  Interval : string;
  Timeout : string;
  Headers : gmap string string
}.

#[global] Instance eq_dec : EqDecision t.
Proof. solve_decision. Defined.
End VictoriaMetrics.

Module PostgresConfig.
Record t := mk {
  DSN : string;
  TargetSchema : string;
  MetadataSchema : string
}.

#[global] Instance eq_dec : EqDecision t.
Proof. solve_decision. Defined.
End PostgresConfig.

Record Table := mkTable { SourceSchema : string; Name : string }.

#[global] Instance Table_eq_dec : EqDecision Table.
Proof. solve_decision. Defined.

Record FileColumn := mkFileColumn {
  fc_SourceSchema : string;
  fc_Table : string;
  fc_SourceColumn : string;
  fc_ContentColumn : string
}.

#[global] Instance FileColumn_eq_dec : EqDecision FileColumn.
Proof. solve_decision. Defined.

Record FileStorage := mkFileStorage {
  Backend : string;
  Directory : string;
  Endpoint : string;
  Region : string;
  Bucket : string;
  Prefix : string;
  AccessKey : string;
  SecretKey : string;
  SessionToken : string;
  Secure : bool;
  Events : list string;
  MaxFileBytes : Z
}.

#[global] Instance FileStorage_eq_dec : EqDecision FileStorage.
Proof. solve_decision. Defined.

Record Syncer := mkSyncer {
  ID : string;
  Token : string;
  Postgres_ : PostgresConfig.t;
  Tables : list Table;
  FileColumns : list FileColumn;
  AutoAddColumns : bool;
  Storage : FileStorage
}.

#[global] Instance Syncer_eq_dec : EqDecision Syncer.
Proof. solve_decision. Defined.

Module ReconcileConfig.
Record t := mk {
  Enabled : bool;
  DailyAt : string;
  Timezone : string;
  Buckets : Z;
  Timeout : string;
  RepairMinInterval : string;
  AutoRepair : bool;
  DryRun : bool
}.

#[global] Instance eq_dec : EqDecision t.
Proof. solve_decision. Defined.
End ReconcileConfig.

Definition Allows (s : Syncer) (schema table : string) : bool :=
  existsb (λ c, String.eqb (SourceSchema c) schema && String.eqb (Name c) table) (Tables s).

Fixpoint file_mapping (l : list FileColumn) (schema table column : string) : option string :=
  match l with
  | [] => None
  | c :: l' =>
      if String.eqb (fc_SourceSchema c) schema && String.eqb (fc_Table c) table &&
         String.eqb (fc_SourceColumn c) column
      then Some (fc_ContentColumn c) else file_mapping l' schema table column
  end.

Definition FileMapping (s : Syncer) (schema table column : string) : option string :=
  file_mapping (FileColumns s) schema table column.

Definition AllowsFileOperation (s : Syncer) (operation : string) : bool :=
  negb (String.eqb (Backend (Storage s)) "") &&
  existsb (String.eqb operation) (Events (Storage s)).

Lemma Allows_spec s schema table :
  Allows s schema table = true ↔ mkTable schema table ∈ Tables s.
Proof.
  unfold Allows. rewrite existsb_exists. split.
  - intros ([a b] & Hin & [?%String.eqb_eq ?%String.eqb_eq]%andb_true_iff). cbn in *. subst.
    by apply list_elem_of_In.
  - intros Hin%list_elem_of_In. eexists. split; [done|]. cbn. by rewrite !String.eqb_refl.
Qed.
