(* ===== verification/ServerValidate.v ===== *)
(** * Loading and validating the configuration of the server (internal/serverconfig)

    The JSON form of the records of ServerConfig.v, [Load], [Validate] with the
    defaults it fills in, the keys and overlap tests of file destinations, [Hash]
    and [StaticEqual].  The file, the environment, the time zone database and the
    check of the TLS key pair are arguments.  The lemmas at the end
    say which tests any two syncers of an accepted configuration have passed. *)

From S2P Require Import Prelude Bytes Sorting Encoding Sha256 Json JsonStruct GoTime GoClock GoNet GoPath GoGlob Config ConfigProps ServerConfig.

Module serverconfig.

(** ** JSON *)

Definition jbool (b : bool) : option json := Some (JBool b).
Definition omit_bool (b : bool) : option json := if b then Some (JBool true) else None.
Definition nested {A} (f : A → json) (x : A) : option json := Some (f x).

(** A map is written with its keys in order. *)
Definition omit_map (m : gmap string string) : option json :=
  match order_by (λ a b, String.ltb a.1 b.1) (map_to_list m) with
  | [] => None
  | l => Some (JObj (prod_map id JStr <$> l))
  end.

(** [GRPC] *)
Definition GRPC_zero : GRPCConfig.t := GRPCConfig.mk "" "" "" 0.

Definition GRPC_dec (old : GRPCConfig.t) (v : json) : option GRPCConfig.t :=
  dec_strict
    ["listen_addr"; "tls_cert_file"; "tls_key_file"; "max_message_bytes"]
    (λ ms,
      x0 ← obj_fold "listen_addr" dec_str (GRPCConfig.ListenAddr old) ms;
      x1 ← obj_fold "tls_cert_file" dec_str (GRPCConfig.TLSCertFile old) ms;
      x2 ← obj_fold "tls_key_file" dec_str (GRPCConfig.TLSKeyFile old) ms;
      x3 ← obj_fold "max_message_bytes" (dec_int 64) (GRPCConfig.MaxMessageBytes old) ms;
      Some (GRPCConfig.mk x0 x1 x2 x3)) old v.

Definition GRPC_json (x : GRPCConfig.t) : json :=
  struct_json
    [("listen_addr", str (GRPCConfig.ListenAddr x)); ("tls_cert_file", str (GRPCConfig.TLSCertFile x));
     ("tls_key_file", str (GRPCConfig.TLSKeyFile x)); ("max_message_bytes", num (GRPCConfig.MaxMessageBytes x))].

(** [VictoriaMetrics] *)
Definition Victoria_zero : VictoriaMetrics.t := VictoriaMetrics.mk "" "" "" ∅.

Definition Victoria_dec (old : VictoriaMetrics.t) (v : json) : option VictoriaMetrics.t :=
  dec_strict
    ["url"; "interval"; "timeout"; "headers"]
    (λ ms,
      x0 ← obj_fold "url" dec_str (VictoriaMetrics.URL old) ms;
      x1 ← obj_fold "interval" dec_str (VictoriaMetrics.Interval old) ms;
      x2 ← obj_fold "timeout" dec_str (VictoriaMetrics.Timeout old) ms;
      x3 ← obj_fold "headers" dec_strmap (VictoriaMetrics.Headers old) ms;
      Some (VictoriaMetrics.mk x0 x1 x2 x3)) old v.

Definition Victoria_json (x : VictoriaMetrics.t) : json :=
  struct_json
    [("url", str (VictoriaMetrics.URL x)); ("interval", omit_str (VictoriaMetrics.Interval x));
     ("timeout", omit_str (VictoriaMetrics.Timeout x)); ("headers", omit_map (VictoriaMetrics.Headers x))].

(** [Postgres] *)
Definition Postgres_zero : PostgresConfig.t := PostgresConfig.mk "" "" "".

Definition Postgres_dec (old : PostgresConfig.t) (v : json) : option PostgresConfig.t :=
  dec_strict
    ["dsn"; "target_schema"; "metadata_schema"]
    (λ ms,
      x0 ← obj_fold "dsn" dec_str (PostgresConfig.DSN old) ms;
      x1 ← obj_fold "target_schema" dec_str (PostgresConfig.TargetSchema old) ms;
      x2 ← obj_fold "metadata_schema" dec_str (PostgresConfig.MetadataSchema old) ms;
      Some (PostgresConfig.mk x0 x1 x2)) old v.

Definition Postgres_json (x : PostgresConfig.t) : json :=
  struct_json
    [("dsn", str (PostgresConfig.DSN x)); ("target_schema", str (PostgresConfig.TargetSchema x));
     ("metadata_schema", omit_str (PostgresConfig.MetadataSchema x))].

(** [Table] *)
Definition Table_zero : Table := mkTable "" "".

Definition Table_dec (old : Table) (v : json) : option Table :=
  dec_strict
    ["source_schema"; "name"]
    (λ ms,
      x0 ← obj_fold "source_schema" dec_str (SourceSchema old) ms;
      x1 ← obj_fold "name" dec_str (Name old) ms;
      Some (mkTable x0 x1)) old v.

Definition Table_json (x : Table) : json :=
  struct_json
    [("source_schema", str (SourceSchema x)); ("name", str (Name x))].

(** [FileColumn] *)
Definition FileColumn_zero : FileColumn := mkFileColumn "" "" "" "".

Definition FileColumn_dec (old : FileColumn) (v : json) : option FileColumn :=
  dec_strict
    ["source_schema"; "table"; "source_column"; "content_column"]
    (λ ms,
      x0 ← obj_fold "source_schema" dec_str (fc_SourceSchema old) ms;
      x1 ← obj_fold "table" dec_str (fc_Table old) ms;
      x2 ← obj_fold "source_column" dec_str (fc_SourceColumn old) ms;
      x3 ← obj_fold "content_column" dec_str (fc_ContentColumn old) ms;
      Some (mkFileColumn x0 x1 x2 x3)) old v.

Definition FileColumn_json (x : FileColumn) : json :=
  struct_json
    [("source_schema", str (fc_SourceSchema x)); ("table", str (fc_Table x));
     ("source_column", str (fc_SourceColumn x)); ("content_column", str (fc_ContentColumn x))].

(** [FileStorage] *)
Definition FileStorage_zero : FileStorage := mkFileStorage "" "" "" "" "" "" "" "" "" false [] 0.

Definition FileStorage_dec (old : FileStorage) (v : json) : option FileStorage :=
  dec_strict
    ["backend"; "directory"; "endpoint"; "region"; "bucket"; "prefix"; "access_key"; "secret_key";
     "session_token"; "secure"; "events"; "max_file_bytes"]
    (λ ms,
      x0 ← obj_fold "backend" dec_str (Backend old) ms;
      x1 ← obj_fold "directory" dec_str (Directory old) ms;
      x2 ← obj_fold "endpoint" dec_str (Endpoint old) ms;
      x3 ← obj_fold "region" dec_str (Region old) ms;
      x4 ← obj_fold "bucket" dec_str (Bucket old) ms;
      x5 ← obj_fold "prefix" dec_str (Prefix old) ms;
      x6 ← obj_fold "access_key" dec_str (AccessKey old) ms;
      x7 ← obj_fold "secret_key" dec_str (SecretKey old) ms;
      x8 ← obj_fold "session_token" dec_str (SessionToken old) ms;
      x9 ← obj_fold "secure" dec_bool (Secure old) ms;
      x10 ← obj_fold "events" (dec_slice "" dec_str) (Events old) ms;
      x11 ← obj_fold "max_file_bytes" (dec_int 64) (MaxFileBytes old) ms;
      Some (mkFileStorage x0 x1 x2 x3 x4 x5 x6 x7 x8 x9 x10 x11)) old v.

Definition FileStorage_json (x : FileStorage) : json :=
  struct_json
    [("backend", omit_str (Backend x)); ("directory", omit_str (Directory x));
     ("endpoint", omit_str (Endpoint x)); ("region", omit_str (Region x)); ("bucket", omit_str (Bucket x));
     ("prefix", omit_str (Prefix x)); ("access_key", omit_str (AccessKey x));
     ("secret_key", omit_str (SecretKey x)); ("session_token", omit_str (SessionToken x));
     ("secure", omit_bool (Secure x)); ("events", omit_list JStr (Events x));
     ("max_file_bytes", omit_num (MaxFileBytes x))].

(** [Syncer] *)
Definition Syncer_zero : Syncer := mkSyncer "" "" Postgres_zero [] [] false FileStorage_zero.

Definition Syncer_dec (old : Syncer) (v : json) : option Syncer :=
  dec_strict
    ["id"; "token"; "postgres"; "tables"; "file_columns"; "auto_add_nullable_columns"; "file_storage"]
    (λ ms,
      x0 ← obj_fold "id" dec_str (ID old) ms;
      x1 ← obj_fold "token" dec_str (Token old) ms;
      x2 ← obj_fold "postgres" Postgres_dec (Postgres_ old) ms;
      x3 ← obj_fold "tables" (dec_slice Table_zero Table_dec) (Tables old) ms;
      x4 ← obj_fold "file_columns" (dec_slice FileColumn_zero FileColumn_dec) (FileColumns old) ms;
      x5 ← obj_fold "auto_add_nullable_columns" dec_bool (AutoAddColumns old) ms;
      x6 ← obj_fold "file_storage" FileStorage_dec (Storage old) ms;
      Some (mkSyncer x0 x1 x2 x3 x4 x5 x6)) old v.

Definition Syncer_json (x : Syncer) : json :=
  struct_json
    [("id", str (ID x)); ("token", str (Token x)); ("postgres", nested Postgres_json (Postgres_ x));
     ("tables", null_list Table_json (Tables x)); ("file_columns", omit_list FileColumn_json (FileColumns x));
     ("auto_add_nullable_columns", omit_bool (AutoAddColumns x));
     ("file_storage", nested FileStorage_json (Storage x))].

(** [Reconcile] *)
Definition Reconcile_zero : ReconcileConfig.t := ReconcileConfig.mk false "" "" 0 "" "" false false.

Definition Reconcile_dec (old : ReconcileConfig.t) (v : json) : option ReconcileConfig.t :=
  dec_strict
    ["enabled"; "daily_at"; "timezone"; "buckets"; "timeout"; "repair_min_interval"; "auto_repair"; "dry_run"]
    (λ ms,
      x0 ← obj_fold "enabled" dec_bool (ReconcileConfig.Enabled old) ms;
      x1 ← obj_fold "daily_at" dec_str (ReconcileConfig.DailyAt old) ms;
      x2 ← obj_fold "timezone" dec_str (ReconcileConfig.Timezone old) ms;
      x3 ← obj_fold "buckets" (dec_int 64) (ReconcileConfig.Buckets old) ms;
      x4 ← obj_fold "timeout" dec_str (ReconcileConfig.Timeout old) ms;
      x5 ← obj_fold "repair_min_interval" dec_str (ReconcileConfig.RepairMinInterval old) ms;
      x6 ← obj_fold "auto_repair" dec_bool (ReconcileConfig.AutoRepair old) ms;
      x7 ← obj_fold "dry_run" dec_bool (ReconcileConfig.DryRun old) ms;
      Some (ReconcileConfig.mk x0 x1 x2 x3 x4 x5 x6 x7)) old v.

Definition Reconcile_json (x : ReconcileConfig.t) : json :=
  struct_json
    [("enabled", jbool (ReconcileConfig.Enabled x)); ("daily_at", omit_str (ReconcileConfig.DailyAt x));
     ("timezone", omit_str (ReconcileConfig.Timezone x)); ("buckets", omit_num (ReconcileConfig.Buckets x));
     ("timeout", omit_str (ReconcileConfig.Timeout x));
     ("repair_min_interval", omit_str (ReconcileConfig.RepairMinInterval x));
     ("auto_repair", jbool (ReconcileConfig.AutoRepair x)); ("dry_run", jbool (ReconcileConfig.DryRun x))].

Definition Log_json (x : config.Log.t) : json :=
  struct_json
    [("file", omit_str (config.Log.File x)); ("level", omit_str (config.Log.Level x));
     ("max_size_mb", omit_num (config.Log.MaxSizeMB x)); ("max_backups", omit_num (config.Log.MaxBackups x));
     ("max_age_days", omit_num (config.Log.MaxAgeDays x)); ("compress", omit_bool (config.Log.Compress x))].

(** The whole configuration. *)
Record Config := mkConfig {
  GRPC : GRPCConfig.t;
  AdminToken : string;
  MetricsAddr : string;
  Victoria : VictoriaMetrics.t;
  Reconcile : ReconcileConfig.t;
  Log : config.Log.t;
  Syncers : list Syncer
}.

(** [Config] *)
Definition Config_zero : Config := mkConfig GRPC_zero "" "" Victoria_zero Reconcile_zero config.Log.zero [].

Definition Config_dec (old : Config) (v : json) : option Config :=
  dec_strict
    ["grpc"; "admin_token"; "metrics_addr"; "victoria_metrics"; "reconcile"; "log"; "syncers"]
    (λ ms,
      x0 ← obj_fold "grpc" GRPC_dec (GRPC old) ms;
      x1 ← obj_fold "admin_token" dec_str (AdminToken old) ms;
      x2 ← obj_fold "metrics_addr" dec_str (MetricsAddr old) ms;
      x3 ← obj_fold "victoria_metrics" Victoria_dec (Victoria old) ms;
      x4 ← obj_fold "reconcile" Reconcile_dec (Reconcile old) ms;
      x5 ← obj_fold "log" config.Log.dec (Log old) ms;
      x6 ← obj_fold "syncers" (dec_slice Syncer_zero Syncer_dec) (Syncers old) ms;
      Some (mkConfig x0 x1 x2 x3 x4 x5 x6)) old v.

Definition Config_json (x : Config) : json :=
  struct_json
    [("grpc", nested GRPC_json (GRPC x)); ("admin_token", str (AdminToken x));
     ("metrics_addr", omit_str (MetricsAddr x)); ("victoria_metrics", nested Victoria_json (Victoria x));
     ("reconcile", nested Reconcile_json (Reconcile x)); ("log", nested Log_json (Log x));
     ("syncers", null_list Syncer_json (Syncers x))].

Definition Defaults : Config :=
  mkConfig (GRPCConfig.mk ":7443" "" "" (32 * 2 ^ 20)) "" "127.0.0.1:9100" (VictoriaMetrics.mk "" "30s" "15s" ∅)
    (ReconcileConfig.mk true "02:00" "Asia/Shanghai" 256 "30m" "24h" true false)
    (config.Log.mk "" "info" 100 10 30 true) [].

(** ** Validation *)

Section validate.
(** [time.LoadLocation] and [tls.LoadX509KeyPair] *)
Context (LoadLocation : string → option Location) (key_pair : string → string → result unit).

Definition Reconcile_validate (r : ReconcileConfig.t) : result unit :=
  _ ← fail_if (match ParseClock (ReconcileConfig.DailyAt r) with Some _ => false | None => true end)
        (errorf "reconcile.daily_at must use HH:MM");
  _ ← fail_if (match LoadLocation (ReconcileConfig.Timezone r) with Some _ => false | None => true end)
        (errorf "reconcile.timezone is invalid");
  _ ← fail_if ((ReconcileConfig.Buckets r <? 1) || (65536 <? ReconcileConfig.Buckets r))
        (errorf "reconcile.buckets must be between 1 and 65536");
  _ ← fail_if (negb (forallb (config.duration_at_least (60 * second))
                       [ReconcileConfig.Timeout r; ReconcileConfig.RepairMinInterval r]))
        (errorf "reconcile.%s must be at least 1m");
  fail_if (ReconcileConfig.DryRun r && ReconcileConfig.AutoRepair r)
    (errorf "reconcile.dry_run and reconcile.auto_repair cannot both be true").

Definition identifier : string → bool := match_identifier "$" 62.
Definition syncerID : string → bool := match_id.

(** The loop over the events, with those seen before. *)
Fixpoint storage_events (seen l : list string) : result unit :=
  match l with
  | [] => Ok tt
  | e :: l' =>
      _ ← fail_if (negb (existsb (String.eqb e) ["create"; "update"; "delete"]) || existsb (String.eqb e) seen)
            (errorf "syncer %q has invalid or duplicate file_storage event");
      storage_events (e :: seen) l'
  end.

(** The tests of one backend. *)
Definition backend_validate (f : FileStorage) : result unit :=
  if String.eqb (Backend f) "directory" then
    fail_if (negb (IsAbs (Directory f))) (errorf "syncer %q file_storage.directory must be absolute")
  else if String.eqb (Backend f) "s3" || String.eqb (Backend f) "oss" then
    _ ← fail_if (String.eqb (Endpoint f) "" || String.eqb (Bucket f) "" || String.eqb (AccessKey f) "" ||
                 String.eqb (SecretKey f) "")
          (errorf "syncer %q object storage requires endpoint, bucket, access_key and secret_key");
    _ ← fail_if (ContainsAny (AccessKey f +:+ SecretKey f +:+ SessionToken f) crlf)
          (errorf "syncer %q has invalid object storage credentials");
    _ ← fail_if (ContainsAny (Endpoint f) crlf) (errorf "syncer %q has an invalid object storage endpoint");
    fail_if (String.eqb (Backend f) "oss" && negb (http_url (Endpoint f)))
      (errorf "syncer %q OSS endpoint must be an http(s) URL without credentials")
  else Err (errorf "syncer %q file_storage.backend must be directory, s3 or oss").

(** The destination with its defaults filled in. *)
Definition FileStorage_validate (f : FileStorage) : result FileStorage :=
  if String.eqb (Backend f) "" then Ok f
  else
    let f := mkFileStorage (ToLower (Backend f)) (Directory f) (Endpoint f) (Region f) (Bucket f) (Prefix f)
               (AccessKey f) (SecretKey f) (SessionToken f) (Secure f)
               (match Events f with [] => ["create"; "update"; "delete"] | l => l end)
               (if MaxFileBytes f =? 0 then 2 ^ 30 else MaxFileBytes f) in
    _ ← fail_if ((MaxFileBytes f <? 2 ^ 20) || (2 ^ 40 <? MaxFileBytes f))
          (errorf "syncer %q file_storage.max_file_bytes must be between 1 MiB and 1 TiB");
    _ ← storage_events [] (Events f);
    _ ← fail_if (contains_nul (Prefix f +:+ Directory f +:+ Endpoint f +:+ Bucket f) || IsAbs (Prefix f) ||
                 Contains (Prefix f) "..")
          (errorf "syncer %q has invalid file_storage paths");
    _ ← backend_validate f;
    Ok f.

Definition nul : ascii := "000"%char.

Definition fileStorageKey (f : FileStorage) : string :=
  if String.eqb (Backend f) "directory" then
    "directory" +:+ String nul (Clean (Join2 (Directory f) (Prefix f)))
  else
    "object" +:+ String nul (ToLower (Endpoint f) +:+ String nul (Bucket f +:+ String nul (Clean ("/" +:+ Prefix f)))).

Definition filePathsOverlap (a b : string) : bool := path_contains a b || path_contains b a.

Definition trim_slashes : string → string := Trim (λ c, Ascii.eqb c "/").

Definition storageKeysOverlap (a b : string) : bool :=
  let aParts := Split a nul in
  let bParts := Split b nul in
  let last l := default "" (last l) in
  if negb (length aParts =? length bParts)%nat || negb (bool_decide (removelast aParts = removelast bParts)) then false
  else if String.eqb (hd "" aParts) "directory" then filePathsOverlap (last aParts) (last bParts)
  else
    let aPrefix := trim_slashes (last aParts) in
    let bPrefix := trim_slashes (last bParts) in
    String.eqb aPrefix bPrefix || HasPrefix aPrefix (bPrefix +:+ "/") || HasPrefix bPrefix (aPrefix +:+ "/").

(** [dsn + "\x00" + schema + "\x00" + table] *)
Definition target_key (p : PostgresConfig.t) (table : string) : string :=
  PostgresConfig.DSN p +:+ String nul (PostgresConfig.TargetSchema p +:+ String nul table).

(** The loop over the tables of a syncer: the names seen in it, and the target
    tables of all syncers. *)
Fixpoint check_tables (p : PostgresConfig.t) (seen targets : list string) (l : list Table) : result (list string * list string) :=
  match l with
  | [] => Ok (seen, targets)
  | t :: l' =>
      _ ← fail_if (negb (identifier (SourceSchema t)) || negb (identifier (Name t)))
            (errorf "syncer %q has an invalid table");
      _ ← fail_if (existsb (String.eqb (Name t)) seen) (errorf "syncer %q maps duplicate target table %q");
      _ ← fail_if (existsb (String.eqb (target_key p (Name t))) targets)
            (errorf "syncers %q and %q share a target table");
      check_tables p (Name t :: seen) (target_key p (Name t) :: targets) l'
  end.

Fixpoint check_columns (tables : list string) (l : list FileColumn) : result unit :=
  match l with
  | [] => Ok tt
  | r :: l' =>
      _ ← fail_if (negb (forallb identifier [fc_SourceSchema r; fc_Table r; fc_SourceColumn r; fc_ContentColumn r]))
            (errorf "syncer %q has an invalid file column mapping");
      _ ← fail_if (negb (existsb (String.eqb (fc_Table r)) tables) || String.eqb (fc_SourceColumn r) (fc_ContentColumn r))
            (errorf "syncer %q file mapping references an invalid table or column");
      check_columns tables l'
  end.

(** [seenIDs], [seenTargets], [fileTargets] *)
Record seen := mkSeen { seenIDs : list string; seenTargets : list string; fileTargets : list string }.

Definition check_syncer (k : seen) (s : Syncer) : result (Syncer * seen) :=
  _ ← fail_if (negb (syncerID (ID s)) || String.eqb (Token s) "" || String.eqb (PostgresConfig.DSN (Postgres_ s)) "" ||
               ContainsAny (Token s) crlf || (4096 <? slen (Token s)))
        (errorf "each syncer requires a valid id, token and postgres.dsn");
  _ ← fail_if (existsb (String.eqb (ID s)) (seenIDs k)) (errorf "duplicate syncer id %q");
  let p := Postgres_ s in
  let p := PostgresConfig.mk (PostgresConfig.DSN p) (PostgresConfig.TargetSchema p)
             (if String.eqb (PostgresConfig.MetadataSchema p) "" then "go_sync_meta" else PostgresConfig.MetadataSchema p) in
  _ ← fail_if (negb (identifier (PostgresConfig.TargetSchema p)) || negb (identifier (PostgresConfig.MetadataSchema p)))
        (errorf "syncer %q has an invalid PostgreSQL schema");
  _ ← fail_if (bool_decide (Tables s = []) && String.eqb (Backend (Storage s)) "") (errorf "syncer %q has no tables");
  f ← FileStorage_validate (Storage s);
  _ ← fail_if (negb (String.eqb (Backend f) "") &&
               existsb (λ existing, storageKeysOverlap existing (fileStorageKey f)) (fileTargets k))
        (errorf "syncers %q and %q have overlapping file storage");
  '(tables, targets) ← check_tables p [] (seenTargets k) (Tables s);
  _ ← check_columns tables (FileColumns s);
  Ok (mkSyncer (ID s) (Token s) p (Tables s) (FileColumns s) (AutoAddColumns s) f,
      mkSeen (ID s :: seenIDs k) targets
        (if String.eqb (Backend f) "" then fileTargets k else fileStorageKey f :: fileTargets k)).

Fixpoint check_syncers (k : seen) (l : list Syncer) : result (list Syncer) :=
  match l with
  | [] => Ok []
  | s :: l' =>
      '(s', k') ← check_syncer k s;
      r ← check_syncers k' l';
      Ok (s' :: r)
  end.

(** The configuration with the defaults of its syncers filled in. *)
Definition Validate (c : Config) : result Config :=
  let g := GRPC c in
  _ ← fail_if (match SplitHostPort (GRPCConfig.ListenAddr g) with Some _ => false | None => true end)
        (errorf "grpc.listen_addr must be host:port");
  _ ← fail_if (GRPCConfig.MaxMessageBytes g <? 2 ^ 20) (errorf "grpc.max_message_bytes must be at least 1 MiB");
  _ ← fail_if (String.eqb (GRPCConfig.TLSCertFile g) "" || String.eqb (GRPCConfig.TLSKeyFile g) "")
        (errorf "grpc TLS certificate and key are required");
  _ ← key_pair (GRPCConfig.TLSCertFile g) (GRPCConfig.TLSKeyFile g);
  _ ← fail_if (contains_nul (GRPCConfig.TLSCertFile g +:+ GRPCConfig.TLSKeyFile g))
        (errorf "grpc TLS paths must not contain nul");
  _ ← fail_if (String.eqb (AdminToken c) "") (errorf "admin_token is required");
  _ ← fail_if (ContainsAny (AdminToken c) crlf || (4096 <? slen (AdminToken c))) (errorf "admin_token is invalid");
  _ ← fail_if (negb (String.eqb (MetricsAddr c) "") &&
               match SplitHostPort (MetricsAddr c) with Some _ => false | None => true end)
        (errorf "metrics_addr must be host:port");
  let v := Victoria c in
  let on := negb (String.eqb (VictoriaMetrics.URL v) "") in
  _ ← fail_if (on && negb (http_url (VictoriaMetrics.URL v)))
        (errorf "victoria_metrics.url must be an http(s) URL without credentials");
  _ ← fail_if (on && negb (forallb (config.duration_at_least second) [VictoriaMetrics.Interval v; VictoriaMetrics.Timeout v]))
        (errorf "VictoriaMetrics interval and timeout must be at least 1s");
  _ ← fail_if (existsb (λ kv, String.eqb kv.1 "" || ContainsAny (kv.1 +:+ kv.2) crlf)
                 (map_to_list (VictoriaMetrics.Headers v)))
        (errorf "VictoriaMetrics headers are invalid");
  _ ← Reconcile_validate (Reconcile c);
  l ← check_syncers (mkSeen [] [] []) (Syncers c);
  Ok (mkConfig (GRPC c) (AdminToken c) (MetricsAddr c) (Victoria c) (Reconcile c) (Log c) l).

(** ** Loading *)

Definition expand_syncer (env : string → string) (s : Syncer) : Syncer :=
  let p := Postgres_ s in
  let f := Storage s in
  mkSyncer (ID s) (ExpandEnv env (Token s))
    (PostgresConfig.mk (ExpandEnv env (PostgresConfig.DSN p)) (PostgresConfig.TargetSchema p) (PostgresConfig.MetadataSchema p))
    (Tables s) (FileColumns s) (AutoAddColumns s)
    (mkFileStorage (Backend f) (Directory f) (Endpoint f) (Region f) (Bucket f) (Prefix f)
       (ExpandEnv env (AccessKey f)) (ExpandEnv env (SecretKey f)) (ExpandEnv env (SessionToken f))
       (Secure f) (Events f) (MaxFileBytes f)).

Definition expand_secrets (env : string → string) (c : Config) : Config :=
  let v := Victoria c in
  mkConfig (GRPC c) (ExpandEnv env (AdminToken c)) (MetricsAddr c)
    (VictoriaMetrics.mk (VictoriaMetrics.URL v) (VictoriaMetrics.Interval v) (VictoriaMetrics.Timeout v)
       (ExpandEnv env <$> VictoriaMetrics.Headers v))
    (Reconcile c) (Log c) (expand_syncer env <$> Syncers c).

Definition Load (env : string → string) (file : result string) : result Config :=
  text ← file;
  '(v, rest) ← or_err (config.decode_first text) (errorf "server config: %w");
  c ← or_err (Config_dec Defaults v) (errorf "server config: %w");
  _ ← fail_if (negb (String.eqb (skip_ws rest) "")) (errorf "server config: trailing JSON");
  Validate (expand_secrets env c).
End validate.

Definition Hash (c : Config) : string := hex_encode (sha256 (print (Config_json c))).

Definition StaticEqual (c other : Config) : bool :=
  String.eqb (GRPCConfig.ListenAddr (GRPC c)) (GRPCConfig.ListenAddr (GRPC other)) &&
  (GRPCConfig.MaxMessageBytes (GRPC c) =? GRPCConfig.MaxMessageBytes (GRPC other)) &&
  String.eqb (MetricsAddr c) (MetricsAddr other) &&
  String.eqb (config.Log.File (Log c)) (config.Log.File (Log other)) &&
  (config.Log.MaxSizeMB (Log c) =? config.Log.MaxSizeMB (Log other)) &&
  (config.Log.MaxBackups (Log c) =? config.Log.MaxBackups (Log other)) &&
  (config.Log.MaxAgeDays (Log c) =? config.Log.MaxAgeDays (Log other)) &&
  eqb (config.Log.Compress (Log c)) (config.Log.Compress (Log other)).
(** ** What the syncers of an accepted configuration share *)

(** The directory and the key prefix a destination writes below. *)
Definition storage_root (f : FileStorage) : string := Clean (Join2 (Directory f) (Prefix f)).
Definition storage_prefix (f : FileStorage) : string := trim_slashes (Clean ("/" +:+ Prefix f)).

(** What the tests of a destination establish. *)
Definition storage_ok (f : FileStorage) : Prop :=
  Backend f ≠ "" →
  Forall (λ s, string_elem nul s = false) [Prefix f; Directory f; Endpoint f; Bucket f] ∧
  (Backend f = "directory" → IsAbs (Directory f) = true) ∧ Contains (Prefix f) ".." = false.

Lemma FileStorage_validate_Ok f f' : FileStorage_validate f = Ok f' → storage_ok f'.
Proof.
  unfold FileStorage_validate, storage_ok. destruct (String.eqb_spec (Backend f) "") as [E|E].
  { intros [= <-]. by rewrite E. }
  intros H _. result_inv H. bool_prop.
  match goal with H : contains_nul _ = false |- _ => rewrite contains_nul_elem, !string_elem_append in H end.
  bool_prop. cbn [Prefix Directory Endpoint Bucket Backend] in *. split_and!; [by repeat constructor| |done].
  intros Hd. match goal with H : backend_validate _ = _ |- _ => unfold backend_validate in H; cbn [Backend Directory] in H; rewrite Hd in H; cbn in H end.
  match goal with H : fail_if _ _ = _ |- _ => apply fail_if_Ok in H end. by bool_prop.
Qed.

Lemma lower_no_nul s : string_elem nul s = false → string_elem nul (ToLower s) = false.
Proof.
  induction s as [|c s IH]; cbn; [done|]. destruct (ascii_dec c nul) as [|Hc]; [done|].
  destruct (ascii_dec (lower_byte c) nul) as [E|_]; [|done]. exfalso. revert Hc E.
  by destruct c as [[][][][][][][][]].
Qed.

Lemma directory_key f : storage_ok f → Backend f = "directory" →
  Split (fileStorageKey f) nul = ["directory"; storage_root f] ∧ IsAbs (storage_root f) = true.
Proof.
  intros Hf Hb. destruct Hf as (Hn & Ha & _); [by rewrite Hb|]. specialize (Ha Hb). unfold fileStorageKey. rewrite Hb.
  rewrite !Forall_cons in Hn. destruct Hn as (Hp & Hd & _). cbn [String.eqb Ascii.eqb eqb].
  rewrite (Split_append "directory") by done. split.
  - f_equal. apply Split_no_sep. by apply Clean_no_byte, Join2_no_byte.
  - apply IsAbs_Clean. unfold Join2. destruct (String.eqb_spec (Directory f) "") as [E|_]; [by rewrite E in Ha|].
    destruct (String.eqb _ _); apply IsAbs_Clean; [done|by apply IsAbs_append].
Qed.

Lemma object_key f : storage_ok f → Backend f ≠ "" → Backend f ≠ "directory" →
  Split (fileStorageKey f) nul = ["object"; ToLower (Endpoint f); Bucket f; Clean ("/" +:+ Prefix f)].
Proof.
  intros Hf He Hb. destruct (Hf He) as [Hn _]. unfold fileStorageKey. rewrite (proj2 (String.eqb_neq _ _) Hb).
  rewrite !Forall_cons in Hn. destruct Hn as (Hp & _ & Hep & Hbu & _).
  rewrite (Split_append "object"), !Split_append by (done || by apply lower_no_nul). do 3 f_equal.
  apply Split_no_sep, Clean_no_byte; [done..|]. by rewrite string_elem_append, Hp.
Qed.

(** What the test of the keys establishes of two destinations. *)
Definition storage_disjoint (f g : FileStorage) : Prop :=
  (Backend f = "directory" → Backend g = "directory" →
    ¬ clean_parts (storage_root f) `prefix_of` clean_parts (storage_root g) ∧
    ¬ clean_parts (storage_root g) `prefix_of` clean_parts (storage_root f)) ∧
  (Backend f ∈ ["s3"; "oss"] → Backend g ∈ ["s3"; "oss"] →
    ToLower (Endpoint f) = ToLower (Endpoint g) → Bucket f = Bucket g →
    storage_prefix f ≠ storage_prefix g ∧
    HasPrefix (storage_prefix f) (storage_prefix g +:+ "/") = false ∧
    HasPrefix (storage_prefix g) (storage_prefix f +:+ "/") = false).

Lemma overlap_directories a b x y : Split a nul = ["directory"; x] → Split b nul = ["directory"; y] →
  storageKeysOverlap a b = filePathsOverlap x y.
Proof. intros Ha Hb. unfold storageKeysOverlap. by rewrite Ha, Hb, bool_decide_true. Qed.

Lemma overlap_objects a b e k x y : Split a nul = ["object"; e; k; x] → Split b nul = ["object"; e; k; y] →
  storageKeysOverlap a b =
    String.eqb (trim_slashes x) (trim_slashes y) || HasPrefix (trim_slashes x) (trim_slashes y +:+ "/") ||
    HasPrefix (trim_slashes y) (trim_slashes x +:+ "/").
Proof. intros Ha Hb. unfold storageKeysOverlap. by rewrite Ha, Hb, bool_decide_true. Qed.

Lemma no_overlap_disjoint f g : storage_ok f → storage_ok g →
  storageKeysOverlap (fileStorageKey f) (fileStorageKey g) = false → storage_disjoint f g.
Proof.
  intros Hf Hg H. split.
  - intros Bf Bg. destruct (directory_key f Hf Bf) as [Ef Af], (directory_key g Hg Bg) as [Eg Ag].
    rewrite (overlap_directories _ _ _ _ Ef Eg) in H. apply orb_false_iff in H as [H1 H2].
    rewrite <-!path_contains_spec by done. by rewrite H1, H2.
  - intros Bf Bg Ee Eb.
    assert (∀ h, Backend h ∈ ["s3"; "oss"] → Backend h ≠ "" ∧ Backend h ≠ "directory") as Hne
      by (intros h Hh; split; intros E; rewrite E in Hh; set_solver).
    pose proof (object_key f Hf (proj1 (Hne f Bf)) (proj2 (Hne f Bf))) as Ef.
    pose proof (object_key g Hg (proj1 (Hne g Bg)) (proj2 (Hne g Bg))) as Eg. rewrite Ee, Eb in Ef.
    rewrite (overlap_objects _ _ _ _ _ _ Ef Eg) in H.
    apply orb_false_iff in H as [[?%String.eqb_neq ?]%orb_false_iff ?]. done.
Qed.

(** The tables a syncer writes. *)
Definition writes (s : Syncer) (dsn schema table : string) : Prop :=
  PostgresConfig.DSN (Postgres_ s) = dsn ∧ PostgresConfig.TargetSchema (Postgres_ s) = schema ∧
  table ∈ Name <$> Tables s.

Definition disjoint_syncers (a b : Syncer) : Prop :=
  ID a ≠ ID b ∧ (∀ dsn schema table, writes a dsn schema table → writes b dsn schema table → False) ∧
  (Backend (Storage a) ≠ "" → Backend (Storage b) ≠ "" → storage_disjoint (Storage a) (Storage b)).

(** What a syncer accepted after [k] does not share with those before it. *)
Definition fresh_in (k : seen) (s : Syncer) : Prop :=
  ID s ∉ seenIDs k ∧ (∀ t, t ∈ Name <$> Tables s → target_key (Postgres_ s) t ∉ seenTargets k) ∧
  (Backend (Storage s) ≠ "" → Forall (λ e, storageKeysOverlap e (fileStorageKey (Storage s)) = false) (fileTargets k)) ∧
  storage_ok (Storage s).

Lemma existsb_eqb_false x l : existsb (String.eqb x) l = false → x ∉ l.
Proof.
  intros H Hx. apply not_true_iff_false in H. apply H, existsb_exists. exists x.
  split; [by apply list_elem_of_In|apply String.eqb_refl].
Qed.

Lemma check_tables_Ok p seen targets l seen' targets' : check_tables p seen targets l = Ok (seen', targets') →
  (∀ t, t ∈ Name <$> l → target_key p t ∉ targets ∧ target_key p t ∈ targets') ∧ targets ⊆ targets'.
Proof.
  revert seen targets. induction l as [|t l IH]; intros seen targets H; cbn [check_tables] in H.
  { injection H as <- <-. split; [set_solver|done]. }
  result_inv H. match goal with H : check_tables _ _ _ _ = _ |- _ => apply IH in H as [Hl Hs] end.
  match goal with H : existsb _ targets = false |- _ => apply existsb_eqb_false in H end.
  split; [|set_solver]. intros x [->|Hx]%elem_of_cons; [split; [done|set_solver]|].
  destruct (Hl x Hx). split; [set_solver|done].
Qed.

Lemma check_syncer_Ok k s s' k' : check_syncer k s = Ok (s', k') →
  fresh_in k s' ∧ seenIDs k' = ID s' :: seenIDs k ∧ seenTargets k ⊆ seenTargets k' ∧
  (∀ t, t ∈ Name <$> Tables s' → target_key (Postgres_ s') t ∈ seenTargets k') ∧
  fileTargets k' = (if String.eqb (Backend (Storage s')) "" then fileTargets k
                    else fileStorageKey (Storage s') :: fileTargets k).
Proof.
  unfold check_syncer. intros H. result_inv H. cbn [Tables Postgres_ Storage ID seenIDs seenTargets fileTargets].
  match goal with H : FileStorage_validate _ = _ |- _ => apply FileStorage_validate_Ok in H as Hok end.
  match goal with H : check_tables _ _ _ _ = _ |- _ => apply check_tables_Ok in H as [Ht Hs] end.
  match goal with H : existsb _ (seenIDs k) = false |- _ => apply existsb_eqb_false in H end.
  split_and!; [|done|done|by intros; apply Ht|done].
  split_and!; cbn; [done|by intros; apply Ht| |done].
  intros Hb. match goal with H : negb _ && _ = false |- _ => apply andb_false_iff in H as [H|H] end.
  { by bool_prop. }
  apply Forall_forall. intros e He. apply not_true_iff_false. intros E.
  match goal with H : existsb _ (fileTargets k) = false |- _ => apply not_true_iff_false in H; apply H end.
  apply existsb_exists. exists e. split; [by apply list_elem_of_In|done].
Qed.

(** Fresh after a syncer: fresh before it, and disjoint from it. *)
Lemma fresh_step k s s' k' b : check_syncer k s = Ok (s', k') → fresh_in k' b →
  fresh_in k b ∧ disjoint_syncers s' b.
Proof.
  intros ((_ & _ & _ & Hok) & Hid & Hsub & Hkeys & Hft)%check_syncer_Ok (Fid & Ft & Ff & Fok).
  rewrite Hid in Fid. apply not_elem_of_cons in Fid as [Fne Fid]. rewrite Hft in Ff. split.
  - split_and!; [done|intros t Htt Hin; by apply (Ft t Htt), Hsub| |done].
    intros Hb. specialize (Ff Hb). destruct (String.eqb _ _); [done|]. by apply Forall_cons in Ff as [].
  - split_and!; [done| |].
    + intros dsn schema table (<- & <- & Ha) (E1 & E2 & Hb). apply (Ft table Hb).
      unfold target_key. rewrite E1, E2. by apply Hkeys.
    + intros Ha Hb. specialize (Ff Hb). rewrite (proj2 (String.eqb_neq _ _) Ha) in Ff.
      apply Forall_cons in Ff as [Hov _]. by apply no_overlap_disjoint.
Qed.

Lemma check_syncers_Ok k l r : check_syncers k l = Ok r →
  Forall (fresh_in k) r ∧ ∀ i j a b, (i < j)%nat → r !! i = Some a → r !! j = Some b → disjoint_syncers a b.
Proof.
  revert k r. induction l as [|s l IH]; intros k r H; cbn [check_syncers] in H.
  { injection H as <-. split; [constructor|]. intros. by rewrite lookup_nil in *. }
  result_inv H. match goal with H : check_syncers _ l = _ |- _ => apply IH in H as [Hf Hd] end.
  match goal with H : check_syncer k s = _ |- _ => rename H into Hs end. split.
  - constructor; [by apply check_syncer_Ok in Hs as []|]. eapply Forall_impl; [done|].
    intros b Hb. by eapply fresh_step.
  - intros [|i] [|j] a b Hij Ha Hb; cbn in Ha, Hb; [lia| |lia|by eapply (Hd i j); [lia|..]].
    injection Ha as <-. rewrite Forall_lookup in Hf. by eapply fresh_step; [|eapply Hf].
Qed.

Lemma accepted_apart LoadLocation key_pair c c' i j a b :
  Validate LoadLocation key_pair c = Ok c' → (i < j)%nat →
  Syncers c' !! i = Some a → Syncers c' !! j = Some b →
  disjoint_syncers a b ∧ storage_ok (Storage a) ∧ storage_ok (Storage b).
Proof.
  unfold Validate. intros H Hij Ha Hb. result_inv H.
  match goal with H : check_syncers _ _ = _ |- _ => apply check_syncers_Ok in H as [Hf Hd] end.
  split; [by eapply (Hd i j)|]. rewrite Forall_lookup in Hf. split; [by apply (Hf i)|by apply (Hf j)].
Qed.

Definition demo_syncer (id dir prefix : string) (tables : list string) : Syncer :=
  mkSyncer id "secret" (PostgresConfig.mk "postgres://target" "public" "") (mkTable "public" <$> tables) [] false
    (mkFileStorage "Directory" dir "" "" "" prefix "" "" "" false [] 0).

Definition demo_object (id prefix : string) : Syncer :=
  mkSyncer id "secret" (PostgresConfig.mk "postgres://target" "public" "") [] [] false
    (mkFileStorage "s3" "" "s3.example.com" "" "bucket" prefix "key" "secret" "" true [] 0).

Definition demo_config (l : list Syncer) : Config :=
  mkConfig (GRPCConfig.mk ":7443" "cert.pem" "key.pem" (32 * 2 ^ 20)) "admin" "" (VictoriaMetrics.mk "" "30s" "15s" ∅)
    (Reconcile Defaults) (Log Defaults) l.

Definition demo_zones (_ : string) : option Location := Some (FixedZone 28800).
Definition demo_keys (_ _ : string) : result unit := Ok tt.

Definition demo_pair : Config := demo_config [demo_syncer "a" "/srv/files" "a" ["orders"]; demo_syncer "b" "/srv/files" "b" ["items"]].
Definition demo_accepted : Config := Eval vm_compute in
  match Validate demo_zones demo_keys demo_pair with Ok c => c | Err _ => Defaults end.

(** A destination that owns a whole bucket is accepted beside one with a prefix in
    the same bucket: the test does not see that the empty prefix contains all. *)
Lemma root_prefix_accepted :
  is_ok (Validate demo_zones demo_keys (demo_config [demo_object "a" ""; demo_object "b" "b"])) = true.
Proof. vm_compute. reflexivity. Qed.

End serverconfig.
