(* ===== verification/Schema.v ===== *)
(** * Source schemas and column types (internal/server/schema.go)

    The schema documents collectors send, and the mapping of a source column
    type to the PostgreSQL type the server may add a missing column with.  The
    two regular expressions of the source are written as functions on the text.
    The theorems show that every type the server puts into an ALTER TABLE is of
    the allowlisted shape, so no source text reaches the statement unchecked. *)

From Stdlib Require Import DecimalString.
From S2P Require Import Prelude Bytes Encoding Json JsonStruct.

Module sourceSchemaColumn.
Record t := mk {
  Name : string;
  Type_ : string;
  ColumnType : string;
  BaseType : string;
  NotNull : bool;
  Nullable : option bool;
  Primary : bool
}.

Definition zero : t := mk "" "" "" "" false None false.
End sourceSchemaColumn.

Module sourceSchemaTable.
Record t := mk {
  SourceType : string;
  Schema : string;
  Name : string;
  Engine : string;
  Columns : list sourceSchemaColumn.t
}.

Definition zero : t := mk "" "" "" "" [].
End sourceSchemaTable.

Definition dec_boolptr (old : option bool) (v : json) : option (option bool) :=
  match v with JNull => Some None | JBool b => Some (Some b) | _ => None end.

Definition sourceSchemaColumn_of (v : json) : option sourceSchemaColumn.t :=
  dec_struct sourceSchemaColumn.zero (λ ms,
    name ← obj_fold "name" dec_str "" ms;
    type ← obj_fold "type" dec_str "" ms;
    column_type ← obj_fold "column_type" dec_str "" ms;
    base_type ← obj_fold "base_type" dec_str "" ms;
    not_null ← obj_fold "not_null" dec_bool false ms;
    nullable ← obj_fold "nullable" dec_boolptr None ms;
    primary ← obj_fold "primary_key" dec_bool false ms;
    Some (sourceSchemaColumn.mk name type column_type base_type not_null nullable primary)) v.

Definition sourceSchemaTable_of (v : json) : option sourceSchemaTable.t :=
  dec_struct sourceSchemaTable.zero (λ ms,
    source_type ← obj_fold "source_type" dec_str "" ms;
    schema ← obj_fold "schema" dec_str "" ms;
    name ← obj_fold "name" dec_str "" ms;
    engine ← obj_fold "engine" dec_str "" ms;
    columns ← obj_fold "columns" (dec_list sourceSchemaColumn_of) [] ms;
    Some (sourceSchemaTable.mk source_type schema name engine columns)) v.

(** ** The regular expressions *)

Definition is_lower (c : ascii) : bool :=
  let n := byte_val c in (97 <=? n) && (n <=? 122).

Definition is_nonzero_digit (c : ascii) : bool := is_digit c && negb (Ascii.eqb c "0").

(** [\[1-9\]\[0-9\]{0,k}] *)
Definition positive_digits (k : nat) (s : string) : bool :=
  match s with
  | String c r => is_nonzero_digit c && all_bytes is_digit r && (String.length r <=? k)%nat
  | EmptyString => false
  end.

(** [\[0-9\]{1,4}] *)
Definition scale_digits (s : string) : bool :=
  negb (String.eqb s "") && all_bytes is_digit s && (String.length s <=? 4)%nat.

(** The text between [pre] and [post]. *)
Definition between (pre post s : string) : option string :=
  if HasPrefix s pre then
    let r := drop_string (String.length pre) s in
    let n := (String.length r - String.length post)%nat in
    if (String.length post <=? String.length r)%nat && String.eqb (drop_string n r) post
    then Some (take_string n r) else None
  else None.

Definition precision_scale (k : nat) (s : string) : option (string * string) :=
  match Split s "," with
  | [p] => if positive_digits k p then Some (p, "") else None
  | [p; q] => if positive_digits k p && scale_digits q then Some (p, q) else None
  | _ => None
  end.

Definition between_ok (pre post : string) (P : string → bool) (s : string) : bool :=
  match between pre post s with Some t => P t | None => false end.

Definition fraction_digit (s : string) : bool :=
  match s with
  | String c EmptyString => let n := byte_val c in (48 <=? n) && (n <=? 54)
  | _ => false
  end.

(** [(name)(\(\[0-6\]\))? (with|without) time zone] *)
Definition time_type (name s : string) : bool :=
  existsb (λ zone, String.eqb s (name +:+ zone) || between_ok (name +:+ "(") (")" +:+ zone) fraction_digit s)
    [" with time zone"; " without time zone"].

(** [postgresType.MatchString] *)
Definition postgresType (s : string) : bool :=
  existsb (String.eqb s)
    ["smallint"; "integer"; "bigint"; "real"; "double precision"; "boolean"; "text"; "bytea";
     "date"; "uuid"; "json"; "jsonb"; "numeric"] ||
  between_ok "numeric(" ")" (λ t, match precision_scale 3 t with Some _ => true | None => false end) s ||
  between_ok "character(" ")" (positive_digits 6) s ||
  between_ok "character varying(" ")" (positive_digits 6) s ||
  time_type "timestamp" s || time_type "time" s.

(** [sizedType.FindStringSubmatch]: the two groups. *)
Fixpoint sized_tail (s : string) : option (string * string) :=
  match s with
  | String c r =>
      if Ascii.eqb c "(" then between "" ")" r ≫= precision_scale 6
      else if is_lower c then sized_tail r else None
  | EmptyString => None
  end.

Definition sizedType (s : string) : option (string * string) :=
  match s with
  | String c r => if is_lower c then sized_tail r else None
  | EmptyString => None
  end.

(** ** Target types *)

Definition Atoi (s : string) : Z := default 0 (parse_dec s).

Definition numericTargetType (source : string) : result string :=
  match sizedType (ToLower source) with
  | None => Err (errorf "unsupported numeric type")
  | Some (p, q) =>
      let precision := Atoi p in
      let scale := if String.eqb q "" then 0 else Atoi q in
      if (1000 <? precision) || (precision <? scale) then
        Err (errorf "invalid numeric precision or scale")
      else Ok ("numeric(" +:+ FormatInt precision +:+ "," +:+ FormatInt scale +:+ ")")
  end.

Definition one_of (s : string) (l : list string) : bool := existsb (String.eqb s) l.

Definition mysqlTargetType (c : sourceSchemaColumn.t) : result string :=
  let base := ToLower (sourceSchemaColumn.Type_ c) in
  let sized := sizedType (ToLower (sourceSchemaColumn.ColumnType c)) in
  if one_of base ["tinyint"; "smallint"] then Ok "smallint"
  else if one_of base ["mediumint"; "int"; "integer"] then Ok "integer"
  else if one_of base ["bigint"] then Ok "bigint"
  else if one_of base ["float"] then Ok "real"
  else if one_of base ["double"] then Ok "double precision"
  else if one_of base ["decimal"; "numeric"] then
    numericTargetType (sourceSchemaColumn.ColumnType c)
  else if one_of base ["char"; "varchar"] then
    match sized with
    | None => Err (errorf "unsupported MySQL character type")
    | Some (p, _) =>
        let pre := if String.eqb base "char" then "character(" else "character varying(" in
        Ok (pre +:+ FormatInt (Atoi p) +:+ ")")
    end
  else if one_of base ["tinytext"; "text"; "mediumtext"; "longtext"] then Ok "text"
  else if one_of base ["tinyblob"; "blob"; "mediumblob"; "longblob"; "binary"; "varbinary"]
  then Ok "bytea"
  else if one_of base ["date"] then Ok "date"
  else if one_of base ["datetime"; "timestamp"] then Ok "timestamp without time zone"
  else if one_of base ["time"] then Ok "time without time zone"
  else if one_of base ["json"] then Ok "jsonb"
  else Err (errorf "MySQL source type is not in the automatic-add allowlist").

Definition sqlServerTargetType (c : sourceSchemaColumn.t) : result string :=
  let base := ToLower (sourceSchemaColumn.BaseType c) in
  if one_of base ["tinyint"; "smallint"] then Ok "smallint"
  else if one_of base ["int"] then Ok "integer"
  else if one_of base ["bigint"] then Ok "bigint"
  else if one_of base ["bit"] then Ok "boolean"
  else if one_of base ["real"] then Ok "real"
  else if one_of base ["float"] then Ok "double precision"
  else if one_of base ["text"; "ntext"; "varchar"; "nvarchar"; "char"; "nchar"] then Ok "text"
  else if one_of base ["binary"; "varbinary"; "image"; "timestamp"; "rowversion"] then Ok "bytea"
  else if one_of base ["decimal"; "numeric"] then numericTargetType (sourceSchemaColumn.Type_ c)
  else if one_of base ["money"] then Ok "numeric(19,4)"
  else if one_of base ["smallmoney"] then Ok "numeric(10,4)"
  else if one_of base ["uniqueidentifier"] then Ok "uuid"
  else if one_of base ["date"] then Ok "date"
  else if one_of base ["datetime"; "datetime2"; "smalldatetime"] then Ok "timestamp without time zone"
  else if one_of base ["time"] then Ok "time without time zone"
  else Err (errorf "SQL Server source type is not in the automatic-add allowlist").

Definition safeTargetType (table : sourceSchemaTable.t) (c : sourceSchemaColumn.t) : result string :=
  if negb (String.eqb (sourceSchemaTable.Engine table) "") then mysqlTargetType c
  else if one_of (sourceSchemaTable.SourceType table) ["sqlserver"; "sqlserver_legacy"]
  then sqlServerTargetType c
  else
    let typeName := ToLower (TrimSpace (sourceSchemaColumn.Type_ c)) in
    if postgresType typeName then Ok typeName
    else Err (errorf "PostgreSQL source type is not in the automatic-add allowlist").

(** ** The allowlist *)

Lemma between_append pre post t : between pre post (pre +:+ t +:+ post) = Some t.
Proof.
  unfold between. rewrite (proj2 (HasPrefix_spec _ _)) by by eexists.
  rewrite drop_append, length_append.
  replace (String.length t + String.length post - String.length post)%nat with (String.length t) by lia.
  rewrite drop_append, String.eqb_refl, take_append, (proj2 (Nat.leb_le _ _)) by lia. done.
Qed.

Lemma between_ok_append pre post P t : between_ok pre post P (pre +:+ t +:+ post) = P t.
Proof. unfold between_ok. by rewrite between_append. Qed.

Lemma positive_digits_dec k p : positive_digits k p = true →
  0 < Atoi p ∧ FormatInt (Atoi p) = p.
Proof.
  destruct p as [|c r]; [done|]. cbn [positive_digits]. unfold is_nonzero_digit.
  intros [[[Hc H0%negb_true_iff%Ascii.eqb_neq]%andb_true_iff Hr]%andb_true_iff _]%andb_true_iff.
  destruct (dec_parse_dec c r Hc H0 Hr) as (z & Hz & Hz0 & Hd).
  unfold Atoi. rewrite Hz. cbn. unfold FormatInt. rewrite (proj2 (Z.ltb_ge _ _)) by lia. split; [|done].
  destruct (decide (z = 0)) as [->|]; [|lia]. cbn in Hd. congruence.
Qed.

(** Checked number by number. *)
Lemma precision_digits z : 1 ≤ z ≤ 1000 → positive_digits 3 (FormatInt z) = true.
Proof.
  intros Hz. assert (forallb (λ z, positive_digits 3 (FormatInt z)) (seqZ 1 1000) = true) as E by by vm_compute.
  rewrite forallb_forall in E. apply E, list_elem_of_In, elem_of_seqZ. lia.
Qed.

Lemma scale_digits_dec z : 0 ≤ z ≤ 1000 → scale_digits (FormatInt z) = true.
Proof.
  intros Hz. assert (forallb (λ z, scale_digits (FormatInt z)) (seqZ 0 1001) = true) as E by by vm_compute.
  rewrite forallb_forall in E. apply E, list_elem_of_In, elem_of_seqZ. lia.
Qed.

Lemma sizedType_groups s p q : sizedType s = Some (p, q) → positive_digits 6 p = true.
Proof.
  unfold sizedType. destruct s as [|c s]; [done|]. destruct (is_lower c); [|done].
  induction s as [|c' s IH]; cbn [sized_tail]; [done|].
  destruct (Ascii.eqb c' "("); [|destruct (is_lower c'); [exact IH|done]].
  destruct (between "" ")" s) as [t|]; [|done]. unfold mbind, option_bind, precision_scale.
  destruct (Split t ",") as [|a [|b [|? ?]]]; [done| | |done].
  - destruct (positive_digits 6 a) eqn:E; [|done]. by intros [= <- <-].
  - destruct (positive_digits 6 a) eqn:E; [|done]. cbn. destruct (scale_digits b); [|done].
    by intros [= <- <-].
Qed.

Lemma digits_no_comma s : all_bytes is_digit s = true → string_elem "," s = false.
Proof. by apply all_bytes_elem. Qed.

Lemma numeric_allowed p q : positive_digits 3 p = true → scale_digits q = true →
  postgresType ("numeric(" +:+ (p +:+ "," +:+ q) +:+ ")") = true.
Proof.
  intros Hp Hq. unfold postgresType. rewrite between_ok_append. unfold precision_scale.
  change ("," +:+ q) with (String "," q). rewrite Split_append, Split_no_sep.
  - rewrite Hp, Hq. cbn [andb]. by rewrite orb_true_r.
  - apply digits_no_comma. unfold scale_digits in Hq. by bool_prop.
  - apply digits_no_comma. destruct p as [|c r]; [done|]. cbn in *. unfold is_nonzero_digit in Hp.
    bool_prop. by apply andb_true_iff.
Qed.

Lemma numericTargetType_allowed s ty : numericTargetType s = Ok ty → postgresType ty = true.
Proof.
  unfold numericTargetType. destruct (sizedType _) as [[p q]|] eqn:E; [|done].
  apply sizedType_groups in E. destruct (positive_digits_dec _ _ E) as [Hp _].
  destruct (_ || _) eqn:Eb; [done|]. apply orb_false_iff in Eb as [E1%Z.ltb_ge E2%Z.ltb_ge].
  set (q' := if String.eqb q "" then 0 else Atoi q) in *.
  assert (0 ≤ q') as Hq.
  { unfold q', Atoi, parse_dec. destruct (String.eqb q ""); [done|]. destruct q as [|c q]; [done|].
    destruct (NilEmpty.uint_of_string _); cbn; lia. }
  intros Hty. assert (ty = "numeric(" +:+ (FormatInt (Atoi p) +:+ "," +:+ FormatInt q') +:+ ")") as ->.
  { rewrite !append_assoc. congruence. }
  apply numeric_allowed; [apply precision_digits|apply scale_digits_dec]; lia.
Qed.

Lemma character_allowed pre s p q : sizedType s = Some (p, q) → pre ∈ ["character("; "character varying("] →
  postgresType (pre +:+ FormatInt (Atoi p) +:+ ")") = true.
Proof.
  intros E%sizedType_groups Hpre. destruct (positive_digits_dec _ _ E) as [_ ->]. unfold postgresType.
  rewrite !elem_of_cons in Hpre. destruct Hpre as [->|[->|[]%not_elem_of_nil]];
    rewrite between_ok_append, E; by rewrite ?orb_true_r.
Qed.

Ltac type_cases :=
  repeat match goal with
  | |- (if ?b then _ else _) = _ → _ =>
      destruct b; [first [by intros [= <-] | by apply numericTargetType_allowed | idtac]|]
  end.

Lemma mysqlTargetType_allowed c ty : mysqlTargetType c = Ok ty → postgresType ty = true.
Proof.
  unfold mysqlTargetType. cbv zeta. type_cases; [|done].
  destruct (sizedType _) as [[p q]|] eqn:E; [|done]. intros Hty.
  assert (ty = (if String.eqb (ToLower (sourceSchemaColumn.Type_ c)) "char" then "character(" else "character varying(")
            +:+ FormatInt (Atoi p) +:+ ")") as -> by congruence.
  eapply character_allowed; [exact E|]. destruct (String.eqb _ "char"); set_solver.
Qed.

Lemma sqlServerTargetType_allowed c ty : sqlServerTargetType c = Ok ty → postgresType ty = true.
Proof.
  unfold sqlServerTargetType. cbv zeta. type_cases. done.
Qed.

(** C35. Only allowlisted types reach DDL: whatever schema document a collector
    sends, a type the server puts into ALTER TABLE matches the allowlist of
    PostgreSQL types, for PostgreSQL, MySQL and SQL Server sources alike. *)
Theorem safeTargetType_allowed t c ty : safeTargetType t c = Ok ty → postgresType ty = true.
Proof.
  unfold safeTargetType. destruct (negb _); [apply mysqlTargetType_allowed|].
  destruct (one_of _ _); [apply sqlServerTargetType_allowed|].
  destruct (postgresType _) eqn:E; [|done]. by intros [= <-].
Qed.

Lemma safeTargetType_witness : postgresType "character varying(40)" = true.
Proof.
  apply (safeTargetType_allowed (sourceSchemaTable.mk "mysql" "db" "t" "InnoDB" [])
    (sourceSchemaColumn.mk "c" "varchar" "varchar(40)" "" false None false)).
  reflexivity.
Defined.
