(* ===== verification/Target.v ===== *)
(** * The target database (internal/server/target.go)

    What the server does with a message inside one PostgreSQL transaction.  The
    tables of the metadata schema are lists of rows, restricted to the syncer of
    the target, since every statement names its [syncer_id]; the replicated
    tables are lists of tuples.  PostgreSQL itself is a parameter: how a text is
    cast to a column type, how bytes become a [bytea], and whether the
    constraints of the replicated tables hold.  [columnTypes] reads the committed
    catalogue through the pool, not through the transaction, and caches it.  The
    file destination is an interface. *)

From S2P Require Import Prelude Bytes Sorting Encoding Sha256 GoPath Json JsonStruct Event ServerConfig Schema.

(** ** The file destination *)

(** [filestore.Store]: [Put] stores the content with its mode and time. *)
Class FileStore (F : Type) := {
  Put : F → string → string → Z → Z → F * result unit;
  Delete : F → string → F * result unit
}.

(** ** SQL *)

(** A type of SQL values with PostgreSQL's casts. *)
Class Postgres (V : Type) := {
  V_eq_dec :: EqDecision V;
  (** [$n::text::typeName], when the text is valid for the type *)
  cast : string → string → option V;
  (** [$n::bytea] *)
  bytea : string → V
}.

(** A tuple by column; a column that is absent is NULL. *)
Notation tuple V := (gmap string V) (only parsing).

Record table (V : Type) := mkPgTable {
  cols : list (string * string);   (** [attname], [format_type], in [attnum] order *)
  tuples : list (tuple V)
}.
Arguments mkPgTable {V} _ _.
Arguments cols {V} _.
Arguments tuples {V} _.

Definition quote (name : string) : string :=
  let fix go s :=
    match s with
    | EmptyString => String dquote ""
    | String c r => if Ascii.eqb c dquote then String c (String c (go r)) else String c (go r)
    end in
  String dquote (go name).

(** [INSERT] into a table whose primary key is [key]. *)
Definition insert_pk {A K} `{EqDecision K} (key : A → K) (x : A) (l : list A) : result (list A) :=
  if existsb (λ y, bool_decide (key y = key x)) l
  then Err (errorf "duplicate key value violates unique constraint")
  else Ok (l ++ [x]).

(** ** The metadata schema *)

Module sync_state.
Record t := mk {
  generation : string;
  received_seq : Z;
  applied_seq : Z;
  phase : string;
  open_transaction : string;
  schema_version : string;
  pending_schema_version : string;
  repair_authorized : bool
}.

Definition init : t := mk "" 0 0 "" "" "" "" false.

Definition set_repair (b : bool) (s : t) : t :=
  mk (generation s) (received_seq s) (applied_seq s) (phase s) (open_transaction s)
    (schema_version s) (pending_schema_version s) b.
End sync_state.

Record inbox_row := mkInbox { in_generation : string; in_seq : Z; in_id : string; in_payload : string }.
Record scope_row := mkScope { sc_schema : string; sc_table : string; sc_ordinal : Z }.
Record snap_row := mkSnap { sn_generation : string; sn_seq : Z; sn_ordinal : Z; sn_payload : string }.
Record hash_row := mkHash { ha_generation : string; ha_seq : Z; ha_hash : string }.
Record stage_row := mkStage {
  st_generation : string; st_version : string; st_schema : string; st_table : string;
  st_payload : option json }.

(** The rows of the syncer, and the replicated tables. *)
Record pg (V : Type) := mkPg {
  sync : sync_state.t;
  inbox : list inbox_row;
  snapshot_scope : list scope_row;
  snapshot_rows : list snap_row;
  message_hash : list hash_row;
  schema_stage : list stage_row;
  tables : gmap string (table V)
}.
Arguments mkPg {V} _ _ _ _ _ _ _.
Arguments sync {V} _.
Arguments inbox {V} _.
Arguments snapshot_scope {V} _.
Arguments snapshot_rows {V} _.
Arguments message_hash {V} _.
Arguments schema_stage {V} _.
Arguments tables {V} _.

Definition set_sync {V} s (d : pg V) : pg V :=
  mkPg s (inbox d) (snapshot_scope d) (snapshot_rows d) (message_hash d) (schema_stage d) (tables d).
Definition set_inbox {V} l (d : pg V) : pg V :=
  mkPg (sync d) l (snapshot_scope d) (snapshot_rows d) (message_hash d) (schema_stage d) (tables d).
Definition set_scope {V} l (d : pg V) : pg V :=
  mkPg (sync d) (inbox d) l (snapshot_rows d) (message_hash d) (schema_stage d) (tables d).
Definition set_snap {V} l (d : pg V) : pg V :=
  mkPg (sync d) (inbox d) (snapshot_scope d) l (message_hash d) (schema_stage d) (tables d).
Definition set_hash {V} l (d : pg V) : pg V :=
  mkPg (sync d) (inbox d) (snapshot_scope d) (snapshot_rows d) l (schema_stage d) (tables d).
Definition set_stage {V} l (d : pg V) : pg V :=
  mkPg (sync d) (inbox d) (snapshot_scope d) (snapshot_rows d) (message_hash d) l (tables d).
Definition set_tables {V} m (d : pg V) : pg V :=
  mkPg (sync d) (inbox d) (snapshot_scope d) (snapshot_rows d) (message_hash d) (schema_stage d) m.

(** What outlives a transaction that is rolled back: the type cache and the
    file destination. *)
Record side (F : Type) := mkSide { types : gmap string (gmap string string); files : F }.
Arguments mkSide {F} _ _.
Arguments types {F} _.
Arguments files {F} _.

Definition migrate {V} (m : gmap string (table V)) : pg V := mkPg sync_state.init [] [] [] [] [] m.

(** ** Operations with side effects *)

Definition M (F A : Type) := side F → side F * result A.

#[global] Instance M_ret F : MRet (M F) := λ A a σ, (σ, Ok a).
#[global] Instance M_bind F : MBind (M F) := λ A B f m σ,
  match m σ with (σ', Ok a) => f a σ' | (σ', Err e) => (σ', Err e) end.

Definition lift {F A} (r : result A) : M F A := λ σ, (σ, r).
Definition fail {F A} (e : error) : M F A := λ σ, (σ, Err e).
Definition guard {F} (b : bool) (e : error) : M F unit := λ σ, (σ, fail_if b e).

Definition putFile {F} `{FileStore F} (path content : string) (mode mtime : Z) : M F unit := λ σ,
  let '(f, r) := Put (files σ) path content mode mtime in (mkSide (types σ) f, r).
Definition deleteFile {F} `{FileStore F} (path : string) : M F unit := λ σ,
  let '(f, r) := Delete (files σ) path in (mkSide (types σ) f, r).

Section apply.
Context {V F : Type} `{PG : Postgres V} `{FS : FileStore F}.
(** The constraints of the replicated tables, checked after every statement. *)
Context (constraints : gmap string (table V) → bool).
Context (cfg : Syncer).

Definition checked (m : gmap string (table V)) : result (gmap string (table V)) :=
  if constraints m then Ok m else Err (errorf "constraint violation").

(** The cached column types, or those of the committed catalogue. *)
Definition columnTypes (committed : gmap string (table V)) (name : string) : M F (gmap string string) := λ σ,
  match types σ !! name with
  | Some cached => (σ, Ok cached)
  | None =>
      match committed !! name with
      | Some t =>
          match cols t with
          | [] => (σ, Err (errorf "target table does not exist"))
          | l => let result := list_to_map (reverse l) in
                 (mkSide (<[name := result]> (types σ)) (files σ), Ok result)
          end
      | None => (σ, Err (errorf "target table does not exist"))
      end
  end.

Definition invalidateTypes (σ : side F) : side F := mkSide ∅ (files σ).

(** ** Rows *)

(** The value of a column: a text or NULL, or decoded bytes. *)
Inductive column_value :=
  | Text_value (v : option string)
  | Bytes_value (v : option string).

Record appliedColumn := mkApplied { name : string; value : column_value }.

(** An embedded file column becomes the source value and the decoded content. *)
Fixpoint transform (row : Row.t) (columns : list Column.t) : result (list appliedColumn) :=
  match columns with
  | [] => Ok []
  | c :: columns' =>
      match FileMapping cfg (Row.Schema row) (Row.Table row) (Column.Name c) with
      | Some content =>
          if String.eqb (Column.Encoding c) "base64" then
            decoded ← match Column.Value c with
                      | None => Ok None
                      | Some v => Some <$> or_err (base64_decode v) (errorf "decode embedded file column")
                      end;
            rest ← transform row columns';
            Ok (mkApplied (Column.Name c) (Text_value (Column.SourceValue c))
                  :: mkApplied content (Bytes_value decoded) :: rest)
          else
            rest ← transform row columns';
            Ok (mkApplied (Column.Name c) (Text_value (Column.Value c)) :: rest)
      | None =>
          rest ← transform row columns';
          Ok (mkApplied (Column.Name c) (Text_value (Column.Value c)) :: rest)
      end
  end.

(** A placeholder with its cast and its argument. *)
Inductive expression :=
  | As_bytea (v : option string)               (** [$n::bytea] *)
  | As_type (typeName : string) (v : option string)  (** [$n::text::typeName] *).

Definition expression_of (types : gmap string string) (c : appliedColumn) : result (string * expression) :=
  typeName ← or_err (types !! name c) (errorf "target column does not exist");
  match value c with
  | Bytes_value v =>
      if String.eqb typeName "bytea" then Ok (name c, As_bytea v)
      else Err (errorf "file content column must be bytea")
  | Text_value (Some v) =>
      if String.eqb typeName "bytea" && HasPrefix v "0x" then
        decoded ← or_err (hex_decode (drop_string 2 v)) (errorf "invalid binary value");
        Ok (name c, As_bytea (Some decoded))
      else Ok (name c, As_type typeName (Some v))
  | Text_value None => Ok (name c, As_type typeName None)
  end.

Fixpoint expressions (columns : list appliedColumn) (types : gmap string string) :
    result (list (string * expression)) :=
  match columns with
  | [] => Ok []
  | c :: columns' =>
      e ← expression_of types c;
      rest ← expressions columns' types;
      Ok (e :: rest)
  end.

(** The SQL value of a placeholder; [None] is NULL. *)
Definition evaluate (e : expression) : result (option V) :=
  match e with
  | As_bytea v => Ok (bytea <$> v)
  | As_type _ None => Ok None
  | As_type typeName (Some v) => Some <$> or_err (cast typeName v) (errorf "invalid input syntax")
  end.

Fixpoint evaluate_all (l : list (string * expression)) : result (list (string * option V)) :=
  match l with
  | [] => Ok []
  | (n, e) :: l' => v ← evaluate e; rest ← evaluate_all l'; Ok ((n, v) :: rest)
  end.

Definition assign (t : tuple V) (l : list (string * option V)) : tuple V :=
  foldl (λ t nv, match nv.2 with Some v => <[nv.1 := v]> t | None => delete nv.1 t end) t l.

(** [WHERE a IS NOT DISTINCT FROM v AND …] *)
Definition matches (l : list (string * option V)) (t : tuple V) : bool :=
  forallb (λ nv, bool_decide (t !! nv.1 = nv.2)) l.

(** The first tuple that matches, with what precedes and follows it. *)
Fixpoint find_first (P : tuple V → bool) (l : list (tuple V)) :
    option (list (tuple V) * tuple V * list (tuple V)) :=
  match l with
  | [] => None
  | t :: l' =>
      if P t then Some ([], t, l')
      else '(a, x, b) ← find_first P l'; Some (t :: a, x, b)
  end.

(** A column may be named once in an INSERT or a SET list. *)
Definition named_once (l : list (string * option V)) : result unit :=
  fail_if (negb (bool_decide (NoDup l.*1))) (errorf "column specified more than once").

Definition get_table (m : gmap string (table V)) (n : string) : result (table V) :=
  or_err (m !! n) (errorf "relation does not exist").

Definition insert_sql (m : gmap string (table V)) (n : string) (l : list (string * option V)) :
    result (gmap string (table V)) :=
  t ← get_table m n;
  _ ← named_once l;
  checked (<[n := mkPgTable (cols t) (tuples t ++ [assign ∅ l])]> m).

Definition update_sql (m : gmap string (table V)) (n : string) (set where_ : list (string * option V)) :
    result (gmap string (table V)) :=
  t ← get_table m n;
  _ ← named_once set;
  match find_first (matches where_) (tuples t) with
  | None => Err (errorf "update identity did not match exactly one row")
  | Some (a, x, b) => checked (<[n := mkPgTable (cols t) (a ++ assign x set :: b)]> m)
  end.

Definition delete_sql (m : gmap string (table V)) (n : string) (where_ : list (string * option V)) :
    result (gmap string (table V)) :=
  t ← get_table m n;
  match find_first (matches where_) (tuples t) with
  | None => Err (errorf "delete identity did not match exactly one row")
  | Some (a, x, b) => checked (<[n := mkPgTable (cols t) (a ++ b)]> m)
  end.

(** The statement for a row whose columns and keys are transformed. *)
Definition row_statement (row : Row.t) (types : gmap string string) (columns keys : list appliedColumn)
    (m : gmap string (table V)) : result (gmap string (table V)) :=
  if one_of (Row.Operation row) ["read"; "insert"] then
    _ ← fail_if (bool_decide (columns = [])) (errorf "insert has no columns");
    es ← expressions columns types;
    vs ← evaluate_all es;
    insert_sql m (Row.Table row) vs
  else if String.eqb (Row.Operation row) "update" then
    _ ← fail_if (bool_decide (columns = []) || bool_decide (keys = []))
          (errorf "update requires changed columns and identity");
    es ← expressions columns types;
    ks ← expressions keys types;
    vs ← evaluate_all es;
    kvs ← evaluate_all ks;
    update_sql m (Row.Table row) vs kvs
  else if String.eqb (Row.Operation row) "delete" then
    _ ← fail_if (bool_decide (keys = [])) (errorf "delete requires identity");
    ks ← expressions keys types;
    kvs ← evaluate_all ks;
    delete_sql m (Row.Table row) kvs
  else Err (errorf "unsupported row operation").

Definition applyRow (committed : gmap string (table V)) (row : Row.t) (m : gmap string (table V)) :
    M F (gmap string (table V)) :=
  _ ← guard (negb (Allows cfg (Row.Schema row) (Row.Table row)))
        (errorf "row references unconfigured table");
  types ← columnTypes committed (Row.Table row);
  columns ← lift (transform row (Row.Columns row));
  let keySource :=
    if String.eqb (Row.Operation row) "update" && negb (bool_decide (Row.OldKey row = []))
    then Row.OldKey row else Row.Key row in
  keys ← lift (transform row keySource);
  lift (row_statement row types columns keys m).

Fixpoint applyRows (committed : gmap string (table V)) (rows : list Row.t) (m : gmap string (table V)) :
    M F (gmap string (table V)) :=
  match rows with
  | [] => mret m
  | r :: rows' => m ← applyRow committed r m; applyRows committed rows' m
  end.

(** ** Schemas *)

Definition stageSchema (m : Message.t) (d : pg V) : result (pg V) :=
  schema ← or_err (Message.Schema m ≫= sourceSchemaTable_of) (errorf "invalid schema payload");
  let sch := sourceSchemaTable.Schema schema in
  let nm := sourceSchemaTable.Name schema in
  _ ← fail_if (String.eqb sch "" || String.eqb nm "" || negb (Allows cfg sch nm))
        (errorf "schema references unconfigured table");
  _ ← fail_if (bool_decide (sourceSchemaTable.Columns schema = []))
        (errorf "schema has no columns");
  l ← insert_pk (λ r, (st_generation r, st_version r, st_schema r, st_table r))
        (mkStage (Message.Generation m) (Message.SchemaVersion m) sch nm (Message.Schema m))
        (schema_stage d);
  Ok (set_stage l d).

(** The column types of a table as the transaction sees them. *)
Definition targetColumnTypes (m : gmap string (table V)) (n : string) : result (gmap string string) :=
  match m !! n with
  | Some t =>
      match cols t with
      | [] => Err (errorf "target table does not exist")
      | l => Ok (list_to_map (reverse l))
      end
  | None => Err (errorf "target table does not exist")
  end.

Definition add_column (m : gmap string (table V)) (n c typeName : string) : result (gmap string (table V)) :=
  t ← get_table m n;
  Ok (<[n := mkPgTable (cols t ++ [(c, typeName)]) (tuples t)]> m).

(** Add the columns of [schema] the target does not have. *)
Fixpoint add_columns (schema : sourceSchemaTable.t) (columns : list sourceSchemaColumn.t)
    (types : gmap string string) (m : gmap string (table V)) : result (gmap string (table V)) :=
  match columns with
  | [] => Ok m
  | c :: columns' =>
      match types !! sourceSchemaColumn.Name c with
      | Some _ => add_columns schema columns' types m
      | None =>
          let nullable := match sourceSchemaColumn.Nullable c with
                          | Some b => b
                          | None => negb (sourceSchemaColumn.NotNull c)
                          end in
          _ ← fail_if (negb (AutoAddColumns cfg) || negb nullable || sourceSchemaColumn.Primary c)
                (errorf "target column is missing and cannot be added safely");
          typeName ← safeTargetType schema c;
          m ← add_column m (sourceSchemaTable.Name schema) (sourceSchemaColumn.Name c) typeName;
          add_columns schema columns' (<[sourceSchemaColumn.Name c := typeName]> types) m
      end
  end.

Fixpoint add_schemas (schemas : list sourceSchemaTable.t) (m : gmap string (table V)) :
    result (gmap string (table V)) :=
  match schemas with
  | [] => Ok m
  | s :: schemas' =>
      types ← targetColumnTypes m (sourceSchemaTable.Name s);
      m ← add_columns s (sourceSchemaTable.Columns s) types m;
      add_schemas schemas' m
  end.

Definition staged (generation version : string) (r : stage_row) : bool :=
  String.eqb (st_generation r) generation && String.eqb (st_version r) version.

(** [ORDER BY source_schema, table_name] *)
Definition stage_lt (x y : stage_row) : bool :=
  String.ltb (st_schema x) (st_schema y) ||
  (String.eqb (st_schema x) (st_schema y) && String.ltb (st_table x) (st_table y)).

Definition applyStagedSchemas (generation version : string) (d : pg V) : result (pg V) :=
  let rows := order_by stage_lt (List.filter (staged generation version) (schema_stage d)) in
  schemas ← or_err (mapM (λ r, st_payload r ≫= sourceSchemaTable_of) rows)
              (errorf "invalid staged schema payload");
  _ ← fail_if (negb (Nat.eqb (length schemas) (length (Tables cfg))))
        (errorf "schema refresh contains the wrong number of tables");
  m ← add_schemas schemas (tables d);
  Ok (set_stage (List.filter (λ r, negb (staged generation version r)) (schema_stage d))
        (set_tables m d)).

(** ** Paged reads of staged data *)

Definition applyPageSize : nat := 512.

(** [ORDER BY seq] *)
Definition inbox_lt (x y : inbox_row) : bool := in_seq x <? in_seq y.

(** [SELECT … WHERE generation=$2 AND seq>$3 ORDER BY seq LIMIT $4] *)
Definition inbox_page (generation : string) (last : Z) (d : pg V) : list inbox_row :=
  take applyPageSize
    (order_by inbox_lt (List.filter (λ r, String.eqb (in_generation r) generation && (last <? in_seq r))
                        (inbox d))).

(** The rows of the chunks of one page that belong to the transaction, each
    chunk deleted when it is applied. *)
Fixpoint apply_chunks (committed : gmap string (table V)) (tx : string)
    (batch : list (Z * Message.t)) (generation : string) (d : pg V) : M F (pg V) :=
  match batch with
  | [] => mret d
  | (seq, m) :: batch' =>
      if negb (String.eqb (Message.Transaction m) tx) then
        apply_chunks committed tx batch' generation d
      else
        t ← applyRows committed (Message.Rows m) (tables d);
        apply_chunks committed tx batch' generation
          (set_inbox (List.filter (λ r, negb (String.eqb (in_generation r) generation && (in_seq r =? seq)))
                        (inbox d)) (set_tables t d))
  end.

Definition decode_chunks (rows : list inbox_row) : result (list (Z * Message.t)) :=
  or_err (mapM (λ r, (in_seq r,.) <$> unmarshal (in_payload r)) rows) (errorf "invalid message").

Fixpoint apply_inbox (fuel : nat) (committed : gmap string (table V)) (tx generation : string)
    (lastSeq : Z) (d : pg V) : M F (pg V) :=
  match fuel with
  | O => fail (errorf "out of fuel")
  | S fuel' =>
      let page := inbox_page generation lastSeq d in
      batch ← lift (decode_chunks page);
      d ← apply_chunks committed tx batch generation d;
      if (length batch <? applyPageSize)%nat then mret d
      else apply_inbox fuel' committed tx generation (default lastSeq (in_seq <$> last page)) d
  end.

(** [WHERE (seq,row_ordinal)>($3,$4) ORDER BY seq,row_ordinal LIMIT $5] *)
Definition snap_key_lt (a b : Z * Z) : bool := (a.1 <? b.1) || ((a.1 =? b.1) && (a.2 <? b.2)).

Definition snap_key (r : snap_row) : Z * Z := (sn_seq r, sn_ordinal r).

Definition snap_lt (x y : snap_row) : bool := snap_key_lt (snap_key x) (snap_key y).

Definition snap_page (generation : string) (last : Z * Z) (d : pg V) : list snap_row :=
  take applyPageSize
    (order_by snap_lt (List.filter (λ r, String.eqb (sn_generation r) generation &&
                                          snap_key_lt last (snap_key r)) (snapshot_rows d))).

Definition decode_rows (rows : list snap_row) : result (list Row.t) :=
  or_err (mapM (λ r, parse (sn_payload r) ≫= Row_of) rows) (errorf "invalid row").

Definition as_insert (r : Row.t) : Row.t :=
  Row.mk (Row.Identity r) (Row.Schema r) (Row.Table r) "insert" (Row.Key r) (Row.OldKey r)
    (Row.Columns r) (Row.Ordinal r).

Fixpoint apply_snapshot (fuel : nat) (committed : gmap string (table V)) (generation : string)
    (lastKey : Z * Z) (d : pg V) : M F (pg V) :=
  match fuel with
  | O => fail (errorf "out of fuel")
  | S fuel' =>
      let page := snap_page generation lastKey d in
      batch ← lift (decode_rows page);
      t ← applyRows committed (as_insert <$> batch) (tables d);
      let d := set_tables t d in
      if (length batch <? applyPageSize)%nat then mret d
      else apply_snapshot fuel' committed generation (default lastKey (snap_key <$> last page)) d
  end.

(** ** Messages *)

(** The tables of a snapshot, in order, into [snapshot_scope]. *)
Fixpoint insert_scope (ordinal : Z) (l : list TableRef.t) (scope : list scope_row) :
    result (list scope_row) :=
  match l with
  | [] => Ok scope
  | t :: l' =>
      _ ← fail_if (negb (Allows cfg (TableRef.Schema t) (TableRef.Name t)))
            (errorf "snapshot contains unconfigured table");
      scope ← insert_pk (λ r, (sc_schema r, sc_table r))
                (mkScope (TableRef.Schema t) (TableRef.Name t) ordinal) scope;
      insert_scope (ordinal + 1) l' scope
  end.

(** The rows of a [snapshot_rows] message. *)
Fixpoint insert_rows (generation : string) (seq ordinal : Z) (rows : list Row.t) (l : list snap_row) :
    result (list snap_row) :=
  match rows with
  | [] => Ok l
  | r :: rows' =>
      l ← insert_pk (λ r, (sn_generation r, sn_seq r, sn_ordinal r))
            (mkSnap generation seq ordinal (print (Row_json r))) l;
      insert_rows generation seq (ordinal + 1) rows' l
  end.

(** [ORDER BY ordinal] *)
Definition scope_lt (x y : scope_row) : bool := sc_ordinal x <? sc_ordinal y.

(** [DELETE FROM] every table of the scope, last first. *)
Fixpoint clear_tables (scope : list scope_row) (m : gmap string (table V)) :
    result (gmap string (table V)) :=
  match scope with
  | [] => Ok m
  | r :: scope' =>
      t ← get_table m (sc_table r);
      m ← checked (<[sc_table r := mkPgTable (cols t) []]> m);
      clear_tables scope' m
  end.

Definition insert_inbox (m : Message.t) (raw : string) (d : pg V) : result (pg V) :=
  l ← insert_pk (λ r, (in_generation r, in_seq r))
        (mkInbox (Message.Generation m) (Message.Seq m) (Message.ID m) raw) (inbox d);
  Ok (set_inbox l d).

(** The file a batch assembles: whether [file_begin] was seen, the next chunk
    and the content so far. *)
Definition same_file (a b : FileChange.t) : bool :=
  String.eqb (FileChange.Path a) (FileChange.Path b) &&
  String.eqb (FileChange.Operation a) (FileChange.Operation b) &&
  (FileChange.Size a =? FileChange.Size b) &&
  String.eqb (FileChange.SHA256 a) (FileChange.SHA256 b) &&
  (FileChange.Chunks a =? FileChange.Chunks b).

Fixpoint assemble (tx : string) (end_ : FileChange.t) (rows : list inbox_row)
    (seenBegin : bool) (expectedChunk : Z) (content : string) : result (bool * Z * string) :=
  match rows with
  | [] => Ok (seenBegin, expectedChunk, content)
  | r :: rows' =>
      m ← or_err (unmarshal (in_payload r)) (errorf "invalid message");
      f ← or_err (Message.File m) (errorf "file batch metadata is inconsistent");
      _ ← fail_if (negb (String.eqb (Message.Transaction m) tx) || negb (same_file f end_))
            (errorf "file batch metadata is inconsistent");
      if String.eqb (Message.Kind m) "file_begin" then
        _ ← fail_if (seenBegin || negb (expectedChunk =? 0)) (errorf "file batch has duplicate begin");
        assemble tx end_ rows' true expectedChunk content
      else if String.eqb (Message.Kind m) "file_chunk" then
        _ ← fail_if (negb seenBegin || negb (FileChange.Chunk f =? expectedChunk) ||
                     (FileChange.Chunks end_ <=? expectedChunk)) (errorf "file chunks are not contiguous");
        decoded ← or_err (base64_decode (FileChange.Data f)) (errorf "file chunk is not valid base64");
        _ ← fail_if (MaxFileBytes (Storage cfg) <? i64 (slen decoded + slen content))
              (errorf "file content exceeds configured limit");
        assemble tx end_ rows' seenBegin (u32 (expectedChunk + 1)) (content +:+ decoded)
      else Err (errorf "unexpected message in file batch")
  end.

Definition applyFile (m : Message.t) (end_ : FileChange.t) (d : pg V) : M F unit :=
  _ ← guard (negb (one_of (FileChange.Operation end_) ["create"; "update"]))
        (errorf "file_end operation must be create or update");
  _ ← guard ((FileChange.Size end_ <? 0) || (MaxFileBytes (Storage cfg) <? FileChange.Size end_) ||
             String.eqb (FileChange.SHA256 end_) "" || (FileChange.Chunks end_ =? 0))
        (errorf "file metadata exceeds configured limits");
  '(seenBegin, expectedChunk, content) ←
     lift (assemble (Message.Transaction m) end_
             (order_by inbox_lt (List.filter (λ r, String.eqb (in_generation r) (Message.Generation m)) (inbox d)))
             false 0 "");
  _ ← guard (negb seenBegin || negb (expectedChunk =? FileChange.Chunks end_) ||
             negb (slen content =? FileChange.Size end_) ||
             negb (String.eqb (hex_encode (sha256 content)) (FileChange.SHA256 end_)))
        (errorf "file size, chunk count or SHA-256 does not match");
  if AllowsFileOperation cfg (FileChange.Operation end_) then
    putFile (FileChange.Path end_) content (FileChange.Mode end_) (FileChange.ModTimeUnixNano end_)
  else mret tt.

(** [t.files != nil] *)
Definition has_files : bool := negb (String.eqb (Backend (Storage cfg)) "").

Definition not_phase (phase want : string) : bool := negb (String.eqb phase want).

(** The effect of a message inside the transaction: the new contents and the new
    phase. *)
Definition applyMessage (committed : gmap string (table V)) (m : Message.t) (raw phase : string)
    (d : pg V) : M F (pg V * string) :=
  let kind := Message.Kind m in
  if String.eqb kind "snapshot_begin" then
    scope ← lift (insert_scope 0 (Message.Tables m) []);
    mret (set_scope scope (set_snap [] d), "snapshot")
  else if String.eqb kind "schema" then
    _ ← guard (not_phase phase "snapshot" && not_phase phase "stream")
          (errorf "schema received outside a synchronization phase");
    if negb (String.eqb (Message.SchemaVersion m) "") then
      d ← lift (stageSchema m d); mret (d, phase)
    else mret (d, phase)
  else if String.eqb kind "snapshot_rows" then
    _ ← guard (not_phase phase "snapshot") (errorf "snapshot rows received outside snapshot");
    l ← lift (insert_rows (Message.Generation m) (Message.Seq m) 0 (Message.Rows m) (snapshot_rows d));
    mret (set_snap l d, phase)
  else if String.eqb kind "snapshot_end" then
    _ ← guard (not_phase phase "snapshot") (errorf "snapshot_end received outside snapshot");
    d ← lift (if negb (String.eqb (Message.SchemaVersion m) "") then
                applyStagedSchemas (Message.Generation m) (Message.SchemaVersion m) d else Ok d);
    t ← lift (clear_tables (reverse (order_by scope_lt (snapshot_scope d))) (tables d));
    d ← apply_snapshot (S (length (snapshot_rows d))) committed (Message.Generation m) (-1, -1)
          (set_tables t d);
    mret (set_scope [] (set_snap [] d), "stream")
  else if String.eqb kind "schema_end" then
    _ ← guard (not_phase phase "stream") (errorf "schema_end received outside stream");
    d ← lift (applyStagedSchemas (Message.Generation m) (Message.SchemaVersion m) d);
    mret (d, phase)
  else if String.eqb kind "transaction_rows" then
    _ ← guard (not_phase phase "stream") (errorf "transaction rows received before snapshot publication");
    d ← lift (insert_inbox m raw d);
    mret (d, phase)
  else if String.eqb kind "transaction_end" then
    _ ← guard (not_phase phase "stream") (errorf "transaction end received before snapshot publication");
    d ← apply_inbox (S (length (inbox d))) committed (Message.Transaction m) (Message.Generation m)
          (-1) d;
    mret (d, phase)
  else if one_of kind ["file_begin"; "file_chunk"] then
    _ ← guard (not_phase phase "stream" || negb has_files)
          (errorf "file event received before snapshot or without file storage");
    d ← lift (insert_inbox m raw d);
    mret (d, phase)
  else if String.eqb kind "file_end" then
    _ ← guard (not_phase phase "stream" || negb has_files)
          (errorf "file_end received before snapshot or without file storage");
    f ← lift (or_err (Message.File m) (errorf "nil file"));
    _ ← applyFile m f d;
    mret (set_inbox (List.filter (λ r, negb (String.eqb (in_generation r) (Message.Generation m))) (inbox d)) d,
          phase)
  else if String.eqb kind "file_delete" then
    f ← lift (or_err (Message.File m) (errorf "nil file"));
    _ ← guard (not_phase phase "stream" || negb has_files ||
               negb (String.eqb (FileChange.Operation f) "delete")) (errorf "invalid file_delete event");
    if AllowsFileOperation cfg "delete" then _ ← deleteFile (FileChange.Path f); mret (d, phase)
    else mret (d, phase)
  else fail (errorf "unsupported message kind").

Definition validateFileMessage (m : Message.t) : result unit :=
  match Message.File m with
  | None => Err (errorf "file event has an invalid or unconfigured path")
  | Some f =>
      let path := FileChange.Path f in
      _ ← fail_if (negb has_files || String.eqb path "" || negb (IsLocal path) || contains_nul path)
            (errorf "file event has an invalid or unconfigured path");
      if String.eqb (Message.Kind m) "file_delete" then
        fail_if (negb (String.eqb (FileChange.Operation f) "delete") ||
                 negb (String.eqb (Message.Transaction m) "") ||
                 negb (String.eqb (FileChange.Data f) "")) (errorf "invalid file_delete envelope")
      else if one_of (Message.Kind m) ["file_begin"; "file_chunk"; "file_end"] then
        _ ← fail_if (negb (one_of (FileChange.Operation f) ["create"; "update"]))
              (errorf "file batch operation must be create or update");
        _ ← fail_if (String.eqb (Message.Transaction m) "" || (FileChange.Size f <? 0) ||
                     (MaxFileBytes (Storage cfg) <? FileChange.Size f) || (FileChange.Chunks f =? 0))
              (errorf "file batch metadata exceeds configured limits");
        digest ← or_err (hex_decode (FileChange.SHA256 f)) (errorf "file batch SHA-256 is invalid");
        _ ← fail_if (negb (slen digest =? 32)) (errorf "file batch SHA-256 is invalid");
        fail_if (negb (String.eqb (Message.Kind m) "file_chunk") &&
                 negb (String.eqb (FileChange.Data f) ""))
          (errorf "file content is only allowed in file_chunk")
      else Err (errorf "unsupported file message")
  end.

(** ** Storing a message *)

(** The variables [store] reads from [sync_state] and writes back. *)
Record cursor := mkCursor {
  cu_generation : string;
  cu_received : Z;
  cu_applied : Z;
  cu_schema_version : string;
  cu_phase : string;
  cu_open : string;
  cu_pending : string
}.

Definition read_cursor (d : pg V) : cursor :=
  let s := sync d in
  mkCursor (sync_state.generation s) (sync_state.received_seq s) (sync_state.applied_seq s)
    (sync_state.schema_version s) (sync_state.phase s) (sync_state.open_transaction s)
    (sync_state.pending_schema_version s).

(** A message of another generation must start it, and clears the staged data
    of the old one. *)
Definition enter_generation (m : Message.t) (c : cursor) (d : pg V) : result (cursor * pg V) :=
  if String.eqb (Message.Generation m) (cu_generation c) then Ok (c, d)
  else
    _ ← fail_if (negb (Message.Seq m =? 1) || negb (String.eqb (Message.Kind m) "snapshot_begin"))
          (errorf "new generation must begin with snapshot_begin sequence 1");
    Ok (mkCursor (Message.Generation m) 0 0 (Message.SchemaVersion m) "" "" "",
        mkPg (sync d) [] [] [] [] [] (tables d)).

(** A sequence number already received: the payload must be the same. *)
Definition stored_hash (m : Message.t) (d : pg V) : option string :=
  ha_hash <$> List.find (λ r, String.eqb (ha_generation r) (Message.Generation m) &&
                              (ha_seq r =? Message.Seq m)) (message_hash d).

Definition check_duplicate (m : Message.t) (hash : string) (d : pg V) : result unit :=
  match stored_hash m d with
  | Some h => fail_if (negb (String.eqb h hash))
                (errorf "sequence was already stored with a different payload")
  | None => Ok tt
  end.

(** The schema barrier: the pending schema version after the message. *)
Definition schema_barrier (m : Message.t) (c : cursor) : result string :=
  let version := Message.SchemaVersion m in
  if String.eqb (Message.Kind m) "schema" && String.eqb (cu_phase c) "stream" then
    _ ← fail_if (String.eqb version "") (errorf "stream schema refresh requires schema_version");
    if String.eqb (cu_pending c) "" then Ok version
    else
      _ ← fail_if (negb (String.eqb (cu_pending c) version))
            (errorf "schema refresh version changed before schema_end");
      Ok (cu_pending c)
  else if String.eqb (Message.Kind m) "schema_end" then
    _ ← fail_if (not_phase (cu_phase c) "stream" || String.eqb version "" ||
                 negb (String.eqb version (cu_pending c)))
          (errorf "schema_end does not match pending schema refresh");
    Ok (cu_pending c)
  else
    _ ← fail_if (negb (String.eqb (cu_pending c) ""))
          (errorf "schema refresh must finish before row delivery");
    _ ← fail_if (negb (String.eqb version (cu_schema_version c)))
          (errorf "message schema_version does not match active version");
    Ok (cu_pending c).

(** The open transaction after the message. *)
Definition open_or_same (tx open : string) : result string :=
  if String.eqb open "" then Ok tx
  else _ ← fail_if (negb (String.eqb open tx)) (errorf "transaction is still open"); Ok open.

Definition no_file (m : Message.t) : bool := match Message.File m with None => true | _ => false end.

Definition transaction_guard (m : Message.t) (open : string) : result string :=
  let kind := Message.Kind m in
  let tx := Message.Transaction m in
  if String.eqb kind "transaction_rows" then
    _ ← fail_if (String.eqb tx "") (errorf "transaction_rows requires a transaction identifier");
    open_or_same tx open
  else if String.eqb kind "transaction_end" then
    _ ← fail_if (String.eqb tx "" || negb (String.eqb open tx))
          (errorf "transaction_end does not match open transaction");
    Ok open
  else if one_of kind ["file_begin"; "file_chunk"] then
    _ ← fail_if (String.eqb tx "" || no_file m)
          (errorf "file batch requires a transaction and file payload");
    open_or_same tx open
  else if String.eqb kind "file_end" then
    _ ← fail_if (String.eqb tx "" || no_file m || negb (String.eqb open tx))
          (errorf "file_end does not match the open file batch");
    Ok open
  else if String.eqb kind "file_delete" then
    _ ← fail_if (no_file m || negb (String.eqb open ""))
          (errorf "file_delete requires a payload and no open batch");
    Ok open
  else if String.eqb kind "schema" then
    _ ← fail_if (negb (String.eqb open "")) (errorf "schema cannot be applied inside a transaction");
    Ok open
  else Ok open.

(** The kinds that complete a batch, so that everything received is applied. *)
Definition completes (kind : string) : bool :=
  one_of kind ["snapshot_end"; "transaction_end"; "schema_end"; "file_end"; "file_delete"].

(** The body of the transaction for the next sequence number. *)
Definition store_next (committed : gmap string (table V)) (m : Message.t) (raw : string)
    (c : cursor) (d : pg V) : M F (pg V) :=
  let kind := Message.Kind m in
  _ ← lift (if HasPrefix kind "file_" then validateFileMessage m else Ok tt);
  pending ← lift (schema_barrier m c);
  open ← lift (transaction_guard m (cu_open c));
  '(d, phase) ← applyMessage committed m raw (cu_phase c) d;
  let open := if one_of kind ["transaction_end"; "file_end"] then "" else open in
  let version := if String.eqb kind "schema_end" then pending else cu_schema_version c in
  let pending := if String.eqb kind "schema_end" then "" else pending in
  hashes ← lift (insert_pk (λ r, (ha_generation r, ha_seq r))
                   (mkHash (Message.Generation m) (Message.Seq m) (sha256 raw)) (message_hash d));
  let applied := if completes kind then Message.Seq m else cu_applied c in
  mret (set_sync (sync_state.mk (Message.Generation m) (Message.Seq m) applied phase open version pending
                    (sync_state.repair_authorized (sync d))) (set_hash hashes d)).

Definition store_tx (m : Message.t) (raw : string) (d : pg V) : M F (pg V) :=
  _ ← guard (max_int64 <? Message.Seq m) (errorf "message sequence exceeds PostgreSQL bigint");
  '(c, d') ← lift (enter_generation m (read_cursor d) d);
  if Message.Seq m <=? cu_received c then
    _ ← lift (check_duplicate m (sha256 raw) d');
    mret d'
  else
    _ ← guard (negb (Message.Seq m =? u64 (cu_received c + 1))) (errorf "non-contiguous message");
    store_next (tables d) m raw c d'.

(** [target.store]: commit, or roll back and keep only what is outside the
    database; the type cache is dropped when the schema may have changed. *)
Definition store (m : Message.t) (raw : string) (σ : side F) (d : pg V) : side F * pg V * result unit :=
  match store_tx m raw d σ with
  | (σ', Err e) => (σ', d, Err e)
  | (σ', Ok d') =>
      let fresh := negb (Message.Seq m <=? sync_state.received_seq (sync d)) ||
                   negb (String.eqb (Message.Generation m) (sync_state.generation (sync d))) in
      (if fresh && one_of (Message.Kind m) ["snapshot_end"; "schema_end"] then invalidateTypes σ' else σ',
        d', Ok tt)
  end.

(** ** Progress and repair *)

Record progress := mkProgress {
  Generation : string; Received : Z; Applied : Z; SchemaVersion : string }.

Definition Progress (d : pg V) : progress :=
  mkProgress (sync_state.generation (sync d)) (sync_state.received_seq (sync d))
    (sync_state.applied_seq (sync d)) (sync_state.schema_version (sync d)).

Definition authorizeRepair (d : pg V) : pg V := set_sync (sync_state.set_repair true (sync d)) d.

Definition consumeRepairAuthorization (d : pg V) : pg V * bool :=
  if sync_state.repair_authorized (sync d)
  then (set_sync (sync_state.set_repair false (sync d)) d, true) else (d, false).
End apply.
