(* ===== verification/TargetInv.v ===== *)
(** * What the operations of the target change

    The laws of the monad of target.go's operations and the frame of each
    operation: which parts of the database a message can change. *)

From S2P Require Import Prelude Bytes Sorting Encoding Sha256 GoPath Json JsonStruct Event ServerConfig Schema Target.

#[local] Opaque marshal unmarshal sha256.

(** ** The monad *)

Lemma M_bind_Ok {F A B} (m : M F A) (f : A → M F B) σ σ' b :
  (m ≫= f) σ = (σ', Ok b) ↔ ∃ σ1 a, m σ = (σ1, Ok a) ∧ f a σ1 = (σ', Ok b).
Proof.
  unfold mbind, M_bind. destruct (m σ) as [σ1 [a|e]]; split; try naive_solver.
Qed.

Lemma M_bind_eq {F A B} (m : M F A) (f : A → M F B) σ σ1 a :
  m σ = (σ1, Ok a) → (m ≫= f) σ = f a σ1.
Proof. unfold mbind, M_bind. by intros ->. Qed.

Lemma M_bind_err {F A B} (m : M F A) (f : A → M F B) σ σ1 e :
  m σ = (σ1, Err e) → (m ≫= f) σ = (σ1, Err e).
Proof. unfold mbind, M_bind. by intros ->. Qed.

Lemma lift_Ok {F A} (r : result A) (σ σ' : side F) a : lift r σ = (σ', Ok a) ↔ σ' = σ ∧ r = Ok a.
Proof. unfold lift. naive_solver. Qed.

Lemma guard_Ok {F} b e (σ σ' : side F) u : guard b e σ = (σ', Ok u) ↔ σ' = σ ∧ b = false.
Proof. unfold guard, fail_if. destruct b, u; naive_solver. Qed.

Lemma mret_Ok {F A} (a : A) (σ σ' : side F) b : mret (M:=M F) a σ = (σ', Ok b) ↔ σ' = σ ∧ b = a.
Proof. unfold mret, M_ret. naive_solver. Qed.

Lemma lift_bind {F A B} (r : result A) (f : A → M F B) σ a : r = Ok a → (lift r ≫= f) σ = f a σ.
Proof. intros ->. done. Qed.

Lemma guard_bind {F B} b e (f : unit → M F B) σ : b = false → (guard b e ≫= f) σ = f tt σ.
Proof. intros ->. done. Qed.

Lemma mret_bind {F A B} (a : A) (f : A → M F B) σ : (mret a ≫= f) σ = f a σ.
Proof. done. Qed.

(** The first step of a successful computation. *)
Tactic Notation "m_guard" hyp(E) "as" ident(Hg) :=
  let σ1 := fresh "σ1" in
  apply M_bind_Ok in E as (σ1 & [] & Hg & E); apply guard_Ok in Hg as [-> Hg].
Tactic Notation "m_lift" hyp(E) "as" simple_intropattern(p) ident(Hg) :=
  let σ1 := fresh "σ1" in
  apply M_bind_Ok in E as (σ1 & p & Hg & E); apply lift_Ok in Hg as [-> Hg].
Tactic Notation "m_step" hyp(E) "as" ident(σ1) simple_intropattern(p) ident(Hg) :=
  apply M_bind_Ok in E as (σ1 & p & Hg & E).

Section target.
Context {V F : Type} `{PG : Postgres V} `{FS : FileStore F}.
Context (constraints : gmap string (table V) → bool) (cfg : Syncer).

(** ** What storing changes *)

Lemma insert_pk_Ok {A K} `{EqDecision K} (key : A → K) x l l' :
  insert_pk key x l = Ok l' → l' = l ++ [x] ∧ Forall (λ y, key y ≠ key x) l.
Proof.
  unfold insert_pk. destruct (existsb _ l) eqn:E; intros; simplify_eq. split; [done|].
  apply Forall_forall. intros y Hy Hk. apply not_true_iff_false in E. apply E.
  apply existsb_exists. exists y. split; [by apply list_elem_of_In|]. by apply bool_decide_eq_true.
Qed.

(** A committed message with the next sequence number. *)
Definition stored_next (m : Message.t) (raw : string) (σ : side F) (d : pg V) (σ' : side F) (d' : pg V) : Prop :=
  ∃ c d1, enter_generation m (read_cursor d) d = Ok (c, d1) ∧ Message.Seq m = u64 (cu_received c + 1) ∧
    cu_received c < Message.Seq m ≤ max_int64 ∧
    store_next constraints cfg (tables d) m raw c d1 σ = (σ', Ok d').

Lemma store_tx_cases m raw σ d σ' d' : store_tx constraints cfg m raw d σ = (σ', Ok d') →
  (σ' = σ ∧ d' = d ∧ Message.Generation m = sync_state.generation (sync d) ∧
     Message.Seq m ≤ sync_state.received_seq (sync d) ∧
     (stored_hash m d = None ∨ stored_hash m d = Some (sha256 raw))) ∨
  stored_next m raw σ d σ' d'.
Proof.
  unfold store_tx. intros E. m_guard E as Hmax. bool_prop. m_lift E as [c d1] He.
  destruct (Z.leb_spec (Message.Seq m) (cu_received c)) as [Hle|Hgt].
  - m_lift E as [] Hc. apply mret_Ok in E as [-> ->]. left. unfold enter_generation in He.
    destruct (String.eqb_spec (Message.Generation m) (cu_generation (read_cursor d))) as [Hg|Hg].
    + simplify_eq. split_and!; try done. unfold check_duplicate in Hc.
      destruct (stored_hash m d1) as [h|]; [|by left]. right. f_equal.
      apply fail_if_Ok in Hc. by bool_prop.
    + exfalso. revert He. go. destruct (negb _ || negb _) eqn:Eb; [done|].
      apply orb_false_iff in Eb as [Eb _]. bool_prop. intros [= <- <-]. cbn in Hle. lia.
  - m_guard E as Hn. right. exists c, d1. bool_prop. split_and!; done || lia.
Qed.

Definition open_after (kind open : string) : string :=
  if one_of kind ["transaction_end"; "file_end"] then "" else open.

Lemma store_next_inv committed m raw c d1 (σ σ' : side F) d' :
  store_next constraints cfg committed m raw c d1 σ = (σ', Ok d') →
  ∃ pending open d2 phase,
    (HasPrefix (Message.Kind m) "file_" = true → validateFileMessage cfg m = Ok tt) ∧
    schema_barrier m c = Ok pending ∧ transaction_guard m (cu_open c) = Ok open ∧
    applyMessage constraints cfg committed m raw (cu_phase c) d1 σ = (σ', Ok (d2, phase)) ∧
    Forall (λ r, (ha_generation r, ha_seq r) ≠ (Message.Generation m, Message.Seq m)) (message_hash d2) ∧
    d' = set_sync (sync_state.mk (Message.Generation m) (Message.Seq m)
           (if completes (Message.Kind m) then Message.Seq m else cu_applied c) phase
           (open_after (Message.Kind m) open)
           (if String.eqb (Message.Kind m) "schema_end" then pending else cu_schema_version c)
           (if String.eqb (Message.Kind m) "schema_end" then "" else pending)
           (sync_state.repair_authorized (sync d2)))
         (set_hash (message_hash d2 ++ [mkHash (Message.Generation m) (Message.Seq m) (sha256 raw)]) d2).
Proof.
  unfold store_next. intros E. m_lift E as [] Hf. m_lift E as pending Hp. m_lift E as open Ho.
  m_step E as σ1 [d2 phase] Ha. m_lift E as hashes Hh. apply mret_Ok in E as [-> ->].
  apply insert_pk_Ok in Hh as [-> Hh]. exists pending, open, d2, phase. split_and!; try done.
  intros Hk. by rewrite Hk in Hf.
Qed.

(** ** The frame of a message *)

(** The state row and the hashes are written by [store] alone. *)
Definition frame (d d' : pg V) : Prop := sync d' = sync d ∧ message_hash d' = message_hash d.

Lemma frame_refl d : frame d d.
Proof. done. Qed.

Lemma frame_trans d1 d2 d3 : frame d1 d2 → frame d2 d3 → frame d1 d3.
Proof. unfold frame. intuition congruence. Qed.

Lemma stageSchema_frame m d d' : stageSchema cfg m d = Ok d' → frame d d' ∧ tables d' = tables d ∧
  inbox d' = inbox d ∧ snapshot_rows d' = snapshot_rows d.
Proof.
  unfold stageSchema. intros E. apply bind_Ok in E as (schema & _ & E). cbv zeta in E.
  rewrite !fail_if_bind in E. destruct (_ || _); [done|]. destruct (bool_decide _); [done|].
  apply bind_Ok in E as (l & _ & E). by simplify_eq.
Qed.

Lemma applyStagedSchemas_frame g v d d' : applyStagedSchemas cfg g v d = Ok d' → frame d d' ∧
  inbox d' = inbox d ∧ snapshot_rows d' = snapshot_rows d ∧ snapshot_scope d' = snapshot_scope d.
Proof.
  unfold applyStagedSchemas. intros E. apply bind_Ok in E as (schemas & _ & E).
  rewrite fail_if_bind in E. destruct (negb _); [done|].
  apply bind_Ok in E as (m & _ & E). by simplify_eq.
Qed.

Lemma apply_chunks_frame committed tx batch g d (σ σ' : side F) d' :
  apply_chunks constraints cfg committed tx batch g d σ = (σ', Ok d') →
  frame d d' ∧ snapshot_rows d' = snapshot_rows d ∧ snapshot_scope d' = snapshot_scope d ∧
  schema_stage d' = schema_stage d.
Proof.
  revert d σ. induction batch as [|[seq m] batch IH]; intros d σ E; cbn [apply_chunks] in E.
  { by apply mret_Ok in E as [-> ->]. }
  destruct (negb _); [by eapply IH|]. m_step E as σ1 t Ht.
  apply IH in E as (Hf & ? & ? & ?). split; [|done]. by eapply frame_trans.
Qed.

Lemma apply_inbox_frame fuel committed tx g last d (σ σ' : side F) d' :
  apply_inbox constraints cfg fuel committed tx g last d σ = (σ', Ok d') →
  frame d d' ∧ snapshot_rows d' = snapshot_rows d ∧ snapshot_scope d' = snapshot_scope d ∧
  schema_stage d' = schema_stage d.
Proof.
  revert last d σ. induction fuel as [|fuel IH]; intros last d σ E; cbn [apply_inbox] in E; [done|].
  m_lift E as batch Hb. m_step E as σ1 d1 Hc. apply apply_chunks_frame in Hc as (Hf & H1 & H2 & H3).
  destruct (_ <? _)%nat; [by apply mret_Ok in E as [-> ->]|].
  apply IH in E as (Hf' & ? & ? & ?). split; [by eapply frame_trans|]. intuition congruence.
Qed.

Lemma apply_snapshot_frame fuel committed g last d (σ σ' : side F) d' :
  apply_snapshot constraints cfg fuel committed g last d σ = (σ', Ok d') →
  frame d d' ∧ inbox d' = inbox d ∧ schema_stage d' = schema_stage d.
Proof.
  revert last d σ. induction fuel as [|fuel IH]; intros last d σ E; cbn [apply_snapshot] in E; [done|].
  m_lift E as batch Hb. m_step E as σ1 t Hc.
  destruct (_ <? _)%nat; [by apply mret_Ok in E as [-> ->]|].
  apply IH in E as (Hf' & ? & ?). split; [by eapply frame_trans|]. intuition congruence.
Qed.

(** Kind by kind: a message that does not complete a batch leaves the
    replicated tables alone. *)
Lemma applyMessage_frame committed m raw ph d (σ σ' : side F) d' ph' :
  applyMessage constraints cfg committed m raw ph d σ = (σ', Ok (d', ph')) →
  frame d d' ∧
  (one_of (Message.Kind m) ["snapshot_end"; "schema_end"; "transaction_end"] = false →
    tables d' = tables d).
Proof.
  unfold applyMessage, one_of. cbn [existsb].
  destruct (String.eqb_spec (Message.Kind m) "snapshot_begin") as [_|_].
  { intros E. m_lift E as scope Hs. apply mret_Ok in E as [-> E]. by simplify_eq. }
  destruct (String.eqb_spec (Message.Kind m) "schema") as [_|_].
  { intros E. m_guard E as Hg. destruct (negb _).
    - m_lift E as d1 Hs. apply mret_Ok in E as [-> E]. simplify_eq.
      apply stageSchema_frame in Hs as (? & ? & _). done.
    - apply mret_Ok in E as [-> E]. by simplify_eq. }
  destruct (String.eqb_spec (Message.Kind m) "snapshot_rows") as [_|_].
  { intros E. m_guard E as Hg. m_lift E as l Hl. apply mret_Ok in E as [-> E]. by simplify_eq. }
  destruct (String.eqb_spec (Message.Kind m) "snapshot_end") as [_|_].
  { intros E. m_guard E as Hg. m_lift E as d1 Hd. m_lift E as t Ht. m_step E as σ1 d2 Hs.
    apply mret_Ok in E as [-> E]. simplify_eq. split; [|done].
    apply apply_snapshot_frame in Hs as (Hf & _).
    destruct (negb _); [apply applyStagedSchemas_frame in Hd as (Hf' & _)|simplify_eq];
      by eapply frame_trans. }
  destruct (String.eqb_spec (Message.Kind m) "schema_end") as [_|_].
  { intros E. m_guard E as Hg. m_lift E as d1 Hd. apply mret_Ok in E as [-> E]. simplify_eq.
    split; [|done]. by apply applyStagedSchemas_frame in Hd as (Hf & _). }
  destruct (String.eqb_spec (Message.Kind m) "transaction_rows") as [_|_].
  { intros E. m_guard E as Hg. m_lift E as d1 Hd. apply mret_Ok in E as [-> E]. simplify_eq.
    unfold insert_inbox in Hd. apply bind_Ok in Hd as (l & _ & Hd). by simplify_eq. }
  destruct (String.eqb_spec (Message.Kind m) "transaction_end") as [_|_].
  { intros E. m_guard E as Hg. m_step E as σ1 d1 Hd. apply mret_Ok in E as [-> E]. simplify_eq.
    split; [|done]. by apply apply_inbox_frame in Hd as (Hf & _). }
  rewrite !orb_false_r.
  destruct (String.eqb (Message.Kind m) "file_begin" || String.eqb (Message.Kind m) "file_chunk").
  { intros E. m_guard E as Hg. m_lift E as d1 Hd. apply mret_Ok in E as [-> E]. simplify_eq.
    unfold insert_inbox in Hd. apply bind_Ok in Hd as (l & _ & Hd). by simplify_eq. }
  destruct (String.eqb (Message.Kind m) "file_end").
  { intros E. m_guard E as Hg. m_lift E as f Hf. m_step E as σ1 [] Ha. apply mret_Ok in E as [-> E].
    by simplify_eq. }
  destruct (String.eqb (Message.Kind m) "file_delete"); [|done].
  intros E. m_lift E as f Hf. m_guard E as Hg. destruct (AllowsFileOperation _ _).
  - m_step E as σ1 [] Ha. apply mret_Ok in E as [-> E]. by simplify_eq.
  - apply mret_Ok in E as [-> E]. by simplify_eq.
Qed.

Lemma store_Ok m raw σ d σ' d' : store constraints cfg m raw σ d = (σ', d', Ok tt) →
  ∃ σ1, store_tx constraints cfg m raw d σ = (σ1, Ok d').
Proof. unfold store. destruct (store_tx _ _ _ _ _ _) as [σ1 [d1|e]]; intros; simplify_eq. eauto. Qed.

Lemma store_Err m raw σ d σ' d' e : store constraints cfg m raw σ d = (σ', d', Err e) → d' = d.
Proof. unfold store. destruct (store_tx _ _ _ _ _ _) as [σ1 [d1|e1]]; intros; by simplify_eq. Qed.

Lemma enter_generation_Ok m c d c' d' : enter_generation (V:=V) m c d = Ok (c', d') →
  (c' = c ∧ d' = d ∧ Message.Generation m = cu_generation c) ∨
  (Message.Generation m ≠ cu_generation c ∧ Message.Seq m = 1 ∧ Message.Kind m = "snapshot_begin" ∧
   c' = mkCursor (Message.Generation m) 0 0 (Message.SchemaVersion m) "" "" "" ∧
   d' = mkPg (sync d) [] [] [] [] [] (tables d)).
Proof.
  unfold enter_generation.
  destruct (String.eqb_spec (Message.Generation m) (cu_generation c)) as [Hg|Hg].
  - intros. simplify_eq. auto.
  - go. destruct (negb _ || negb _) eqn:E; [done|]. apply orb_false_iff in E as [E1 E2]. bool_prop.
    intros. simplify_eq. auto 10.
Qed.

(** What a committed message does to the progress. *)
Lemma store_cases m raw σ d σ1 d1 : store constraints cfg m raw σ d = (σ1, d1, Ok tt) →
  let s := sync d in
  (d1 = d ∧ Message.Generation m = sync_state.generation s ∧ Message.Seq m ≤ sync_state.received_seq s) ∨
  (Message.Generation m = sync_state.generation s ∧ Message.Seq m = u64 (sync_state.received_seq s + 1) ∧
     Progress d1 = mkProgress (Message.Generation m) (Message.Seq m)
       (if completes (Message.Kind m) then Message.Seq m else sync_state.applied_seq s)
       (sync_state.schema_version (sync d1))) ∨
  (Message.Generation m ≠ sync_state.generation s ∧ Message.Seq m = 1 ∧
     Message.Kind m = "snapshot_begin" ∧
     Progress d1 = mkProgress (Message.Generation m) 1 0 (Message.SchemaVersion m)).
Proof.
  intros E. cbv zeta. apply store_Ok in E as [σ3 E].
  apply store_tx_cases in E as [(_ & -> & ? & ? & _)|(c & d2 & He & Hs & Hr & E)]; [by left|]. right.
  apply store_next_inv in E as (p & o & d3 & ph & _ & _ & _ & _ & Hh & ->).
  apply enter_generation_Ok in He as [(-> & -> & Hg)|(Hg & H1 & Hk & -> & ->)].
  - left. done.
  - right. rewrite H1, Hk. done.
Qed.

Lemma stored_hash_snoc m raw (d : pg V) l s :
  Forall (λ r, (ha_generation r, ha_seq r) ≠ (Message.Generation m, Message.Seq m)) l →
  stored_hash m (set_sync s (set_hash (l ++ [mkHash (Message.Generation m) (Message.Seq m) (sha256 raw)]) d))
    = Some (sha256 raw).
Proof.
  unfold stored_hash. cbn [message_hash set_sync set_hash]. induction 1 as [|r l Hr _ IH]; cbn [app List.find].
  - cbn. by rewrite String.eqb_refl, Z.eqb_refl.
  - destruct (String.eqb _ _ && _) eqn:E; [|exact IH].
    apply andb_true_iff in E as [E1%String.eqb_eq E2%Z.eqb_eq]. congruence.
Qed.

End target.
