(* ===== verification/TargetPaging.v ===== *)
(** * The paged loops of the target

    [transaction_end] and [snapshot_end] read what was staged in pages of 512
    rows, keyed by the last row of the page before.  The lemmas show that the
    loops do what one pass over everything staged would do, in order, and that
    the fuel the model gives them suffices. *)

From S2P Require Import Prelude Bytes Sorting Encoding Sha256 GoPath Json JsonStruct Event ServerConfig Schema Target TargetInv.

#[local] Opaque marshal unmarshal sha256.

(** ** The orders of the staged rows *)

#[global] Instance inbox_lt_strict : StrictLt inbox_lt.
Proof. unfold inbox_lt. split; intros; bool_prop; [apply Z.ltb_irrefl|apply Z.ltb_lt; lia]. Qed.

Lemma snap_key_lt_spec a b : snap_key_lt a b = true ↔ a.1 < b.1 ∨ (a.1 = b.1 ∧ a.2 < b.2).
Proof. unfold snap_key_lt. by rewrite orb_true_iff, andb_true_iff, !Z.ltb_lt, Z.eqb_eq. Qed.

#[global] Instance snap_lt_strict : StrictLt snap_lt.
Proof.
  unfold snap_lt. split.
  - intros x. apply not_true_iff_false. rewrite snap_key_lt_spec. lia.
  - intros x y z. rewrite !snap_key_lt_spec. lia.
Qed.

Section paging.
Context {V F : Type} `{PG : Postgres V} `{FS : FileStore F}.
Context (constraints : gmap string (table V) → bool) (cfg : Syncer).
Context (committed : gmap string (table V)) (tx g : string).
Implicit Types (σ : side F) (d : pg V).

Lemma M_assoc {A B C} (m : M F A) (f : A → M F B) (k : B → M F C) σ :
  ((m ≫= f) ≫= k) σ = (m ≫= (λ a, f a ≫= k)) σ.
Proof. unfold mbind, M_bind. by destruct (m σ) as [σ1 [a|e]]. Qed.

Lemma M_ext {A B} (m : M F A) (f k : A → M F B) σ : (∀ a σ, f a σ = k a σ) → (m ≫= f) σ = (m ≫= k) σ.
Proof. intros E. unfold mbind, M_bind. destruct (m σ) as [σ1 [a|e]]; [apply E|done]. Qed.

(** ** The inbox *)

(** The chunks after [last], and the rows deleted with the chunks of a batch. *)
Definition after (last : Z) (d : pg V) : list inbox_row :=
  List.filter (λ r, String.eqb (in_generation r) g && (last <? in_seq r)) (inbox d).

Lemma apply_chunks_app a b d σ :
  apply_chunks constraints cfg committed tx (a ++ b) g d σ =
    (apply_chunks constraints cfg committed tx a g d ≫=
      apply_chunks constraints cfg committed tx b g) σ.
Proof.
  revert d σ. induction a as [|[seq m] a IH]; intros d σ; cbn [apply_chunks app]; [done|].
  destruct (negb _); [apply IH|]. rewrite M_assoc. apply M_ext. intros t σ'. apply IH.
Qed.

(** Applying chunks deletes nothing beyond their sequence numbers. *)
Lemma apply_chunks_after batch n d σ σ' d' :
  apply_chunks constraints cfg committed tx batch g d σ = (σ', Ok d') →
  Forall (λ sm, sm.1 ≤ n) batch → after n d' = after n d.
Proof.
  revert d σ. induction batch as [|[seq m] batch IH]; intros d σ E Hn; cbn [apply_chunks] in E.
  { by apply mret_Ok in E as [-> ->]. }
  apply Forall_cons in Hn as [Hseq Hn]. destruct (negb _); [by eapply IH|].
  m_step E as σ1 t Ht. rewrite (IH _ _ E Hn). unfold after. cbn [inbox set_inbox set_tables].
  rewrite filter_filter. apply filter_ext_in. intros r _. cbn in Hseq.
  destruct (String.eqb (in_generation r) g); cbn; [|done].
  destruct (Z.eqb_spec (in_seq r) seq); cbn; [|done]. symmetry. apply Z.ltb_ge. lia.
Qed.

Lemma decode_chunks_app a b l : decode_chunks (a ++ b) = Ok l →
  ∃ l1 l2, decode_chunks a = Ok l1 ∧ decode_chunks b = Ok l2 ∧ l = l1 ++ l2.
Proof.
  unfold decode_chunks. intros E%or_err_Ok. apply mapM_app_Some in E as (l1 & l2 & -> & -> & ->).
  exists l1, l2. done.
Qed.

Lemma decode_chunks_seqs rows l : decode_chunks rows = Ok l → l.*1 = in_seq <$> rows.
Proof.
  unfold decode_chunks. intros E%or_err_Ok. revert l E.
  induction rows as [|r rows IH]; intros l; cbn; [by intros [= <-]|].
  destruct (unmarshal (in_payload r)); [|done]. cbn.
  destruct (mapM _ rows) as [l'|] eqn:E; [|done]. cbn. intros [= <-]. cbn. f_equal. by apply IH.
Qed.

Lemma decode_chunks_length rows l : decode_chunks rows = Ok l → length l = length rows.
Proof. intros E%decode_chunks_seqs. by rewrite <- (length_fmap fst), E, length_fmap. Qed.

Lemma inbox_page_increasing n d : increasing inbox_lt (after n d) →
  inbox_page g n d = take applyPageSize (after n d).
Proof. intros Hs. unfold inbox_page. fold (after n d). by rewrite (order_by_increasing inbox_lt). Qed.

(** A full page leaves the rest for the next one. *)
Lemma after_page n d σ σ' d' page batch :
  increasing inbox_lt (after n d) → page = take applyPageSize (after n d) →
  decode_chunks page = Ok batch → (length page = applyPageSize)%nat →
  apply_chunks constraints cfg committed tx batch g d σ = (σ', Ok d') →
  after (default n (in_seq <$> last page)) d' = drop applyPageSize (after n d).
Proof.
  intros Hs Hp Hb Hl E. destruct page as [|x page _] using rev_ind; [done|].
  rewrite last_snoc. change (default n (in_seq <$> Some x)) with (in_seq x).
  pose proof (take_drop applyPageSize (after n d)) as Htd. rewrite <- Hp in Htd.
  rewrite <- Htd in Hs. pose proof (filter_beyond inbox_lt _ _ _ Hs) as Hf.
  assert (in_seq x > n) as Hx.
  { assert (x ∈ after n d) as [_ Hx]%list_elem_of_In%filter_In by (rewrite <- Htd; set_solver).
    bool_prop. lia. }
  rewrite (apply_chunks_after _ _ _ _ _ _ E).
  - rewrite Htd in Hf. rewrite <- Hf. unfold after at 1 2. rewrite filter_filter. unfold inbox_lt.
    apply filter_ext_in. intros r _. destruct (String.eqb _ _); [|done]. cbn.
    destruct (Z.ltb_spec (in_seq x) (in_seq r)), (Z.ltb_spec n (in_seq r)); done || lia.
  - apply (Forall_fmap fst (λ z, z ≤ in_seq x)). rewrite (decode_chunks_seqs _ _ Hb). apply Forall_fmap.
    apply (increasing_app inbox_lt) in Hs as (Hs & _ & _). apply (increasing_app inbox_lt) in Hs as (_ & _ & Hs).
    rewrite Forall_forall. intros r Hr. cbn.
    apply elem_of_app in Hr as [Hr|Hr%list_elem_of_singleton]; [|subst; lia].
    assert (inbox_lt r x = true) as Hrx by (apply Hs; set_solver). unfold inbox_lt in Hrx. bool_prop. lia.
Qed.

(** The paged loop is one pass over the chunks after [n], in order. *)
Lemma apply_inbox_pass fuel n d batch σ :
  increasing inbox_lt (after n d) → decode_chunks (after n d) = Ok batch →
  (length (after n d) < fuel)%nat →
  apply_inbox constraints cfg fuel committed tx g n d σ =
    apply_chunks constraints cfg committed tx batch g d σ.
Proof.
  revert n d batch σ. induction fuel as [|fuel IH]; intros n d batch σ Hs Hb Hf; [lia|].
  cbn [apply_inbox]. rewrite inbox_page_increasing by done.
  rewrite <- (take_drop applyPageSize (after n d)) in Hb.
  apply decode_chunks_app in Hb as (b1 & b2 & Hb1 & Hb2 & ->).
  pose proof (decode_chunks_length _ _ Hb1) as Hl1.
  rewrite (lift_bind _ _ _ b1) by done. rewrite apply_chunks_app.
  destruct (Nat.ltb_spec (length b1) applyPageSize) as [Hlt|Hge].
  - rewrite Hl1, length_take in Hlt. rewrite drop_ge in Hb2 by lia. cbn in Hb2. injection Hb2 as <-.
    apply M_ext. done.
  - assert (length (take applyPageSize (after n d)) = applyPageSize) as Hlp
      by (rewrite length_take in *; lia).
    unfold mbind, M_bind.
    destruct (apply_chunks constraints cfg committed tx b1 g d σ) as [σ1 [d1|e]] eqn:E; [|done].
    pose proof (after_page n d σ σ1 d1 _ b1 Hs eq_refl Hb1 Hlp E) as Ha.
    apply IH.
    + rewrite Ha. rewrite <- (take_drop applyPageSize (after n d)) in Hs.
      by apply (increasing_app inbox_lt) in Hs as (_ & Hs & _).
    + by rewrite Ha.
    + rewrite Ha, length_drop. rewrite length_take in Hlp. unfold applyPageSize in *. lia.
Qed.

Lemma applyRows_app a b m (σ : side F) :
  applyRows constraints cfg committed (a ++ b) m σ =
    (applyRows constraints cfg committed a m ≫= applyRows constraints cfg committed b) σ.
Proof.
  revert m σ. induction a as [|r a IH]; intros m σ; cbn [applyRows app]; [done|].
  rewrite M_assoc. apply M_ext. intros m' σ'. apply IH.
Qed.

(** The rows of the chunks, in order. *)
Definition chunk_rows (batch : list (Z * Message.t)) : list Row.t := concat (Message.Rows <$> batch.*2).

(** The rows left when the chunks of a batch are deleted. *)
Definition without (seqs : list Z) (l : list inbox_row) : list inbox_row :=
  List.filter (λ r, negb (String.eqb (in_generation r) g && existsb (Z.eqb (in_seq r)) seqs)) l.

Lemma without_nil l : without [] l = l.
Proof.
  induction l as [|r l IH]; [done|]. unfold without in *. cbn [List.filter].
  rewrite IH. cbn [existsb]. by rewrite andb_false_r.
Qed.

(** Chunks of one transaction: their rows applied in order, and themselves
    deleted. *)
Lemma apply_chunks_rows batch d σ :
  Forall (λ sm, Message.Transaction sm.2 = tx) batch →
  apply_chunks constraints cfg committed tx batch g d σ =
    (applyRows constraints cfg committed (chunk_rows batch) (tables d) ≫=
      λ t, mret (set_inbox (without batch.*1 (inbox d)) (set_tables t d))) σ.
Proof.
  revert d σ. induction batch as [|[seq m] batch IH]; intros d σ Htx; cbn [apply_chunks].
  - cbn. rewrite without_nil. by destruct d.
  - apply Forall_cons in Htx as [Hm Htx]. cbn in Hm. rewrite Hm, String.eqb_refl. cbn [negb].
    unfold chunk_rows. cbn [fmap list_fmap concat snd fst]. fold (chunk_rows batch).
    unfold mbind, M_bind. rewrite applyRows_app. unfold mbind, M_bind.
    destruct (applyRows _ _ _ (Message.Rows m) _ _) as [σ1 [t|e]]; [|done].
    rewrite IH by done. unfold mbind, M_bind. cbn [tables set_inbox set_tables inbox].
    fold (chunk_rows batch).
    destruct (applyRows _ _ _ (chunk_rows batch) _ _) as [σ2 [t'|e]]; [|done].
    unfold mret, M_ret, set_inbox, set_tables. cbn [inbox]. do 3 f_equal.
    unfold without. rewrite filter_filter. apply filter_ext_in. intros r _. cbn.
    destruct (String.eqb _ _); [|done]. cbn. by destruct (in_seq r =? seq).
Qed.

(** ** The snapshot rows *)

Definition snap_after (last : Z * Z) (d : pg V) : list snap_row :=
  List.filter (λ r, String.eqb (sn_generation r) g && snap_key_lt last (snap_key r)) (snapshot_rows d).

Lemma decode_rows_app a b l : decode_rows (a ++ b) = Ok l →
  ∃ l1 l2, decode_rows a = Ok l1 ∧ decode_rows b = Ok l2 ∧ l = l1 ++ l2.
Proof.
  unfold decode_rows. intros E%or_err_Ok. apply mapM_app_Some in E as (l1 & l2 & -> & -> & ->).
  exists l1, l2. done.
Qed.

Lemma decode_rows_length rows l : decode_rows rows = Ok l → length l = length rows.
Proof. unfold decode_rows. intros E%or_err_Ok. by apply mapM_length in E. Qed.

Lemma snap_after_page n d page : increasing snap_lt (snap_after n d) →
  page = take applyPageSize (snap_after n d) → (length page = applyPageSize)%nat →
  snap_after (default n (snap_key <$> last page)) d = drop applyPageSize (snap_after n d).
Proof.
  intros Hs Hp Hl. destruct page as [|x page _] using rev_ind; [done|].
  rewrite last_snoc. change (default n (snap_key <$> Some x)) with (snap_key x).
  pose proof (take_drop applyPageSize (snap_after n d)) as Htd. rewrite <- Hp in Htd.
  rewrite <- Htd in Hs. pose proof (filter_beyond snap_lt _ _ _ Hs) as Hf.
  assert (snap_key_lt n (snap_key x) = true) as Hx.
  { assert (x ∈ snap_after n d) as [_ Hx]%list_elem_of_In%filter_In by (rewrite <- Htd; set_solver).
    by apply andb_true_iff in Hx as [_ Hx]. }
  rewrite Htd in Hf. rewrite <- Hf. unfold snap_after at 1 2. rewrite filter_filter.
  apply filter_ext_in. intros r _. destruct (String.eqb _ _); [|done]. cbn. unfold snap_lt.
  destruct (snap_key_lt (snap_key x) (snap_key r)) eqn:E; [|by rewrite andb_false_r].
  rewrite snap_key_lt_spec in E, Hx. rewrite (proj2 (snap_key_lt_spec n (snap_key r))) by lia. done.
Qed.

Lemma set_tables_twice (a b : gmap string (table V)) d : set_tables b (set_tables a d) = set_tables b d.
Proof. done. Qed.

(** The paged loop applies every staged row as an insert, in order. *)
Lemma apply_snapshot_pass fuel n d rows σ :
  increasing snap_lt (snap_after n d) → decode_rows (snap_after n d) = Ok rows →
  (length (snap_after n d) < fuel)%nat →
  apply_snapshot constraints cfg fuel committed g n d σ =
    (applyRows constraints cfg committed (as_insert <$> rows) (tables d) ≫=
      λ t, mret (set_tables t d)) σ.
Proof.
  revert n d rows σ. induction fuel as [|fuel IH]; intros n d rows σ Hs Hb Hf; [lia|].
  cbn [apply_snapshot].
  assert (snap_page g n d = take applyPageSize (snap_after n d)) as ->.
  { unfold snap_page. fold (snap_after n d). by rewrite (order_by_increasing snap_lt). }
  rewrite <- (take_drop applyPageSize (snap_after n d)) in Hb.
  apply decode_rows_app in Hb as (b1 & b2 & Hb1 & Hb2 & ->).
  pose proof (decode_rows_length _ _ Hb1) as Hl1.
  rewrite (lift_bind _ _ _ b1) by done. rewrite fmap_app.
  unfold mbind, M_bind. rewrite applyRows_app. unfold mbind, M_bind.
  destruct (applyRows _ _ _ (as_insert <$> b1) _ _) as [σ1 [t|e]] eqn:E; [|done].
  destruct (Nat.ltb_spec (length b1) applyPageSize) as [Hlt|Hge].
  - rewrite Hl1, length_take in Hlt. rewrite drop_ge in Hb2 by lia. cbn in Hb2. by injection Hb2 as <-.
  - assert (length (take applyPageSize (snap_after n d)) = applyPageSize) as Hlp
      by (rewrite length_take in *; lia).
    pose proof (snap_after_page n d _ Hs eq_refl Hlp) as Ha.
    change (snap_after (default n (snap_key <$> last (take applyPageSize (snap_after n d)))) d)
      with (snap_after (default n (snap_key <$> last (take applyPageSize (snap_after n d)))) (set_tables t d)) in Ha.
    rewrite (IH _ _ b2).
    + unfold mbind, M_bind. cbn [tables set_tables].
      by destruct (applyRows _ _ _ (as_insert <$> b2) _ _) as [σ2 [t'|e]].
    + rewrite Ha. rewrite <- (take_drop applyPageSize (snap_after n d)) in Hs.
      by apply (increasing_app snap_lt) in Hs as (_ & Hs & _).
    + by rewrite Ha.
    + rewrite Ha, length_drop. rewrite length_take in Hlp. unfold applyPageSize in *. lia.
Qed.
End paging.
