(* ===== verification/TargetSpec.v ===== *)
(** * What the target promises

    The contract of [target.store] without SQL, JSON, primary keys or pages: a
    replica holds the messages of the open batch, the rows of the running
    snapshot and the replicated tables, and a message is applied to them in one
    step.  [store_refines] shows that the code of target.go implements it, with
    the same results, errors included. *)

From S2P Require Import Prelude Bytes Sorting Encoding Sha256 GoPath Json JsonStruct Event ServerConfig Schema Target TargetInv TargetPaging.

#[local] Opaque marshal unmarshal sha256.

Record replica (V : Type) := mkReplica {
  rp_sync : sync_state.t;
  rp_batch : list Message.t;       (** the open transaction or file, in order *)
  rp_scope : list scope_row;
  rp_snapshot : list Row.t;        (** the rows of the running snapshot, in order *)
  rp_seen : list string;           (** the hash of every message received *)
  rp_stage : list stage_row;
  rp_tables : gmap string (table V)
}.
Arguments mkReplica {V} _ _ _ _ _ _ _.
Arguments rp_sync {V} _.
Arguments rp_batch {V} _.
Arguments rp_scope {V} _.
Arguments rp_snapshot {V} _.
Arguments rp_seen {V} _.
Arguments rp_stage {V} _.
Arguments rp_tables {V} _.

(** Two computations that end alike: the same side effects, and the same error
    or related results. *)
Definition sim {F A B} (R : A → B → Prop) (x : M F A) (y : M F B) : Prop := ∀ σ,
  match x σ, y σ with
  | (σ1, Ok a), (σ2, Ok b) => σ1 = σ2 ∧ R a b
  | (σ1, Err e1), (σ2, Err e2) => σ1 = σ2 ∧ e1 = e2
  | _, _ => False
  end.

Section spec.
Context {V F : Type} `{PG : Postgres V} `{FS : FileStore F}.
Context (constraints : gmap string (table V) → bool) (cfg : Syncer).
Implicit Types (σ : side F) (d : pg V) (r : replica V).

Definition with_batch b r : replica V :=
  mkReplica (rp_sync r) b (rp_scope r) (rp_snapshot r) (rp_seen r) (rp_stage r) (rp_tables r).
Definition with_snapshot scope rows r : replica V :=
  mkReplica (rp_sync r) (rp_batch r) scope rows (rp_seen r) (rp_stage r) (rp_tables r).
Definition with_schema stage tables r : replica V :=
  mkReplica (rp_sync r) (rp_batch r) (rp_scope r) (rp_snapshot r) (rp_seen r) stage tables.

(** The part of the database that schema changes are about. *)
Definition schema_view r : pg V := mkPg (rp_sync r) [] [] [] [] (rp_stage r) (rp_tables r).

Definition spec_schema (f : pg V → result (pg V)) r : result (replica V) :=
  d ← f (schema_view r); Ok (with_schema (schema_stage d) (tables d) r).

(** The content of a file from the messages of its batch. *)
Fixpoint spec_assemble (tx : string) (end_ : FileChange.t) (batch : list Message.t)
    (seenBegin : bool) (expectedChunk : Z) (content : string) : result (bool * Z * string) :=
  match batch with
  | [] => Ok (seenBegin, expectedChunk, content)
  | m :: batch' =>
      f ← or_err (Message.File m) (errorf "file batch metadata is inconsistent");
      _ ← fail_if (negb (String.eqb (Message.Transaction m) tx) || negb (same_file f end_))
            (errorf "file batch metadata is inconsistent");
      if String.eqb (Message.Kind m) "file_begin" then
        _ ← fail_if (seenBegin || negb (expectedChunk =? 0)) (errorf "file batch has duplicate begin");
        spec_assemble tx end_ batch' true expectedChunk content
      else if String.eqb (Message.Kind m) "file_chunk" then
        _ ← fail_if (negb seenBegin || negb (FileChange.Chunk f =? expectedChunk) ||
                     (FileChange.Chunks end_ <=? expectedChunk)) (errorf "file chunks are not contiguous");
        decoded ← or_err (base64_decode (FileChange.Data f)) (errorf "file chunk is not valid base64");
        _ ← fail_if (MaxFileBytes (Storage cfg) <? i64 (slen decoded + slen content))
              (errorf "file content exceeds configured limit");
        spec_assemble tx end_ batch' seenBegin (u32 (expectedChunk + 1)) (content +:+ decoded)
      else Err (errorf "unexpected message in file batch")
  end.

Definition spec_file (m : Message.t) (end_ : FileChange.t) (batch : list Message.t) : M F unit :=
  _ ← guard (negb (one_of (FileChange.Operation end_) ["create"; "update"]))
        (errorf "file_end operation must be create or update");
  _ ← guard ((FileChange.Size end_ <? 0) || (MaxFileBytes (Storage cfg) <? FileChange.Size end_) ||
             String.eqb (FileChange.SHA256 end_) "" || (FileChange.Chunks end_ =? 0))
        (errorf "file metadata exceeds configured limits");
  '(seenBegin, expectedChunk, content) ← lift (spec_assemble (Message.Transaction m) end_ batch false 0 "");
  _ ← guard (negb seenBegin || negb (expectedChunk =? FileChange.Chunks end_) ||
             negb (slen content =? FileChange.Size end_) ||
             negb (String.eqb (hex_encode (sha256 content)) (FileChange.SHA256 end_)))
        (errorf "file size, chunk count or SHA-256 does not match");
  if AllowsFileOperation cfg (FileChange.Operation end_) then
    putFile (FileChange.Path end_) content (FileChange.Mode end_) (FileChange.ModTimeUnixNano end_)
  else mret tt.

(** What each kind of message does to the replica. *)
Definition spec_message (committed : gmap string (table V)) (m : Message.t) (phase : string) r :
    M F (replica V * string) :=
  let kind := Message.Kind m in
  if String.eqb kind "snapshot_begin" then
    scope ← lift (insert_scope cfg 0 (Message.Tables m) []);
    mret (with_snapshot scope [] r, "snapshot")
  else if String.eqb kind "schema" then
    _ ← guard (not_phase phase "snapshot" && not_phase phase "stream")
          (errorf "schema received outside a synchronization phase");
    if negb (String.eqb (Message.SchemaVersion m) "") then
      r ← lift (spec_schema (stageSchema cfg m) r); mret (r, phase)
    else mret (r, phase)
  else if String.eqb kind "snapshot_rows" then
    _ ← guard (not_phase phase "snapshot") (errorf "snapshot rows received outside snapshot");
    mret (with_snapshot (rp_scope r) (rp_snapshot r ++ Message.Rows m) r, phase)
  else if String.eqb kind "snapshot_end" then
    _ ← guard (not_phase phase "snapshot") (errorf "snapshot_end received outside snapshot");
    r ← lift (if negb (String.eqb (Message.SchemaVersion m) "") then
                spec_schema (applyStagedSchemas cfg (Message.Generation m) (Message.SchemaVersion m)) r
              else Ok r);
    t ← lift (clear_tables constraints (reverse (order_by scope_lt (rp_scope r))) (rp_tables r));
    t ← applyRows constraints cfg committed (as_insert <$> rp_snapshot r) t;
    mret (with_snapshot [] [] (with_schema (rp_stage r) t r), "stream")
  else if String.eqb kind "schema_end" then
    _ ← guard (not_phase phase "stream") (errorf "schema_end received outside stream");
    r ← lift (spec_schema (applyStagedSchemas cfg (Message.Generation m) (Message.SchemaVersion m)) r);
    mret (r, phase)
  else if String.eqb kind "transaction_rows" then
    _ ← guard (not_phase phase "stream") (errorf "transaction rows received before snapshot publication");
    mret (with_batch (rp_batch r ++ [m]) r, phase)
  else if String.eqb kind "transaction_end" then
    _ ← guard (not_phase phase "stream") (errorf "transaction end received before snapshot publication");
    t ← applyRows constraints cfg committed (concat (Message.Rows <$> rp_batch r)) (rp_tables r);
    mret (with_batch [] (with_schema (rp_stage r) t r), phase)
  else if one_of kind ["file_begin"; "file_chunk"] then
    _ ← guard (not_phase phase "stream" || negb (has_files cfg))
          (errorf "file event received before snapshot or without file storage");
    mret (with_batch (rp_batch r ++ [m]) r, phase)
  else if String.eqb kind "file_end" then
    _ ← guard (not_phase phase "stream" || negb (has_files cfg))
          (errorf "file_end received before snapshot or without file storage");
    f ← lift (or_err (Message.File m) (errorf "nil file"));
    _ ← spec_file m f (rp_batch r);
    mret (with_batch [] r, phase)
  else if String.eqb kind "file_delete" then
    f ← lift (or_err (Message.File m) (errorf "nil file"));
    _ ← guard (not_phase phase "stream" || negb (has_files cfg) ||
               negb (String.eqb (FileChange.Operation f) "delete")) (errorf "invalid file_delete event");
    if AllowsFileOperation cfg "delete" then _ ← deleteFile (FileChange.Path f); mret (r, phase)
    else mret (r, phase)
  else fail (errorf "unsupported message kind").

Definition spec_cursor r : cursor := read_cursor (schema_view r).

(** A message of a new generation starts from an empty replica with the old
    tables. *)
Definition spec_enter (m : Message.t) r : result (cursor * replica V) :=
  if String.eqb (Message.Generation m) (sync_state.generation (rp_sync r)) then Ok (spec_cursor r, r)
  else
    _ ← fail_if (negb (Message.Seq m =? 1) || negb (String.eqb (Message.Kind m) "snapshot_begin"))
          (errorf "new generation must begin with snapshot_begin sequence 1");
    Ok (mkCursor (Message.Generation m) 0 0 (Message.SchemaVersion m) "" "" "",
        mkReplica (rp_sync r) [] [] [] [] [] (rp_tables r)).

(** A message that was received before must be the same one. *)
Definition spec_duplicate (m : Message.t) (hash : string) r : result unit :=
  if Message.Seq m =? 0 then Ok tt
  else
    match rp_seen r !! Z.to_nat (Message.Seq m - 1) with
    | Some h => fail_if (negb (String.eqb h hash))
                  (errorf "sequence was already stored with a different payload")
    | None => Ok tt
    end.

Definition spec_store (m : Message.t) (hash : string) r : M F (replica V) :=
  _ ← guard (max_int64 <? Message.Seq m) (errorf "message sequence exceeds PostgreSQL bigint");
  '(c, r') ← lift (spec_enter m r);
  if Message.Seq m <=? cu_received c then
    _ ← lift (spec_duplicate m hash r');
    mret r'
  else
    _ ← guard (negb (Message.Seq m =? cu_received c + 1)) (errorf "non-contiguous message");
    _ ← lift (if HasPrefix (Message.Kind m) "file_" then validateFileMessage cfg m else Ok tt);
    pending ← lift (schema_barrier m c);
    open ← lift (transaction_guard m (cu_open c));
    '(r'', phase) ← spec_message (rp_tables r) m (cu_phase c) r';
    let refresh := String.eqb (Message.Kind m) "schema_end" in
    mret (mkReplica
            (sync_state.mk (Message.Generation m) (Message.Seq m)
               (if completes (Message.Kind m) then Message.Seq m else cu_applied c) phase
               (open_after (Message.Kind m) open)
               (if refresh then pending else cu_schema_version c) (if refresh then "" else pending)
               (sync_state.repair_authorized (rp_sync r'')))
            (rp_batch r'') (rp_scope r'') (rp_snapshot r'') (rp_seen r'' ++ [hash]) (rp_stage r'')
            (rp_tables r'')).

(** ** The replica a database holds *)

Definition chunk_of (x : inbox_row) : option Message.t := unmarshal (in_payload x).
Definition row_of (x : snap_row) : option Row.t := parse (sn_payload x) ≫= Row_of.

Definition abs d : replica V :=
  mkReplica (sync d) (omap chunk_of (inbox d)) (snapshot_scope d) (omap row_of (snapshot_rows d))
    (ha_hash <$> message_hash d) (schema_stage d) (tables d).

(** What is staged belongs to the generation and the open batch, in order. *)
Record staged_ok (g : string) (n : Z) (open : string) d : Prop := {
  so_inbox : Forall (λ x, in_generation x = g ∧ 0 < in_seq x ≤ n) (inbox d);
  so_increasing : increasing inbox_lt (inbox d);
  so_chunks : ∃ batch, mapM chunk_of (inbox d) = Some batch ∧
                Forall (λ m, Message.Transaction m = open) batch;
  so_closed : open = "" → inbox d = [];
  so_snap : Forall (λ x, sn_generation x = g ∧ 0 < sn_seq x ≤ n ∧ 0 ≤ sn_ordinal x) (snapshot_rows d);
  so_snap_increasing : increasing snap_lt (snapshot_rows d);
  so_rows : ∃ rows, mapM row_of (snapshot_rows d) = Some rows
}.

Definition hash_ok (g : string) (n : Z) d : Prop :=
  Forall (λ x, ha_generation x = g) (message_hash d) ∧ ha_seq <$> message_hash d = seqZ 1 n.

Record TInv d : Prop := {
  ti_staged : staged_ok (sync_state.generation (sync d)) (sync_state.received_seq (sync d))
                (sync_state.open_transaction (sync d)) d;
  ti_hash : hash_ok (sync_state.generation (sync d)) (sync_state.received_seq (sync d)) d;
  ti_range : 0 ≤ sync_state.applied_seq (sync d) ≤ sync_state.received_seq (sync d) ≤ max_int64
}.

(** ** Lists *)

Lemma mapM_omap {A B} (f : A → option B) l k : mapM f l = Some k → omap f l = k.
Proof.
  revert k. induction l as [|x l IH]; intros k; cbn; [by intros [= <-]|].
  destruct (f x) as [y|]; [|done]. cbn. destruct (mapM f l) as [k'|]; [|done]. cbn.
  intros [= <-]. f_equal. by apply IH.
Qed.

Lemma omap_app_snoc {A B} (f : A → option B) l x y : f x = Some y → omap f (l ++ [x]) = omap f l ++ [y].
Proof. intros E. rewrite omap_app. cbn. by rewrite E. Qed.

Lemma mapM_snoc {A B} (f : A → option B) l k x y : mapM f l = Some k → f x = Some y →
  mapM f (l ++ [x]) = Some (k ++ [y]).
Proof.
  revert k. induction l as [|z l IH]; intros k; cbn.
  - intros [= <-] ->. done.
  - destruct (f z) as [w|]; [|done]. cbn. destruct (mapM f l) as [k'|]; [|done]. cbn.
    intros [= <-] E. by rewrite (IH k').
Qed.

Lemma mapM_app_intro {A B} (f : A → option B) l1 l2 k1 k2 : mapM f l1 = Some k1 → mapM f l2 = Some k2 →
  mapM f (l1 ++ l2) = Some (k1 ++ k2).
Proof.
  revert k1. induction l1 as [|z l IH]; intros k; cbn; [by intros [= <-]|].
  destruct (f z) as [w|]; [|done]. cbn. destruct (mapM f l) as [k'|]; [|done]. cbn.
  intros [= <-] E. by rewrite (IH k').
Qed.

Lemma insert_pk_fresh {A K} `{EqDecision K} (key : A → K) x l :
  Forall (λ y, key y ≠ key x) l → insert_pk key x l = Ok (l ++ [x]).
Proof.
  intros Hl. unfold insert_pk. destruct (existsb _ l) eqn:E; [|done]. exfalso.
  apply existsb_exists in E as (y & Hy & Hk%bool_decide_eq_true).
  rewrite Forall_forall in Hl. by apply (Hl y); [apply list_elem_of_In|].
Qed.

Lemma mapM_cons_Some {A B} (f : A → option B) x l k : mapM f (x :: l) = Some k →
  ∃ y k', k = y :: k' ∧ f x = Some y ∧ mapM f l = Some k'.
Proof.
  cbn. destruct (f x) as [y|]; [|done]. cbn. destruct (mapM f l) as [k'|]; [|done]. cbn.
  intros [= <-]. eauto.
Qed.

(** ** Schemas *)

Lemma stageSchema_view m d : stageSchema cfg m d =
  (d' ← stageSchema cfg m (schema_view (abs d)); Ok (set_stage (schema_stage d') d)).
Proof.
  unfold stageSchema. destruct (or_err _ _) as [s|e]; [|done]. go.
  destruct (_ || _); [done|]. destruct (bool_decide _); [done|]. cbn.
  by destruct (insert_pk _ _ _).
Qed.

Lemma applyStagedSchemas_view g v d : applyStagedSchemas cfg g v d =
  (d' ← applyStagedSchemas cfg g v (schema_view (abs d));
   Ok (set_stage (schema_stage d') (set_tables (tables d') d))).
Proof.
  unfold applyStagedSchemas. cbn [schema_view abs schema_stage rp_stage rp_tables tables].
  destruct (or_err _ _) as [s|e]; [|done]. go. destruct (negb _); [done|].
  by destruct (add_schemas _ _ _).
Qed.

(** ** Files *)

Lemma assemble_spec tx end_ rows batch b n c : mapM chunk_of rows = Some batch →
  assemble cfg tx end_ rows b n c = spec_assemble tx end_ batch b n c.
Proof.
  revert batch b n c. induction rows as [|x rows IH]; intros batch b n c Hm.
  { by injection Hm as <-. }
  apply mapM_cons_Some in Hm as (m & k & -> & Hx & Hk). unfold chunk_of in Hx.
  cbn [assemble]. rewrite Hx. go. cbn [spec_assemble].
  destruct (Message.File m) as [f|]; [|done]. go.
  destruct (_ || _); [done|]. destruct (String.eqb _ "file_begin").
  { destruct (_ || _); [done|]. by apply IH. }
  destruct (String.eqb _ "file_chunk"); [|done]. destruct (_ || _); [done|].
  destruct (base64_decode _) as [s|]; [|done]. go. destruct (_ <? _); [done|]. by apply IH.
Qed.

(** ** The staged data *)

Section staged.
Context (g : string) (n : Z) (open : string) (d : pg V) (Hd : staged_ok g n open d).

Lemma staged_batch : mapM chunk_of (inbox d) = Some (rp_batch (abs d)) ∧
  Forall (λ m, Message.Transaction m = open) (rp_batch (abs d)).
Proof.
  destruct (so_chunks _ _ _ _ Hd) as (batch & Hm & Ht). cbn [abs rp_batch].
  by rewrite (mapM_omap _ _ _ Hm).
Qed.

Lemma staged_inbox_filter :
  List.filter (λ x, String.eqb (in_generation x) g) (inbox d) = inbox d.
Proof.
  apply filter_all. eapply Forall_impl; [apply Hd|]. intros x [-> _]. apply String.eqb_refl.
Qed.

Lemma staged_inbox_cleared :
  List.filter (λ x, negb (String.eqb (in_generation x) g)) (inbox d) = [].
Proof.
  apply filter_none. eapply Forall_impl; [apply Hd|]. intros x [-> _]. by rewrite String.eqb_refl.
Qed.

Lemma applyFile_spec m f σ : Message.Generation m = g →
  applyFile cfg m f d σ = spec_file m f (rp_batch (abs d)) σ.
Proof.
  intros Hg. unfold applyFile, spec_file. rewrite Hg, staged_inbox_filter, (order_by_increasing inbox_lt) by apply Hd.
  by rewrite (assemble_spec _ _ _ _ _ _ _ (proj1 staged_batch)).
Qed.

Lemma decode_chunks_staged : ∃ batch, decode_chunks (inbox d) = Ok batch ∧ batch.*2 = rp_batch (abs d).
Proof.
  destruct staged_batch as [Hm _]. unfold decode_chunks. revert Hm. generalize (rp_batch (abs d)).
  induction (inbox d) as [|x l IH]; intros k Hk.
  - injection Hk as <-. by exists [].
  - apply mapM_cons_Some in Hk as (m & k' & -> & Hx & Hk). destruct (IH _ Hk) as (b & Hb%or_err_Ok & Hb2).
    exists ((in_seq x, m) :: b). unfold chunk_of in Hx. cbn. rewrite Hx. cbn. rewrite Hb. cbn.
    by rewrite Hb2.
Qed.

Lemma without_all : without g (in_seq <$> inbox d) (inbox d) = [].
Proof.
  apply filter_none. apply Forall_forall. intros x Hx.
  destruct (proj1 (Forall_forall _ _) (so_inbox _ _ _ _ Hd) x Hx) as [-> _].
  rewrite String.eqb_refl. cbn. apply negb_false_iff, existsb_exists. exists (in_seq x).
  split; [|apply Z.eqb_refl]. apply list_elem_of_In, list_elem_of_fmap. eauto.
Qed.

Lemma after_all : after g (-1) d = inbox d.
Proof.
  apply filter_all. eapply Forall_impl; [apply Hd|]. intros x [-> ?]. rewrite String.eqb_refl.
  apply Z.ltb_lt. lia.
Qed.

(** [transaction_end] applies the rows of the open batch and empties it. *)
Lemma apply_inbox_staged committed σ :
  apply_inbox constraints cfg (S (length (inbox d))) committed open g (-1) d σ =
    (applyRows constraints cfg committed (concat (Message.Rows <$> rp_batch (abs d))) (tables d) ≫=
      λ t, mret (set_inbox [] (set_tables t d))) σ.
Proof.
  destruct decode_chunks_staged as (batch & Hb & Hb2).
  rewrite (apply_inbox_pass _ _ _ _ _ _ _ _ batch); rewrite ?after_all; [|apply Hd|done|lia].
  rewrite apply_chunks_rows.
  - unfold chunk_rows. by rewrite Hb2, (decode_chunks_seqs _ _ Hb), without_all.
  - apply (proj1 (Forall_fmap snd (λ m, Message.Transaction m = open) batch)).
    rewrite Hb2. apply staged_batch.
Qed.

Lemma staged_rows : mapM row_of (snapshot_rows d) = Some (rp_snapshot (abs d)).
Proof. destruct (so_rows _ _ _ _ Hd) as (rows & Hm). cbn [abs rp_snapshot]. by rewrite (mapM_omap _ _ _ Hm). Qed.

Lemma snap_after_all : snap_after g (-1, -1) d = snapshot_rows d.
Proof.
  apply filter_all. eapply Forall_impl; [apply Hd|]. intros x (-> & ? & ?). rewrite String.eqb_refl.
  apply snap_key_lt_spec. cbn. lia.
Qed.

(** [snapshot_end] inserts every row of the snapshot. *)
Lemma apply_snapshot_staged committed t σ :
  apply_snapshot constraints cfg (S (length (snapshot_rows d))) committed g (-1, -1) (set_tables t d) σ =
    (applyRows constraints cfg committed (as_insert <$> rp_snapshot (abs d)) t ≫=
      λ t', mret (set_tables t' d)) σ.
Proof.
  pose proof snap_after_all as Ha. change (snap_after g (-1, -1) d) with (snap_after g (-1, -1) (set_tables t d)) in Ha.
  rewrite (apply_snapshot_pass _ _ _ _ _ _ _ (rp_snapshot (abs d))); rewrite ?Ha; [done|apply Hd| |lia].
  unfold decode_rows. change (or_err (mapM row_of (snapshot_rows d)) (errorf "invalid row") = Ok (rp_snapshot (abs d))).
  by rewrite staged_rows.
Qed.
End staged.

(** ** One message *)

(** The rows of a message as [snapshot_rows] holds them. *)
Fixpoint snap_of (g : string) (seq ordinal : Z) (rows : list Row.t) : list snap_row :=
  match rows with
  | [] => []
  | x :: rows' => mkSnap g seq ordinal (print (Row_json x)) :: snap_of g seq (ordinal + 1) rows'
  end.

Lemma insert_rows_snap g seq ordinal rows l :
  Forall (λ x, snap_key_lt (snap_key x) (seq, ordinal) = true) l →
  insert_rows g seq ordinal rows l = Ok (l ++ snap_of g seq ordinal rows).
Proof.
  revert ordinal l. induction rows as [|x rows IH]; intros ordinal l Hl; cbn [insert_rows snap_of].
  { by rewrite app_nil_r. }
  rewrite insert_pk_fresh.
  - go. rewrite IH; [by rewrite <- app_assoc|]. apply Forall_app. split.
    + eapply Forall_impl; [exact Hl|]. intros y. rewrite !snap_key_lt_spec. cbn. lia.
    + constructor; [|done]. apply snap_key_lt_spec. cbn. lia.
  - eapply Forall_impl; [exact Hl|]. intros y. rewrite snap_key_lt_spec. cbn. intros ? [=]. lia.
Qed.

Lemma snap_of_range g seq ordinal rows :
  Forall (λ x, sn_generation x = g ∧ sn_seq x = seq ∧ ordinal ≤ sn_ordinal x) (snap_of g seq ordinal rows).
Proof.
  revert ordinal. induction rows as [|x rows IH]; intros ordinal; cbn; constructor.
  - cbn. split_and!; [done|done|lia].
  - eapply Forall_impl; [apply IH|]. cbn. intros ? (? & ? & ?). split_and!; [done|done|lia].
Qed.

Lemma snap_of_increasing g seq ordinal rows : increasing snap_lt (snap_of g seq ordinal rows).
Proof.
  revert ordinal. induction rows as [|x rows IH]; intros ordinal; cbn; constructor; [apply IH|].
  eapply Forall_impl; [apply snap_of_range|]. intros y (_ & Hs & Ho). apply snap_key_lt_spec. cbn. lia.
Qed.

Lemma row_of_print g seq ordinal x : Row_ok x = true → row_of (mkSnap g seq ordinal (print (Row_json x))) = Some x.
Proof.
  intros Hx. unfold row_of. cbn [sn_payload]. rewrite parse_print by by apply Row_json_ok. cbn.
  apply Row_round. unfold Row_ok in Hx. by bool_prop.
Qed.

Lemma snap_of_rows g seq ordinal rows : forallb Row_ok rows = true →
  mapM row_of (snap_of g seq ordinal rows) = Some rows.
Proof.
  revert ordinal. induction rows as [|x rows IH]; intros ordinal Hx; [done|].
  apply andb_true_iff in Hx as [Hx Hr]. cbn [snap_of mapM]. rewrite row_of_print by done. cbn.
  by rewrite IH.
Qed.

(** ** Simulation *)

Lemma sim_bind {A B A' B'} (R : A → B → Prop) (S : A' → B' → Prop) (x : M F A) (y : M F B) f k :
  sim R x y → (∀ σ σ' a b, x σ = (σ', Ok a) → R a b → sim S (f a) (k b)) → sim S (x ≫= f) (y ≫= k).
Proof.
  intros Hxy Hfk σ. specialize (Hxy σ). unfold mbind, M_bind.
  destruct (x σ) as [σ1 [a|e]] eqn:E, (y σ) as [σ2 [b|e']]; try done.
  destruct Hxy as [-> Hab]. by eapply Hfk.
Qed.

Lemma sim_same {A A' B'} (S : A' → B' → Prop) (x y : M F A) f k :
  (∀ σ, x σ = y σ) → (∀ a, sim S (f a) (k a)) → sim S (x ≫= f) (y ≫= k).
Proof.
  intros Hxy Hfk σ. unfold mbind, M_bind. rewrite Hxy. destruct (y σ) as [σ1 [a|e]]; [|done]. by apply Hfk.
Qed.

Lemma sim_guard {A' B'} (S : A' → B' → Prop) b e (f : unit → M F A') k :
  (b = false → sim S (f tt) (k tt)) → sim S (guard b e ≫= f) (guard b e ≫= k).
Proof. intros Hfk σ. destruct b; [done|]. by apply Hfk. Qed.

Lemma sim_lift {A A' B'} (S : A' → B' → Prop) (r : result A) (f : A → M F A') k :
  (∀ a, r = Ok a → sim S (f a) (k a)) → sim S (lift r ≫= f) (lift r ≫= k).
Proof. intros Hfk σ. destruct r; [|done]. by apply Hfk. Qed.

Lemma sim_lift2 {A B A' B'} (R : A → B → Prop) (S : A' → B' → Prop) (r : result A) (s : result B)
    (f : A → M F A') k :
  match r, s with Ok a, Ok b => R a b | Err e, Err e' => e = e' | _, _ => False end →
  (∀ a b, R a b → sim S (f a) (k b)) → sim S (lift r ≫= f) (lift s ≫= k).
Proof.
  intros Hrs Hfk σ. destruct r, s; try done. by apply Hfk.
Qed.

Lemma sim_ret {A B} (S : A → B → Prop) a b : S a b → sim (F:=F) S (mret a) (mret b).
Proof. by intros ? σ. Qed.

Lemma sim_ext {A B} (S : A → B → Prop) (x x' : M F A) (y : M F B) :
  (∀ σ, x σ = x' σ) → sim S x' y → sim S x y.
Proof. intros E Hs σ. rewrite E. apply Hs. Qed.

Lemma Message_ok_rows m : Message_ok m = true → forallb Row_ok (Message.Rows m) = true ∧ 0 ≤ Message.Seq m.
Proof. unfold Message_ok. intros Hm. bool_prop. split; [done|]. by apply (uint_ok_range 64). Qed.

(** What the guard on the open transaction lets through. *)
Lemma transaction_guard_Ok m open open' : transaction_guard m open = Ok open' →
  (one_of (Message.Kind m) ["transaction_rows"; "file_begin"; "file_chunk"] = true →
     open' = Message.Transaction m ∧ open' ≠ "" ∧ (open = "" ∨ open = Message.Transaction m)) ∧
  (one_of (Message.Kind m) ["transaction_rows"; "file_begin"; "file_chunk"] = false → open' = open) ∧
  (one_of (Message.Kind m) ["transaction_end"; "file_end"] = true → open = Message.Transaction m).
Proof.
  unfold transaction_guard, open_or_same, one_of. cbn [existsb]. rewrite !orb_false_r.
  destruct (String.eqb_spec (Message.Kind m) "transaction_rows") as [->|].
  { go. destruct (String.eqb_spec (Message.Transaction m) "") as [|Ht]; [done|].
    destruct (String.eqb_spec open "") as [->|]; [naive_solver|].
    destruct (String.eqb_spec open (Message.Transaction m)); naive_solver. }
  destruct (String.eqb_spec (Message.Kind m) "transaction_end") as [->|].
  { go. destruct (String.eqb _ "") eqn:Ht; [done|].
    destruct (String.eqb_spec open (Message.Transaction m)); naive_solver. }
  cbn [orb]. destruct (String.eqb _ "file_begin" || String.eqb _ "file_chunk") eqn:Hk.
  { go. destruct (String.eqb_spec (Message.Transaction m) "") as [|Ht]; [done|].
    destruct (no_file m); [done|]. cbn [orb].
    destruct (String.eqb_spec open "") as [->|].
    - intros [= <-]. split_and!; [naive_solver|done|]. intros He%String.eqb_eq. by rewrite He in Hk.
    - destruct (String.eqb_spec open (Message.Transaction m)); naive_solver. }
  destruct (String.eqb_spec (Message.Kind m) "file_end").
  { go. destruct (String.eqb _ ""), (no_file m); try done.
    destruct (String.eqb_spec open (Message.Transaction m)); naive_solver. }
  destruct (String.eqb _ "file_delete"); [|destruct (String.eqb _ "schema")]; go;
    repeat case_match; naive_solver.
Qed.

(** A chunk added to the open batch. *)
Lemma staged_chunk g n open d m raw : staged_ok g n open d → Message.Generation m = g → 0 ≤ n < Message.Seq m →
  unmarshal raw = Some m → Message.Transaction m ≠ "" → (open = "" ∨ open = Message.Transaction m) →
  ∃ d', insert_inbox m raw d = Ok d' ∧ staged_ok g (Message.Seq m) (Message.Transaction m) d' ∧
    abs d' = with_batch (rp_batch (abs d) ++ [m]) (abs d).
Proof.
  intros Hd Hg Hn Hraw Ht Hopen. destruct (so_chunks _ _ _ _ Hd) as (batch & Hb & Htx).
  set (x := mkInbox (Message.Generation m) (Message.Seq m) (Message.ID m) raw).
  exists (set_inbox (inbox d ++ [x]) d). split_and!.
  - unfold insert_inbox. rewrite insert_pk_fresh; [done|]. eapply Forall_impl; [apply Hd|].
    cbn. intros y [_ ?] [=]. lia.
  - split; cbn [inbox set_inbox snapshot_rows]; try apply Hd.
    + apply Forall_app. split; [|constructor; [cbn; split; [done|lia]|done]].
      eapply Forall_impl; [apply Hd|]. cbn. intros y [? ?]. split; [done|lia].
    + apply (increasing_app inbox_lt). split_and!; [apply Hd|repeat constructor|].
      intros y z Hy ->%list_elem_of_singleton. apply Z.ltb_lt.
      destruct (proj1 (Forall_forall _ _) (so_inbox _ _ _ _ Hd) y Hy) as [_ ?]. cbn. lia.
    + exists (batch ++ [m]). split; [by apply mapM_snoc|]. apply Forall_app. split; [|by constructor].
      destruct Hopen as [->| ->]; [|done]. rewrite (so_closed _ _ _ _ Hd eq_refl) in Hb.
      by injection Hb as <-.
    + done.
    + eapply Forall_impl; [apply Hd|]. cbn. intros y (? & ? & ?). split_and!; [done|lia..].
  - unfold abs, with_batch. cbn [inbox set_inbox rp_batch]. rewrite (omap_app_snoc _ _ _ m) by done. done.
Qed.

(** What is staged stays so when the received number grows. *)
Lemma staged_grow g n n' open d d' : staged_ok g n open d → n ≤ n' →
  inbox d' = inbox d → snapshot_rows d' = snapshot_rows d → staged_ok g n' open d'.
Proof.
  intros Hd Hn Hi Hs. split; rewrite ?Hi, ?Hs; try apply Hd; (eapply Forall_impl; [apply Hd|]); cbn;
    intros y; intuition lia.
Qed.

Lemma staged_empty g n open d d' : staged_ok g n open d → inbox d' = [] →
  snapshot_rows d' = snapshot_rows d → staged_ok g n "" d'.
Proof.
  intros Hd Hi Hs. split; rewrite ?Hi, ?Hs; try apply Hd; try done; [constructor|].
  by exists [].
Qed.

Lemma staged_no_snapshot g n open d d' : staged_ok g n open d → inbox d' = inbox d →
  snapshot_rows d' = [] → staged_ok g n open d'.
Proof.
  intros Hd Hi Hs. split; rewrite ?Hi, ?Hs; try apply Hd; try done; [constructor|].
  by exists [].
Qed.

(** ** One message *)

Section message.
Context (g : string) (n : Z) (open open' : string) (d : pg V) (m : Message.t) (raw : string).
Context (Hd : staged_ok g n open d) (Hg : Message.Generation m = g) (Hn : 0 ≤ n < Message.Seq m).
Context (Hraw : unmarshal raw = Some m) (Hok : Message_ok m = true).
Context (Hopen : transaction_guard m open = Ok open').
Context (committed : gmap string (table V)).

(** The result of a message: the replica it leads to, with what is staged in
    order. *)
Definition message_sim (a : pg V * string) (b : replica V * string) : Prop :=
  b = (abs a.1, a.2) ∧ staged_ok g (Message.Seq m) (open_after (Message.Kind m) open') a.1.

Lemma open_same : one_of (Message.Kind m) ["transaction_rows"; "file_begin"; "file_chunk"] = false →
  one_of (Message.Kind m) ["transaction_end"; "file_end"] = false →
  open_after (Message.Kind m) open' = open.
Proof.
  intros H1 H2. apply transaction_guard_Ok in Hopen as (_ & Ho & _). unfold open_after. rewrite H2. by apply Ho.
Qed.

Lemma sim_insert_inbox phase :
  one_of (Message.Kind m) ["transaction_rows"; "file_begin"; "file_chunk"] = true →
  one_of (Message.Kind m) ["transaction_end"; "file_end"] = false →
  sim message_sim (d ← lift (insert_inbox m raw d); mret (d, phase))
    (mret (with_batch (rp_batch (abs d) ++ [m]) (abs d), phase) : M F (replica V * string)).
Proof.
  intros Hk Hk'. destruct (transaction_guard_Ok _ _ _ Hopen) as (Ho & _ & _).
  destruct (Ho Hk) as (Ho' & Ht & Hc). rewrite Ho' in Ht.
  destruct (staged_chunk g n open d m raw Hd Hg Hn Hraw Ht Hc) as (d' & -> & Hs & Ha).
  apply sim_ret. split; cbn; [by rewrite Ha|]. unfold open_after. by rewrite Hk', Ho'.
Qed.

Lemma sim_snapshot_rows phase : Message.Kind m = "snapshot_rows" →
  sim message_sim
    (l ← lift (insert_rows (Message.Generation m) (Message.Seq m) 0 (Message.Rows m) (snapshot_rows d));
     mret (set_snap l d, phase))
    (mret (with_snapshot (rp_scope (abs d)) (rp_snapshot (abs d) ++ Message.Rows m) (abs d), phase)
      : M F (replica V * string)).
Proof.
  intros Hk. destruct (Message_ok_rows _ Hok) as [Hr _]. rewrite insert_rows_snap.
  2:{ eapply Forall_impl; [apply Hd|]. intros x (_ & ? & _). apply snap_key_lt_spec. cbn. lia. }
  pose proof (snap_of_rows (Message.Generation m) (Message.Seq m) 0 _ Hr) as Hrows.
  apply sim_ret. split.
  - cbn. unfold abs, with_snapshot. cbn [snapshot_rows set_snap rp_snapshot]. rewrite omap_app.
    by rewrite (mapM_omap _ _ _ Hrows).
  - rewrite open_same by by rewrite Hk. cbn [fst].
    destruct (so_rows _ _ _ _ Hd) as (rows & Hs).
    split; cbn [inbox set_snap snapshot_rows]; try apply Hd.
    + eapply Forall_impl; [apply Hd|]. cbn. intros y [? ?]. split; [done|lia].
    + apply Forall_app. split; (eapply Forall_impl; [apply Hd || apply snap_of_range|]); cbn;
        intros y (? & ? & ?); split_and!; (congruence || lia).
    + apply (increasing_app snap_lt). split_and!; [apply Hd|apply snap_of_increasing|].
      intros y z Hy Hz. apply snap_key_lt_spec. cbn.
      destruct (proj1 (Forall_forall _ _) (so_snap _ _ _ _ Hd) y Hy) as (_ & ? & _).
      destruct (proj1 (Forall_forall _ _) (snap_of_range _ _ _ _) z Hz) as (_ & -> & _). lia.
    + exists (rows ++ Message.Rows m). by apply mapM_app_intro.
Qed.

Lemma sim_transaction_end phase : Message.Kind m = "transaction_end" →
  sim message_sim
    (d ← apply_inbox constraints cfg (S (length (inbox d))) committed (Message.Transaction m)
           (Message.Generation m) (-1) d;
     mret (d, phase))
    (t ← applyRows constraints cfg committed (concat (Message.Rows <$> rp_batch (abs d))) (rp_tables (abs d));
     mret (with_batch [] (with_schema (rp_stage (abs d)) t (abs d)), phase) : M F (replica V * string)).
Proof.
  intros Hk. destruct (transaction_guard_Ok _ _ _ Hopen) as (_ & _ & Ho).
  rewrite Hk in Ho. rewrite <- (Ho eq_refl), Hg.
  eapply sim_ext.
  { intros σ. unfold mbind at 1, M_bind at 1. rewrite (apply_inbox_staged _ _ _ _ Hd). exact (M_assoc _ _ _ σ). }
  apply sim_same; [done|]. intros t. eapply sim_ext; [intros σ; apply mret_bind|].
  apply sim_ret. split; [done|]. unfold open_after. rewrite Hk. cbn.
  by eapply staged_empty; [eapply staged_grow; [exact Hd|lia|done|done]|done|done].
Qed.

(** The same change of schema in the database and in the replica. *)
Lemma sim_schema {B B'} (S : B → B' → Prop) (f : pg V → result (pg V)) h (k : pg V → M F B) k' :
  f d = (d' ← f (schema_view (abs d)); Ok (h d')) →
  (∀ d', f (schema_view (abs d)) = Ok d' →
    sim S (k (h d')) (k' (with_schema (schema_stage d') (tables d') (abs d)))) →
  sim S (lift (f d) ≫= k) (lift (spec_schema f (abs d)) ≫= k').
Proof.
  intros E Hs. rewrite E. unfold spec_schema. destruct (f (schema_view (abs d))) as [d'|e] eqn:Ef; [|by intros σ].
  go. exact (Hs d' eq_refl).
Qed.

Lemma sim_snapshot_end : Message.Kind m = "snapshot_end" →
  sim message_sim
    (d ← lift (if negb (String.eqb (Message.SchemaVersion m) "") then
                 applyStagedSchemas cfg (Message.Generation m) (Message.SchemaVersion m) d else Ok d);
     t ← lift (clear_tables constraints (reverse (order_by scope_lt (snapshot_scope d))) (tables d));
     d ← apply_snapshot constraints cfg (S (length (snapshot_rows d))) committed (Message.Generation m) (-1, -1)
           (set_tables t d);
     mret (set_scope [] (set_snap [] d), "stream"))
    (r ← lift (if negb (String.eqb (Message.SchemaVersion m) "") then
                 spec_schema (applyStagedSchemas cfg (Message.Generation m) (Message.SchemaVersion m)) (abs d)
               else Ok (abs d));
     t ← lift (clear_tables constraints (reverse (order_by scope_lt (rp_scope r))) (rp_tables r));
     t ← applyRows constraints cfg committed (as_insert <$> rp_snapshot r) t;
     mret (with_snapshot [] [] (with_schema (rp_stage r) t r), "stream") : M F (replica V * string)).
Proof.
  intros Hk. rewrite Hg.
  assert (∀ d1, inbox d1 = inbox d → snapshot_rows d1 = snapshot_rows d →
    sim message_sim
      (t ← lift (clear_tables constraints (reverse (order_by scope_lt (snapshot_scope d1))) (tables d1));
       d ← apply_snapshot constraints cfg (S (length (snapshot_rows d1))) committed g (-1, -1)
             (set_tables t d1);
       mret (set_scope [] (set_snap [] d), "stream"))
      (t ← lift (clear_tables constraints (reverse (order_by scope_lt (rp_scope (abs d1)))) (rp_tables (abs d1)));
       t ← applyRows constraints cfg committed (as_insert <$> rp_snapshot (abs d1)) t;
       mret (with_snapshot [] [] (with_schema (rp_stage (abs d1)) t (abs d1)), "stream")
         : M F (replica V * string))) as Hmain.
  { intros d1 Hi Hs. apply sim_lift. intros t _.
    assert (staged_ok g n open d1) as Hd1 by by eapply staged_grow.
    eapply sim_ext.
    { intros σ. unfold mbind at 1, M_bind at 1. rewrite (apply_snapshot_staged _ _ _ _ Hd1).
      exact (M_assoc _ _ _ σ). }
    apply sim_same; [done|]. intros t'. eapply sim_ext; [intros σ; apply mret_bind|].
    apply sim_ret. split; [done|]. rewrite open_same by by rewrite Hk.
    eapply staged_no_snapshot; [eapply staged_grow; [exact Hd1|lia|done|done]|done|done]. }
  destruct (negb _).
  - eapply (sim_schema _ _ _ _ (λ r, _)); [apply applyStagedSchemas_view|]. intros d' _. by apply Hmain.
  - by apply Hmain.
Qed.

(** A message that stages nothing and closes nothing. *)
Lemma sim_unstaged d1 phase r :
  one_of (Message.Kind m) ["transaction_rows"; "file_begin"; "file_chunk"] = false →
  one_of (Message.Kind m) ["transaction_end"; "file_end"] = false →
  inbox d1 = inbox d → snapshot_rows d1 = snapshot_rows d → abs d1 = r →
  sim message_sim (mret (d1, phase)) (mret (r, phase) : M F (replica V * string)).
Proof.
  intros H1 H2 Hi Hs <-. apply sim_ret. split; [done|]. rewrite open_same by done.
  eapply staged_grow; [exact Hd|lia|done|done].
Qed.

Lemma applyMessage_sim phase :
  sim message_sim (applyMessage constraints cfg committed m raw phase d) (spec_message committed m phase (abs d)).
Proof.
  unfold applyMessage, spec_message. cbv zeta.
  destruct (String.eqb_spec (Message.Kind m) "snapshot_begin") as [Hk|_].
  { apply sim_lift. intros scope _. apply sim_ret. split; [done|]. rewrite open_same by by rewrite Hk.
    eapply staged_no_snapshot; [eapply staged_grow; [exact Hd|lia|done|done]|done|done]. }
  destruct (String.eqb_spec (Message.Kind m) "schema") as [Hk|_].
  { apply sim_guard. intros _. destruct (negb _).
    - eapply (sim_schema _ _ _ _ (λ r, _)); [apply stageSchema_view|]. intros d' E.
      apply stageSchema_frame in E as (_ & Ht & _). apply sim_unstaged; try by rewrite ?Hk.
      unfold abs, with_schema. by rewrite Ht.
    - apply sim_unstaged; by rewrite ?Hk. }
  destruct (String.eqb_spec (Message.Kind m) "snapshot_rows") as [Hk|_].
  { apply sim_guard. intros _. by apply sim_snapshot_rows. }
  destruct (String.eqb_spec (Message.Kind m) "snapshot_end") as [Hk|_].
  { apply sim_guard. intros _. by apply sim_snapshot_end. }
  destruct (String.eqb_spec (Message.Kind m) "schema_end") as [Hk|_].
  { apply sim_guard. intros _.
    eapply (sim_schema _ _ _ _ (λ r, _)); [apply applyStagedSchemas_view|]. intros d' _.
    apply sim_unstaged; by rewrite ?Hk. }
  destruct (String.eqb_spec (Message.Kind m) "transaction_rows") as [Hk|_].
  { apply sim_guard. intros _. apply sim_insert_inbox; by rewrite Hk. }
  destruct (String.eqb_spec (Message.Kind m) "transaction_end") as [Hk|_].
  { apply sim_guard. intros _. by apply sim_transaction_end. }
  destruct (one_of _ ["file_begin"; "file_chunk"]) eqn:Hk.
  { apply sim_guard. intros _. apply existsb_exists in Hk as (k & Hk & E%String.eqb_eq).
    apply sim_insert_inbox; rewrite E; by destruct Hk as [<-|[<-|[]]]. }
  destruct (String.eqb_spec (Message.Kind m) "file_end") as [Hk'|_].
  { apply sim_guard. intros _. apply sim_lift. intros f _. apply sim_same.
    { intros σ. by eapply applyFile_spec. }
    intros _. rewrite Hg, (staged_inbox_cleared _ _ _ _ Hd). apply sim_ret. split; [done|].
    unfold open_after. rewrite Hk'.
    by eapply staged_empty; [eapply staged_grow; [exact Hd|lia|done|done]|done|done]. }
  destruct (String.eqb_spec (Message.Kind m) "file_delete") as [Hk'|_]; [|by intros σ].
  apply sim_lift. intros f _. apply sim_guard. intros _. destruct (AllowsFileOperation _ _).
  - apply sim_same; [done|]. intros _. apply sim_unstaged; by rewrite ?Hk'.
  - apply sim_unstaged; by rewrite ?Hk'.
Qed.
End message.

(** ** Storing *)

Definition enter_sim (m : Message.t) d (a : cursor * pg V) (b : cursor * replica V) : Prop :=
  b = (a.1, abs a.2) ∧ (Message.Seq m ≤ cu_received a.1 → a.2 = d) ∧
  staged_ok (Message.Generation m) (cu_received a.1) (cu_open a.1) a.2 ∧
  hash_ok (Message.Generation m) (cu_received a.1) a.2 ∧
  0 ≤ cu_applied a.1 ≤ cu_received a.1 ∧ cu_received a.1 ≤ max_int64.

Lemma enter_generation_sim m d : TInv d →
  match enter_generation m (read_cursor d) d, spec_enter m (abs d) with
  | Ok a, Ok b => enter_sim m d a b
  | Err e, Err e' => e = e'
  | _, _ => False
  end.
Proof.
  intros [Hs Hh Hr]. unfold enter_generation, spec_enter.
  change (sync_state.generation (rp_sync (abs d))) with (cu_generation (read_cursor d)).
  destruct (String.eqb_spec (Message.Generation m) (cu_generation (read_cursor d))) as [Hg|_].
  { unfold enter_sim. rewrite Hg. split_and!; [done|done|exact Hs|exact Hh|cbn; lia..]. }
  go. destruct (negb _ || negb _) eqn:E; [done|]. apply orb_false_iff in E as [E _]. bool_prop.
  unfold max_int64 in *. split_and!; try done; try (cbn; lia).
  split; try done; [constructor|by exists []|constructor|by exists []].
Qed.

Lemma find_hash g seq l a n : Forall (λ x, ha_generation x = g) l → ha_seq <$> l = seqZ a n → a ≤ seq →
  ha_hash <$> List.find (λ x, String.eqb (ha_generation x) g && (ha_seq x =? seq)) l =
    (ha_hash <$> l) !! Z.to_nat (seq - a).
Proof.
  intros Hl. revert a n. induction Hl as [|x l Hx _ IH]; intros a n Hn Hs; [done|].
  destruct (decide (0 < n)) as [Hp|Hp]; [|by rewrite seqZ_nil in Hn by lia].
  rewrite seqZ_cons in Hn by lia. cbn in Hn. injection Hn as Ha Hn.
  cbn [List.find fmap list_fmap]. rewrite Hx, String.eqb_refl, Ha. cbn.
  destruct (Z.eqb_spec a seq) as [->|Hne]; [by rewrite Z.sub_diag|].
  rewrite (IH _ _ Hn) by lia. replace (Z.to_nat (seq - a)) with (S (Z.to_nat (seq - Z.succ a))) by lia. done.
Qed.

Lemma duplicate_sim m h n d : hash_ok (Message.Generation m) n d → 0 ≤ Message.Seq m →
  check_duplicate m h d = spec_duplicate m h (abs d).
Proof.
  intros [Hg Hs] Hm. unfold check_duplicate, spec_duplicate, stored_hash. cbn [abs rp_seen].
  destruct (Z.eqb_spec (Message.Seq m) 0) as [E|E].
  - rewrite E. destruct (List.find _ _) as [x|] eqn:Ef; [|done]. exfalso.
    apply List.find_some in Ef as [Hx [_ Hz%Z.eqb_eq]%andb_true_iff].
    assert (ha_seq x ∈ seqZ 1 n) as Hin.
    { rewrite <- Hs. apply list_elem_of_fmap. exists x. split; [done|]. by apply list_elem_of_In. }
    apply elem_of_seqZ in Hin. lia.
  - by rewrite (find_hash _ _ _ 1 n Hg Hs) by lia.
Qed.

Lemma hash_fresh g n d seq h : hash_ok g n d → n < seq →
  insert_pk (λ x, (ha_generation x, ha_seq x)) (mkHash g seq h) (message_hash d) =
    Ok (message_hash d ++ [mkHash g seq h]).
Proof.
  intros [_ Hs] Hn. apply insert_pk_fresh, Forall_forall. intros y Hy [= _ Hy'].
  assert (ha_seq y ∈ seqZ 1 n) as Hin%elem_of_seqZ by (rewrite <- Hs; apply list_elem_of_fmap; eauto).
  lia.
Qed.

Definition store_sim d r : Prop := r = abs d ∧ TInv d.

Lemma store_next_sim m raw c d0 d (committed : gmap string (table V)) :
  enter_sim m d0 (c, d) (c, abs d) → unmarshal raw = Some m → Message_ok m = true →
  Message.Seq m = cu_received c + 1 → Message.Seq m ≤ max_int64 →
  sim store_sim (store_next constraints cfg committed m raw c d)
    (_ ← lift (if HasPrefix (Message.Kind m) "file_" then validateFileMessage cfg m else Ok tt);
     pending ← lift (schema_barrier m c);
     open ← lift (transaction_guard m (cu_open c));
     '(r'', phase) ← spec_message committed m (cu_phase c) (abs d);
     let refresh := String.eqb (Message.Kind m) "schema_end" in
     mret (mkReplica
            (sync_state.mk (Message.Generation m) (Message.Seq m)
               (if completes (Message.Kind m) then Message.Seq m else cu_applied c) phase
               (open_after (Message.Kind m) open)
               (if refresh then pending else cu_schema_version c) (if refresh then "" else pending)
               (sync_state.repair_authorized (rp_sync r'')))
            (rp_batch r'') (rp_scope r'') (rp_snapshot r'') (rp_seen r'' ++ [sha256 raw]) (rp_stage r'')
            (rp_tables r''))).
Proof.
  intros (_ & _ & Hs & Hh & Ha & Hr) Hraw Hok Hseq Hmax. cbn [fst snd] in *. unfold store_next. cbv zeta.
  apply sim_lift. intros [] _. apply sim_lift. intros pending _. apply sim_lift. intros open Hopen.
  eapply sim_bind.
  { eapply applyMessage_sim; try done. lia. }
  intros σ σ' [d1 phase] [r1 phase'] E [Heq Hst]. cbn [fst snd] in *. simplify_eq.
  apply applyMessage_frame in E as [[_ Hf] _].
  assert (hash_ok (Message.Generation m) (cu_received c) d1) as Hh1.
  { unfold hash_ok. by rewrite Hf. }
  rewrite (hash_fresh _ _ _ _ _ Hh1) by lia.
  apply sim_ret. split.
  - unfold abs. cbn [message_hash set_sync set_hash]. rewrite fmap_app. done.
  - split; cbn [sync set_sync].
    + by eapply staged_grow.
    + destruct Hh1 as [Hg1 Hs1]. split; cbn [message_hash set_sync set_hash sync_state.generation sync_state.received_seq].
      * apply Forall_app. split; [done|by repeat constructor].
      * rewrite fmap_app, Hs1, Hseq. cbn. rewrite seqZ_app by lia. f_equal. unfold seqZ.
        change (Z.to_nat 1) with 1%nat. cbn. f_equal. lia.
    + cbn [sync_state.applied_seq sync_state.received_seq]. destruct (completes (Message.Kind m)); lia.
Qed.

Lemma store_tx_sim m raw d : TInv d → unmarshal raw = Some m → Message_ok m = true →
  sim store_sim (store_tx constraints cfg m raw d) (spec_store m (sha256 raw) (abs d)).
Proof.
  intros Hd Hraw Hok. unfold store_tx, spec_store. apply sim_guard. intros Hmax%Z.ltb_ge.
  eapply sim_lift2; [by apply enter_generation_sim|]. intros [c d1] [c' r1] He.
  pose proof He as (Heq & Hdup & Hs & Hh & Ha & Hr). cbn [fst snd] in *. injection Heq as -> ->.
  destruct (Message_ok_rows _ Hok) as [_ Hpos].
  destruct (Z.leb_spec (Message.Seq m) (cu_received c)) as [Hle|Hgt].
  - rewrite (duplicate_sim _ _ _ _ Hh Hpos). apply sim_lift. intros [] _. apply sim_ret. split; [done|].
    by rewrite (Hdup Hle).
  - replace (u64 (cu_received c + 1)) with (cu_received c + 1)
      by (symmetry; apply u64_small; unfold max_int64 in *; lia).
    apply sim_guard. intros Hn%negb_false_iff%Z.eqb_eq. by eapply store_next_sim.
Qed.
End spec.
