(* ===== verification/TargetProps.v ===== *)
(** * Correctness of the target

    What storing messages does to the target database: the refinement of the
    contract of TargetSpec.v, contiguous sequence numbers and harmless
    duplicates, tables that change only when a batch is complete and then by
    exactly the rows of the batch in order, and files published only with the
    announced content.  The end of the file runs a snapshot, a transaction and a
    file through the definitions. *)

From S2P Require Import Prelude Bytes Sorting Encoding Sha256 GoPath Json JsonStruct Event ServerConfig Schema Target TargetInv TargetPaging TargetSpec.

#[local] Opaque marshal unmarshal sha256.

Section store.
Context {V F : Type} `{PG : Postgres V} `{FS : FileStore F}.
Context (constraints : gmap string (table V) → bool) (cfg : Syncer).
Implicit Types (σ : side F) (d : pg V).

(** Messages stored one after the other, up to the first that fails. *)
Fixpoint store_all (l : list (Message.t * string)) σ d : side F * pg V * result unit :=
  match l with
  | [] => (σ, d, Ok tt)
  | (m, raw) :: l' =>
      match store constraints cfg m raw σ d with
      | (σ', d', Ok _) => store_all l' σ' d'
      | (σ', d', Err e) => (σ', d', Err e)
      end
  end.

(** ** Consequences of the simulation *)

(** A message and its payload as the server decodes it. *)
Definition decodes (m : Message.t) (raw : string) : Prop := unmarshal raw = Some m ∧ Message_ok m = true.

Lemma store_spec m raw σ d σ' d' res : TInv d → decodes m raw →
  store constraints cfg m raw σ d = (σ', d', res) →
  TInv d' ∧ (res ≠ Ok tt → d' = d) ∧
  ∃ σ1, spec_store constraints cfg m (sha256 raw) (abs d) σ = (σ1, (λ _, abs d') <$> res) ∧
    files σ1 = files σ' ∧ (one_of (Message.Kind m) ["snapshot_end"; "schema_end"] = false → σ1 = σ').
Proof.
  intros Hd [Hraw Hok] E. pose proof (store_tx_sim constraints cfg m raw d Hd Hraw Hok σ) as Hs.
  unfold store in E. destruct (store_tx _ _ _ _ _ _) as [σ1 [d1|e]].
  - destruct (spec_store _ _ _ _ _ _) as [σ2 [r|e]]; [|done]. destruct Hs as [<- [-> Hd1]].
    injection E as <- <- <-. split_and!; [done|done|]. exists σ1. split; [done|].
    destruct (_ && _) eqn:Ek; [|done]. apply andb_true_iff in Ek as [_ Ek]. split; [done|].
    intros Hk. unfold one_of, existsb in Hk. by rewrite Ek in Hk.
  - destruct (spec_store _ _ _ _ _ _) as [σ2 [r|e']]; [done|]. destruct Hs as [<- <-].
    injection E as <- <- <-. split_and!; [done|done|]. by exists σ1.
Qed.

(** The next message of the generation, in terms of the replica. *)
Lemma spec_store_next m h (r r' : replica V) σ σ' :
  spec_store constraints cfg m h r σ = (σ', Ok r') → sync_state.received_seq (rp_sync r) < Message.Seq m →
  Message.Kind m ≠ "snapshot_begin" →
  let s := rp_sync r in
  ∃ pending open r1 phase,
    Message.Generation m = sync_state.generation s ∧
    transaction_guard m (sync_state.open_transaction s) = Ok open ∧
    schema_barrier m (spec_cursor r) = Ok pending ∧
    (HasPrefix (Message.Kind m) "file_" = true → validateFileMessage cfg m = Ok tt) ∧
    spec_message constraints cfg (rp_tables r) m (sync_state.phase s) r σ = (σ', Ok (r1, phase)) ∧
    rp_batch r' = rp_batch r1 ∧ rp_tables r' = rp_tables r1 ∧ rp_snapshot r' = rp_snapshot r1 ∧
    rp_scope r' = rp_scope r1 ∧
    Message.Seq m = sync_state.received_seq s + 1 ∧
    rp_sync r' = sync_state.mk (Message.Generation m) (Message.Seq m)
               (if completes (Message.Kind m) then Message.Seq m else sync_state.applied_seq s) phase
               (open_after (Message.Kind m) open)
               (if String.eqb (Message.Kind m) "schema_end" then pending else sync_state.schema_version s)
               (if String.eqb (Message.Kind m) "schema_end" then "" else pending)
               (sync_state.repair_authorized (rp_sync r1)).
Proof.
  unfold spec_store. intros E Hnew Hk. cbv zeta. m_guard E as Hmax. m_lift E as [c r1] He.
  unfold spec_enter in He.
  destruct (String.eqb_spec (Message.Generation m) (sync_state.generation (rp_sync r))) as [Hg|_].
  2:{ exfalso. revert He. go. destruct (negb _ || negb _) eqn:Eb; [done|].
      apply orb_false_iff in Eb as [_ Eb%negb_false_iff%String.eqb_eq]. done. }
  injection He as <- <-. cbn [cu_received spec_cursor read_cursor sync schema_view] in E.
  rewrite (proj2 (Z.leb_gt _ _)) in E by done.
  m_guard E as Hn. m_lift E as [] Hf. m_lift E as pending Hp. m_lift E as open Ho.
  m_step E as σ1 [r2 phase] Hm. apply mret_Ok in E as [-> ->].
  exists pending, open, r2, phase. bool_prop. split_and!; try done. intros Hpre. by rewrite Hpre in Hf.
Qed.

(** A row message of the next number joins the open transaction. *)
Lemma chunk_step m raw σ d σ' d' : TInv d → decodes m raw →
  store constraints cfg m raw σ d = (σ', d', Ok tt) → Message.Kind m = "transaction_rows" →
  sync_state.received_seq (sync d) < Message.Seq m →
  TInv d' ∧ σ' = σ ∧ tables d' = tables d ∧ rp_batch (abs d') = rp_batch (abs d) ++ [m] ∧
  sync_state.received_seq (sync d') = sync_state.received_seq (sync d) + 1.
Proof.
  intros Hd Hm E Hk Hnew. destruct (store_spec _ _ _ _ _ _ _ Hd Hm E) as (Hd' & _ & σ1 & Hs & _ & Hσ).
  rewrite Hk in Hσ. specialize (Hσ eq_refl) as ->.
  apply spec_store_next in Hs as (pending & open & r1 & ph & _ & _ & _ & _ & Hmsg & Hb & Ht & _ & _ & Hseq & Hsync);
    [|done|by rewrite Hk].
  unfold spec_message in Hmsg. rewrite Hk in Hmsg. cbn in Hmsg. m_guard Hmsg as Hph.
  apply mret_Ok in Hmsg as [-> Hmsg]. injection Hmsg as -> _.
  change (rp_tables (abs d')) with (tables d') in Ht. change (rp_sync (abs d')) with (sync d') in Hsync.
  rewrite Hsync. split_and!; done.
Qed.

Lemma store_all_app a b σ d σ' d' : store_all (a ++ b) σ d = (σ', d', Ok tt) →
  ∃ σ1 d1, store_all a σ d = (σ1, d1, Ok tt) ∧ store_all b σ1 d1 = (σ', d', Ok tt).
Proof.
  revert σ d. induction a as [|[m raw] a IH]; intros σ d E; cbn [store_all app] in *; [by eauto|].
  destruct (store _ _ _ _ _ _) as [[σ1 d1] [[]|e]]; [by apply IH|done].
Qed.

Lemma chunks_step l σ d σ' d' : TInv d →
  Forall (λ mr, decodes mr.1 mr.2 ∧ Message.Kind mr.1 = "transaction_rows") l →
  Message.Seq <$> l.*1 = seqZ (sync_state.received_seq (sync d) + 1) (Z.of_nat (length l)) →
  store_all l σ d = (σ', d', Ok tt) →
  TInv d' ∧ σ' = σ ∧ tables d' = tables d ∧ rp_batch (abs d') = rp_batch (abs d) ++ l.*1 ∧
  sync_state.received_seq (sync d') = sync_state.received_seq (sync d) + Z.of_nat (length l).
Proof.
  intros Hd Hl. revert σ d Hd. induction Hl as [|[m raw] l [Hm Hk] _ IH]; intros σ d Hd Hseq E.
  { cbn in E. injection E as <- <-. cbn. rewrite app_nil_r. split_and!; (done || lia). }
  cbn [fst snd] in *. rewrite seqZ_cons in Hseq by (cbn; lia). cbn in Hseq. injection Hseq as Hm1 Hseq.
  cbn [store_all] in E. destruct (store _ _ _ _ _ _) as [[σ1 d1] [[]|e]] eqn:Es; [|done].
  apply chunk_step in Es as (Hd1 & -> & Ht & Hb & Hr); [|done..|lia].
  apply IH in E as (Hd' & -> & Ht' & Hb' & Hr'); [|done|].
  - split_and!; [done|done|congruence| |cbn; lia]. by rewrite Hb', Hb, <- app_assoc.
  - rewrite Hr, Hseq. f_equal; lia.
Qed.

(** The end of a transaction applies the open batch. *)
Lemma end_step m raw σ d σ' d' : TInv d → decodes m raw →
  store constraints cfg m raw σ d = (σ', d', Ok tt) → Message.Kind m = "transaction_end" →
  sync_state.received_seq (sync d) < Message.Seq m →
  applyRows constraints cfg (tables d) (concat (Message.Rows <$> rp_batch (abs d))) (tables d) σ =
    (σ', Ok (tables d')) ∧
  inbox d' = [] ∧ sync_state.generation (sync d') = Message.Generation m ∧
  sync_state.received_seq (sync d') = sync_state.received_seq (sync d) + 1 ∧
  sync_state.applied_seq (sync d') = sync_state.received_seq (sync d').
Proof.
  intros Hd Hm E Hk Hnew. destruct (store_spec _ _ _ _ _ _ _ Hd Hm E) as (Hd' & _ & σ1 & Hs & _ & Hσ).
  rewrite Hk in Hσ. specialize (Hσ eq_refl) as ->.
  apply spec_store_next in Hs as (pending & open & r1 & ph & _ & _ & _ & _ & Hmsg & Hb & Ht & _ & _ & Hseq & Hsync);
    [|done|by rewrite Hk].
  unfold spec_message in Hmsg. rewrite Hk in Hmsg. cbn [String.eqb Ascii.eqb Bool.eqb one_of existsb] in Hmsg.
  m_guard Hmsg as Hph. m_step Hmsg as σ2 t Happly. apply mret_Ok in Hmsg as [-> Hmsg]. injection Hmsg as -> _.
  change (rp_tables (abs d')) with (tables d') in Ht. change (rp_sync (abs d')) with (sync d') in Hsync.
  assert (sync_state.open_transaction (sync d') = "") as Hopen by by rewrite Hsync, Hk.
  split_and!; [by rewrite Ht|by apply (so_closed _ _ _ _ (ti_staged _ Hd'))|by rewrite Hsync|by rewrite Hsync|].
  by rewrite Hsync, Hk.
Qed.

Lemma store_all_TInv l σ d σ' d' res : TInv d → Forall (λ mr, decodes mr.1 mr.2) l →
  store_all l σ d = (σ', d', res) → TInv d'.
Proof.
  intros Hd Hl. revert σ d Hd. induction Hl as [|[m raw] l Hm _ IH]; intros σ d Hd E; cbn [store_all] in E.
  { by injection E as _ <- _. }
  destruct (store _ _ _ _ _ _) as [[σ1 d1] [[]|e]] eqn:Es;
    destruct (store_spec _ _ _ _ _ _ _ Hd Hm Es) as (Hd1 & _); [by eapply IH|].
  by injection E as _ <- _.
Qed.

Lemma migrate_TInv (m : gmap string (table V)) : TInv (migrate m).
Proof.
  split; cbn.
  - split; cbn; try done; [constructor|by exists []|constructor|by exists []].
  - by split.
  - unfold max_int64. lia.
Qed.

(** ** Snapshots *)

(** The tuple an insert of [row] adds. *)
Definition tuple_of (row : Row.t) (t : gmap string V) : Prop := ∃ types columns es vs,
  transform cfg row (Row.Columns row) = Ok columns ∧ expressions columns types = Ok es ∧
  evaluate_all es = Ok vs ∧ t = assign ∅ vs.

Definition rows_of (name : string) (rows : list Row.t) : list Row.t :=
  List.filter (λ row, String.eqb (Row.Table row) name) rows.

Lemma transform_as_insert row l : transform cfg (as_insert row) l = transform cfg row l.
Proof. induction l as [|c l IH]; cbn [transform]; [done|]. by rewrite IH. Qed.

Lemma checked_Ok m m' : checked constraints m = Ok m' → m' = m.
Proof. unfold checked. destruct (constraints m); by intros [= <-]. Qed.

Lemma applyRow_insert committed row m σ σ' m' :
  applyRow constraints cfg committed (as_insert row) m σ = (σ', Ok m') →
  ∃ tb t, m !! Row.Table row = Some tb ∧ tuple_of row t ∧
    m' = <[Row.Table row := mkPgTable (cols tb) (tuples tb ++ [t])]> m.
Proof.
  unfold applyRow. intros E. m_guard E as Ha. m_step E as σ1 types Ht. m_lift E as columns Hc.
  m_lift E as keys Hk. apply lift_Ok in E as [-> E].
  unfold row_statement in E. change (one_of (Row.Operation (as_insert row)) ["read"; "insert"]) with true in E.
  cbv iota in E. rewrite fail_if_bind in E. destruct (bool_decide (columns = [])); [done|].
  apply bind_Ok in E as (es & Hes & E). apply bind_Ok in E as (vs & Hvs & E).
  unfold insert_sql, get_table in E. apply bind_Ok in E as (tb & Htb%or_err_Ok & E).
  apply bind_Ok in E as ([] & _ & E%checked_Ok). exists tb, (assign ∅ vs).
  rewrite transform_as_insert in Hc. unfold tuple_of. eauto 10.
Qed.

Lemma applyRows_inserts committed rows m σ σ' m' :
  applyRows constraints cfg committed (as_insert <$> rows) m σ = (σ', Ok m') →
  ∀ name tb, m !! name = Some tb → ∃ ts, m' !! name = Some (mkPgTable (cols tb) (tuples tb ++ ts)) ∧
    Forall2 tuple_of (rows_of name rows) ts.
Proof.
  revert m σ. induction rows as [|row rows IH]; intros m σ E name tb Htb; cbn [applyRows fmap list_fmap] in E.
  { apply mret_Ok in E as [_ ->]. exists []. rewrite app_nil_r. by destruct tb. }
  m_step E as σ1 m1 Hrow. apply applyRow_insert in Hrow as (tb0 & t & Htb0 & Ht & ->).
  unfold rows_of. cbn [List.filter]. destruct (String.eqb_spec (Row.Table row) name) as [<-|Hne].
  - rewrite Htb in Htb0. injection Htb0 as <-.
    destruct (IH _ _ E (Row.Table row) (mkPgTable (cols tb) (tuples tb ++ [t]))) as (ts & Hts & Hf).
    { apply lookup_insert_eq. }
    exists (t :: ts). cbn in Hts. rewrite <- app_assoc in Hts. split; [done|]. by constructor.
  - apply (IH _ _ E). by rewrite lookup_insert_ne.
Qed.

Lemma clear_tables_empty scope m m' name : clear_tables constraints scope m = Ok m' →
  (name ∈ sc_table <$> scope ∨ ∃ tb, m !! name = Some tb ∧ tuples tb = []) →
  ∃ tb, m !! name = Some tb ∧ m' !! name = Some (mkPgTable (cols tb) []).
Proof.
  revert m. induction scope as [|x scope IH]; intros m E Hn; cbn [clear_tables] in E.
  { injection E as <-. destruct Hn as [[]%not_elem_of_nil|([c l] & ? & Hl)]. cbn in Hl. subst. eauto. }
  apply bind_Ok in E as (tb & Htb & E). apply bind_Ok in E as (m1 & ->%checked_Ok & E).
  apply or_err_Ok in Htb. apply IH in E as (tb' & Hm & Hm').
  - destruct (decide (name = sc_table x)) as [->|Hne].
    + rewrite lookup_insert_eq in Hm. injection Hm as <-. eauto.
    + rewrite lookup_insert_ne in Hm by done. eauto.
  - destruct (decide (name = sc_table x)) as [->|Hne]; [right; eexists; by rewrite lookup_insert_eq|].
    rewrite lookup_insert_ne by done. destruct Hn as [Hin|]; [left|by right].
    cbn in Hin. by apply elem_of_cons in Hin as [|].
Qed.

(** Publishing a schema only adds columns. *)
Definition extends (m m' : gmap string (table V)) : Prop := ∀ name tb', m' !! name = Some tb' →
  ∃ tb, m !! name = Some tb ∧ cols tb `prefix_of` cols tb'.

#[local] Instance extends_preorder : PreOrder extends.
Proof.
  split; [intros m name tb; eauto|]. intros m1 m2 m3 H12 H23 name tb3 H3.
  destruct (H23 _ _ H3) as (tb2 & H2 & ?). destruct (H12 _ _ H2) as (tb1 & ? & ?). exists tb1. split; [done|].
  by etrans.
Qed.

Lemma add_columns_extends schema columns types m m' : add_columns cfg schema columns types m = Ok m' → extends m m'.
Proof.
  revert types m. induction columns as [|c columns IH]; intros types m E; cbn [add_columns] in E.
  { by injection E as <-. }
  destruct (types !! _); [by eapply IH|]. cbv zeta in E. rewrite fail_if_bind in E. destruct (_ || _); [done|].
  apply bind_Ok in E as (ty & _ & E). apply bind_Ok in E as (m1 & Em & E). etrans; [|by eapply IH].
  unfold add_column in Em. apply bind_Ok in Em as (tb & Htb%or_err_Ok & [= <-]). intros name tb'.
  destruct (decide (name = sourceSchemaTable.Name schema)) as [->|Hne].
  - rewrite lookup_insert_eq. intros [= <-]. exists tb. split; [done|]. by eexists.
  - rewrite lookup_insert_ne by done. eauto.
Qed.

Lemma applyStagedSchemas_extends g v d d' : applyStagedSchemas cfg g v d = Ok d' → extends (tables d) (tables d').
Proof.
  unfold applyStagedSchemas. intros E. apply bind_Ok in E as (schemas & _ & E).
  rewrite fail_if_bind in E. destruct (negb _); [done|]. apply bind_Ok in E as (m & Em & [= <-]). cbn.
  revert Em. generalize (tables d). induction schemas as [|s l IH]; intros m0 E; cbn [add_schemas] in E.
  { by injection E as <-. }
  apply bind_Ok in E as (types & _ & E). apply bind_Ok in E as (m1 & ?%add_columns_extends & E). etrans; eauto.
Qed.

Lemma insert_scope_tables n l scope scope' : insert_scope cfg n l scope = Ok scope' →
  sc_table <$> scope' = (sc_table <$> scope) ++ (TableRef.Name <$> l).
Proof.
  revert n scope. induction l as [|t l IH]; intros n scope E; cbn [insert_scope] in E.
  { injection E as <-. by rewrite app_nil_r. }
  rewrite fail_if_bind in E. destruct (negb _); [done|].
  apply bind_Ok in E as (scope1 & [-> _]%insert_pk_Ok & E). apply IH in E.
  rewrite E, fmap_app, <- app_assoc. done.
Qed.

Lemma begin_step m raw σ d σ' d' : TInv d → decodes m raw →
  store constraints cfg m raw σ d = (σ', d', Ok tt) → Message.Generation m ≠ sync_state.generation (sync d) →
  TInv d' ∧ σ' = σ ∧ tables d' = tables d ∧ rp_snapshot (abs d') = [] ∧
  insert_scope cfg 0 (Message.Tables m) [] = Ok (snapshot_scope d') ∧ sync_state.received_seq (sync d') = 1.
Proof.
  intros Hd Hm E Hg. destruct (store_spec _ _ _ _ _ _ _ Hd Hm E) as (Hd' & _ & σ1 & Hs & _ & Hσ).
  unfold spec_store in Hs. m_guard Hs as Hmax. m_lift Hs as [c r1] He. unfold spec_enter in He.
  change (sync_state.generation (rp_sync (abs d))) with (sync_state.generation (sync d)) in He.
  destruct (String.eqb_spec (Message.Generation m) (sync_state.generation (sync d))) as [|_]; [done|].
  rewrite fail_if_bind in He. destruct (negb _ || negb _) eqn:Eb; [done|].
  apply orb_false_iff in Eb as [H1%negb_false_iff%Z.eqb_eq Hk%negb_false_iff%String.eqb_eq].
  injection He as <- <-. rewrite Hk in Hσ. specialize (Hσ eq_refl) as ->.
  rewrite H1 in Hs. cbn in Hs. m_guard Hs as Hn. m_lift Hs as [] Hf. m_lift Hs as pending Hp. m_lift Hs as open Ho.
  m_step Hs as σ2 [r2 phase] Hmsg. unfold spec_message in Hmsg. rewrite Hk in Hmsg. cbn in Hmsg.
  m_lift Hmsg as scope Hscope. apply mret_Ok in Hmsg as [-> Hmsg]. injection Hmsg as -> ->.
  apply mret_Ok in Hs as [-> Hs].
  change (snapshot_scope d') with (rp_scope (abs d')). change (tables d') with (rp_tables (abs d')).
  change (sync d') with (rp_sync (abs d')). rewrite Hs. done.
Qed.

(** The rows a message of a snapshot brings: schemas bring none. *)
Definition snapshot_part (m : Message.t) : list Row.t :=
  if String.eqb (Message.Kind m) "snapshot_rows" then Message.Rows m else [].

Lemma snapshot_step m raw σ d σ' d' : TInv d → decodes m raw →
  store constraints cfg m raw σ d = (σ', d', Ok tt) → one_of (Message.Kind m) ["schema"; "snapshot_rows"] = true →
  sync_state.received_seq (sync d) < Message.Seq m →
  TInv d' ∧ σ' = σ ∧ tables d' = tables d ∧ snapshot_scope d' = snapshot_scope d ∧
  rp_snapshot (abs d') = rp_snapshot (abs d) ++ snapshot_part m ∧
  sync_state.received_seq (sync d') = sync_state.received_seq (sync d) + 1.
Proof.
  intros Hd Hm E Hk Hnew. destruct (store_spec _ _ _ _ _ _ _ Hd Hm E) as (Hd' & _ & σ1 & Hs & _ & Hσ).
  unfold one_of, existsb in Hk. rewrite orb_false_r in Hk. unfold snapshot_part.
  apply orb_true_iff in Hk as [Hk%String.eqb_eq|Hk%String.eqb_eq]; rewrite Hk in Hσ |- *;
    specialize (Hσ eq_refl) as ->;
    (apply spec_store_next in Hs as (pending & open & r1 & ph & _ & _ & _ & _ & Hmsg & Hb & Ht & Hsn & Hsc & Hseq & Hsync);
      [|done|by rewrite Hk]);
    unfold spec_message in Hmsg; rewrite Hk in Hmsg;
    change (rp_tables (abs d')) with (tables d') in Ht; change (rp_sync (abs d')) with (sync d') in Hsync;
    change (rp_scope (abs d')) with (snapshot_scope d') in Hsc;
    cbn [String.eqb Ascii.eqb Bool.eqb] in Hmsg |- *; m_guard Hmsg as Hph; rewrite Hsync, ?app_nil_r.
  - destruct (negb _).
    + m_lift Hmsg as r2 Hr2. apply mret_Ok in Hmsg as [-> Hmsg]. injection Hmsg as -> _.
      unfold spec_schema in Hr2. apply bind_Ok in Hr2 as (d2 & (_ & Ht2 & _)%stageSchema_frame & [= <-]).
      split_and!; try done. by rewrite Ht.
    + apply mret_Ok in Hmsg as [-> Hmsg]. injection Hmsg as -> _. split_and!; done.
  - apply mret_Ok in Hmsg as [-> Hmsg]. injection Hmsg as -> _. split_and!; done.
Qed.

Lemma snapshot_steps l σ d σ' d' : TInv d →
  Forall (λ mr, decodes mr.1 mr.2 ∧ one_of (Message.Kind mr.1) ["schema"; "snapshot_rows"] = true) l →
  Message.Seq <$> l.*1 = seqZ (sync_state.received_seq (sync d) + 1) (Z.of_nat (length l)) →
  store_all l σ d = (σ', d', Ok tt) →
  TInv d' ∧ σ' = σ ∧ tables d' = tables d ∧ snapshot_scope d' = snapshot_scope d ∧
  rp_snapshot (abs d') = rp_snapshot (abs d) ++ concat (snapshot_part <$> l.*1) ∧
  sync_state.received_seq (sync d') = sync_state.received_seq (sync d) + Z.of_nat (length l).
Proof.
  intros Hd Hl. revert σ d Hd. induction Hl as [|[m raw] l [Hm Hk] _ IH]; intros σ d Hd Hseq E.
  { cbn in E. injection E as <- <-. cbn. rewrite app_nil_r. split_and!; (done || lia). }
  cbn [fst snd] in *. rewrite seqZ_cons in Hseq by (cbn; lia). cbn in Hseq. injection Hseq as Hm1 Hseq.
  cbn [store_all] in E. destruct (store _ _ _ _ _ _) as [[σ1 d1] [[]|e]] eqn:Es; [|done].
  apply snapshot_step in Es as (Hd1 & -> & Ht & Hsc & Hb & Hr); [|done..|lia].
  apply IH in E as (Hd' & -> & Ht' & Hsc' & Hb' & Hr'); [|done|].
  - split_and!; [done|done|congruence|congruence| |cbn; lia]. by rewrite Hb', Hb, <- app_assoc.
  - rewrite Hr, Hseq. f_equal; lia.
Qed.

Lemma snapshot_end_step m raw σ d σ' d' : TInv d → decodes m raw →
  store constraints cfg m raw σ d = (σ', d', Ok tt) → Message.Kind m = "snapshot_end" →
  sync_state.received_seq (sync d) < Message.Seq m →
  (∃ t0 t σ1, extends (tables d) t0 ∧ (Message.SchemaVersion m = "" → t0 = tables d) ∧
    clear_tables constraints (reverse (order_by scope_lt (snapshot_scope d))) t0 = Ok t ∧
    applyRows constraints cfg (tables d) (as_insert <$> rp_snapshot (abs d)) t σ = (σ1, Ok (tables d'))) ∧
  sync_state.phase (sync d') = "stream" ∧
  sync_state.applied_seq (sync d') = Message.Seq m ∧ sync_state.received_seq (sync d') = Message.Seq m ∧
  sync_state.generation (sync d') = Message.Generation m.
Proof.
  intros Hd Hm E Hk Hnew. destruct (store_spec _ _ _ _ _ _ _ Hd Hm E) as (Hd' & _ & σ1 & Hs & _ & _).
  apply spec_store_next in Hs as (pending & open & r1 & ph & _ & _ & _ & _ & Hmsg & Hb & Ht & Hsn & Hsc & Hseq & Hsync);
    [|done|by rewrite Hk].
  unfold spec_message in Hmsg. rewrite Hk in Hmsg. cbn [String.eqb Ascii.eqb Bool.eqb one_of existsb negb] in Hmsg.
  m_guard Hmsg as Hph. m_lift Hmsg as r2 Hr2. m_lift Hmsg as t Hclear.
  m_step Hmsg as σ2 t' Happly. apply mret_Ok in Hmsg as [-> Hmsg]. injection Hmsg as -> ->.
  change (rp_tables (abs d')) with (tables d') in Ht. change (rp_sync (abs d')) with (sync d') in Hsync.
  assert (extends (tables d) (rp_tables r2) ∧ (Message.SchemaVersion m = "" → rp_tables r2 = tables d) ∧
          rp_scope r2 = snapshot_scope d ∧ rp_snapshot r2 = rp_snapshot (abs d)) as (He & Hv & Hsc2 & Hsn2).
  { destruct (String.eqb_spec (Message.SchemaVersion m) "") as [_|Hv]; cbn [negb] in Hr2.
    - injection Hr2 as <-. by split_and!.
    - unfold spec_schema in Hr2. apply bind_Ok in Hr2 as (d2 & Hd2%applyStagedSchemas_extends & [= <-]).
      by split_and!. }
  rewrite Hsync, Hk. split_and!; try done. exists (rp_tables r2), t, σ2. rewrite Hsc2 in Hclear.
  rewrite Hsn2 in Happly. rewrite Ht. done.
Qed.

(** ** Files *)

(** The number and the content of a chunk. *)
Definition file_part (m : Message.t) : option (Z * string) :=
  f ← Message.File m; data ← base64_decode (FileChange.Data f); Some (FileChange.Chunk f, data).

Definition file_chunks (batch : list Message.t) : list Message.t :=
  List.filter (λ m, String.eqb (Message.Kind m) "file_chunk") batch.

Lemma spec_assemble_parts tx end_ batch b n c b' n' c' :
  spec_assemble cfg tx end_ batch b n c = Ok (b', n', c') → 0 ≤ n → FileChange.Chunks end_ < 2 ^ 32 →
  ∃ parts, mapM file_part (file_chunks batch) = Some parts ∧ parts.*1 = seqZ n (Z.of_nat (length parts)) ∧
    n' = n + Z.of_nat (length parts) ∧ c' = foldl String.append c parts.*2.
Proof.
  intros E Hn Hmax. revert b n c Hn E. induction batch as [|m batch IH]; intros b n c Hn E; cbn [spec_assemble] in E.
  { injection E as _ <- <-. exists []. cbn. split_and!; (done || lia). }
  apply bind_Ok in E as (f & Hf%or_err_Ok & E). rewrite fail_if_bind in E. destruct (_ || _); [done|].
  unfold file_chunks. cbn [List.filter].
  destruct (String.eqb_spec (Message.Kind m) "file_begin") as [Hk|_].
  { rewrite Hk. cbn. rewrite fail_if_bind in E. destruct (_ || _); [done|]. by eapply IH. }
  destruct (String.eqb (Message.Kind m) "file_chunk"); [|done].
  rewrite fail_if_bind in E. destruct (negb b || _ || _) eqn:Eb; [done|].
  apply orb_false_iff in Eb as [Eb Hc%Z.leb_gt]. apply orb_false_iff in Eb as [_ Hch%negb_false_iff%Z.eqb_eq].
  apply bind_Ok in E as (data & Hdata%or_err_Ok & E). rewrite fail_if_bind in E.
  destruct (_ <? _); [done|]. unfold u32 in E. rewrite Z.mod_small in E by lia.
  apply IH in E as (parts & Hp & Hs & -> & ->); [|lia].
  assert (file_part m = Some (n, data)) as Hp0 by (unfold file_part; rewrite Hf; cbn; rewrite Hdata; cbn; congruence).
  exists ((n, data) :: parts). unfold file_chunks in Hp. cbn. rewrite Hp0. cbn. rewrite Hp. cbn.
  split_and!; [done| |lia|done].
  rewrite seqZ_cons by lia. f_equal. rewrite Hs. f_equal; lia.
Qed.

Lemma validate_local m f : (HasPrefix (Message.Kind m) "file_" = true → validateFileMessage cfg m = Ok tt) →
  HasPrefix (Message.Kind m) "file_" = true → Message.File m = Some f → IsLocal (FileChange.Path f) = true.
Proof.
  intros Hv Hp Hf. specialize (Hv Hp). unfold validateFileMessage in Hv. rewrite Hf in Hv.
  rewrite fail_if_bind in Hv. destruct (IsLocal (FileChange.Path f)); [done|].
  by rewrite orb_true_r, ?orb_true_l in Hv.
Qed.

(** C7. A snapshot replaces the tables it names: when the messages of a snapshot
    of a new generation, its beginning, any mix of schema and row messages with
    the next sequence numbers, and its end, are all stored, with or without a
    schema version, every table of its scope holds exactly one tuple per row the
    row messages carry for that table, in order, and has its columns of before,
    followed by those the staged schemas added (none without a version); the
    stream phase of the new generation begins with everything applied. *)
Theorem snapshot_replaces b l e σ d σ' d' : TInv d →
  decodes b.1 b.2 → Message.Generation b.1 ≠ sync_state.generation (sync d) →
  Forall (λ mr, decodes mr.1 mr.2 ∧ one_of (Message.Kind mr.1) ["schema"; "snapshot_rows"] = true) l →
  decodes e.1 e.2 → Message.Kind e.1 = "snapshot_end" →
  Message.Seq <$> (l ++ [e]).*1 = seqZ 2 (Z.of_nat (length l) + 1) →
  store_all (b :: l ++ [e]) σ d = (σ', d', Ok tt) →
  (∀ t, t ∈ Message.Tables b.1 → ∃ old tb, tables d !! TableRef.Name t = Some old ∧
    tables d' !! TableRef.Name t = Some tb ∧ cols old `prefix_of` cols tb ∧
    (Message.SchemaVersion e.1 = "" → cols tb = cols old) ∧
    Forall2 tuple_of (rows_of (TableRef.Name t) (concat (snapshot_part <$> l.*1))) (tuples tb)) ∧
  sync_state.phase (sync d') = "stream" ∧
  Progress d' = mkProgress (Message.Generation e.1) (Z.of_nat (length l) + 2) (Z.of_nat (length l) + 2)
                  (sync_state.schema_version (sync d')).
Proof.
  destruct b as [b rawb], e as [e rawe]. cbn [fst snd].
  intros Hd Hb Hg Hl He Hke Hseq E. rewrite fmap_app, fmap_app, seqZ_app in Hseq by lia.
  apply app_inj_1 in Hseq as [Hseq Hseq1]; [|rewrite !length_fmap, length_seqZ; lia].
  cbn in Hseq1. injection Hseq1 as Hseq1.
  cbn [store_all] in E. destruct (store _ _ b _ _ _) as [[σ1 d1] [[]|]] eqn:Eb; [|done].
  apply begin_step in Eb as (Hd1 & -> & Ht1 & Hs1 & Hsc1 & Hr1); [|done..].
  apply store_all_app in E as (σ2 & d2 & El & Ee).
  apply snapshot_steps in El as (Hd2 & -> & Ht2 & Hsc2 & Hs2 & Hr2); [|done|done|by rewrite Hr1].
  cbn in Ee. destruct (store _ _ e _ _ _) as [[σ3 d3] [[]|]] eqn:Ex; [|done]. injection Ee as -> ->.
  apply snapshot_end_step in Ex as ((t0 & t & σ4 & Hext & Hv & Hclear & Happly) & Hph & Ha & Hr & Hgen); [|done..|lia].
  rewrite Hs2, Hs1 in Happly. rewrite Hsc2 in Hclear. cbn [app] in Happly. rewrite Ht2, Ht1 in Hext, Hv. split_and!.
  - intros x Hx. apply insert_scope_tables in Hsc1. cbn [fmap list_fmap app] in Hsc1.
    destruct (clear_tables_empty _ _ _ (TableRef.Name x) Hclear) as (tb & Htb & Hnil).
    { left. assert (TableRef.Name x ∈ sc_table <$> snapshot_scope d1) as Hin.
      { rewrite Hsc1. by apply list_elem_of_fmap_2. }
      apply list_elem_of_fmap in Hin as (y & -> & Hy). apply list_elem_of_fmap_2.
      by apply elem_of_reverse, order_by_elem. }
    destruct (applyRows_inserts _ _ _ _ _ _ Happly _ _ Hnil) as (ts & Hts & Hf).
    destruct (Hext _ _ Htb) as (old & Hold & Hpre). exists old, (mkPgTable (cols tb) ts). split_and!; try done.
    intros Hver. rewrite (Hv Hver) in Htb. cbn. congruence.
  - done.
  - unfold Progress. rewrite Hgen, Ha, Hr, Hseq1. f_equal; lia.
Qed.

(** The end of a file is a [Put]. *)
Lemma file_end_put m raw f σ d σ' d' : TInv d → decodes m raw →
  store constraints cfg m raw σ d = (σ', d', Ok tt) → Message.Kind m = "file_end" → Message.File m = Some f →
  sync_state.received_seq (sync d) < Message.Seq m → AllowsFileOperation cfg (FileChange.Operation f) = true →
  ∃ parts content, mapM file_part (file_chunks (rp_batch (abs d))) = Some parts ∧
    parts.*1 = seqZ 0 (FileChange.Chunks f) ∧ content = foldl String.append "" parts.*2 ∧
    slen content = FileChange.Size f ∧ FileChange.Size f ≤ MaxFileBytes (Storage cfg) ∧
    hex_encode (sha256 content) = FileChange.SHA256 f ∧ IsLocal (FileChange.Path f) = true ∧
    Put (files σ) (FileChange.Path f) content (FileChange.Mode f) (FileChange.ModTimeUnixNano f) =
      (files σ', Ok tt) ∧ inbox d' = [].
Proof.
  intros Hd Hm E Hk Hf Hnew Hallow. destruct (store_spec _ _ _ _ _ _ _ Hd Hm E) as (Hd' & _ & σ1 & Hs & _ & Hσ).
  rewrite Hk in Hσ. specialize (Hσ eq_refl) as ->.
  apply spec_store_next in Hs as (pending & open & r1 & ph & _ & _ & _ & Hval & Hmsg & Hb & _ & _ & _ & _ & Hsync);
    [|done|by rewrite Hk].
  assert (IsLocal (FileChange.Path f) = true) as Hlocal by (eapply validate_local; [exact Hval|by rewrite Hk|done]).
  unfold spec_message in Hmsg. rewrite Hk in Hmsg. cbn [String.eqb Ascii.eqb Bool.eqb one_of existsb orb] in Hmsg.
  m_guard Hmsg as Hph. m_lift Hmsg as f' Hf'. rewrite Hf in Hf'. injection Hf' as <-.
  m_step Hmsg as σ2 [] Hput. apply mret_Ok in Hmsg as [-> Hmsg]. injection Hmsg as -> _.
  unfold spec_file in Hput. m_guard Hput as Hop. m_guard Hput as Hmeta. m_lift Hput as [[seen n] content] Hasm.
  m_guard Hput as Hcheck. rewrite Hallow in Hput. bool_prop.
  apply spec_assemble_parts in Hasm as (parts & Hparts & Hnum & Hn & Hc); [|lia|].
  2:{ destruct Hm as [_ Hok]. unfold Message_ok in Hok. bool_prop. rewrite Hf in *. cbn in *.
      unfold FileChange_ok in *. bool_prop. by apply (uint_ok_range 32). }
  exists parts, content. assert (Z.of_nat (length parts) = FileChange.Chunks f) as Hlen by lia.
  rewrite Hlen in Hnum. split_and!; try done; try lia.
  - unfold putFile in Hput. destruct (Put _ _ _ _ _) as [fs res]. by injection Hput as <- ->.
  - apply (so_closed _ _ _ _ (ti_staged _ Hd')). change (sync d') with (rp_sync (abs d')). by rewrite Hsync, Hk.
Qed.

(** A file is published only with the announced content: when the end of a
    file is stored and the operation is enabled, what is put at its path (a local
    path) is the content of the chunks of its batch, numbered from zero without a
    gap, with the announced size, within the limit, and the announced SHA-256. *)
Theorem file_published m raw f σ d σ' d' : TInv d → decodes m raw →
  store constraints cfg m raw σ d = (σ', d', Ok tt) → Message.Kind m = "file_end" → Message.File m = Some f →
  sync_state.received_seq (sync d) < Message.Seq m → AllowsFileOperation cfg (FileChange.Operation f) = true →
  ∃ parts content, mapM file_part (file_chunks (rp_batch (abs d))) = Some parts ∧
    parts.*1 = seqZ 0 (FileChange.Chunks f) ∧ content = foldl String.append "" parts.*2 ∧
    slen content = FileChange.Size f ∧ FileChange.Size f ≤ MaxFileBytes (Storage cfg) ∧
    hex_encode (sha256 content) = FileChange.SHA256 f ∧ IsLocal (FileChange.Path f) = true ∧
    Put (files σ) (FileChange.Path f) content (FileChange.Mode f) (FileChange.ModTimeUnixNano f) =
      (files σ', Ok tt) ∧ inbox d' = [].
Proof. apply file_end_put. Qed.

(** C1. The target implements its contract: from a state that satisfies the
    invariant of the metadata schema, storing a message ends exactly like the
    step of the abstract replica, with the same error or the replica the new
    database holds, keeps the invariant, and a failure changes nothing. *)
Theorem store_refines m raw σ d σ' d' res : TInv d → unmarshal raw = Some m → Message_ok m = true →
  store constraints cfg m raw σ d = (σ', d', res) →
  TInv d' ∧ (res ≠ Ok tt → d' = d) ∧
  ∃ σ1, spec_store constraints cfg m (sha256 raw) (abs d) σ = (σ1, (λ _, abs d') <$> res) ∧ files σ1 = files σ'.
Proof.
  intros Hd Hraw Hok E. destruct (store_spec _ _ _ _ _ _ _ Hd (conj Hraw Hok) E) as (? & ? & σ1 & ? & ? & _).
  eauto 6.
Qed.

(** C6. A transaction is applied as a whole and in order: when its row messages
    and its end are stored with the next sequence numbers, the tables are the
    result of applying the rows of all its messages, in order, to the tables
    before it; the inbox is empty again and everything received is applied. *)
Theorem transaction_applied l e σ d σ' d' : TInv d → inbox d = [] →
  Forall (λ mr, decodes mr.1 mr.2 ∧ Message.Kind mr.1 = "transaction_rows") l →
  decodes e.1 e.2 → Message.Kind e.1 = "transaction_end" →
  Message.Seq <$> (l ++ [e]).*1 = seqZ (sync_state.received_seq (sync d) + 1) (Z.of_nat (length l) + 1) →
  store_all (l ++ [e]) σ d = (σ', d', Ok tt) →
  applyRows constraints cfg (tables d) (concat (Message.Rows <$> l.*1)) (tables d) σ = (σ', Ok (tables d')) ∧
  inbox d' = [] ∧
  Progress d' = mkProgress (Message.Generation e.1) (sync_state.received_seq (sync d) + Z.of_nat (length l) + 1)
                  (sync_state.received_seq (sync d) + Z.of_nat (length l) + 1) (sync_state.schema_version (sync d')).
Proof.
  intros Hd Hi Hl He Hk Hseq E. rewrite fmap_app, fmap_app, seqZ_app in Hseq by lia.
  apply app_inj_1 in Hseq as [Hseq Hseq1]; [|rewrite !length_fmap, length_seqZ; lia].
  apply store_all_app in E as (σ1 & d1 & El & Ee).
  destruct (chunks_step _ _ _ _ _ Hd Hl Hseq El) as (Hd1 & -> & Ht & Hb & Hr).
  cbn in Hseq1. injection Hseq1 as Hseq1.
  cbn in Ee. destruct e as [m raw]. cbn [fst snd] in *.
  destruct (store _ _ _ _ _ _) as [[σ2 d2] [[]|]] eqn:Es; [|done]. injection Ee as -> ->.
  apply end_step in Es as (Ha & Hi' & Hg & Hr' & Hap); [|done..|lia].
  rewrite Ht, Hb in Ha. unfold abs in Ha. cbn [rp_batch] in Ha. rewrite Hi in Ha. split_and!; [done|done|].
  unfold Progress. rewrite Hg, Hap, Hr', Hr. done.
Qed.

(** C9. Storing a message twice is storing it once: once a message has been
    committed, delivering it again succeeds and changes neither the database,
    the type cache nor the files. *)
Theorem store_idempotent m raw σ d σ1 d1 : store constraints cfg m raw σ d = (σ1, d1, Ok tt) →
  ∀ σ2, store constraints cfg m raw σ2 d1 = (σ2, d1, Ok tt).
Proof.
  intros E σ2. apply store_Ok in E as [σ3 E]. pose proof E as E'.
  assert (negb (max_int64 <? Message.Seq m) = true) as Hmax.
  { unfold store_tx in E'. m_guard E' as Hg. by rewrite Hg. }
  assert (Message.Generation m = sync_state.generation (sync d1) ∧
          Message.Seq m ≤ sync_state.received_seq (sync d1) ∧
          (stored_hash m d1 = None ∨ stored_hash m d1 = Some (sha256 raw))) as (Hg & Hs & Hh).
  { apply store_tx_cases in E as [(_ & -> & ? & ? & ?)|(c & d2 & _ & _ & _ & E)]; [done|].
    apply store_next_inv in E as (p & o & d3 & ph & _ & _ & _ & _ & Hh & ->).
    split_and!; [done|done|]. right. by apply stored_hash_snoc. }
  unfold store, store_tx. apply negb_true_iff in Hmax. rewrite guard_bind by exact Hmax.
  unfold enter_generation. change (cu_generation (read_cursor d1)) with (sync_state.generation (sync d1)).
  rewrite Hg, String.eqb_refl, (lift_bind _ _ _ (read_cursor d1, d1)) by done.
  change (cu_received (read_cursor d1)) with (sync_state.received_seq (sync d1)).
  rewrite (proj2 (Z.leb_le _ _)) by done.
  rewrite (lift_bind _ _ _ tt).
  - cbn. done.
  - unfold check_duplicate. destruct Hh as [->| ->]; [done|]. by rewrite String.eqb_refl.
Qed.

(** Sequence numbers are contiguous and generations start at one: a committed
    message is a duplicate that leaves the database as it is, or carries the
    number after the last received one, or starts a new generation with
    [snapshot_begin] and number 1. *)
Theorem store_contiguous m raw σ d σ1 d1 : store constraints cfg m raw σ d = (σ1, d1, Ok tt) →
  let s := sync d in
  (d1 = d ∧ Message.Generation m = sync_state.generation s ∧ Message.Seq m ≤ sync_state.received_seq s) ∨
  (Message.Generation m = sync_state.generation s ∧ Message.Seq m = u64 (sync_state.received_seq s + 1) ∧
     Progress d1 = mkProgress (Message.Generation m) (Message.Seq m)
       (if completes (Message.Kind m) then Message.Seq m else sync_state.applied_seq s)
       (sync_state.schema_version (sync d1))) ∨
  (Message.Generation m ≠ sync_state.generation s ∧ Message.Seq m = 1 ∧
     Message.Kind m = "snapshot_begin" ∧
     Progress d1 = mkProgress (Message.Generation m) 1 0 (Message.SchemaVersion m)).
Proof. apply store_cases. Qed.

(** A batch becomes visible only when it is complete: the replicated tables
    change only by [snapshot_end], [transaction_end] and [schema_end]; every
    other message, and every message that fails, leaves them as they are. *)
Theorem store_visibility m raw σ d σ1 d1 r : store constraints cfg m raw σ d = (σ1, d1, r) →
  (r ≠ Ok tt ∨ one_of (Message.Kind m) ["snapshot_end"; "schema_end"; "transaction_end"] = false) →
  tables d1 = tables d.
Proof.
  intros E Hr. destruct r as [[]|e].
  - destruct Hr as [|Hk]; [done|]. apply store_Ok in E as [σ3 E].
    apply store_tx_cases in E as [(_ & -> & _)|(c & d2 & He & _ & _ & E)]; [done|].
    apply store_next_inv in E as (p & o & d3 & ph & _ & _ & _ & Ha & _ & ->).
    apply applyMessage_frame in Ha as [_ Ht]. cbn. rewrite Ht by done.
    by apply enter_generation_Ok in He as [(_ & -> & _)|(_ & _ & _ & _ & ->)].
  - unfold store in E. destruct (store_tx _ _ _ _ _ _) as [σ2 [d2|e2]]; by simplify_eq.
Qed.

(** ** Any history of a target *)

(** What happens to the metadata database of a target: a message arrives, found
    with any type cache and any files (so also after a restart, or after other
    changes of the storage), and its transaction commits or fails; a repair is
    authorised by an operator, or the authorisation is consumed. *)
Inductive op : Type :=
  | Arrive (σ : side F) (m : Message.t) (raw : string)
  | Authorize
  | Consume.

Definition perform d (o : op) : pg V :=
  match o with
  | Arrive σ m raw => (store constraints cfg m raw σ d).1.2
  | Authorize => authorizeRepair d
  | Consume => (consumeRepairAuthorization d).1
  end.

Definition arrival (o : op) : option (Message.t * string) :=
  match o with Arrive _ m raw => Some (m, raw) | _ => None end.

(** The hash rows of the messages of a log. *)
Definition log_row (mr : Message.t * string) : hash_row :=
  mkHash (Message.Generation mr.1) (Message.Seq mr.1) (sha256 mr.2).

(** [log] is what the target has accepted of the current generation: the next
    numbers from one, beginning with a snapshot, and the hashes are theirs. *)
Record accepted (log : list (Message.t * string)) d : Prop := {
  ac_inv : TInv d;
  ac_hash : message_hash d = log_row <$> log;
  ac_first : match log with [] => sync_state.phase (sync d) = "" | x :: _ => Message.Kind x.1 = "snapshot_begin" end
}.

Lemma phase_empty committed m raw d σ σ' d' ph :
  applyMessage constraints cfg committed m raw "" d σ = (σ', Ok (d', ph)) → Message.Kind m = "snapshot_begin".
Proof.
  unfold applyMessage. cbn [not_phase String.eqb negb andb orb].
  destruct (String.eqb_spec (Message.Kind m) "snapshot_begin") as [|_]; [done|].
  repeat (case_match; try done); destruct (Message.File m); done.
Qed.

Lemma accepted_store log m raw σ d σ' d' res : accepted log d → decodes m raw →
  store constraints cfg m raw σ d = (σ', d', res) →
  accepted log d' ∨ accepted (log ++ [(m, raw)]) d' ∨ accepted [(m, raw)] d'.
Proof.
  intros [Hd Hh Hf] Hm E. destruct (store_spec _ _ _ _ _ _ _ Hd Hm E) as (Hd' & Herr & _).
  destruct res as [[]|e]; [|left; by rewrite Herr].
  apply store_Ok in E as [σ1 E]. apply store_tx_cases in E as [(_ & -> & _)|(c & d1 & He & _ & _ & E)]; [by left|].
  apply store_next_inv in E as (p & o & d2 & ph & _ & _ & _ & Ha & _ & ->).
  pose proof Ha as [[_ Hh2] _]%applyMessage_frame.
  apply enter_generation_Ok in He as [(-> & -> & Hg)|(_ & _ & Hk & _ & ->)].
  - right; left. split; [done|cbn; by rewrite Hh2, Hh, fmap_app|]. destruct log; [|done]. cbn.
    change (cu_phase (read_cursor d)) with (sync_state.phase (sync d)) in Ha. rewrite Hf in Ha.
    by apply phase_empty in Ha.
  - right; right. split; [done|cbn; by rewrite Hh2|done].
Qed.

Lemma accepted_repair log b d : accepted log d → accepted log (set_sync (sync_state.set_repair b (sync d)) d).
Proof. intros [[[] [] ?] ? ?]. split; [|done..]. split; done. Qed.

Lemma accepted_history (m : gmap string (table V)) (l : list op) :
  Forall (λ mr, decodes mr.1 mr.2) (omap arrival l) →
  ∃ log, log `sublist_of` omap arrival l ∧ accepted log (foldl perform (migrate m) l).
Proof.
  induction l as [|o l IH] using rev_ind; intros Hl.
  { exists []. split; [done|]. split; [apply migrate_TInv|done..]. }
  rewrite omap_app in *. apply Forall_app in Hl as [Hl Ho]. destruct (IH Hl) as (log & Hsub & Hacc).
  rewrite foldl_app. cbn [foldl]. destruct o as [σ n raw| |]; cbn [perform omap list_omap arrival] in *.
  - apply Forall_inv in Ho. destruct (store _ _ _ _ _ _) as [[σ' d'] res] eqn:E.
    destruct (accepted_store _ _ _ _ _ _ _ _ Hacc Ho E) as [H|[H|H]]; eexists; (split; [|exact H]).
    + by apply sublist_inserts_r.
    + by apply sublist_app.
    + by apply sublist_inserts_l.
  - rewrite app_nil_r. exists log. split; [done|]. by apply accepted_repair.
  - rewrite app_nil_r. exists log. split; [done|]. unfold consumeRepairAuthorization.
    case_match; [by apply accepted_repair|done].
Qed.

(** C8. Every message is accepted once and in order, whatever else happens:
    after any history of a target since its metadata schema was created, in which
    decoded messages arrive any number of times and in any order, with any type
    cache and files, some of them fail, and repairs are authorised and consumed,
    there is a log, a subsequence of the arrivals, that is exactly what was
    accepted of the current generation: its messages carry the numbers one to the
    last received one, the first is a [snapshot_begin], the stored hashes are
    those of their payloads, and the staged rows and chunks are those of the open
    batch, in order, with nothing applied beyond what is received ([TInv]). *)
Theorem target_invariant (m : gmap string (table V)) (l : list op) :
  Forall (λ mr, decodes mr.1 mr.2) (omap arrival l) →
  let d := foldl perform (migrate m) l in
  TInv d ∧ ∃ log, log `sublist_of` omap arrival l ∧
    message_hash d = log_row <$> log ∧
    Forall (λ mr, Message.Generation mr.1 = sync_state.generation (sync d)) log ∧
    Message.Seq <$> log.*1 = seqZ 1 (sync_state.received_seq (sync d)) ∧
    (∀ x, head log = Some x → Message.Kind x.1 = "snapshot_begin").
Proof.
  intros Hl. destruct (accepted_history m l Hl) as (log & Hsub & [Hd Hh Hf]). cbv zeta. split; [done|].
  exists log. destruct (ti_hash _ Hd) as [Hg Hs]. rewrite Hh in Hg, Hs. rewrite <- !list_fmap_compose in *.
  split_and!; try done.
  - by apply Forall_fmap in Hg.
  - intros x Hx. destruct log; [done|]. injection Hx as ->. done.
Qed.

(** A refused [transaction_end] stops before any effect. *)
Lemma store_next_refused committed m raw c d σ e : transaction_guard m (cu_open c) = Err e →
  ∃ e', store_next constraints cfg committed m raw c d σ = (σ, Err e').
Proof.
  intros Hg. unfold store_next. rewrite Hg. unfold mbind, M_bind, lift.
  destruct (if HasPrefix _ _ then _ else _) as [|e1]; [|eauto]. destruct (schema_barrier m c); eauto.
Qed.

(** C10. A transaction without rows stops the stream: when no transaction is
    open, a [transaction_end] whose number was not received yet is refused, and
    the database, the files and the type cache stay as they are. *)
Theorem empty_transaction_rejected m raw σ d : Message.Kind m = "transaction_end" →
  sync_state.open_transaction (sync d) = "" → sync_state.received_seq (sync d) < Message.Seq m →
  ∃ e, store constraints cfg m raw σ d = (σ, d, Err e).
Proof.
  intros Hk Hopen Hnew. unfold store.
  enough (∃ e, store_tx constraints cfg m raw d σ = (σ, Err e)) as [e ->] by eauto.
  unfold store_tx. destruct (max_int64 <? _) eqn:Hmax; [by eexists|]. rewrite guard_bind by done.
  unfold enter_generation. change (cu_generation (read_cursor d)) with (sync_state.generation (sync d)).
  destruct (String.eqb _ _).
  - rewrite (lift_bind _ _ _ (read_cursor d, d)) by done.
    change (cu_received (read_cursor d)) with (sync_state.received_seq (sync d)).
    rewrite (proj2 (Z.leb_gt _ _)) by done. destruct (negb _); [by eexists|]. rewrite guard_bind by done.
    eapply store_next_refused. unfold transaction_guard. rewrite Hk.
    cbn [String.eqb Ascii.eqb Bool.eqb one_of existsb].
    change (cu_open (read_cursor d)) with (sync_state.open_transaction (sync d)).
    rewrite Hopen, fail_if_bind. destruct (Message.Transaction m); done.
  - rewrite Hk. cbn [String.eqb Ascii.eqb Bool.eqb negb]. rewrite orb_true_r. by eexists.
Qed.
End store.

(** ** A run *)

(** Values are texts; an [integer] is a text that parses as one. *)
#[local] Instance demo_postgres : Postgres string := {
  cast := λ ty s, if String.eqb ty "integer" then (_ ← ParseInt s 32; Some s) else Some s;
  bytea := λ s, s
}.

(** Files by path. *)
#[local] Instance demo_files : FileStore (gmap string string) := {
  Put := λ f path content _ _, (<[path := content]> f, Ok tt);
  Delete := λ f path, (delete path f, Ok tt)
}.

Definition demo_cfg : Syncer :=
  mkSyncer "s" "t" (PostgresConfig.mk "dsn" "public" "meta") [mkTable "public" "users"] [] true
    (mkFileStorage "directory" "/srv" "" "" "" "" "" "" "" false ["create"] 1024).

Definition demo_tables : gmap string (table string) :=
  {[ "users" := mkPgTable [("id", "integer"); ("name", "text")] [{[ "id" := "1" ]}] ]}.

Definition demo_side : side (gmap string string) := mkSide ∅ ∅.

Definition demo_message (seq : Z) (kind tx : string) (tables : list TableRef.t) (rows : list Row.t)
    (file : option FileChange.t) : Message.t * string :=
  let m := Message.mk "1" "s" "g" "" seq "" kind tx 0 "" tables None rows file "" in (m, marshal m).

Definition demo_row (op id name : string) : Row.t :=
  let c n v := Column.mk n "text" (Some v) "" None in
  Row.mk "" "public" "users" op [c "id" id] [] [c "id" id; c "name" name] 0.

Definition demo_begin := demo_message 1 "snapshot_begin" "" [TableRef.mk "public" "users"] [] None.
Definition demo_rows := demo_message 2 "snapshot_rows" "" [] [demo_row "read" "7" "ann"] None.
Definition demo_end := demo_message 3 "snapshot_end" "" [] [] None.
Definition demo_tx := demo_message 4 "transaction_rows" "x" [] [demo_row "insert" "8" "bob"; demo_row "delete" "7" ""] None.
Definition demo_commit := demo_message 5 "transaction_end" "x" [] [] None.

Notation demo_run l := (store_all (λ _, true) demo_cfg l demo_side (migrate demo_tables)) (only parsing).

Definition demo_file (chunk : Z) (data : string) : FileChange.t :=
  FileChange.mk "a/b.txt" "create" 2 0 420
    "8f434346648f6b96df89dda901c5176b10a6d83961dd3c1ac88b59b2dc327aa4" chunk 1 data.
Definition demo_file_begin := demo_message 6 "file_begin" "f" [] [] (Some (demo_file 0 "")).
Definition demo_file_chunk := demo_message 7 "file_chunk" "f" [] [] (Some (demo_file 0 "aGk=")).
Definition demo_file_end := demo_message 8 "file_end" "f" [] [] (Some (demo_file 0 "")).

Definition demo_snapshot := [demo_begin; demo_rows; demo_end].
Definition demo_transaction := demo_snapshot ++ [demo_tx; demo_commit].
Definition demo_upload := demo_transaction ++ [demo_file_begin; demo_file_chunk].

Definition state_of {F V A} (p : side F * pg V * A) : pg V := p.1.2.
Definition side_of {F V A} (p : side F * pg V * A) : side F := p.1.1.

Lemma outcome_of {F V} (p : side F * pg V * result unit) : p.2 = Ok tt → p = (side_of p, state_of p, Ok tt).
Proof. destruct p as [[σ d] r]. by intros <-. Qed.

Ltac demo_decode := split; [apply unmarshal_marshal|]; reflexivity.

Lemma demo_decodes : Forall (λ mr, decodes mr.1 mr.2) (demo_upload ++ [demo_file_end]).
Proof. repeat (constructor; [demo_decode|]). constructor. Qed.

Lemma demo_TInv l : Forall (λ mr, decodes mr.1 mr.2) l → TInv (state_of (demo_run l)).
Proof.
  intros Hl. destruct (store_all _ _ _ _ _) as [[σ d] r] eqn:E. cbn.
  eapply store_all_TInv; [|exact Hl|exact E]. apply migrate_TInv.
Qed.

(** The snapshot replaces the rows, the transaction adds one and deletes one. *)
Lemma demo_result : tables (state_of (demo_run demo_transaction)) !! "users" =
  Some (mkPgTable [("id", "integer"); ("name", "text")] [{[ "id" := "8"; "name" := "bob" ]}]).
Proof. reflexivity. Qed.

Lemma demo_prefix {P : Message.t * string → Prop} a b : Forall P (a ++ b) → Forall P a.
Proof. by intros [? _]%Forall_app. Qed.

(** The state before and after one more message. *)
Notation demo_store l e := (store (λ _, true) demo_cfg e.1 e.2 (side_of (demo_run l)) (state_of (demo_run l)))
  (only parsing).

Notation demo_after l k := (store_all (λ _, true) demo_cfg k (side_of (demo_run l)) (state_of (demo_run l)))
  (only parsing).

Lemma store_refines_witness :
  TInv (state_of (demo_store demo_transaction demo_file_begin)) ∧
  ∃ σ1, spec_store (λ _, true) demo_cfg demo_file_begin.1 (sha256 demo_file_begin.2)
          (abs (state_of (demo_run demo_transaction))) (side_of (demo_run demo_transaction)) =
        (σ1, Ok (abs (state_of (demo_store demo_transaction demo_file_begin)))).
Proof.
  destruct (store_refines (λ _, true) demo_cfg demo_file_begin.1 demo_file_begin.2
    (side_of (demo_run demo_transaction)) (state_of (demo_run demo_transaction))
    (side_of (demo_store demo_transaction demo_file_begin))
    (state_of (demo_store demo_transaction demo_file_begin)) (Ok tt)) as (H1 & _ & σ1 & H2 & _).
  - apply demo_TInv. exact (demo_prefix _ _ (demo_prefix _ _ demo_decodes)).
  - apply unmarshal_marshal. reflexivity.
  - reflexivity.
  - refine (outcome_of (demo_store demo_transaction demo_file_begin) _). reflexivity.
  - split; [exact H1|]. exists σ1. exact H2.
Defined.

Lemma transaction_applied_witness : ∃ σ',
  applyRows (λ _, true) demo_cfg (tables (state_of (demo_run demo_snapshot)))
    [demo_row "insert" "8" "bob"; demo_row "delete" "7" ""] (tables (state_of (demo_run demo_snapshot)))
    (side_of (demo_run demo_snapshot)) =
  (σ', Ok (tables (state_of (demo_after demo_snapshot [demo_tx; demo_commit])))).
Proof.
  eexists. apply (transaction_applied (λ _, true) demo_cfg [demo_tx] demo_commit
    (side_of (demo_run demo_snapshot)) (state_of (demo_run demo_snapshot))
    (side_of (demo_after demo_snapshot [demo_tx; demo_commit])) (state_of (demo_after demo_snapshot [demo_tx; demo_commit]))).
  - apply demo_TInv. exact (demo_prefix _ _ (demo_prefix _ _ (demo_prefix _ _ demo_decodes))).
  - reflexivity.
  - constructor; [split; [demo_decode|reflexivity]|constructor].
  - demo_decode.
  - reflexivity.
  - reflexivity.
  - refine (outcome_of (demo_after demo_snapshot [demo_tx; demo_commit]) _). reflexivity.
Defined.

(** A snapshot with a schema version, whose schema has one more column. *)
Definition demo_versioned (seq : Z) (kind : string) (tables : list TableRef.t) (schema : option json)
    (rows : list Row.t) : Message.t * string :=
  let m := Message.mk "1" "s" "g" "v1" seq "" kind "" 0 "" tables schema rows None "" in (m, marshal m).

Definition demo_schema : json :=
  let c n ty := JObj [("name", JStr n); ("type", JStr ty)] in
  JObj [("schema", JStr "public"); ("name", JStr "users");
        ("columns", JArr [c "id" "integer"; c "name" "text"; c "note" "text"])].

Definition demo_v_begin := demo_versioned 1 "snapshot_begin" [TableRef.mk "public" "users"] None [].
Definition demo_v_parts :=
  [demo_versioned 2 "schema" [] (Some demo_schema) []; demo_versioned 3 "snapshot_rows" [] None [demo_row "read" "7" "ann"]].
Definition demo_v_end := demo_versioned 4 "snapshot_end" [] None [].

Lemma snapshot_replaces_witness : ∃ tb,
  tables (state_of (demo_run (demo_v_begin :: demo_v_parts ++ [demo_v_end]))) !! "users" = Some tb ∧
  [("id", "integer"); ("name", "text")] `prefix_of` cols tb ∧
  Forall2 (tuple_of demo_cfg) [demo_row "read" "7" "ann"] (tuples tb).
Proof.
  destruct (snapshot_replaces (λ _, true) demo_cfg demo_v_begin demo_v_parts demo_v_end demo_side
    (migrate demo_tables) (side_of (demo_run (demo_v_begin :: demo_v_parts ++ [demo_v_end])))
    (state_of (demo_run (demo_v_begin :: demo_v_parts ++ [demo_v_end])))) as [H _].
  - apply migrate_TInv.
  - demo_decode.
  - discriminate.
  - repeat (constructor; [split; [demo_decode|reflexivity]|]). constructor.
  - demo_decode.
  - reflexivity.
  - reflexivity.
  - refine (outcome_of (demo_run (demo_v_begin :: demo_v_parts ++ [demo_v_end])) _). reflexivity.
  - destruct (H (TableRef.mk "public" "users") ltac:(left)) as (old & tb & Hold & Htb & Hpre & _ & Hrows).
    injection Hold as <-. exists tb. split; [exact Htb|]. split; [exact Hpre|exact Hrows].
Defined.

Lemma file_published_witness : ∃ content,
  Put (files (side_of (demo_run demo_upload))) "a/b.txt" content 420 0 =
    (files (side_of (demo_store demo_upload demo_file_end)), Ok tt) ∧
  hex_encode (sha256 content) = "8f434346648f6b96df89dda901c5176b10a6d83961dd3c1ac88b59b2dc327aa4".
Proof.
  destruct (file_published (λ _, true) demo_cfg demo_file_end.1 demo_file_end.2 (demo_file 0 "")
    (side_of (demo_run demo_upload)) (state_of (demo_run demo_upload))
    (side_of (demo_store demo_upload demo_file_end)) (state_of (demo_store demo_upload demo_file_end)))
    as (parts & content & _ & _ & _ & _ & _ & Hsha & _ & Hput & _).
  - apply demo_TInv. exact (demo_prefix _ _ demo_decodes).
  - demo_decode.
  - refine (outcome_of (demo_store demo_upload demo_file_end) _). reflexivity.
  - reflexivity.
  - reflexivity.
  - reflexivity.
  - reflexivity.
  - exists content. split; [exact Hput|exact Hsha].
Defined.

(** The beginning arrives twice, the end too early, a repair is authorised, and
    the rows come after a restart. *)
Definition demo_history : list (op (F:=gmap string string)) :=
  let arrive (x : Message.t * string) := Arrive demo_side x.1 x.2 in
  [arrive demo_begin; arrive demo_end; arrive demo_begin; Authorize; arrive demo_rows; arrive demo_end; Consume].

Lemma target_invariant_witness :
  let d := foldl (perform (λ _, true) demo_cfg) (migrate demo_tables) demo_history in
  TInv d ∧ ∃ log, log `sublist_of` [demo_begin; demo_end; demo_begin; demo_rows; demo_end] ∧
    message_hash d = log_row <$> log ∧ Message.Seq <$> log.*1 = [1; 2; 3].
Proof.
  destruct (target_invariant (λ _, true) demo_cfg demo_tables demo_history) as [H (log & H1 & H2 & _ & H3 & _)].
  - cbn. repeat (constructor; [demo_decode|]). constructor.
  - split; [exact H|]. exists log. split; [exact H1|]. split; [exact H2|]. exact H3.
Defined.

Lemma empty_transaction_witness : ∃ e,
  demo_store demo_snapshot (demo_message 4 "transaction_end" "x" [] [] None) =
    (side_of (demo_run demo_snapshot), state_of (demo_run demo_snapshot), Err e).
Proof. apply empty_transaction_rejected; reflexivity. Defined.

Lemma store_idempotent_witness :
  store (λ _, true) demo_cfg demo_commit.1 demo_commit.2 demo_side
    (state_of (demo_store (demo_snapshot ++ [demo_tx]) demo_commit)) =
  (demo_side, state_of (demo_store (demo_snapshot ++ [demo_tx]) demo_commit), Ok tt).
Proof.
  refine (store_idempotent _ _ _ _ _ _ _ _ (outcome_of (demo_store (demo_snapshot ++ [demo_tx]) demo_commit) _) demo_side).
  reflexivity.
Defined.

Lemma store_contiguous_witness :
  Message.Seq demo_tx.1 = u64 (sync_state.received_seq (sync (state_of (demo_run demo_snapshot))) + 1).
Proof.
  assert ((demo_store demo_snapshot demo_tx).2 = Ok tt) as E by reflexivity.
  destruct (store_contiguous _ _ _ _ _ _ _ _ (outcome_of _ E)) as [(_ & _ & H)|[(_ & H & _)|(H & _)]].
  - exfalso. apply H. reflexivity.
  - exact H.
  - exfalso. apply H. reflexivity.
Defined.

Lemma store_visibility_witness :
  tables (state_of (demo_store demo_snapshot demo_tx)) = tables (state_of (demo_run demo_snapshot)).
Proof.
  assert ((demo_store demo_snapshot demo_tx).2 = Ok tt) as E by reflexivity.
  refine (store_visibility _ _ _ _ _ _ _ _ _ (outcome_of _ E) _). right. reflexivity.
Defined.
