(* ===== verification/Lease.v ===== *)
(** * Opening a target and owning it (internal/server/target.go)

    A server owns a target by an advisory lock of PostgreSQL: session locks on the hash
    of the syncer's key, which a session can take more than once and which end with the
    session.  Several servers share the database; a session of a pool is used by one
    lease at a time, and goes back to the pool with the locks it still has.  Opening a
    target opens a pool and possibly a file store, which are closed again when a later
    step fails. *)

From S2P Require Import Prelude Bytes.

(** ** Advisory locks *)







Record targetLease := mkLease { conn : Z; key : string }.

#[global] Instance targetLease_eq_dec : EqDecision targetLease.
Proof. solve_decision. Defined.

Section lease.
Context (hash : string → Z).




(** ** The servers of a database *)







(** *** What the operations do to the locks of other sessions *)






(** *** The invariants *)













End lease.

(** ** Opening a target *)

(** The pool, the server's answers, the migration, the file store and the columns of a table. *)
Record open_io := mkOpen {
  o_New : result unit;
  o_Ping : result unit;
  o_version : result Z;
  o_migrate : result unit;
  o_filestore : result unit;
  o_columnTypes : string → result unit }.

Inductive resource := Pool | Files.
Inductive action := Open (r : resource) | Close (r : resource).

(** The columns of the tables, one after the other. *)
Fixpoint check_columns (columnTypes : string → result unit) (tables : list string) : result unit :=
  match tables with
  | [] => Ok tt
  | t :: tables' => _ ← columnTypes t; check_columns columnTypes tables'
  end.

(** What is opened and closed, and the result. *)
Definition openTarget (backend : string) (tables : list string) (io : open_io) : list action * result unit :=
  match o_New io with
  | Err e => ([], Err e)
  | Ok _ =>
      match o_Ping io with
      | Err e => ([Open Pool; Close Pool], Err e)
      | Ok _ =>
          match o_version io with
          | Err e => ([Open Pool; Close Pool], Err e)
          | Ok version =>
              if version <? 150000 then
                ([Open Pool; Close Pool], Err (errors_New "target PostgreSQL 15 or newer is required; got server_version_num %d"))
              else
                match o_migrate io with
                | Err e => ([Open Pool; Close Pool], Err e)
                | Ok _ =>
                    match (if String.eqb backend "" then Ok [] else (_ ← o_filestore io; Ok [Files])) with
                    | Err e => ([Open Pool; Close Pool], Err (wrapf "open file storage: %w" e))
                    | Ok files =>
                        match check_columns (o_columnTypes io) tables with
                        | Err e => (Open Pool :: (Open <$> files) ++ (Close <$> files) ++ [Close Pool], Err e)
                        | Ok _ => (Open Pool :: (Open <$> files), Ok tt)
                        end
                    end
                end
          end
      end
  end.

(** What is still open after the actions. *)
Fixpoint still_open (l : list action) (r : resource) (open : bool) : bool :=
  match l with
  | [] => open
  | Open r' :: l' => still_open l' r (match r, r' with Pool, Pool | Files, Files => true | _, _ => open end)
  | Close r' :: l' => still_open l' r (match r, r' with Pool, Pool | Files, Files => false | _, _ => open end)
  end.

(** A target that cannot be opened leaves nothing open, and an open one has its pool,
    its file store if it is configured, a server that is new enough and its tables. *)
Lemma openTarget_closes backend tables io l r : openTarget backend tables io = (l, r) →
  match r with
  | Err _ => ∀ x, still_open l x false = false
  | Ok _ => still_open l Pool false = true ∧ still_open l Files false = negb (String.eqb backend "") ∧
      (∃ v, o_version io = Ok v ∧ 150000 ≤ v) ∧ o_migrate io = Ok tt ∧ Forall (λ t, o_columnTypes io t = Ok tt) tables
  end.
Proof.
  unfold openTarget. destruct (o_New io); [|by intros [= <- <-] x].
  destruct (o_Ping io); [|by intros [= <- <-] []]. destruct (o_version io) as [v|]; [|by intros [= <- <-] []].
  destruct (Z.ltb_spec v 150000); [by intros [= <- <-] []|]. destruct (o_migrate io) as [[]|]; [|by intros [= <- <-] []].
  assert (∀ u, check_columns (o_columnTypes io) tables = Ok u → Forall (λ t, o_columnTypes io t = Ok tt) tables) as Hc.
  { clear. induction tables as [|t tables IH]; intros u; cbn; [constructor|]. destruct (o_columnTypes io t) as [[]|] eqn:E; [|done].
    intros Hu. constructor; [done|by eapply IH]. }
  destruct (String.eqb backend ""); [|destruct (o_filestore io) as [[]|]; [|by intros [= <- <-] []]]; cbn;
    (destruct (check_columns _ tables) as [u|] eqn:E; intros [= <- <-]; [|by intros []]); (split_and!; [done|done|by exists v|done|by apply (Hc u)]).
Qed.

(** ** The theorems *)



