(* ===== verification/Disk.v ===== *)
(** * Files of a directory (package os)

    The operations of [os.Root] and [os] that the file destinations, the status file
    and the plugin installer use, on the tree below a directory.  A path is the list
    of its components; the directory itself is always there, symbolic links are not.
    Every call is one step with an outcome of its own: it is done, or fails without
    effect; a read may return less than is there and a write may be torn.  When the
    outcomes end the process is killed: nothing happens any more, not even what was
    deferred. *)

From S2P Require Import Prelude Bytes GoPath.

Record file := mkFile { f_content : string; f_mode : Z; f_mtime : Z }.
Inductive node := Dir | File (f : file).
Notation tree := (@gmap (list string) (@list_eq_dec string String.eq_dec)
  (@list_countable string String.eq_dec String.countable) node).

Inductive outcome :=
  | Done
  | Short (n : nat)
  | Torn (n : nat) (text : string)
  | Fails (text : string).

Definition ErrNotExist : error := errors_New "file does not exist".
Definition ErrExist : error := errors_New "file already exists".
Definition os_error (text : string) : error := wrapf "os: " (errors_New text).

(** [errors.Is(err, os.ErrNotExist)] *)
Definition is_not_exist (e : error) : bool := bool_decide (e = ErrNotExist).

Definition disk (A : Type) := list outcome → tree → list outcome * tree * result A.

#[global] Instance disk_ret : MRet disk := λ A a o t, (o, t, Ok a).
#[global] Instance disk_bind : MBind disk := λ A B f c o t,
  match c o t with
  | (o', t', Ok a) => f a o' t'
  | (o', t', Err e) => (o', t', Err e)
  end.

Definition dpure {A : Type} (r : result A) : disk A := λ o t, (o, t, r).

Definition sys {A : Type} (f : outcome → tree → tree * result A) : disk A := λ o t,
  match o with
  | [] => ([], t, Err ErrCanceled)
  | x :: o' => let '(t', r) := f x t in (o', t', r)
  end.

(** A call that is done or not. *)
Definition step {A : Type} (f : tree → tree * result A) : disk A := sys (λ x t,
  match x with
  | Torn _ s | Fails s => (t, Err (os_error s))
  | _ => f t
  end).

(** [defer]: what is done at the end, whatever the end; its error is joined. *)
Definition deferred {A : Type} (d : disk unit) (c : disk A) : disk A := λ o t,
  match c o t with
  | (o', t', r) =>
      match d o' t', r with
      | (o'', t'', Ok _), _ => (o'', t'', r)
      | (o'', t'', Err e), Err e' => (o'', t'', Err (errors_Join e' e))
      | (o'', t'', Err e), Ok _ => (o'', t'', Err e)
      end
  end.

(** [errors.Join(err, d())] when the computation fails. *)
Definition on_error {A : Type} (d : disk unit) (c : disk A) : disk A := λ o t,
  match c o t with
  | (o', t', Err e) =>
      match d o' t' with
      | (o'', t'', Ok _) => (o'', t'', Err e)
      | (o'', t'', Err e') => (o'', t'', Err (errors_Join e e'))
      end
  | x => x
  end.

(** An error that is handled. *)
Definition catch {A : Type} (h : error → disk A) (c : disk A) : disk A := λ o t,
  match c o t with
  | (o', t', Err e) => h e o' t'
  | x => x
  end.

(** ** The calls *)

Definition is_dir (t : tree) (p : list string) : bool :=
  match p with [] => true | _ => match t !! p with Some Dir => true | _ => false end end.

(** The containing directory. *)
Definition parent (p : list string) : list string := removelast p.

Definition mkdir (p : list string) (t : tree) : tree * result unit :=
  match t !! p with
  | Some Dir => (t, Ok tt)
  | Some (File _) => (t, Err (os_error "not a directory"))
  | None => (<[p := Dir]> t, Ok tt)
  end.

(** [MkdirAll]: one directory after the other, [base] exists. *)
Fixpoint mkdirs (base rest : list string) : disk unit :=
  match rest with
  | [] => mret tt
  | x :: rest' => _ ← step (mkdir (base ++ [x])); mkdirs (base ++ [x]) rest'
  end.

(** A path of an [os.Root] must not leave it. *)
Definition escapes (p : list string) : bool := match p with ".." :: _ => true | _ => false end.
Definition rooted {A : Type} (p : list string) (c : disk A) : disk A :=
  if escapes p then dpure (Err (os_error "path escapes from parent")) else c.

Definition MkdirAll (p : list string) : disk unit := rooted p (mkdirs [] p).

(** [OpenFile] with [O_CREATE|O_EXCL|O_WRONLY] *)
Definition create (p : list string) (mode : Z) : disk unit := rooted p (step (λ t,
  if negb (is_dir t (parent p)) then (t, Err ErrNotExist)
  else if is_dir t p then (t, Err ErrExist)
  else match t !! p with
       | Some _ => (t, Err ErrExist)
       | None => (<[p := File (mkFile "" mode 0)]> t, Ok tt)
       end)).

Definition upd (g : file → file) (p : list string) (t : tree) : tree :=
  match t !! p with Some (File f) => <[p := File (g f)]> t | _ => t end.

Definition write (p : list string) (data : string) : disk unit := sys (λ x t,
  let wrote d := upd (λ f, mkFile (f_content f +:+ d) (f_mode f) (f_mtime f)) p t in
  match x with
  | Fails s => (t, Err (os_error s))
  | Torn n s => (wrote (take_string n data), Err (os_error s))
  | _ => (wrote data, Ok tt)
  end).

(** [Sync], [Close], [Open] for reading: no effect on the tree. *)
Definition nothing : disk unit := step (λ t, (t, Ok tt)).

Definition Chmod (p : list string) (mode : Z) : disk unit := rooted p (step (λ t,
  match t !! p with
  | None => (t, Err ErrNotExist)
  | Some _ => (upd (λ f, mkFile (f_content f) mode (f_mtime f)) p t, Ok tt)
  end)).

Definition Chtimes (p : list string) (mtime : Z) : disk unit := rooted p (step (λ t,
  match t !! p with
  | None => (t, Err ErrNotExist)
  | Some _ => (upd (λ f, mkFile (f_content f) (f_mode f) mtime) p t, Ok tt)
  end)).

(** A file replaces a file, not a directory. *)
Definition Rename (p q : list string) : disk unit := rooted p (rooted q (step (λ t,
  match t !! p with
  | Some (File f) =>
      if negb (is_dir t (parent q)) then (t, Err ErrNotExist)
      else if is_dir t q then (t, Err (os_error "is a directory"))
      else (<[q := File f]> (delete p t), Ok tt)
  | Some Dir => (t, Err (os_error "is a directory"))
  | None => (t, Err ErrNotExist)
  end))).

Definition has_children (t : tree) (p : list string) : bool :=
  existsb (λ q, bool_decide (q.1 ≠ p) && bool_decide (parent q.1 = p)) (map_to_list t).

Definition Remove (p : list string) : disk unit := rooted p (step (λ t,
  match t !! p with
  | None => (t, Err ErrNotExist)
  | Some Dir => if has_children t p then (t, Err (os_error "directory not empty")) else (delete p t, Ok tt)
  | Some (File _) => (delete p t, Ok tt)
  end)).

(** A second name for a file, if there is nothing of that name. *)
Definition Link (p q : list string) : disk unit := rooted p (rooted q (step (λ t,
  match t !! p with
  | Some (File f) =>
      if negb (is_dir t (parent q)) then (t, Err ErrNotExist)
      else if is_dir t q then (t, Err ErrExist)
      else match t !! q with Some _ => (t, Err ErrExist) | None => (<[q := File f]> t, Ok tt) end
  | Some Dir => (t, Err (os_error "operation not permitted"))
  | None => (t, Err ErrNotExist)
  end))).

Definition exists_at (p : list string) : disk bool := rooted p (step (λ t,
  (t, Ok (is_dir t p || match t !! p with Some _ => true | None => false end)))).

(** Removing what may be gone. *)
Definition remove_if_exists (p : list string) : disk unit :=
  catch (λ e, if is_not_exist e then mret tt else dpure (Err e)) (Remove p).

Lemma disk_outcome {A : Type} (x : list outcome * tree * result A) r : x.2 = r → x = (x.1.1, x.1.2, r).
Proof. destruct x as [[o t] r']. by intros <-. Qed.

(** ** A logic for interrupted computations *)

(** From [P], the computation ends in [Q] if it succeeds, and in [I] if it fails or
    the process is killed. *)
Definition spec {A : Type} (I P : tree → Prop) (c : disk A) (Q : A → tree → Prop) : Prop :=
  ∀ o t o' t' r, P t → c o t = (o', t', r) → match r with Ok a => Q a t' | Err _ => I t' end.

Lemma spec_mono {A : Type} (I I' P : tree → Prop) (c : disk A) Q : spec I P c Q → (∀ t, I t → I' t) → spec I' P c Q.
Proof. intros H HI o t o' t' r HP E. specialize (H _ _ _ _ _ HP E). destruct r; auto. Qed.

Section logic.
Context (I : tree → Prop).

Lemma spec_ret {A : Type} (P : tree → Prop) (a : A) (Q : A → tree → Prop) : (∀ t, P t → Q a t) → spec I P (mret a) Q.
Proof. intros H o t o' t' r HP [= <- <- <-]. auto. Qed.

Lemma spec_bind {A B : Type} P (c : disk A) (f : A → disk B) R Q : spec I P c R → (∀ a, spec I (R a) (f a) Q) → spec I P (c ≫= f) Q.
Proof.
  intros Hc Hf o t o' t' r HP. unfold mbind, disk_bind. destruct (c o t) as [[o1 t1] [a|e]] eqn:E; specialize (Hc _ _ _ _ _ HP E); cbn in Hc.
  - intros E2. by eapply Hf.
  - by intros [= <- <- <-].
Qed.

Lemma spec_weaken {A : Type} (P P' : tree → Prop) (c : disk A) (Q Q' : A → tree → Prop) :
  spec I P' c Q' → (∀ t, P t → P' t) → (∀ a t, Q' a t → Q a t) → spec I P c Q.
Proof. intros H HP HQ o t o' t' r Hp E. specialize (H _ _ _ _ _ (HP _ Hp) E). destruct r; auto. Qed.

(** A fact that the precondition gives. *)
Lemma spec_fact {A : Type} (P : tree → Prop) (φ : Prop) (c : disk A) Q : (φ → spec I P c Q) → spec I (λ t, φ ∧ P t) c Q.
Proof. intros H o t o' t' r [Hφ HP]. by apply (H Hφ). Qed.

Lemma spec_dpure {A : Type} (P : tree → Prop) (r : result A) : (∀ t, P t → I t) → spec I P (dpure r) (λ a t, r = Ok a ∧ P t).
Proof. intros HI o t o' t' r' HP [= <- <- <-]. destruct r; auto. Qed.

Lemma spec_sys {A : Type} (P : tree → Prop) (f : outcome → tree → tree * result A) (Q : A → tree → Prop) : (∀ t, P t → I t) →
  (∀ x t t' r, P t → f x t = (t', r) → match r with Ok a => Q a t' | Err _ => I t' end) → spec I P (sys f) Q.
Proof.
  intros HI H o t o' t' r HP. unfold sys. destruct o as [|x o1]; [intros [= <- <- <-]; auto|].
  destruct (f x t) as [t1 r1] eqn:E. intros [= <- <- <-]. by eapply H.
Qed.

Lemma spec_step {A : Type} (P : tree → Prop) (f : tree → tree * result A) (Q : A → tree → Prop) : (∀ t, P t → I t) →
  (∀ t t' r, P t → f t = (t', r) → match r with Ok a => Q a t' | Err _ => I t' end) → spec I P (step f) Q.
Proof. intros HI H. apply spec_sys; [done|]. intros [] t t' r HP; try (by apply H); intros [= <- <-]; auto. Qed.

Lemma spec_rooted {A : Type} (P : tree → Prop) (p : list string) (c : disk A) Q : (∀ t, P t → I t) → spec I P c Q → spec I P (rooted p c) Q.
Proof. intros HI Hc. unfold rooted. destruct (escapes p); [|done]. intros o t o' t' r HP [= <- <- <-]. auto. Qed.

Lemma spec_deferred {A : Type} P (d : disk unit) (c : disk A) Q Q' : spec I P c Q → spec I I d (λ _, I) →
  (∀ a, spec I (Q a) d (λ _, Q' a)) → spec I P (deferred d c) Q'.
Proof.
  intros Hc Hd Hq o t o' t' r HP. unfold deferred. destruct (c o t) as [[o1 t1] [a|e]] eqn:E; specialize (Hc _ _ _ _ _ HP E); cbn in Hc.
  - destruct (d o1 t1) as [[o2 t2] [[]|e2]] eqn:E2; pose proof (Hq a _ _ _ _ _ Hc E2) as H; by intros [= <- <- <-].
  - destruct (d o1 t1) as [[o2 t2] [[]|e2]] eqn:E2; pose proof (Hd _ _ _ _ _ Hc E2) as H; by intros [= <- <- <-].
Qed.

Lemma spec_on_error {A : Type} P (d : disk unit) (c : disk A) Q : spec I P c Q → spec I I d (λ _, I) → spec I P (on_error d c) Q.
Proof.
  intros Hc Hd o t o' t' r HP. unfold on_error. destruct (c o t) as [[o1 t1] [a|e]] eqn:E; specialize (Hc _ _ _ _ _ HP E); cbn in Hc.
  - by intros [= <- <- <-].
  - destruct (d o1 t1) as [[o2 t2] [[]|e2]] eqn:E2; pose proof (Hd _ _ _ _ _ Hc E2) as H; by intros [= <- <- <-].
Qed.

(** A failure that is handled where it leaves the tree. *)
Lemma spec_handle {A : Type} J P (h : error → disk A) (c : disk A) Q : spec J P c Q → (∀ e, spec I J (h e) Q) → spec I P (catch h c) Q.
Proof.
  intros Hc Hh o t o' t' r HP. unfold catch. destruct (c o t) as [[o1 t1] [a|e]] eqn:E; specialize (Hc _ _ _ _ _ HP E); cbn in Hc.
  - by intros [= <- <- <-].
  - intros E2. by eapply Hh.
Qed.

Lemma spec_catch {A : Type} P (h : error → disk A) (c : disk A) Q : spec I P c Q → (∀ e, spec I I (h e) Q) → spec I P (catch h c) Q.
Proof. apply spec_handle. Qed.

Lemma spec_nothing (P : tree → Prop) : (∀ t, P t → I t) → spec I P nothing (λ _, P).
Proof. intros HI. apply spec_step; [done|]. by intros t t' r HP [= <- <-]. Qed.
End logic.

Lemma spec_Remove (p : list string) (I P Q : tree → Prop) : (∀ t, P t → I t) →
  (∀ t t', P t → (∀ q, q ≠ p → t' !! q = t !! q) → t' !! p = None → Q t') → spec I P (Remove p) (λ _, Q).
Proof.
  intros HI HQ. apply spec_rooted; [done|]. apply spec_step; [done|]. intros t t' r HP.
  assert (Q (delete p t)) as Hdel.
  { apply (HQ t); [done| |by rewrite lookup_delete_eq]. intros q Hq. by rewrite lookup_delete_ne. }
  destruct (t !! p) as [[|f]|]; [destruct (has_children t p)| |]; intros [= <- <-]; auto.
Qed.

(** ** Files under a temporary name *)

Lemma is_dir_ext (t t' : tree) (p : list string) : (is_dir t p = true → t' !! p = t !! p) → is_dir t p = true → is_dir t' p = true.
Proof. intros H Hd. specialize (H Hd). unfold is_dir in *. destruct p; [done|]. by rewrite H. Qed.

Lemma removelast_snoc {A} (l : list A) x : removelast (l ++ [x]) = l.
Proof. by rewrite removelast_app, app_nil_r. Qed.

Lemma lookup_upd_ne (g : file → file) (p q : list string) (t : tree) : q ≠ p → upd g p t !! q = t !! q.
Proof. intros H. unfold upd. destruct (t !! p) as [[|f]|]; [done| |done]. by rewrite lookup_insert_ne. Qed.

Lemma lookup_upd (g : file → file) (p : list string) (t : tree) (f : file) : t !! p = Some (File f) → upd g p t !! p = Some (File (g f)).
Proof. intros H. unfold upd. rewrite H. by rewrite lookup_insert_eq. Qed.

Lemma create_fresh p mode o t o' t' u : create p mode o t = (o', t', Ok u) → t !! p = None.
Proof.
  unfold create, rooted, step, sys. destruct (escapes p); [by intros [=]|]. destruct o as [|x o1]; [by intros [=]|].
  destruct x; try (by intros [=]); (destruct (negb _); [by intros [=]|]; destruct (is_dir t p); [by intros [=]|];
    destruct (t !! p); [by intros [=]|done]).
Qed.

Section temporary.
(** The tree before, the destination, its new file, the temporary name, and the
    directories that may be made. *)
Context (t0 : tree) (p : list string) (new : file) (temp : list string) (dirs : list (list string)).
Hypothesis Hp : p ≠ temp.
Hypothesis Hparent : parent p ≠ temp.
Hypothesis Hdirs : p ∉ dirs ∧ temp ∉ dirs.

(** Nothing but the destination and the temporary file has changed. *)
Definition kept (t : tree) : Prop := ∀ q, q ≠ temp → q ≠ p →
  t !! q = t0 !! q ∨ q ∈ dirs ∧ t0 !! q = None ∧ t !! q = Some Dir.

(** The destination is as it was, or has its new file. *)
Definition intact (t : tree) : Prop := kept t ∧ (t !! p = t0 !! p ∨ t !! p = Some (File new)).
Definition before (t : tree) : Prop := kept t ∧ t !! p = t0 !! p.
Definition staged (f : file) (t : tree) : Prop := before t ∧ t !! temp = Some (File f).
Definition moved (t : tree) : Prop :=
  kept t ∧ t !! p = Some (File new) ∧ t !! temp = None ∧ is_dir t (parent p) = true.

Lemma before_intact t : before t → intact t.
Proof. intros [H1 H2]. split; auto. Qed.
Lemma staged_intact f t : staged f t → intact t.
Proof. intros [H _]. by apply before_intact. Qed.

Lemma kept_temp t t' : kept t → (∀ q, q ≠ temp → t' !! q = t !! q) → kept t'.
Proof. intros H E q Hq Hq'. rewrite (E q Hq). auto. Qed.

Lemma spec_mkdirs base rest : (∀ l, l `prefix_of` rest → l ≠ [] → base ++ l ∈ dirs) → spec intact before (mkdirs base rest) (λ _, before).
Proof.
  revert base. induction rest as [|x rest IH]; intros base Hd; cbn [mkdirs]; [by apply spec_ret|].
  assert (base ++ [x] ∈ dirs) as Hx by (apply Hd; [by exists rest|done]).
  eapply (spec_bind _ _ _ _ (λ _, before)).
  - apply spec_step; [apply before_intact|]. intros t t' r [H1 H2]. unfold mkdir.
    destruct (t !! (base ++ [x])) as [[|f]|] eqn:E; intros [= <- <-]; [by split|apply before_intact; by split|].
    destruct Hdirs as [Hdp Hdt]. split; [|rewrite lookup_insert_ne; [done|by intros <-]].
    intros q Hq Hq'. destruct (decide (q = base ++ [x])) as [->|Hne]; [|rewrite lookup_insert_ne by done; auto].
    rewrite lookup_insert_eq. destruct (H1 _ Hq Hq') as [E0|(_ & _ & E0)]; [|congruence]. right. by rewrite <-E0.
  - intros _. apply IH. intros l Hl Hne. rewrite <-app_assoc. apply Hd; [by apply prefix_cons|done].
Qed.

Lemma spec_MkdirAll l : (∀ k, k `prefix_of` l → k ≠ [] → k ∈ dirs) → spec intact before (MkdirAll l) (λ _, before).
Proof. intros H. apply spec_rooted; [apply before_intact|]. by apply spec_mkdirs. Qed.

Lemma spec_create_before mode : spec before before (create temp mode) (λ _, staged (mkFile "" mode 0)).
Proof.
  apply spec_rooted; [done|]. apply spec_step; [done|]. intros t t' r [H1 H2].
  destruct (negb _); [by intros [= <- <-]|]. destruct (is_dir t temp); [by intros [= <- <-]|].
  destruct (t !! temp) as [|]; intros [= <- <-]; [done|].
  split; [|by rewrite lookup_insert_eq]. split; [|by rewrite lookup_insert_ne].
  eapply kept_temp; [done|]. intros q Hq. by rewrite lookup_insert_ne.
Qed.

Lemma spec_create mode : spec intact before (create temp mode) (λ _, staged (mkFile "" mode 0)).
Proof. eapply spec_mono; [apply spec_create_before|apply before_intact]. Qed.

Lemma staged_upd g f t : staged f t → staged (g f) (upd g temp t).
Proof.
  intros [[H1 H2] H3]. split; [|by apply lookup_upd]. split; [|by rewrite lookup_upd_ne].
  eapply kept_temp; [done|]. intros q Hq. by apply lookup_upd_ne.
Qed.

Lemma spec_write_before f data : spec before (staged f) (write temp data) (λ _, staged (mkFile (f_content f +:+ data) (f_mode f) (f_mtime f))).
Proof.
  apply spec_sys; [by intros t []|]. intros x t t' r H.
  destruct x; intros [= <- <-]; try (by apply (staged_upd (λ f, mkFile (f_content f +:+ data) (f_mode f) (f_mtime f)) f t));
    [eapply (staged_upd _ f); exact H|by apply H].
Qed.

Lemma spec_write f data : spec intact (staged f) (write temp data) (λ _, staged (mkFile (f_content f +:+ data) (f_mode f) (f_mtime f))).
Proof. eapply spec_mono; [apply spec_write_before|apply before_intact]. Qed.

Lemma spec_update g f (c : tree → tree * result unit) : (∀ t, c t = match t !! temp with None => (t, Err ErrNotExist) | Some _ => (upd g temp t, Ok tt) end) →
  spec intact (staged f) (rooted temp (step c)) (λ _, staged (g f)).
Proof.
  intros Hc. apply spec_rooted; [apply staged_intact|]. apply spec_step; [apply staged_intact|]. intros t t' r H. rewrite Hc.
  destruct (t !! temp) as [n|]; intros [= <- <-]; [by apply staged_upd|by eapply staged_intact].
Qed.

Lemma spec_Chmod f mode : spec intact (staged f) (Chmod temp mode) (λ _, staged (mkFile (f_content f) mode (f_mtime f))).
Proof. by apply (spec_update (λ f, mkFile (f_content f) mode (f_mtime f))). Qed.

Lemma spec_Chtimes f mtime : spec intact (staged f) (Chtimes temp mtime) (λ _, staged (mkFile (f_content f) (f_mode f) mtime)).
Proof. by apply (spec_update (λ f, mkFile (f_content f) (f_mode f) mtime)). Qed.

Lemma spec_Rename_with (I P : tree → Prop) : (∀ t, P t → I t ∧ kept t ∧ t !! temp = Some (File new)) →
  spec I P (Rename temp p) (λ _, moved).
Proof.
  intros HP. do 2 (apply spec_rooted; [apply HP|]). apply spec_step; [apply HP|]. intros t t' r H.
  destruct (HP _ H) as (HI & H1 & H3). rewrite H3. destruct (is_dir t (parent p)) eqn:Hd; cbn [negb]; [|by intros [= <- <-]].
  destruct (is_dir t p) eqn:Hn; intros [= <- <-]; [done|]. split_and!.
  - intros q Hq Hq'. rewrite lookup_insert_ne, lookup_delete_ne by done. auto.
  - by rewrite lookup_insert_eq.
  - rewrite lookup_insert_ne by done. by rewrite lookup_delete_eq.
  - apply (is_dir_ext t); [|done]. intros _. rewrite lookup_insert_ne, lookup_delete_ne; [done|congruence|]. intros E. congruence.
Qed.

Lemma spec_Rename : spec intact (staged new) (Rename temp p) (λ _, moved).
Proof. apply spec_Rename_with. intros t H. split; [by eapply staged_intact|]. by destruct H as [[? _] ?]. Qed.

(** Removing a file keeps what does not speak of it. *)
Lemma spec_remove (I P Q : tree → Prop) (x : list string) : (∀ t, P t → I t) →
  (∀ t t', P t → (∀ q, q ≠ x → t' !! q = t !! q) → t' !! x = None → Q t') → spec I P (remove_if_exists x) (λ _, Q).
Proof.
  intros HI HP o t o' t' r Ht. unfold remove_if_exists, catch, Remove, rooted. destruct (escapes x).
  { unfold dpure. cbn. intros [= <- <- <-]. by apply HI. }
  unfold step, sys. destruct o as [|y o1]; [intros [= <- <- <-]; by apply HI|].
  assert (Q (delete x t)) as Hdel.
  { apply (HP t); [done| |by rewrite lookup_delete_eq]. intros q Hq. by rewrite lookup_delete_ne. }
  destruct y; try (intros [= <- <- <-]; by apply HI);
    (destruct (t !! x) as [[|f]|] eqn:E; [destruct (has_children t x)| |]; intros [= <- <- <-]; try (by apply HI);
     [done|done|by apply (HP t)]).
Qed.

Lemma intact_temp t t' : intact t → (∀ q, q ≠ temp → t' !! q = t !! q) → t' !! temp = None → intact t'.
Proof. intros [H1 H2] E _. split; [by eapply kept_temp|]. by rewrite (E p Hp). Qed.

Lemma moved_temp t t' : moved t → (∀ q, q ≠ temp → t' !! q = t !! q) → t' !! temp = None → moved t'.
Proof.
  intros (H1 & H2 & _ & H4) E H3. split_and!; [by eapply kept_temp|by rewrite (E p Hp)|done|].
  apply (is_dir_ext t); [|done]. intros _. by apply E.
Qed.

Lemma moved_intact t : moved t → intact t.
Proof. intros (H1 & H2 & _). split; auto. Qed.

(** A file that is written under a temporary name and then moved. *)
Lemma spec_replace P c : spec intact P c (λ _ : unit, moved) → spec intact P (deferred (remove_if_exists temp) c) (λ _, moved).
Proof.
  intros Hc. eapply spec_deferred; [exact Hc|apply spec_remove; [done|apply intact_temp]|].
  intros []. apply spec_remove; [apply moved_intact|apply moved_temp].
Qed.
End temporary.

(** ** Computations that succeed *)

(** If so many calls are done, the computation succeeds. *)
Definition succeeds {A : Type} (c : disk A) (t : tree) (Q : A → tree → Prop) : Prop :=
  ∃ k t' a, (∀ o, c (replicate k Done ++ o) t = (o, t', Ok a)) ∧ Q a t'.

Lemma succeeds_ret {A : Type} (a : A) t (Q : A → tree → Prop) : Q a t → succeeds (mret a) t Q.
Proof. intros H. by exists 0%nat, t, a. Qed.

Lemma succeeds_bind {A B : Type} (c : disk A) (f : A → disk B) t R Q : succeeds c t R → (∀ a t1, R a t1 → succeeds (f a) t1 Q) →
  succeeds (c ≫= f) t Q.
Proof.
  intros (k & t1 & a & Hc & HR) Hf. destruct (Hf a t1 HR) as (k' & t' & b & Hb & HQ). exists (k + k')%nat, t', b. split; [|done].
  intros o. unfold mbind, disk_bind. by rewrite replicate_add, <-app_assoc, Hc.
Qed.

Lemma succeeds_weaken {A : Type} (c : disk A) t (Q Q' : A → tree → Prop) : succeeds c t Q → (∀ a t', Q a t' → Q' a t') → succeeds c t Q'.
Proof. intros (k & t' & a & Hc & HQ) H. exists k, t', a. auto. Qed.

Lemma succeeds_sys {A : Type} (f : outcome → tree → tree * result A) t t' a (Q : A → tree → Prop) :
  f Done t = (t', Ok a) → Q a t' → succeeds (sys f) t Q.
Proof. intros H HQ. exists 1%nat, t', a. split; [|done]. intros o. cbn. by rewrite H. Qed.

Lemma succeeds_step {A : Type} (f : tree → tree * result A) t t' a (Q : A → tree → Prop) : f t = (t', Ok a) → Q a t' → succeeds (step f) t Q.
Proof. intros H HQ. by eapply succeeds_sys. Qed.

Lemma succeeds_rooted {A : Type} (p : list string) (c : disk A) t Q : escapes p = false → succeeds c t Q → succeeds (rooted p c) t Q.
Proof. unfold rooted. by intros ->. Qed.

Lemma succeeds_on_error {A : Type} (d : disk unit) (c : disk A) t Q : succeeds c t Q → succeeds (on_error d c) t Q.
Proof. intros (k & t' & a & Hc & HQ). exists k, t', a. split; [|done]. intros o. unfold on_error. by rewrite Hc. Qed.

Lemma succeeds_catch {A : Type} (h : error → disk A) (c : disk A) t Q : succeeds c t Q → succeeds (catch h c) t Q.
Proof. intros (k & t' & a & Hc & HQ). exists k, t', a. split; [|done]. intros o. unfold catch. by rewrite Hc. Qed.

(** A call that is done but fails, and is handled. *)
Lemma succeeds_handle {A : Type} (h : error → disk A) (c : disk A) t e Q : (∀ o, c (Done :: o) t = (o, t, Err e)) →
  succeeds (h e) t Q → succeeds (catch h c) t Q.
Proof.
  intros Hc (k & t' & a & Hh & HQ). exists (S k), t', a. split; [|done]. intros o. unfold catch. cbn [replicate app].
  by rewrite Hc.
Qed.

(** No file is where a directory is needed. *)
Lemma succeeds_mkdirs base rest : ∀ t, (∀ l f, l `prefix_of` rest → l ≠ [] → t !! (base ++ l) ≠ Some (File f)) →
  succeeds (mkdirs base rest) t (λ _ t', ∀ q, (t' !! q = t !! q ∨ t !! q = None ∧ t' !! q = Some Dir ∧
      ∃ l, q = base ++ l ∧ l ≠ [] ∧ l `prefix_of` rest) ∧
    ∀ l, q = base ++ l → l `prefix_of` rest → l ≠ [] → t' !! q = Some Dir).
Proof.
  revert base. induction rest as [|x rest IH]; intros base t Hf; cbn [mkdirs].
  { apply succeeds_ret. intros q. split; [by left|]. intros l _ Hl%prefix_nil_inv. done. }
  apply (succeeds_bind _ _ _ (λ _ t1, t1 = match t !! (base ++ [x]) with None => <[base ++ [x] := Dir]> t | Some _ => t end)).
  { assert (∀ f, t !! (base ++ [x]) ≠ Some (File f)) as Hx by (intros f; apply Hf; [by exists rest|done]).
    destruct (t !! (base ++ [x])) as [[|f]|] eqn:E; [| |];
      [eapply succeeds_step; [unfold mkdir; by rewrite E|done]|by destruct (Hx f)|eapply succeeds_step; [unfold mkdir; by rewrite E|done]]. }
  intros [] t1 ->. set (t1 := match _ with Some _ => _ | None => _ end).
  assert (t1 !! (base ++ [x]) = Some Dir) as Ht1.
  { unfold t1. destruct (t !! (base ++ [x])) as [[|f]|] eqn:E; [done| |by rewrite lookup_insert_eq].
    exfalso. by apply (Hf [x] f); [exists rest| |]. }
  assert (∀ q, q ≠ base ++ [x] → t1 !! q = t !! q) as Hother.
  { intros q Hq. unfold t1. destruct (t !! (base ++ [x])); [done|]. by rewrite lookup_insert_ne. }
  eapply succeeds_weaken; [apply IH|].
  - intros l f Hl Hne. rewrite <-app_assoc. rewrite Hother; [apply Hf; [by apply prefix_cons|done]|].
    intros E%app_inv_head. by injection E.
  - intros [] t' H q. destruct (H q) as [Hq Hd]. split.
    + destruct (decide (q = base ++ [x])) as [->|Hne].
      * assert (t' !! (base ++ [x]) = Some Dir) as E' by (destruct Hq as [Hq|(Hq & _)]; congruence). rewrite E'.
        destruct (t !! (base ++ [x])) as [[|f]|] eqn:E; [by left|exfalso; by apply (Hf [x] f); [exists rest| |]|right].
        split_and!; [done|done|]. exists [x]. split_and!; [done|done|by exists rest].
      * rewrite Hother in Hq by done. destruct Hq as [Hq|(H1 & H2 & l & -> & Hl0 & Hl)]; [by left|right]. split_and!; [done|done|].
        exists (x :: l). rewrite <-app_assoc. split_and!; [done|done|by apply prefix_cons].
    + intros l -> Hl Hne. destruct l as [|y l]; [done|]. pose proof (prefix_cons_inv_1 _ _ _ _ Hl) as ->.
      apply prefix_cons_inv_2 in Hl. destruct l as [|z l]; [|apply (Hd (z :: l)); [by rewrite <-app_assoc|done|done]].
      destruct Hq as [Hq|(_ & Hq & _)]; congruence.
Qed.

Lemma succeeds_MkdirAll p t : escapes p = false → (∀ l f, l `prefix_of` p → l ≠ [] → t !! l ≠ Some (File f)) →
  succeeds (MkdirAll p) t (λ _ t', ∀ q, (t' !! q = t !! q ∨ t !! q = None ∧ t' !! q = Some Dir ∧ q ≠ [] ∧ q `prefix_of` p) ∧
    (q ≠ [] → q `prefix_of` p → t' !! q = Some Dir)).
Proof.
  intros He Hf. apply succeeds_rooted; [done|]. eapply succeeds_weaken; [by apply (succeeds_mkdirs [])|].
  intros [] t' H q. destruct (H q) as [Hq Hd]. split; [|intros Hne Hp; by apply (Hd q)].
  destruct Hq as [?|(? & ? & l & -> & ? & ?)]; auto.
Qed.

(** The temporary file has the content [f], everything else is as in [t]. *)
Definition besides (temp : list string) (t : tree) (f : file) (t' : tree) : Prop :=
  t' !! temp = Some (File f) ∧ ∀ q, q ≠ temp → t' !! q = t !! q.

Lemma besides_trans temp t t1 t2 f g : besides temp t f t1 → besides temp t1 g t2 → besides temp t g t2.
Proof. intros [_ H1] [H2 H3]. split; [done|]. intros q Hq. by rewrite H3, H1. Qed.

Lemma besides_upd temp t f g : t !! temp = Some (File f) → besides temp t (g f) (upd g temp t).
Proof. intros H. split; [by apply lookup_upd|]. intros q Hq. by apply lookup_upd_ne. Qed.

Lemma succeeds_nothing t : succeeds nothing t (λ _ t', t' = t).
Proof. by eapply succeeds_step. Qed.

Lemma succeeds_write temp data t f : t !! temp = Some (File f) →
  succeeds (write temp data) t (λ _, besides temp t (mkFile (f_content f +:+ data) (f_mode f) (f_mtime f))).
Proof. intros H. eapply succeeds_sys; [done|]. by apply (besides_upd _ _ f (λ f, mkFile (f_content f +:+ data) _ _)). Qed.

Lemma succeeds_Chmod temp mode t f : escapes temp = false → t !! temp = Some (File f) →
  succeeds (Chmod temp mode) t (λ _, besides temp t (mkFile (f_content f) mode (f_mtime f))).
Proof.
  intros He H. apply succeeds_rooted; [done|]. eapply succeeds_step; [by rewrite H|].
  by apply (besides_upd _ _ f (λ f, mkFile (f_content f) mode (f_mtime f))).
Qed.

Lemma succeeds_Chtimes temp mtime t f : escapes temp = false → t !! temp = Some (File f) →
  succeeds (Chtimes temp mtime) t (λ _, besides temp t (mkFile (f_content f) (f_mode f) mtime)).
Proof.
  intros He H. apply succeeds_rooted; [done|]. eapply succeeds_step; [by rewrite H|].
  by apply (besides_upd _ _ f (λ f, mkFile (f_content f) (f_mode f) mtime)).
Qed.

Lemma succeeds_create temp mode t : escapes temp = false → temp ≠ [] → is_dir t (parent temp) = true → t !! temp = None →
  succeeds (create temp mode) t (λ _, besides temp t (mkFile "" mode 0)).
Proof.
  intros He Hn Hd H. apply succeeds_rooted; [done|]. eapply succeeds_step.
  - rewrite Hd. destruct temp as [|x l]; [done|]. unfold is_dir. by rewrite H.
  - split; [by rewrite lookup_insert_eq|]. intros q Hq. by rewrite lookup_insert_ne.
Qed.

Lemma succeeds_Rename temp p t f : escapes temp = false → escapes p = false → t !! temp = Some (File f) →
  is_dir t (parent p) = true → is_dir t p = false →
  succeeds (Rename temp p) t (λ _ t', t' = <[p := File f]> (delete temp t)).
Proof.
  intros He Hp H Hd Hn. do 2 (apply succeeds_rooted; [done|]). eapply succeeds_step; [by rewrite H, Hd, Hn|done].
Qed.

(** The temporary file is gone when it is to be removed. *)
Lemma succeeds_deferred temp (c : disk unit) t Q : escapes temp = false → succeeds c t (λ _ t', t' !! temp = None ∧ Q t') →
  succeeds (deferred (remove_if_exists temp) c) t (λ _, Q).
Proof.
  intros He (k & t' & [] & Hc & Hn & HQ). exists (k + 1)%nat, t', tt. split; [|done]. intros o.
  unfold deferred. rewrite replicate_add, <-app_assoc, Hc. unfold remove_if_exists, catch, Remove, rooted. rewrite He. cbn. by rewrite Hn.
Qed.
