(* ===== verification/Filestore.v ===== *)
(** * File destinations (internal/filestore)

    Where the server puts the files it has received: a directory, or a bucket of an
    object store.  The directory is a tree of files whose calls can fail or be cut
    short by the end of the process; the clients of the object stores are
    parameters.  The instances of [FileStore] are what the server's definitions take
    as the destination. *)

From S2P Require Import Prelude Bytes Sorting Encoding Sha256 GoPath Disk Json JsonStruct Event ServerConfig Schema Target TargetInv TargetSpec TargetProps.

Module filestore.

Definition objectName (prefix name : string) : result string :=
  _ ← fail_if (String.eqb name "" || negb (IsLocal name) || contains_nul name) (errors_New "file path is not local");
  Ok (Join2 (Trim (Ascii.eqb slash) prefix) name).

(** ** Opening *)

(** What is opened: a prefix below a directory; a client of S3 for an endpoint, a
    bucket and a prefix; one of OSS. *)
Inductive destination :=
  | directoryDestination (directory prefix : string)
  | s3Destination (endpoint : string) (secure : bool) (bucket prefix : string)
  | ossDestination (endpoint token bucket prefix : string).

(** The scheme of the endpoint decides whether the connection is secure. *)
Definition s3_endpoint (endpoint : string) (secure : bool) : string * bool :=
  if HasPrefix endpoint "https://" then (TrimPrefix endpoint "https://", true)
  else if HasPrefix endpoint "http://" then (TrimPrefix endpoint "http://", false)
  else (endpoint, secure).

(** [steps] are the calls that can fail: making and opening the directory, the
    constructors of the clients. *)
Definition Open (cfg : FileStorage) (steps : list (result unit)) : result destination :=
  let ready := foldr (λ r (k : result unit), _ ← r; k) (Ok tt) steps in
  if String.eqb (Backend cfg) "directory" then
    _ ← ready; Ok (directoryDestination (Directory cfg) (Trim (Ascii.eqb slash) (Prefix cfg)))
  else if String.eqb (Backend cfg) "s3" then
    let '(endpoint, secure) := s3_endpoint (Endpoint cfg) (Secure cfg) in
    _ ← ready; Ok (s3Destination endpoint secure (Bucket cfg) (Prefix cfg))
  else if String.eqb (Backend cfg) "oss" then
    _ ← ready; Ok (ossDestination (Endpoint cfg) (SessionToken cfg) (Bucket cfg) (Prefix cfg))
  else Err (errors_New "file storage is not configured").

(** ** Copying *)

(** What a read of at most [n] bytes gives. *)
Definition read_bytes (n : Z) (rest : string) : string := take_string (Z.to_nat (Z.min n (slen rest))) rest.

(** A read of the source, whose rest is [rest], into a buffer of 1 MiB; nothing at the
    end of the file. *)
Definition read_source (rest : string) : disk string := sys (λ x t,
  match x with
  | Torn _ s | Fails s => (t, Err (wrapf "read source: " (os_error s)))
  | Short n => (t, Ok (read_bytes (Z.min (2 ^ 20) (Z.of_nat n + 1)) rest))
  | Done => (t, Ok (read_bytes (2 ^ 20) rest))
  end).

(** [ctx.Err()] *)
Definition ctx_Err : disk unit := sys (λ x t, match x with Torn _ _ | Fails _ => (t, Err ErrCanceled) | _ => (t, Ok tt) end).

(** Every round but the last reads at least one byte. *)
Fixpoint copy_loop (fuel : nat) (p : list string) (rest : string) (total : Z) : disk Z :=
  match fuel with
  | O => dpure (Err ErrCanceled)
  | S fuel' =>
      _ ← ctx_Err;
      data ← read_source rest;
      if String.eqb data "" then mret total
      else
        _ ← write p data;
        copy_loop fuel' p (drop_string (String.length data) rest) (i64 (total + slen data))
  end.

Definition copyContext (p : list string) (source : string) : disk Z := copy_loop (S (String.length source)) p source 0.

(** ** A directory *)

Definition tempDir : list string := [".go-sync-tmp"].

(** The temporary file gets the content, the permissions and the time. *)
Definition fill (temp : list string) (content : string) (mode modified : Z) : disk unit :=
  _ ← on_error nothing (_ ← nothing; _ ← copyContext temp content; nothing);
  _ ← nothing;
  let perm := Z.land mode 511 in
  _ ← Chmod temp (if perm =? 0 then 416 else perm);
  Chtimes temp modified.

(** The last step: on Windows, where [Rename] does not replace what is there, the
    destination is removed first when it has failed. *)
Definition publish (windows : bool) (temp p : list string) : disk unit :=
  catch (λ e,
    if negb windows then dpure (Err e)
    else _ ← remove_if_exists p; Rename temp p) (Rename temp p).

(** The directories of the file and of the temporary files. *)
Definition make_dirs (p : list string) : disk unit := _ ← MkdirAll (parent p); MkdirAll tempDir.

Definition directory_Put (windows : bool) (prefix uuid name content : string) (mode modified : Z) : disk unit :=
  rel ← dpure (objectName prefix name);
  let p := clean_parts rel in
  _ ← make_dirs p;
  let temp := tempDir ++ [uuid] in
  _ ← create temp 384;
  deferred (remove_if_exists temp) (
    _ ← fill temp content mode modified;
    publish windows temp p).

Definition directory_Delete (prefix name : string) : disk unit :=
  rel ← dpure (objectName prefix name);
  remove_if_exists (clean_parts rel).

(** [ds_windows] is [runtime.GOOS] being Windows. *)
Record directoryStore := mkDirectory {
  ds_windows : bool;
  ds_prefix : string;
  ds_tree : tree;
  ds_outcomes : list outcome;
  ds_uuids : list string
}.

Definition on_disk (s : directoryStore) (c : disk unit) : directoryStore * result unit :=
  let '(o, t, r) := c (ds_outcomes s) (ds_tree s) in (mkDirectory (ds_windows s) (ds_prefix s) t o (tail (ds_uuids s)), r).

#[export] Instance directory_store : FileStore directoryStore := {
  Put s name content mode modified :=
    on_disk s (directory_Put (ds_windows s) (ds_prefix s) (default "" (head (ds_uuids s))) name content mode modified);
  Delete s name := on_disk s (directory_Delete (ds_prefix s) name)
}.

(** ** Object stores *)

(** The clients: uploading a file in one piece, in parts of a size by some workers,
    and deleting an object. *)
Class ObjectClient (S : Type) := {
  put_object : S → string → string → S * result unit;
  upload_parts : Z → Z → S → string → string → S * result unit;
  delete_object : S → string → S * result unit
}.

Record s3Store (S : Type) := mkS3 { s3_client : S; s3_prefix : string }.
Record ossStore (S : Type) := mkOSS { oss_client : S; oss_prefix : string; oss_stat : result unit }.
Arguments mkS3 {S} _ _.
Arguments s3_client {S} _.
Arguments s3_prefix {S} _.
Arguments mkOSS {S} _ _ _.
Arguments oss_client {S} _.
Arguments oss_prefix {S} _.
Arguments oss_stat {S} _.

Section objects.
Context {S : Type} `{OC : ObjectClient S}.

Definition s3_Put (s : s3Store S) (name content : string) : s3Store S * result unit :=
  match objectName (s3_prefix s) name with
  | Err e => (s, Err e)
  | Ok key => let '(c, r) := put_object (s3_client s) key content in (mkS3 c (s3_prefix s), r)
  end.

Definition s3_Delete (s : s3Store S) (name : string) : s3Store S * result unit :=
  match objectName (s3_prefix s) name with
  | Err e => (s, Err e)
  | Ok key => let '(c, r) := delete_object (s3_client s) key in (mkS3 c (s3_prefix s), r)
  end.

(** Large files in parts of 10 MiB, by four workers; [oss_stat] is [os.Stat] of the
    source. *)
Definition oss_Put (s : ossStore S) (name content : string) : ossStore S * result unit :=
  match (key ← objectName (oss_prefix s) name; _ ← oss_stat s; Ok key) with
  | Err e => (s, Err e)
  | Ok key =>
      let '(c, r) :=
        if slen content <=? 100 * 2 ^ 20 then put_object (oss_client s) key content
        else upload_parts (10 * 2 ^ 20) 4 (oss_client s) key content in
      (mkOSS c (oss_prefix s) (oss_stat s), r)
  end.

Definition oss_Delete (s : ossStore S) (name : string) : ossStore S * result unit :=
  match objectName (oss_prefix s) name with
  | Err e => (s, Err e)
  | Ok key => let '(c, r) := delete_object (oss_client s) key in (mkOSS c (oss_prefix s) (oss_stat s), r)
  end.

#[export] Instance s3_store : FileStore (s3Store S) := {
  Put s name content _ _ := s3_Put s name content;
  Delete := s3_Delete
}.
#[export] Instance oss_store : FileStore (ossStore S) := {
  Put s name content _ _ := oss_Put s name content;
  Delete := oss_Delete
}.
End objects.

End filestore.
