(* ===== verification/FilestoreProps.v ===== *)
(** * Correctness of the file destinations

    Putting a file into the directory is atomic, whatever call fails and wherever
    the process is killed, up to the gap of the fallback on Windows; it succeeds if
    nothing is in the way; and what the server stores as a file is what the directory
    then holds. *)

From S2P Require Import Prelude Bytes Sorting Encoding Sha256 GoPath Disk Json JsonStruct Event ServerConfig Schema Target TargetInv TargetSpec TargetProps Filestore.

Import filestore.

(** ** Copying *)

Lemma read_bytes_take n rest : 0 < n → ∃ k, (0 < k)%nat ∧ read_bytes n rest = take_string k rest.
Proof.
  intros Hn. unfold read_bytes. destruct rest as [|c rest]; [exists 1%nat; split; [lia|by destruct (Z.to_nat _)]|].
  eexists. split; [|reflexivity]. unfold slen. cbn [String.length]. lia.
Qed.

Section copying.
Context (t0 : tree) (p : list string) (new : file) (temp : list string) (dirs : list (list string)).
Hypothesis Hp : p ≠ temp.
Notation intact := (Disk.intact t0 p new temp dirs).
Notation staged := (Disk.staged t0 p temp dirs).

Lemma spec_read rest f : spec intact (staged f) (read_source rest) (λ data t,
  (∃ n, (0 < n)%nat ∧ data = take_string n rest) ∧ staged f t).
Proof.
  apply spec_sys; [apply staged_intact|]. intros x t t' r H.
  destruct x; intros [= <- <-]; try (by eapply staged_intact); (split; [|done]); apply read_bytes_take; lia.
Qed.

Lemma take_empty n s : (0 < n)%nat → take_string n s = "" → s = "".
Proof. destruct n, s; [lia|lia|done|done]. Qed.

Lemma take_string_length n s : String.length (take_string n s) = (n `min` String.length s)%nat.
Proof. revert s. induction n as [|n IH]; intros [|c s]; cbn; [done..|by rewrite IH]. Qed.

Lemma drop_take_string n s : take_string n s +:+ drop_string (String.length (take_string n s)) s = s.
Proof. revert s. induction n as [|n IH]; intros [|c s]; cbn; [done..|by rewrite IH]. Qed.

Lemma spec_copy_loop fuel rest total f : (String.length rest < fuel)%nat →
  spec intact (staged f) (copy_loop fuel temp rest total) (λ _, staged (mkFile (f_content f +:+ rest) (f_mode f) (f_mtime f))).
Proof.
  revert rest total f. induction fuel as [|fuel IH]; intros rest total f Hf; [lia|]. cbn [copy_loop].
  eapply spec_bind; [apply (spec_sys _ (staged f) _ (λ _, staged f)); [apply staged_intact|]|].
  { intros x t t' r H. destruct x; intros [= <- <-]; by try eapply staged_intact. }
  intros []. eapply spec_bind; [apply spec_read|]. intros data. apply spec_fact. intros (n & Hn & ->).
  destruct (String.eqb_spec (take_string n rest) "") as [E|E].
  - apply take_empty in E as ->; [|done]. apply spec_ret. intros t H. rewrite append_nil_r. by destruct f.
  - eapply spec_bind; [by apply spec_write|]. intros []. cbn [f_mode f_mtime f_content].
    eapply spec_weaken; [apply IH|done|].
    + rewrite <-(drop_take_string n rest) in Hf. rewrite length_append in Hf.
      destruct (take_string n rest) as [|c s] eqn:Et; [done|]. cbn [String.length] in *. lia.
    + intros z t. cbn [f_content f_mode f_mtime]. by rewrite append_assoc, drop_take_string.
Qed.

Lemma spec_copy content f :
  spec intact (staged f) (copyContext temp content) (λ _, staged (mkFile (f_content f +:+ content) (f_mode f) (f_mtime f))).
Proof. apply spec_copy_loop. lia. Qed.
End copying.

(** ** Putting a file into the directory *)

(** The permissions of the stored file. *)
Definition stored_mode (mode : Z) : Z := if Z.land mode 511 =? 0 then 416 else Z.land mode 511.

(** The directories that are made for [p]. *)
Definition made (p : list string) : list (list string) := tempDir :: ((λ n, take n p) <$> seq 1 (length p - 1)).

Lemma made_parent p k : k `prefix_of` parent p → k ≠ [] → k ∈ made p.
Proof.
  intros [l Hl] Hk. right. destruct (exists_last (l := p)) as (p' & x & ->).
  { intros ->. destruct k; [done|]. discriminate Hl. }
  unfold parent in Hl. rewrite removelast_snoc in Hl. subst p'. apply list_elem_of_fmap. exists (length k).
  rewrite <-app_assoc, take_app_length. split; [done|]. rewrite elem_of_seq, !length_app. cbn.
  destruct k; [done|]. cbn. lia.
Qed.

Lemma made_other p q : q ≠ tempDir → ¬ (q `prefix_of` p ∧ q ≠ p) → q ∉ made p.
Proof.
  intros Ht Hn [E|(n & -> & Hs)%list_elem_of_fmap]%elem_of_cons; [done|]. apply elem_of_seq in Hs.
  apply Hn. split; [apply prefix_take|]. intros E%(f_equal length). rewrite length_take in E. lia.
Qed.

Lemma made_temp p k : k `prefix_of` tempDir → k ≠ [] → k ∈ made p.
Proof.
  intros [l Hl] Hk. unfold tempDir in Hl. destruct k as [|x [|y k]]; [done| |discriminate Hl]. injection Hl as <- _. left.
Qed.

Lemma parent_prefix (p : list string) : p ≠ [] → parent p `prefix_of` p ∧ parent p ≠ p ∧ ¬ p `prefix_of` parent p.
Proof.
  intros Hp. destruct (exists_last Hp) as (l & x & ->). unfold parent. rewrite removelast_snoc.
  assert (¬ (l ++ [x]) `prefix_of` l) as Hn by (intros Hl%prefix_length; rewrite length_app in Hl; cbn in Hl; lia).
  split_and!; [by exists [x]| |done]. intros E. apply Hn. by rewrite <-E at 1.
Qed.

Section directory.
Context (prefix uuid name content : string) (mode modified : Z).
Notation temp := (tempDir ++ [uuid]).

(** The file as it is stored. *)
Definition stored : file := mkFile content (stored_mode mode) modified.

Lemma spec_fill t0 p dirs f : p ≠ temp → f_content f = "" →
  spec (Disk.intact t0 p stored temp dirs) (Disk.staged t0 p temp dirs f) (fill temp content mode modified)
    (λ _, Disk.staged t0 p temp dirs stored).
Proof.
  intros Hp Hf. unfold fill. eapply spec_bind.
  { eapply spec_on_error; [|apply spec_nothing; done].
    eapply spec_bind; [apply spec_nothing, staged_intact|]. intros []. eapply spec_bind; [by apply spec_copy|]. intros n.
    apply spec_nothing, staged_intact. }
  intros []. eapply spec_bind; [apply spec_nothing, staged_intact|]. intros [].
  eapply spec_bind; [by apply spec_Chmod|]. intros []. eapply spec_weaken; [by apply spec_Chtimes|done|]. intros [] t. rewrite Hf. done.
Qed.

(** Where a failure or the end of the process can leave the tree: the destination
    as it was or with the new file; on Windows also without what it had. *)
Definition interrupted (windows : bool) t0 p dirs (t : tree) : Prop :=
  Disk.intact t0 p stored temp dirs t ∨
  windows = true ∧ t0 !! p ≠ None ∧ Disk.kept t0 p temp dirs t ∧ t !! p = None.

(** The destination has been removed, the new file has not been moved yet. *)
Definition removed t0 p dirs (t : tree) : Prop :=
  Disk.kept t0 p temp dirs t ∧ t !! p = None ∧ t !! temp = Some (File stored).

Lemma removed_interrupted t0 p dirs t : removed t0 p dirs t → interrupted true t0 p dirs t.
Proof.
  intros (H1 & H2 & _). destruct (t0 !! p) eqn:E; [right; by rewrite E|]. left. split; [done|]. left. by rewrite E.
Qed.

Lemma spec_publish windows t0 p dirs : p ≠ temp → parent p ≠ temp →
  spec (interrupted windows t0 p dirs) (Disk.staged t0 p temp dirs stored) (publish windows temp p) (λ _, Disk.moved t0 p stored temp dirs).
Proof.
  intros Hp Hpp. unfold publish. eapply spec_handle.
  { apply (spec_Rename_with _ _ _ _ _ Hp Hpp (Disk.staged t0 p temp dirs stored)). intros t H. split; [done|]. by destruct H as [[? _] ?]. }
  intros e. destruct windows; cbn [negb].
  - eapply (spec_bind _ _ _ _ (λ _, removed t0 p dirs)).
    + apply spec_remove; [intros t H; left; by eapply staged_intact|]. intros t t' [[H1 _] H2] E E'.
      split_and!; [|done|by rewrite E]. intros q Hq Hq'. rewrite E by done. auto.
    + intros []. apply (spec_Rename_with _ _ _ _ _ Hp Hpp). intros t H. split; [by apply removed_interrupted|]. by destruct H as (? & _ & ?).
  - eapply spec_weaken; [apply (spec_dpure _ (Disk.staged t0 p temp dirs stored))| |]; [|done|by intros [] t [? _]].
    intros t H. left. by eapply staged_intact.
Qed.

(** The destination is not below the temporary names of this call. *)
Definition apart (p : list string) : Prop := p ≠ tempDir ∧ ¬ temp `prefix_of` p.

Lemma apart_parent p : apart p → parent p ≠ temp.
Proof.
  intros [_ Hn] E. apply Hn. rewrite <-E. destruct p as [|x p]; [done|]. by apply parent_prefix.
Qed.

Lemma interrupted_temp windows t0 p dirs t t' : p ≠ temp → interrupted windows t0 p dirs t →
  (∀ q, q ≠ temp → t' !! q = t !! q) → t' !! temp = None → interrupted windows t0 p dirs t'.
Proof.
  intros Hp [H|(H1 & H2 & H3 & H4)] E E'; [left; by eapply intact_temp|right]. split_and!; [done|done| |by rewrite E].
  by eapply kept_temp.
Qed.

Lemma spec_directory_Put windows t0 rel : objectName prefix name = Ok rel → apart (clean_parts rel) →
  let p := clean_parts rel in
  spec (interrupted windows t0 p (made p)) (λ t, t = t0) (directory_Put windows prefix uuid name content mode modified)
    (λ _, Disk.moved t0 p stored temp (made p)).
Proof.
  intros Hrel [Ha1 Ha2] p. unfold directory_Put. rewrite Hrel. fold p in Ha1, Ha2.
  assert (p ≠ temp) as Hp by (intros E; by apply Ha2; rewrite <-E).
  assert (parent p ≠ temp) as Hpp by (by apply apart_parent).
  assert (p ∉ made p ∧ temp ∉ made p) as Hd.
  { split; apply made_other; [done|by intros [_ ?]|unfold tempDir; discriminate|by intros [? _]]. }
  assert (∀ t, Disk.intact t0 p stored temp (made p) t → interrupted windows t0 p (made p) t) as HI by (intros t H; by left).
  apply (spec_weaken _ _ (Disk.before t0 p temp (made p)) _ _ (λ _, Disk.moved t0 p stored temp (made p)));
    [|intros t ->; split; [|done]; by left|done].
  eapply spec_bind; [apply spec_dpure; intros t H; by apply HI, before_intact|]. intros rel'. apply spec_fact. intros [= <-].
  eapply spec_bind.
  { eapply spec_mono; [|exact HI]. eapply spec_bind; [apply spec_MkdirAll; [done|done|done|apply made_parent]|].
    intros []. apply spec_MkdirAll; [done|done|done|apply made_temp]. }
  intros []. eapply spec_bind; [eapply spec_mono; [by apply spec_create|exact HI]|]. intros [].
  eapply spec_deferred.
  - eapply spec_bind; [eapply spec_mono; [by apply spec_fill|exact HI]|]. intros []. by apply spec_publish.
  - apply spec_remove; [done|]. intros t t' H. by eapply interrupted_temp.
  - intros []. apply spec_remove; [intros t H; by apply HI, moved_intact|]. intros t t' H. by apply moved_temp.
Qed.
End directory.

(** *** When nothing is in the way *)

Lemma succeeds_copy_loop temp fuel : ∀ rest total t f, (String.length rest < fuel)%nat → t !! temp = Some (File f) →
  succeeds (copy_loop fuel temp rest total) t (λ _, besides temp t (mkFile (f_content f +:+ rest) (f_mode f) (f_mtime f))).
Proof.
  induction fuel as [|fuel IH]; intros rest total t f Hf Ht; [lia|]. cbn [copy_loop].
  apply (succeeds_bind _ _ _ (λ _ t1, t1 = t)); [by eapply succeeds_sys|]. intros [] t1 ->.
  apply (succeeds_bind _ _ _ (λ data t1, data = read_bytes (2 ^ 20) rest ∧ t1 = t)); [by eapply succeeds_sys|]. intros data t1 [-> ->].
  destruct (read_bytes_take (2 ^ 20) rest) as (n & Hn & ->); [done|]. destruct (String.eqb_spec (take_string n rest) "") as [E|E].
  - apply take_empty in E as ->; [|done]. apply succeeds_ret. rewrite append_nil_r. split; [by destruct f|done].
  - eapply succeeds_bind; [by apply succeeds_write|]. intros [] t1 [H1 H2]. eapply succeeds_weaken; [apply IH; [|exact H1]|].
    + rewrite <-(drop_take_string n rest) in Hf. rewrite length_append in Hf.
      destruct (take_string n rest) as [|c s] eqn:Et; [done|]. cbn [String.length] in *. lia.
    + intros z t2 Hb. cbn [f_content f_mode f_mtime] in Hb. rewrite append_assoc, drop_take_string in Hb.
      eapply besides_trans; [|exact Hb]. by split.
Qed.

Lemma succeeds_fill temp content mode modified t f : escapes temp = false → t !! temp = Some (File f) → f_content f = "" →
  succeeds (fill temp content mode modified) t (λ _, besides temp t (stored content mode modified)).
Proof.
  intros He Ht Hf. unfold fill. apply (succeeds_bind _ _ _ (λ _, besides temp t (mkFile (f_content f +:+ content) (f_mode f) (f_mtime f)))).
  { apply succeeds_on_error. eapply succeeds_bind; [apply succeeds_nothing|]. intros [] t1 ->.
    eapply succeeds_bind; [by apply succeeds_copy_loop; [lia|]|]. intros n t1 H1.
    eapply succeeds_weaken; [apply succeeds_nothing|]. intros [] t2 ->. exact H1. }
  intros [] t1 H1. eapply succeeds_bind; [apply succeeds_nothing|]. intros [] t2 ->.
  eapply succeeds_bind; [by apply succeeds_Chmod; [|apply H1]|]. intros [] t2 H2.
  eapply succeeds_weaken; [by apply succeeds_Chtimes; [|apply H2]|]. intros [] t3 H3. rewrite Hf in H3.
  eapply besides_trans; [exact H1|]. by eapply besides_trans.
Qed.

(** There are no files where directories are needed, and the temporary name is new. *)
Record room (uuid : string) (p : list string) (t : tree) : Prop := {
  room_path : p ≠ [];
  room_escapes : escapes p = false;
  room_parents : ∀ k f, k `prefix_of` p → k ≠ p → t !! k ≠ Some (File f);
  room_tempDir : ∀ f, t !! tempDir ≠ Some (File f);
  room_temp : t !! (tempDir ++ [uuid]) = None
}.

(** A file can take the place: there is no directory, or, on Windows, an empty one. *)
Definition free (windows : bool) (p : list string) (t : tree) : Prop :=
  is_dir t p = false ∨ windows = true ∧ t !! p = Some Dir ∧ has_children t p = false.

Lemma escapes_prefix k p : escapes p = false → k `prefix_of` p → escapes k = false.
Proof. intros He [l ->]. destruct k as [|x k]; [done|]. exact He. Qed.

Lemma prefix_tempDir (l : list string) : l ≠ [] → l `prefix_of` tempDir → l = tempDir.
Proof. unfold tempDir. intros Hn [k Hk]. destruct l as [|x [|y l]]; [done| |discriminate Hk]. by injection Hk as <- _. Qed.

Lemma succeeds_make_dirs uuid p t : apart uuid p → room uuid p t → succeeds (make_dirs p) t (λ _ t',
  (∀ q, q ≠ tempDir → ¬ q `prefix_of` parent p → t' !! q = t !! q) ∧
  is_dir t' (parent p) = true ∧ is_dir t' tempDir = true).
Proof.
  intros [Ha1 Ha2] [Hp F1 F2 F4 F5].
  destruct (parent_prefix p Hp) as (P1 & P2 & P3). unfold make_dirs. eapply succeeds_bind.
  { apply succeeds_MkdirAll; [by eapply escapes_prefix|]. intros l f Hl _. apply F2; [by etrans|]. by intros ->. }
  intros [] t1 H1. assert (∀ q, ¬ q `prefix_of` parent p → t1 !! q = t !! q) as E1.
  { intros q Hq. by destruct (H1 q) as [[?|(_ & _ & _ & ?)] _]. }
  assert (is_dir t1 (parent p) = true) as D1.
  { destruct (H1 (parent p)) as [_ Hd]. destruct (parent p) as [|x l]; [done|]. cbn. by rewrite Hd. }
  eapply succeeds_weaken.
  { apply succeeds_MkdirAll; [done|]. intros l f Hl Hne. rewrite (prefix_tempDir l) by done.
    destruct (H1 tempDir) as [[->|(_ & -> & _)] _]; [apply F4|done]. }
  intros [] t2 H2. assert (∀ q, q ≠ tempDir → t2 !! q = t1 !! q) as E.
  { intros q Hq. destruct (H2 q) as [[?|(_ & _ & Hne & Hl)] _]; [done|]. exfalso. by apply Hq, prefix_tempDir. }
  assert (t2 !! tempDir = Some Dir) as Dt by (by destruct (H2 tempDir) as [_ Hd]; apply Hd).
  assert (is_dir t2 tempDir = true) as D2 by (unfold tempDir in *; cbn; by rewrite Dt).
  split_and!; [intros q Hq Hq'; by rewrite E, E1| |done].
  destruct (decide (parent p = tempDir)) as [->|Hne]; [done|]. unfold is_dir in *. destruct (parent p); [done|]. by rewrite E.
Qed.

Lemma has_children_false (t : tree) p : has_children t p = false ↔ ∀ q n, t !! q = Some n → q ≠ p → parent q ≠ p.
Proof.
  unfold has_children. rewrite <-not_true_iff_false, existsb_exists. split.
  - intros H q n Hq Hne Hpar. apply H. exists (q, n). rewrite <-list_elem_of_In, elem_of_map_to_list. split; [done|].
    cbn. by rewrite !bool_decide_eq_true_2.
  - intros H ([q n] & Hin & Hb). rewrite <-list_elem_of_In, elem_of_map_to_list in Hin. cbn in Hb.
    apply andb_true_iff in Hb as [H1%bool_decide_eq_true H2%bool_decide_eq_true]. by eapply H.
Qed.

Lemma succeeds_publish windows temp p t f : escapes temp = false → escapes p = false → p ≠ [] → p ≠ temp → t !! temp = Some (File f) →
  is_dir t (parent p) = true → free windows p t → succeeds (publish windows temp p) t (λ _ t', t' !! temp = None).
Proof.
  intros He Hp Hne Hpt Ht Hd Hf. unfold publish. destruct Hf as [Hn|(-> & Hdir & Hc)].
  - apply succeeds_catch. eapply succeeds_weaken; [by apply succeeds_Rename|]. intros [] t4 ->.
    rewrite lookup_insert_ne by done. by rewrite lookup_delete_eq.
  - assert (is_dir t p = true) as Hd' by (unfold is_dir; destruct p; [done|]; by rewrite Hdir).
    eapply succeeds_handle; [intros o; unfold Rename, rooted; rewrite He, Hp; cbn; by rewrite Ht, Hd, Hd'|]. cbn [negb].
    apply (succeeds_bind _ _ _ (λ _ t1, t1 = delete p t)).
    { apply succeeds_catch, succeeds_rooted; [done|]. eapply succeeds_step; [by rewrite Hdir, Hc|done]. }
    intros [] t1 ->. eapply succeeds_weaken; [apply (succeeds_Rename _ _ _ f); [done|done|by rewrite lookup_delete_ne| |]|].
    + unfold is_dir in *. destruct (parent p) as [|x l] eqn:Ep; [done|]. rewrite lookup_delete_ne; [done|].
      rewrite <-Ep. intros E. by destruct (parent_prefix p Hne) as (_ & ? & _).
    + unfold is_dir. destruct p; [done|]. by rewrite lookup_delete_eq.
    + intros [] t4 ->. rewrite lookup_insert_ne by done. by rewrite lookup_delete_eq.
Qed.

(** Making directories and the temporary file leaves the place free. *)
Lemma free_kept windows uuid p t t' : apart uuid p → p ≠ [] →
  (∀ q, q ≠ tempDir → q ≠ tempDir ++ [uuid] → ¬ q `prefix_of` parent p → t' !! q = t !! q) → free windows p t → free windows p t'.
Proof.
  intros [Ha1 Ha2] Hp E. destruct (parent_prefix p Hp) as (_ & _ & P3).
  assert (t' !! p = t !! p) as Ep by (apply E; [done|intros ->; by apply Ha2|done]).
  intros [Hf|(-> & Hf & Hc)]; [left; unfold is_dir in *; destruct p; [done|]; by rewrite Ep|right].
  split_and!; [done|by rewrite Ep|]. rewrite has_children_false in Hc |- *. intros q n Hq Hne Hpar.
  assert (q ≠ []) as Hqn by (intros ->; by rewrite <-Hpar in Hp). destruct (parent_prefix q Hqn) as (Q1 & _ & _).
  rewrite Hpar in Q1. apply (Hc q n); [|done|done]. rewrite <-E; [done| | |].
  - intros ->. by rewrite <-Hpar in Hp.
  - intros ->. unfold parent in Hpar. rewrite removelast_snoc in Hpar. by rewrite <-Hpar in Ha1.
  - intros H. apply P3. by etrans.
Qed.

Lemma succeeds_directory_Put windows prefix uuid name content mode modified rel t :
  objectName prefix name = Ok rel → apart uuid (clean_parts rel) → room uuid (clean_parts rel) t → free windows (clean_parts rel) t →
  succeeds (directory_Put windows prefix uuid name content mode modified) t (λ _ _, True).
Proof.
  intros Hrel Ha Hr Hf. unfold directory_Put. rewrite Hrel. set (p := clean_parts rel) in *.
  apply (succeeds_bind _ _ _ (λ a t1, a = rel ∧ t1 = t)); [by exists 0%nat, t, rel|]. intros ? ? [-> ->]. fold p.
  eapply succeeds_bind; [by apply (succeeds_make_dirs uuid)|]. intros [] t1 (E1 & D1 & D2).
  assert (t1 !! (tempDir ++ [uuid]) = None) as E2.
  { rewrite E1; [exact (room_temp _ _ _ Hr)|done|]. intros H. destruct Ha as [_ Ha2]. apply Ha2. etrans; [exact H|].
    apply parent_prefix. exact (room_path _ _ _ Hr). }
  eapply succeeds_bind; [by apply succeeds_create|]. intros [] t2 B2. apply succeeds_deferred; [done|].
  eapply succeeds_bind; [by eapply succeeds_fill; [|apply B2|]|]. intros [] t3 B3. pose proof (besides_trans _ _ _ _ _ _ B2 B3) as [B4 B5].
  assert (p ≠ tempDir ++ [uuid]) as Hp by (destruct Ha as [_ Hn]; intros E; by apply Hn; rewrite <-E).
  assert (parent p ≠ tempDir ++ [uuid]) as Hpp by (by apply apart_parent).
  eapply succeeds_weaken; [apply (succeeds_publish windows _ _ _ (stored content mode modified)); [done|exact (room_escapes _ _ _ Hr)|exact (room_path _ _ _ Hr)|done|done| |]|].
  - unfold is_dir in *. destruct (parent p); [done|]. by rewrite B5.
  - apply (free_kept _ uuid _ t); [done|exact (room_path _ _ _ Hr)| |done]. intros q H1 H2 H3. by rewrite B5, E1.
  - intros [] t4 H4. by split.
Qed.

(** *** A directory in the way *)

Section blocked.
Context (t0 : tree) (p temp : list string) (dirs : list (list string)) (new : file).
Hypothesis Hdir : t0 !! p = Some Dir.

Lemma spec_Rename_blocked f : spec (Disk.intact t0 p new temp dirs) (Disk.staged t0 p temp dirs f) (Rename temp p) (λ _ _, False).
Proof.
  do 2 (apply spec_rooted; [apply staged_intact|]). apply spec_step; [apply staged_intact|]. intros t t' r H.
  pose proof H as [[H1 H2] H3]. rewrite H3. destruct (negb _); [intros [= <- <-]; by eapply staged_intact|].
  assert (is_dir t p = true) as -> by (unfold is_dir; destruct p; [done|]; by rewrite H2, Hdir).
  intros [= <- <-]. by eapply staged_intact.
Qed.
End blocked.

Lemma directory_Put_blocked prefix uuid name content mode modified rel t0 : objectName prefix name = Ok rel → apart uuid (clean_parts rel) →
  t0 !! clean_parts rel = Some Dir →
  spec (Disk.intact t0 (clean_parts rel) (stored content mode modified) (tempDir ++ [uuid]) (made (clean_parts rel))) (λ t, t = t0)
    (directory_Put false prefix uuid name content mode modified) (λ _ _, False).
Proof.
  intros Hrel Ha Hdir. unfold directory_Put. rewrite Hrel. set (p := clean_parts rel) in *. pose proof (apart_parent _ _ Ha) as Hpp.
  destruct Ha as [Ha1 Ha2]. assert (p ≠ tempDir ++ [uuid]) as Hp by (intros E; by apply Ha2; rewrite <-E).
  assert (p ∉ made p ∧ tempDir ++ [uuid] ∉ made p) as Hd.
  { split; apply made_other; [done|by intros [_ ?]|unfold tempDir; discriminate|by intros [? _]]. }
  apply (spec_weaken _ _ (Disk.before t0 p (tempDir ++ [uuid]) (made p)) _ _ (λ _ _, False)); [|intros t ->; split; [|done]; by left|done].
  eapply spec_bind; [apply spec_dpure, before_intact|]. intros rel'. apply spec_fact. intros [= <-].
  eapply spec_bind; [eapply spec_bind; [apply spec_MkdirAll; [done|done|done|apply made_parent]|]|].
  { intros []. apply spec_MkdirAll; [done|done|done|apply made_temp]. }
  intros []. eapply spec_bind; [by apply spec_create|]. intros []. eapply spec_deferred.
  - eapply spec_bind; [by apply spec_fill|]. intros []. eapply spec_catch; [by apply spec_Rename_blocked|].
    intros e. eapply spec_weaken; [by apply spec_dpure|done|]. by intros [] t [? _].
  - apply spec_remove; [done|]. intros t t' H. by apply intact_temp.
  - intros []. by intros o t o' t' r [].
Qed.

Lemma directory_Delete_others prefix name rel o t o' t' r : objectName prefix name = Ok rel →
  directory_Delete prefix name o t = (o', t', r) → (∀ q, q ≠ clean_parts rel → t' !! q = t !! q) ∧
    (t' !! clean_parts rel = t !! clean_parts rel ∨ t' !! clean_parts rel = None) ∧
    (r = Ok tt → t' !! clean_parts rel = None).
Proof.
  intros Hrel. unfold directory_Delete, mbind, disk_bind, dpure. rewrite Hrel. set (p := clean_parts rel).
  unfold remove_if_exists, catch, Remove, rooted. destruct (escapes p); [cbn; intros [= <- <- <-]; by split_and!; [|left|]|].
  unfold step, sys. destruct o as [|x o1]; [intros [= <- <- <-]; by split_and!; [|left|]|].
  destruct x; try (intros [= <- <- <-]; by split_and!; [|left|]);
    (destruct (t !! p) as [[|f]|] eqn:E; [destruct (has_children t p)| |]; intros [= <- <- <-];
      try (by split_and!; [|left|]); (split_and!; [intros q Hq; by rewrite lookup_delete_ne|right; by rewrite lookup_delete_eq|intros _; by rewrite lookup_delete_eq])).
Qed.

(** ** The theorems *)

(** C24 Putting a file into the directory is atomic, whatever calls fail, whatever reads
    are short and writes torn, and wherever the process is killed: if the destination
    is not the directory of the temporary files nor at or below the temporary name,
    it keeps what it had, or has the whole new content with its permissions and time.
    Only on Windows, and only if something was there before, it can also end up
    without either (the gap of the fallback); the first creation is atomic there too.
    Every other path keeps what it had, apart from the temporary file, and only
    directories above the destination and the temporary one are made; if the call
    succeeds the destination has the new file and no temporary file is left. *)
Theorem put_atomic windows prefix uuid name content mode modified rel o t o' t' r :
  let p := clean_parts rel in let temp := tempDir ++ [uuid] in
  objectName prefix name = Ok rel → apart uuid p →
  directory_Put windows prefix uuid name content mode modified o t = (o', t', r) →
  (t' !! p = t !! p ∨ t' !! p = Some (File (stored content mode modified)) ∨
     windows = true ∧ t !! p ≠ None ∧ t' !! p = None) ∧
  (∀ q, q ≠ p → q ≠ temp → t' !! q = t !! q ∨ q ∈ made p ∧ t !! q = None ∧ t' !! q = Some Dir) ∧
  (r = Ok tt → t' !! p = Some (File (stored content mode modified)) ∧ t' !! temp = None).
Proof.
  intros p temp Hrel Ha E.
  pose proof (spec_directory_Put prefix uuid name content mode modified windows t rel Hrel Ha o t o' t' r eq_refl E) as H.
  destruct r as [[]|e].
  - destruct H as (Hk & Hn & Ht & _). split_and!; [by right; left|intros q Hq Hq'; by apply Hk|done].
  - destruct H as [[Hk Hn]|(Hw & Hold & Hk & Hn)]; (split_and!; [|intros q Hq Hq'; by apply Hk|done]).
    + destruct Hn; auto.
    + right. by right.
Qed.

(** Putting a file succeeds when nothing is in the way: enough calls that are done
    make it succeed, and the destination has the file. *)
Lemma put_succeeds windows prefix uuid name content mode modified rel t :
  objectName prefix name = Ok rel → apart uuid (clean_parts rel) → room uuid (clean_parts rel) t → free windows (clean_parts rel) t →
  ∃ k t', (∀ o, directory_Put windows prefix uuid name content mode modified (replicate k Done ++ o) t = (o, t', Ok tt)) ∧
    t' !! clean_parts rel = Some (File (stored content mode modified)).
Proof.
  intros Hrel Ha Hr Hf. destruct (succeeds_directory_Put windows prefix uuid name content mode modified rel t Hrel Ha Hr Hf) as (k & t' & [] & Hc & _).
  exists k, t'. split; [done|].
  by destruct (spec_directory_Put prefix uuid name content mode modified windows t rel Hrel Ha _ t _ t' _ eq_refl (Hc [])) as (_ & Hn & _).
Qed.

(** C25 A directory that was made for a file stays when the file is deleted: after a
    file has been put and deleted successfully, its directory, if it is not the root,
    is still there.  Except on Windows, putting a file with the name of that
    directory then fails, whatever happens to the calls; on Windows it succeeds when
    its calls are done, if the directory is empty and nothing else is in the way.
    The destinations are not the directory of the temporary files nor at or below
    the temporary names. *)
Theorem emptied_directory_blocks windows prefix name name' uuid uuid' content content' mode mode' mtime mtime' rel rel' o t o1 t1 o2 t2 :
  let p' := clean_parts rel' in
  objectName prefix name = Ok rel → objectName prefix name' = Ok rel' → apart uuid (clean_parts rel) →
  apart uuid' p' → p' = parent (clean_parts rel) → p' ≠ [] →
  directory_Put windows prefix uuid name content mode mtime o t = (o1, t1, Ok tt) →
  directory_Delete prefix name o1 t1 = (o2, t2, Ok tt) →
  t2 !! p' = Some Dir ∧
  (∀ o3, (directory_Put false prefix uuid' name' content' mode' mtime' o3 t2).2 ≠ Ok tt) ∧
  (room uuid' p' t2 → has_children t2 p' = false → ∃ k t4,
     (∀ o3, directory_Put true prefix uuid' name' content' mode' mtime' (replicate k Done ++ o3) t2 = (o3, t4, Ok tt)) ∧
     t4 !! p' = Some (File (stored content' mode' mtime'))).
Proof.
  intros p' Hrel Hrel' Ha Ha' Hpar Hne H1 H2.
  destruct (spec_directory_Put prefix uuid name content mode mtime windows t rel Hrel Ha o t o1 t1 _ eq_refl H1) as (_ & _ & _ & Hd).
  rewrite <-Hpar in Hd. destruct (directory_Delete_others _ _ _ _ _ _ _ _ Hrel H2) as (Ho & _ & _).
  assert (t2 !! p' = Some Dir) as Hdir.
  { rewrite Ho; [|rewrite Hpar; by destruct (parent_prefix (clean_parts rel)) as (_ & ? & _); [intros E; by rewrite Hpar, E in Hne|]].
    unfold is_dir in Hd. destruct p'; [done|]. by destruct (t1 !! _) as [[|f]|]. }
  split_and!; [done| |].
  - intros o3 H3. destruct (directory_Put false _ _ _ _ _ _ _ _) as [[o4 t4] r] eqn:E. cbn in H3. subst r.
    by destruct (directory_Put_blocked prefix uuid' name' content' mode' mtime' rel' t2 Hrel' Ha' Hdir o3 t2 o4 t4 _ eq_refl E).
  - intros Hr Hc. apply put_succeeds; try done. by right.
Qed.

(** C23 What the server stores as a file is on the disk: when the end of a file, with
    a sequence number that was not received yet and an enabled operation, is stored
    into a directory, and its path below the prefix is not the directory of the
    temporary files nor at or below the temporary name, then the directory holds at
    that path the content of the chunks of the open batch: their decoded data, one
    after the other, numbered from zero to the announced count without a gap; it has
    the announced size and SHA-256 and the announced permissions and modification
    time. *)
Theorem file_on_disk {V} `{PG : Postgres V} constraints cfg m raw f (σ σ' : side directoryStore) (d d' : pg V) :
  TInv d → decodes m raw → store constraints cfg m raw σ d = (σ', d', Ok tt) → Message.Kind m = "file_end" →
  Message.File m = Some f → sync_state.received_seq (sync d) < Message.Seq m →
  AllowsFileOperation cfg (FileChange.Operation f) = true →
  (∀ rel, objectName (ds_prefix (files σ)) (FileChange.Path f) = Ok rel →
     apart (default "" (head (ds_uuids (files σ)))) (clean_parts rel)) →
  ∃ parts content rel, mapM file_part (file_chunks (rp_batch (abs d))) = Some parts ∧
    parts.*1 = seqZ 0 (FileChange.Chunks f) ∧ content = foldl String.append "" parts.*2 ∧
    slen content = FileChange.Size f ∧ hex_encode (sha256 content) = FileChange.SHA256 f ∧
    objectName (ds_prefix (files σ)) (FileChange.Path f) = Ok rel ∧
    ds_tree (files σ') !! clean_parts rel = Some (File (stored content (FileChange.Mode f) (FileChange.ModTimeUnixNano f))).
Proof.
  intros Hd Hm E Hk Hf Hnew Hallow Hap.
  destruct (file_end_put constraints cfg m raw f σ d σ' d' Hd Hm E Hk Hf Hnew Hallow)
    as (parts & content & Hparts & Hnum & Hc & Hlen & _ & Hsha & _ & Hput & _).
  cbn [Put directory_store] in Hput. unfold on_disk in Hput. destruct (directory_Put _ _ _ _ _ _ _ _ _) as [[o t] r] eqn:Hp.
  injection Hput as Hfiles ->. destruct (objectName (ds_prefix (files σ)) (FileChange.Path f)) as [rel|e] eqn:Hrel.
  - exists parts, content, rel. split_and!; try done. rewrite <-Hfiles. cbn [ds_tree].
    by destruct (spec_directory_Put _ _ _ content _ _ _ _ rel Hrel (Hap rel eq_refl) _ _ _ _ _ eq_refl Hp) as (_ & Hn & _).
  - exfalso. unfold directory_Put, mbind, disk_bind, dpure in Hp. by rewrite Hrel in Hp.
Qed.

(** ** Examples *)

Definition demo_rel : string := "in/a/b.txt".

Lemma demo_apart uuid : apart uuid (clean_parts demo_rel).
Proof. split; [discriminate|]. intros [k H]. discriminate H. Qed.

(** A write is torn and the process is killed. *)
Definition demo_torn : list outcome := replicate 7 Done ++ [Torn 1 "disk full"].
Definition demo_tree : tree := {[ ["in"] := Dir; ["in"; "old.txt"] := File (mkFile "old" 420 0) ]}.

Definition demo_put : list outcome * tree * result unit := directory_Put false "in" "u1" "a/b.txt" "hi" 420 7 demo_torn demo_tree.

Lemma put_atomic_witness : demo_put.1.2 !! ["in"; "a"; "b.txt"] = None ∨
  demo_put.1.2 !! ["in"; "a"; "b.txt"] = Some (File (stored "hi" 420 7)).
Proof.
  destruct (put_atomic false "in" "u1" "a/b.txt" "hi" 420 7 demo_rel demo_torn demo_tree demo_put.1.1 demo_put.1.2 demo_put.2) as [H _].
  - vm_compute. reflexivity.
  - apply demo_apart.
  - exact (disk_outcome demo_put _ eq_refl).
  - destruct H as [H|[H|[H _]]]; [left; exact H|right; exact H|discriminate H].
Defined.

(** The gap of the fallback: the first [Rename] fails, the old file is removed, and
    the process is killed. *)
Lemma windows_gap :
  (directory_Put true "in" "u1" "old.txt" "hi" 420 7 (replicate 13 Done ++ [Fails "access denied"; Done]) demo_tree).1.2
    !! ["in"; "old.txt"] = None.
Proof. vm_compute. reflexivity. Qed.

(** [a/b] is put and deleted, then [a] becomes a file. *)
Definition demo_first : list outcome * tree * result unit := directory_Put false "" "u1" "a/b" "hi" 420 7 (replicate 20 Done) ∅.
Definition demo_deleted : list outcome * tree * result unit := directory_Delete "" "a/b" demo_first.1.1 demo_first.1.2.

Lemma demo_first_Ok : demo_first.2 = Ok tt.
Proof. vm_compute. reflexivity. Qed.
Lemma demo_deleted_Ok : demo_deleted.2 = Ok tt.
Proof. vm_compute. reflexivity. Qed.

Lemma demo_room : room "u2" ["a"] demo_deleted.1.2.
Proof.
  assert (demo_deleted.1.2 = {[ ["a"] := Dir; tempDir := Dir ]}) as -> by (vm_compute; reflexivity).
  split; [discriminate|reflexivity| | |vm_compute; reflexivity].
  - intros k f [l Hl] Hne H. destruct k as [|x [|y k]]; [|by injection Hl as <- _|discriminate Hl]. vm_compute in H. discriminate H.
  - intros f H. vm_compute in H. discriminate H.
Qed.

Lemma emptied_directory_blocks_witness :
  (∀ o, (directory_Put false "" "u2" "a" "hi" 420 8 o demo_deleted.1.2).2 ≠ Ok tt) ∧
  ∃ k t, (∀ o, directory_Put true "" "u2" "a" "hi" 420 8 (replicate k Done ++ o) demo_deleted.1.2 = (o, t, Ok tt)) ∧
    t !! ["a"] = Some (File (stored "hi" 420 8)).
Proof.
  destruct (emptied_directory_blocks false "" "a/b" "a" "u1" "u2" "hi" "hi" 420 420 7 8 "a/b" "a" (replicate 20 Done) ∅ demo_first.1.1 demo_first.1.2
    demo_deleted.1.1 demo_deleted.1.2) as (_ & H1 & H2).
  - vm_compute. reflexivity.
  - vm_compute. reflexivity.
  - split; [discriminate|]. intros [k H]. discriminate H.
  - split; [discriminate|]. intros [k H]. discriminate H.
  - reflexivity.
  - discriminate.
  - exact (disk_outcome demo_first _ demo_first_Ok).
  - exact (disk_outcome demo_deleted _ demo_deleted_Ok).
  - split; [exact H1|]. apply H2; [exact demo_room|]. vm_compute. reflexivity.
Defined.

#[local] Existing Instance demo_postgres.
#[local] Existing Instance demo_files.

Definition demo_directory : side directoryStore := mkSide ∅ (mkDirectory false "in" demo_tree (replicate 20 Done) ["u1"]).
Definition demo_inbox : pg string := state_of (store_all (λ _, true) demo_cfg demo_upload demo_side (migrate demo_tables)).
Notation demo_on_disk := (store (λ _, true) demo_cfg demo_file_end.1 demo_file_end.2 demo_directory demo_inbox) (only parsing).

Lemma demo_on_disk_Ok : demo_on_disk.2 = Ok tt.
Proof. vm_compute. reflexivity. Qed.

Lemma file_on_disk_witness : ∃ parts content rel, mapM file_part (file_chunks (rp_batch (abs demo_inbox))) = Some parts ∧
  content = foldl String.append "" parts.*2 ∧ slen content = 2 ∧
  objectName "in" "a/b.txt" = Ok rel ∧ ds_tree (files (side_of demo_on_disk)) !! clean_parts rel = Some (File (stored content 420 0)).
Proof.
  destruct (file_on_disk (λ _, true) demo_cfg demo_file_end.1 demo_file_end.2 (demo_file 0 "") demo_directory (side_of demo_on_disk) demo_inbox
    (state_of demo_on_disk)) as (parts & content & rel & H1 & _ & H2 & H3 & _ & H4 & H5).
  - apply demo_TInv. exact (demo_prefix _ _ demo_decodes).
  - split; [apply unmarshal_marshal|]; reflexivity.
  - exact (outcome_of demo_on_disk demo_on_disk_Ok).
  - reflexivity.
  - reflexivity.
  - vm_compute. reflexivity.
  - reflexivity.
  - intros rel H. vm_compute in H. injection H as <-. apply (demo_apart "u1").
  - exists parts, content, rel. split; [exact H1|]. split; [exact H2|]. split; [exact H3|]. split; [exact H4|exact H5].
Defined.
