(* ===== verification/Destinations.v ===== *)
(** * The destinations of an accepted configuration

    Where the files of the syncers go, and that the syncers of a configuration that the
    server accepts do not write to the same places: what the tests of serverconfig
    establish of the configured texts is carried over to the paths and the object keys
    that filestore derives from them. *)

From S2P Require Import Prelude Bytes Encoding GoPath ServerConfig ServerValidate Filestore.

Import serverconfig filestore.

(** ** Components of paths *)

Definition keep (p : string) : bool := negb (String.eqb p "" || String.eqb p ".").

(** The components of a path without double dots. *)
Definition components (s : string) : list string := List.filter keep (Split s slash).

(** A component of a cleaned path below its root. *)
Definition plain (s : string) : Prop := proper s ∧ s ≠ ".".

Lemma clean_plain r parts stack : Forall (λ p, p ≠ "..") parts → clean r parts stack = reverse stack ++ List.filter keep parts.
Proof.
  intros Hp. revert stack. induction Hp as [|p parts Hp _ IH]; intros stack; cbn [clean List.filter]; [by rewrite app_nil_r|].
  unfold keep at 1. destruct (String.eqb p "" || String.eqb p "."); cbn [negb]; [apply IH|].
  rewrite (proj2 (String.eqb_neq _ _) Hp), IH, reverse_cons, <-app_assoc. done.
Qed.

Lemma clean_app r a b stack : clean r (a ++ b) stack = clean r b (reverse (clean r a stack)).
Proof.
  revert stack. induction a as [|p a IH]; intros stack; cbn [clean app]; [by rewrite reverse_involutive|].
  repeat case_match; apply IH.
Qed.

(** Once the path leads upwards it always does. *)
Lemma clean_upwards parts T : ∃ l, clean false parts (T ++ [".."]) = ".." :: l.
Proof.
  revert T. induction parts as [|p parts IH]; intros T; cbn [clean]; [exists (reverse T); by rewrite reverse_app|].
  case_match; [apply IH|]. case_match; [|apply (IH (p :: T))]. destruct T as [|x T]; cbn [app].
  - apply (IH [".."]).
  - case_match; [apply (IH (".." :: x :: T))|apply IH].
Qed.

(** A local path stays below whatever it is joined to. *)
Lemma clean_local r parts T S l : Forall (λ p, p ≠ "..") T → clean false parts T = l → head l ≠ Some ".." →
  clean r parts (T ++ S) = reverse S ++ l.
Proof.
  revert T. induction parts as [|p parts IH]; intros T HT E Hl; cbn [clean] in *; [by subst; rewrite reverse_app|].
  case_match; [by apply IH|]. destruct (String.eqb_spec p "..") as [->|Hp].
  - destruct T as [|x T].
    + destruct (clean_upwards parts []) as [k Hk]. cbn in Hk. rewrite Hk in E. by subst.
    + apply Forall_cons in HT as [Hx HT]. cbn [app]. rewrite (proj2 (String.eqb_neq _ _) Hx) in *. by apply IH.
  - apply (IH (p :: T)); [by constructor|done|done].
Qed.

Lemma clean_kept r parts stack : Forall (λ p, p ≠ ".") stack → Forall (λ p, p ≠ ".") (clean r parts stack).
Proof.
  revert stack. induction parts as [|p parts IH]; intros stack Hs; cbn [clean]; [by apply Forall_reverse|].
  destruct (String.eqb_spec p ""), (String.eqb_spec p "."); cbn [orb]; try by apply IH.
  case_match; [|apply IH; by constructor]. destruct stack as [|x stack]; [case_match; apply IH; by repeat constructor|].
  case_match; apply IH; [by constructor|by apply Forall_cons in Hs as []].
Qed.

Lemma filter_plain l : Forall plain l → List.filter keep l = l.
Proof.
  induction 1 as [|x l [(_ & H1 & _) H2] _ IH]; cbn; [done|]. unfold keep at 1.
  apply String.eqb_neq in H1, H2. by rewrite H1, H2, IH.
Qed.

Lemma plain_no_up l : Forall plain l → Forall (λ p, p ≠ "..") l.
Proof. intros H. eapply Forall_impl; [exact H|]. by intros x [(_ & _ & ?) _]. Qed.

Lemma plain_no_slash l : Forall plain l → Forall no_slash l.
Proof. intros H. eapply Forall_impl; [exact H|]. by intros x [(? & _) _]. Qed.

(** The components of a local path. *)
Lemma local_parts name : IsLocal name = true → IsAbs name = false ∧ Forall plain (clean_parts name) ∧
  ∀ r S, clean r (Split name slash) S = reverse S ++ clean_parts name.
Proof.
  unfold IsLocal. intros H. apply andb_true_iff in H as [H Hh]. apply andb_true_iff in H as [_ Ha%negb_true_iff].
  assert (head (clean_parts name) ≠ Some "..") as Hd.
  { destruct (clean_parts name) as [|x l]; [done|]. apply negb_true_iff, String.eqb_neq in Hh. cbn. congruence. }
  assert (clean false (Split name slash) [] = clean_parts name) as E by (unfold clean_parts; by rewrite Ha).
  assert (∀ r S, clean r (Split name slash) S = reverse S ++ clean_parts name) as Hc
    by (intros r S; by apply (clean_local r _ [])).
  split_and!; [done| |done].
  assert (Forall proper (clean true (Split name slash) []) ∧ Forall (λ p, p ≠ ".") (clean true (Split name slash) [])) as [H1 H2].
  { split; [apply clean_proper; [apply Split_no_slash|constructor]|by apply clean_kept]. }
  rewrite Hc in H1, H2. cbn in H1, H2. apply Forall_forall. rewrite Forall_forall in H1, H2. intros x Hx. by split; [apply H1|apply H2].
Qed.

Lemma Join_not_abs l : Forall plain l → IsAbs (Join l "/") = false.
Proof.
  intros [|x l' [(Hn & He & _) _] _]; [done|]. unfold no_slash in Hn. destruct x as [|c x]; [done|]. cbn in Hn.
  destruct (ascii_dec c slash) as [|Hc]; [done|]. apply not_true_iff_false. intros [r Hr]%HasPrefix_spec.
  unfold Join in Hr. destruct l'; cbn in Hr; by injection Hr.
Qed.

Lemma Join_nonempty l : Forall plain l → l ≠ [] → Join l "/" ≠ "".
Proof. intros [|x l' [(_ & He & _) _] _] Hl; [done|]. unfold Join. by destruct x, l'. Qed.

(** Cleaning again changes nothing. *)
Lemma clean_parts_Join l : Forall plain l → clean_parts (if String.eqb (Join l "/") "" then "." else Join l "/") = l.
Proof.
  intros Hl. destruct (decide (l = [])) as [->|Hne]; [done|].
  rewrite (proj2 (String.eqb_neq _ _)) by by apply Join_nonempty. unfold clean_parts.
  rewrite Join_not_abs, Split_Join by (done || by apply plain_no_slash).
  rewrite clean_plain by by apply plain_no_up. cbn. by apply filter_plain.
Qed.

Lemma clean_parts_Clean s : IsAbs s = true → clean_parts (Clean s) = clean_parts s.
Proof.
  intros Ha. pose proof (clean_parts_proper s Ha) as Hp.
  assert (Forall plain (clean_parts s)) as Hl.
  { assert (Forall (λ p, p ≠ ".") (clean_parts s)) as Hd by by apply clean_kept.
    apply Forall_forall. rewrite Forall_forall in Hp, Hd. intros x Hx. by split; [apply Hp|apply Hd]. }
  unfold Clean. rewrite Ha. set (l := clean_parts s) in *. unfold clean_parts.
  replace (IsAbs ("/" +:+ Join l "/")) with true by (symmetry; by apply HasPrefix_spec; eexists).
  change (Split ("/" +:+ Join l "/") slash) with ("" :: Split (Join l "/") slash). cbn [clean String.eqb orb].
  destruct (decide (l = [])) as [->|Hne]; [done|]. rewrite Split_Join by (done || by apply plain_no_slash).
  rewrite clean_plain by by apply plain_no_up. cbn. by apply filter_plain.
Qed.

(** ** Slashes around a prefix *)

Fixpoint slashes (n : nat) : string := match n with O => "" | S n' => String slash (slashes n') end.

Lemma Split_join s t : Split (s +:+ String slash t) slash = Split s slash ++ Split t slash.
Proof.
  induction s as [|c s IH]; cbn; [done|]. rewrite IH. destruct (ascii_dec c slash) as [|Hc]; [done|].
  destruct (Split s slash) eqn:E; [|done]. by destruct s as [|c' s']; cbn in E; repeat case_match.
Qed.

Lemma components_join s t : components (s +:+ String slash t) = components s ++ components t.
Proof. unfold components. by rewrite Split_join, List.filter_app. Qed.

Lemma components_slashes n s m : components (slashes n +:+ s +:+ slashes m) = components s.
Proof.
  induction n as [|n IH]; [|exact IH]. change (slashes 0 +:+ s +:+ slashes m) with (s +:+ slashes m).
  induction m as [|m IH]; cbn; [by rewrite append_nil_r|]. rewrite components_join. 
  assert (components (slashes m) = []) as ->; [|by rewrite app_nil_r]. clear. by induction m.
Qed.

Section trimming.
Context (f : ascii → bool) (Hf : ∀ c, f c = true ↔ c = slash).

Lemma trim_left_slashes s : ∃ n, s = slashes n +:+ trim_left f s ∧ IsAbs (trim_left f s) = false.
Proof.
  induction s as [|c s (n & IH & Ha)]; cbn [trim_left]; [by exists 0%nat|]. destruct (f c) eqn:E.
  - apply Hf in E as ->. exists (S n). cbn. by rewrite <-IH.
  - exists 0%nat. split; [done|]. apply not_true_iff_false. intros [r Hr]%HasPrefix_spec. injection Hr as -> _.
    apply not_true_iff_false in E. by apply E, Hf.
Qed.

Lemma rev_string_app s acc : rev_string s acc = rev_string s "" +:+ acc.
Proof.
  revert acc. induction s as [|c s IH]; intros acc; cbn; [done|]. rewrite IH, (IH (String c "")), append_assoc. done.
Qed.

Lemma rev_append s t : rev_string (s +:+ t) "" = rev_string t "" +:+ rev_string s "".
Proof.
  induction s as [|c s IH]; cbn; [by rewrite append_nil_r|]. rewrite rev_string_app, IH, (rev_string_app s (String c "")).
  by rewrite append_assoc.
Qed.

Lemma rev_involutive s : rev_string (rev_string s "") "" = s.
Proof.
  induction s as [|c s IH]; cbn; [done|]. rewrite (rev_string_app s (String c "")), rev_append, IH. done.
Qed.

Lemma rev_slashes n : rev_string (slashes n) "" = slashes n.
Proof.
  assert (∀ n, slashes n +:+ String slash "" = String slash (slashes n)) as H by (induction n0; cbn; congruence).
  induction n as [|n IH]; cbn; [done|]. by rewrite rev_string_app, IH, H.
Qed.

Lemma Trim_slashes s : ∃ n m, s = slashes n +:+ Trim f s +:+ slashes m ∧ IsAbs (Trim f s) = false.
Proof.
  unfold Trim. destruct (trim_left_slashes s) as (n & Es & Ha). set (u := trim_left f s) in *.
  destruct (trim_left_slashes (rev_string u "")) as (m & Eu & _). set (v := trim_left f (rev_string u "")) in *.
  assert (u = rev_string v "" +:+ slashes m) as Eu'.
  { rewrite <-(rev_involutive u), Eu, rev_append, rev_slashes. done. }
  exists n, m. rewrite <-Eu'. split; [done|]. apply not_true_iff_false. intros [r Hr]%HasPrefix_spec.
  apply not_true_iff_false in Ha. apply Ha. rewrite Eu', Hr. apply HasPrefix_spec. rewrite append_assoc. by eexists.
Qed.

Lemma components_Trim s : components (Trim f s) = components s.
Proof. destruct (Trim_slashes s) as (n & m & E & _). rewrite E at 2. by rewrite components_slashes. Qed.

(** Nothing but the slash in front is trimmed. *)
Lemma Trim_Join l : Forall plain l → Trim f ("/" +:+ Join l "/") = Join l "/".
Proof.
  intros Hl. unfold Trim. assert (∀ s, IsAbs s = false → trim_left f s = s) as Hid.
  { intros [|c s] Hs; cbn; [done|]. destruct (f c) eqn:E; [|done]. apply Hf in E as ->.
    apply not_true_iff_false in Hs. destruct Hs. apply HasPrefix_spec. by eexists. }
  cbn [String.append trim_left]. rewrite (proj2 (Hf "/"%char)) by done. rewrite (Hid (Join l "/")) by by apply Join_not_abs.
  rewrite Hid; [apply rev_involutive|]. induction Hl as [|x l [(Hn & He & _) _] Hl IH]; [done|].
  assert (IsAbs (rev_string x "") = false ∧ rev_string x "" ≠ "") as [Hx Hx'].
  { split.
    - apply not_true_iff_false. intros [r Hr]%HasPrefix_spec. unfold no_slash in Hn. rewrite <-(rev_involutive x), Hr in Hn.
      cbn in Hn. rewrite rev_string_app, string_elem_append in Hn. cbn in Hn. by rewrite orb_true_r in Hn.
    - intros E. apply He. by rewrite <-(rev_involutive x), E. }
  destruct l as [|y l]; [done|]. change (Join (x :: y :: l) "/") with (x +:+ String slash (Join (y :: l) "/")).
  rewrite rev_append. change (String slash ?a) with ("/" +:+ a). rewrite rev_append, append_assoc.
  set (t := rev_string (Join (y :: l) "/") "") in *.
  assert (t ≠ "") as Ht.
  { intros E. apply (Join_nonempty (y :: l)); [done|done|]. rewrite <-(rev_involutive (Join (y :: l) "/")). fold t. by rewrite E. }
  destruct t as [|c t]; [done|]. apply not_true_iff_false. intros [r Hr]%HasPrefix_spec. apply not_true_iff_false in IH.
  apply IH, HasPrefix_spec. injection Hr as -> _. by eexists.
Qed.
End trimming.

Lemma Ascii_eqb_slash c : Ascii.eqb slash c = true ↔ c = slash.
Proof. rewrite Ascii.eqb_eq. naive_solver. Qed.

Lemma Ascii_eqb_slash' c : Ascii.eqb c "/" = true ↔ c = slash.
Proof. by rewrite Ascii.eqb_eq. Qed.

(** ** Below a prefix *)

Lemma Split_Contains s x : x ∈ Split s slash → Contains s x = true.
Proof.
  assert (∀ s, ∃ w ws, Split s slash = w :: ws ∧ HasPrefix s w = true) as Hh.
  { clear. induction s as [|c s (w & ws & E & Hw)]; cbn [Split]; [by exists "", []|].
    destruct (ascii_dec c slash); [by eexists "", _|]. rewrite E. exists (String c w), ws. split; [done|].
    apply HasPrefix_spec. apply HasPrefix_spec in Hw as [r ->]. by exists r. }
  induction s as [|c s IH]; intros Hx.
  { cbn in Hx. by apply list_elem_of_singleton in Hx as ->. }
  destruct (Hh (String c s)) as (w & ws & E & Hw). cbn [Contains]. rewrite E in Hx.
  apply elem_of_cons in Hx as [->|Hx]; [by rewrite Hw|]. rewrite IH; [by rewrite orb_true_r|].
  cbn [Split] in E. destruct (ascii_dec c slash); [by injection E as _ ->|].
  destruct (Split s slash) as [|y ys]; injection E as _ <-; [by apply elem_of_nil in Hx|by right].
Qed.

Lemma no_up_parts s : Contains s ".." = false → Forall (λ p, p ≠ "..") (Split s slash).
Proof. intros H. apply Forall_forall. intros x Hx ->. apply Split_Contains in Hx. congruence. Qed.

Lemma components_plain s : Contains s ".." = false → Forall plain (components s).
Proof.
  intros H. apply no_up_parts in H. pose proof (Split_no_slash s) as Hn. apply Forall_forall. intros x Hx.
  rewrite Forall_forall in H, Hn. unfold components in Hx. apply list_elem_of_In, List.filter_In in Hx as [Hx%list_elem_of_In Hk].
  unfold keep in Hk. apply negb_true_iff, orb_false_iff in Hk as [H1%String.eqb_neq H2%String.eqb_neq].
  split; [split_and!; [by apply Hn|done|by apply H]|done].
Qed.

(** The name of a file below a prefix: the components of the prefix, then those of the
    name. *)
Lemma objectName_parts prefix name rel : Contains prefix ".." = false → objectName prefix name = Ok rel →
  clean_parts rel = components prefix ++ clean_parts name.
Proof.
  intros Hc H. unfold objectName in H. rewrite fail_if_bind in H. destruct (_ || _) eqn:Eb; [done|]. injection H as <-.
  apply orb_false_iff in Eb as [[Hne%String.eqb_neq Hl%negb_false_iff]%orb_false_iff _].
  destruct (local_parts name Hl) as (Ha & Hp & Hj).
  pose proof (components_Trim (Ascii.eqb slash) Ascii_eqb_slash prefix) as Ht.
  destruct (Trim_slashes (Ascii.eqb slash) Ascii_eqb_slash prefix) as (n & m & Et & Hta).
  set (t := Trim (Ascii.eqb slash) prefix) in *. rewrite <-Ht.
  assert (Contains t ".." = false) as Hct.
  { apply not_true_iff_false. intros E. apply not_true_iff_false in Hc. apply Hc. rewrite Et. clear -E.
    assert (∀ x s y, Contains s ".." = true → Contains (x +:+ s +:+ y) ".." = true) as H; [|by apply H].
    intros x s y Hs. induction x as [|c x IH]; cbn [String.append Contains].
    - change ("" +:+ s +:+ y) with (s +:+ y). induction s as [|c s IHs]; [done|]. cbn [Contains String.append] in *.
      apply orb_true_iff in Hs as [[r Hr]%HasPrefix_spec|Hs]; [|by rewrite (IHs Hs), orb_true_r].
      apply orb_true_iff. left. apply HasPrefix_spec. exists (r +:+ y). by rewrite <-append_assoc, <-Hr.
    - by rewrite IH, orb_true_r. }
  unfold Join2. rewrite (proj2 (String.eqb_neq _ _) Hne).
  destruct (String.eqb_spec t "") as [->|Hne'].
  - unfold Clean. rewrite Ha. by apply clean_parts_Join.
  - assert (IsAbs (t +:+ "/" +:+ name) = false) as Habs.
    { destruct t as [|c t]; [done|]. apply not_true_iff_false. intros [r Hr]%HasPrefix_spec. injection Hr as -> _.
      apply not_true_iff_false in Hta. apply Hta, HasPrefix_spec. by eexists. }
    assert (clean_parts (t +:+ "/" +:+ name) = components t ++ clean_parts name) as E.
    { unfold clean_parts at 1. rewrite Habs. change ("/" +:+ name) with (String slash name).
      rewrite Split_join, clean_app, Hj, (clean_plain _ (Split t slash)) by by apply no_up_parts. by rewrite reverse_involutive. }
    unfold Clean. rewrite Habs, E. apply clean_parts_Join. apply Forall_app. split; [by apply components_plain|done].
Qed.

Lemma storage_root_parts f : IsAbs (Directory f) = true → Contains (Prefix f) ".." = false →
  clean_parts (storage_root f) = clean_parts (Directory f) ++ components (Prefix f).
Proof.
  intros Ha Hc. unfold storage_root, Join2.
  destruct (String.eqb_spec (Directory f) "") as [E|_]; [by rewrite E in Ha|].
  assert (∀ s, IsAbs s = true → IsAbs (Clean s) = true) as HC.
  { intros s Hs. unfold Clean. rewrite Hs. apply HasPrefix_spec. by eexists. }
  destruct (String.eqb_spec (Prefix f) "") as [->|_].
  - rewrite !clean_parts_Clean by auto. cbn. by rewrite app_nil_r.
  - assert (IsAbs (Directory f +:+ "/" +:+ Prefix f) = true) as Ha'.
    { apply HasPrefix_spec in Ha as [r ->]. apply HasPrefix_spec. by eexists. }
    rewrite !clean_parts_Clean by auto. unfold clean_parts. rewrite Ha', Ha.
    change ("/" +:+ Prefix f) with (String slash (Prefix f)). rewrite Split_join, clean_app, clean_plain by by apply no_up_parts.
    by rewrite reverse_involutive.
Qed.

Lemma storage_prefix_components f : Contains (Prefix f) ".." = false → storage_prefix f = Join (components (Prefix f)) "/".
Proof.
  intros Hc. unfold storage_prefix, trim_slashes, Clean.
  replace (IsAbs ("/" +:+ Prefix f)) with true by (symmetry; apply HasPrefix_spec; by eexists).
  assert (clean_parts ("/" +:+ Prefix f) = components (Prefix f)) as ->.
  { unfold clean_parts. replace (IsAbs ("/" +:+ Prefix f)) with true by (symmetry; apply HasPrefix_spec; by eexists).
    change (Split ("/" +:+ Prefix f) slash) with ("" :: Split (Prefix f) slash). cbn [clean String.eqb orb].
    by rewrite clean_plain by by apply no_up_parts. }
  apply Trim_Join; [apply Ascii_eqb_slash'|by apply components_plain].
Qed.

Lemma Join_app a b : a ≠ [] → b ≠ [] → Join (a ++ b) "/" = Join a "/" +:+ "/" +:+ Join b "/".
Proof.
  intros Ha Hb. induction a as [|x a IH]; [done|]. destruct a as [|y a].
  - destruct b; [done|]. done.
  - change (Join (x :: y :: a) "/") with (x +:+ "/" +:+ Join (y :: a) "/").
    change (Join ((x :: y :: a) ++ b) "/") with (x +:+ "/" +:+ Join ((y :: a) ++ b) "/"). rewrite IH by done.
    by rewrite !append_assoc.
Qed.

(** A prefix that continues another one is seen by the test of the texts. *)
Lemma prefix_seen a b : a ≠ [] → a `prefix_of` b →
  Join a "/" = Join b "/" ∨ HasPrefix (Join b "/") (Join a "/" +:+ "/") = true.
Proof.
  intros Ha [k ->]. destruct k as [|x k]; [left; by rewrite app_nil_r|right]. rewrite Join_app by done.
  apply HasPrefix_spec. rewrite <-append_assoc. by eexists.
Qed.

Lemma apart_app {A} (a b k l : list A) : ¬ a `prefix_of` b → ¬ b `prefix_of` a → a ++ k ≠ b ++ l.
Proof.
  intros H1 H2 E. apply app_eq_inv in E as [(x & -> & _)|(x & -> & _)]; [apply H2|apply H1]; by eexists.
Qed.

(** ** What two syncers write *)

(** An object destination without a prefix has the whole bucket. *)
Definition whole_bucket (f : FileStorage) : Prop := components (Prefix f) = [].

(** Where a directory destination puts the file [name], from the root. *)
Definition file_path (f : FileStorage) (name : string) : option (list string) :=
  match objectName (Prefix f) name with Ok rel => Some (clean_parts (Directory f) ++ clean_parts rel) | Err _ => None end.

(** The key of the object [name]. *)
Definition object_path (f : FileStorage) (name : string) : option string :=
  match objectName (Prefix f) name with Ok rel => Some rel | Err _ => None end.

Lemma directories_apart f g name name' p : storage_ok f → storage_ok g → storage_disjoint f g →
  Backend f = "directory" → Backend g = "directory" → file_path f name = Some p → file_path g name' ≠ Some p.
Proof.
  intros Hf Hg [Hd _] Bf Bg. destruct Hf as (_ & Af & Cf); [by rewrite Bf|]. destruct Hg as (_ & Ag & Cg); [by rewrite Bg|].
  destruct (Hd Bf Bg) as [H1 H2]. rewrite !storage_root_parts in H1, H2 by auto. unfold file_path.
  destruct (objectName (Prefix f) name) as [rel|] eqn:E1; [|done]. destruct (objectName (Prefix g) name') as [rel'|] eqn:E2; [|done].
  rewrite (objectName_parts _ _ _ Cf E1), (objectName_parts _ _ _ Cg E2), !app_assoc. intros [= <-] [= E].
  by apply (apart_app _ _ _ _ H2 H1) in E.
Qed.

Lemma objects_apart f g name name' k : storage_ok f → storage_ok g → storage_disjoint f g →
  Backend f ∈ ["s3"; "oss"] → Backend g ∈ ["s3"; "oss"] → ToLower (Endpoint f) = ToLower (Endpoint g) → Bucket f = Bucket g →
  ¬ whole_bucket f → ¬ whole_bucket g → object_path f name = Some k → object_path g name' ≠ Some k.
Proof.
  intros Hf Hg [_ Hd] Bf Bg He Hb Wf Wg.
  assert (∀ h, Backend h ∈ ["s3"; "oss"] → Backend h ≠ "") as Hne by (intros h Hh E; rewrite E in Hh; set_solver).
  destruct (Hf (Hne f Bf)) as (_ & _ & Cf), (Hg (Hne g Bg)) as (_ & _ & Cg).
  destruct (Hd Bf Bg He Hb) as (H1 & H2 & H3). rewrite !storage_prefix_components in H1, H2, H3 by done. unfold object_path.
  destruct (objectName (Prefix f) name) as [rel|] eqn:E1; [|done]. destruct (objectName (Prefix g) name') as [rel'|] eqn:E2; [|done].
  intros [= <-] [= ->]. apply (objectName_parts _ _ _ Cf) in E1. apply (objectName_parts _ _ _ Cg) in E2. rewrite E1 in E2.
  apply app_eq_inv in E2 as [(x & E & _)|(x & E & _)].
  - destruct (prefix_seen (components (Prefix g)) (components (Prefix f))) as [?|?]; [done|by eexists|congruence|congruence].
  - destruct (prefix_seen (components (Prefix f)) (components (Prefix g))) as [?|?]; [done|by eexists|congruence|congruence].
Qed.

(** C33 The syncers of an accepted configuration do not write to the same places: any
    two of them have different ids; no table is written by both in the target schema
    of the same data source name (the same text); two directory destinations have no
    file path in common, whatever the names of the files; and two object destinations
    in the same bucket of the same endpoint (the same text up to case) have no object
    key in common, unless one of them has an empty prefix. *)
Theorem accepted_disjoint LoadLocation key_pair c c' i j a b :
  Validate LoadLocation key_pair c = Ok c' → (i < j)%nat →
  Syncers c' !! i = Some a → Syncers c' !! j = Some b →
  let f := Storage a in let g := Storage b in
  ID a ≠ ID b ∧ (∀ dsn schema table, writes a dsn schema table → writes b dsn schema table → False) ∧
  (Backend f = "directory" → Backend g = "directory" →
     ∀ name name' p, file_path f name = Some p → file_path g name' ≠ Some p) ∧
  (Backend f ∈ ["s3"; "oss"] → Backend g ∈ ["s3"; "oss"] →
     ToLower (Endpoint f) = ToLower (Endpoint g) → Bucket f = Bucket g → ¬ whole_bucket f → ¬ whole_bucket g →
     ∀ name name' k, object_path f name = Some k → object_path g name' ≠ Some k).
Proof.
  intros H Hij Ha Hb f g. destruct (accepted_apart _ _ _ _ _ _ _ _ H Hij Ha Hb) as ((Hid & Hw & Hd) & Hf & Hg).
  split_and!; [done|done| |].
  - intros Bf Bg name name' p. apply directories_apart; try done. apply Hd; [fold f; by rewrite Bf|fold g; by rewrite Bg].
  - intros Bf Bg He Hbu Wf Wg name name' k. apply objects_apart; try done.
    apply Hd; intros E; [change (Backend f = "") in E; rewrite E in Bf|change (Backend g = "") in E; rewrite E in Bg]; set_solver.
Qed.

(** ** Examples *)

Definition demo_pair : Config := demo_config [demo_syncer "a" "/srv/files" "a" ["orders"]; demo_syncer "b" "/srv/files" "b" ["items"]].
Definition demo_accepted : Config := Eval vm_compute in
  match Validate demo_zones demo_keys demo_pair with Ok c => c | Err _ => Defaults end.

Lemma accepted_disjoint_witness : ∃ a b, Syncers demo_accepted !! 0%nat = Some a ∧ Syncers demo_accepted !! 1%nat = Some b ∧
  file_path (Storage a) "x/y.txt" = Some ["srv"; "files"; "a"; "x"; "y.txt"] ∧
  ∀ name, file_path (Storage b) name ≠ Some ["srv"; "files"; "a"; "x"; "y.txt"].
Proof.
  eexists _, _. split; [reflexivity|]. split; [reflexivity|]. split; [vm_compute; reflexivity|]. intros name.
  destruct (accepted_disjoint demo_zones demo_keys demo_pair demo_accepted 0 1 (nth 0 (Syncers demo_accepted) (demo_syncer "" "" "" []))
    (nth 1 (Syncers demo_accepted) (demo_syncer "" "" "" []))) as (_ & _ & H & _).
  - vm_compute. reflexivity.
  - apply Nat.lt_0_1.
  - reflexivity.
  - reflexivity.
  - apply (H eq_refl eq_refl "x/y.txt" name). vm_compute. reflexivity.
Defined.

(** The scheme of an endpoint is part of the text that is compared, but not of the
    server that is connected to: the same prefix of the same bucket is accepted twice. *)
Definition demo_scheme (id endpoint : string) : Syncer :=
  mkSyncer id "secret" (PostgresConfig.mk "postgres://target" "public" "") [] [] false
    (mkFileStorage "s3" "" endpoint "" "bucket" "files" "key" "secret" "" true [] 0).

Lemma scheme_accepted :
  is_ok (Validate demo_zones demo_keys (demo_config [demo_scheme "a" "s3.example.com"; demo_scheme "b" "https://s3.example.com"])) = true ∧
  Open (Storage (demo_scheme "a" "s3.example.com")) [] = Open (Storage (demo_scheme "b" "https://s3.example.com")) [].
Proof. split; vm_compute; reflexivity. Qed.
