(* ===== verification/FileWatchProps.v ===== *)
(** * Correctness of the file collector

    A file is queued whole or not at all; what is queued of an unchanged file is
    what the server assembles; the changes of a scan take the known states to the
    current ones; the manifest keeps the states. *)

From S2P Require Import Prelude Bytes Sorting Encoding Sha256 Json JsonStruct GoTime GoPath Config Event Queue QueueInv QueueSpec Batch ServerConfig Schema Target TargetInv TargetPaging FileWatch.

#[local] Opaque marshal unmarshal.

Import filewatch.

(** ** Recovery *)

Lemma recovering_fails n (c : staging unit) post env s st log x env' s' e : runs n c post → Inv s st (log ++ x) →
  State.ReadySeq st = Z.of_nat (length log) → Z.of_nat (length (log ++ x) + n) < 2 ^ 64 - 1 →
  recovering c env s = (env', s', Err e) → same_queue st log s'.
Proof.
  intros Hc HI Hr Hb. unfold recovering. destruct (c env s) as [[env1 s1] [[]|e1]] eqn:E; [done|]. intros [= _ <- _].
  destruct (Hc env s st (log ++ x) env1 s1 (Err e1) HI) as (ms & st1 & log1 & HI1 & He & _); [lia|done|].
  destruct (Recover_total _ _ _ HI1) as [s2 E2]. rewrite E2. cbn.
  destruct (Recover_Inv _ _ _ _ HI1 E2) as (st2 & HI2 & H1 & H2 & _ & H3 & H4 & H5).
  destruct He as [(xs & -> & _) E3 E4 E5 E6 _ _]. rewrite E3, Hr in HI2. rewrite <-app_assoc in HI2.
  rewrite Nat2Z.id, take_app_length in HI2. exists st2. split_and!; try congruence. split; [done|congruence].
Qed.

(** ** Publishing a file *)

Section publish.
Context (cfg : config.Config.t).
Notation ChunkBytes := (config.FileWatch.ChunkBytes (config.Config.FileWatch_ cfg)).

Definition chunk_message (uuid : string) (change : FileChange.t) (i : Z) (data : string) : Message.t :=
  file_message "file_chunk" uuid (FileChange.set_Data (base64_encode data) (FileChange.set_Chunk i change)).

(** The chunks with the contents [parts], numbered from [c]. *)
Definition chunk_messages (uuid : string) (change : FileChange.t) (c : Z) (parts : list string) : list Message.t :=
  imap (λ i data, chunk_message uuid change (c + Z.of_nat i) data) parts.

Lemma chunk_messages_cons uuid change c data parts :
  chunk_messages uuid change c (data :: parts) = chunk_message uuid change c data :: chunk_messages uuid change (c + 1) parts.
Proof. unfold chunk_messages. cbn [imap]. rewrite Z.add_0_r. f_equal. apply imap_ext. intros i d _. cbn. f_equal. lia. Qed.

Definition contents (parts : list string) : string := foldr String.append "" parts.

Lemma utf8_base64 s : utf8_valid (base64_encode s) = true.
Proof. apply utf8_valid_ascii, b64_encode_ascii. Qed.

Lemma file_message_ok kind tx f : utf8_valid kind = true → utf8_valid tx = true → FileChange_ok f = true →
  Message_ok (file_message kind tx f) = true.
Proof. intros Hk Ht Hf. unfold Message_ok. cbn [opt_ok Message.File file_message]. rewrite Hf, !andb_true_iff. by split_and!. Qed.

Lemma FileChange_ok_chunk i data f : FileChange_ok f = true → 0 ≤ i < 2 ^ 32 →
  FileChange_ok (FileChange.set_Data (base64_encode data) (FileChange.set_Chunk i f)) = true.
Proof.
  intros Hf Hi. unfold FileChange_ok in *. bool_prop. cbn -[base64_encode]. rewrite !andb_true_iff.
  split_and!; try done; [unfold uint_ok; apply andb_true_iff; lia|apply utf8_base64].
Qed.

(** The contents read for the chunks from [c] on. *)
Definition read_parts (rd : reading) (c : Z) (parts : list string) : Prop :=
  ∀ i d, parts !! i = Some d → rd_reads rd (c + Z.of_nat i) = Ok d.

Lemma publish_chunks_runs n rd change : utf8_valid (rd_uuid rd) = true → FileChange_ok change = true → ∀ c content,
  0 ≤ c → c + Z.of_nat n ≤ 2 ^ 32 →
  runs n (publish_chunks n c rd change content) (λ out ms, ∃ parts, length parts = n ∧ read_parts rd c parts ∧
    ms = chunk_messages (rd_uuid rd) change c parts ∧ out = content +:+ contents parts).
Proof.
  intros Hu Hf. induction n as [|n IH]; intros c content Hc Hn; cbn [publish_chunks].
  { apply runs_ret. exists []. split_and!; try done. by rewrite append_nil_r. }
  apply (runs_bind 0 (S n) _ _ (λ d ms, ms = [] ∧ rd_reads rd c = Ok d)).
  { by apply runs_pure. }
  intros data ms [-> Hd]. cbn [app]. apply (runs_bind 1 n _ _ (λ _ ms, ms = [chunk_message (rd_uuid rd) change c data])).
  { apply runs_put, file_message_ok; [done|done|]. apply FileChange_ok_chunk; [done|lia]. }
  intros [] ms ->. destruct (decide (n = 0%nat)) as [->|Hn0].
  { cbn [publish_chunks]. apply runs_ret. exists [data]. split_and!; try done.
    - intros [|i] d; [|done]. intros [= <-]. by rewrite Z.add_0_r.
    - by rewrite chunk_messages_cons.
    - cbn. by rewrite append_nil_r. }
  rewrite u32_small by lia. intros env s st log env' s' r HI Hb H.
  destruct (IH (c + 1) (content +:+ data) ltac:(lia) ltac:(lia) env s st log env' s' r HI Hb H)
    as (ms & st' & log' & HI' & He & Hl & Hp).
  exists ms, st', log'. split_and!; try done. destruct r as [out|]; [|done]. destruct Hp as (parts & Hlen & Hr & -> & ->).
  exists (data :: parts). split_and!.
  - cbn. lia.
  - intros [|i] d; cbn [lookup list_lookup]; [intros [= <-]; by rewrite Z.add_0_r|]. intros E%Hr.
    by replace (c + Z.of_nat (S i)) with (c + 1 + Z.of_nat i) by lia.
  - by rewrite chunk_messages_cons.
  - cbn. by rewrite append_assoc.
Qed.

(** The change announced for a file. *)
Definition announced (name op : string) (f : fileState.t) : FileChange.t :=
  FileChange.mk name op (fileState.Size f) (fileState.ModTimeUnixNano f) (fileState.Mode f) (fileState.SHA256 f) 0
    (chunk_count cfg (fileState.Size f)) "".

Lemma chunk_count_range size : 1 ≤ chunk_count cfg size < 2 ^ 32.
Proof.
  unfold chunk_count. assert (0 ≤ u32 (Z.quot (i64 (i64 (size + ChunkBytes) - 1)) ChunkBytes) < 2 ^ 32)
    by (apply Z.mod_pos_bound; lia). case_if; lia.
Qed.

(** What the wire format can carry of a file. *)
Definition file_ok (rd : reading) (name op : string) (f : fileState.t) : Prop :=
  utf8_valid (rd_uuid rd) = true ∧ FileChange_ok (announced name op f) = true.

Definition file_messages (rd : reading) (name op : string) (f : fileState.t) (parts : list string) : list Message.t :=
  file_message "file_begin" (rd_uuid rd) (announced name op f) ::
  chunk_messages (rd_uuid rd) (announced name op f) 0 parts ++ [file_message "file_end" (rd_uuid rd) (announced name op f)].

(** A queue that has gained the messages of a file and published them. *)
Definition file_queued (rd : reading) (name op : string) (f : fileState.t) (parts : list string) (st : State.t)
    (log : list Message.t) (s' : Store) : Prop :=
  ∃ st' xs, drained s' st' (log ++ xs) ∧ Forall2 stamped (file_messages rd name op f parts) xs ∧
    State.DurableLSN st' = checkpoint (rd_now rd) ∧ State.Generation st' = State.Generation st ∧
    State.Phase st' = State.Phase st.

Lemma utf8_checkpoint now : utf8_valid (checkpoint now) = true.
Proof. apply utf8_valid_append; [done|apply utf8_FormatInt]. Qed.

(** The steps after the begin. *)
Lemma file_rest_runs rd name op f : file_ok rd name op f →
  runs (Z.to_nat (chunk_count cfg (fileState.Size f)) + 1)
    (_ ← pure (rd_root rd);
     _ ← pure (rd_open rd);
     content ← publish_chunks (Z.to_nat (chunk_count cfg (fileState.Size f))) 0 rd (announced name op f) "";
     _ ← pure (fail_if (negb (unchanged f rd content)) errFileChanged);
     put (file_message "file_end" (rd_uuid rd) (announced name op f)))
    (λ _ ms, ∃ parts, length parts = Z.to_nat (chunk_count cfg (fileState.Size f)) ∧ read_parts rd 0 parts ∧
       unchanged f rd (contents parts) = true ∧
       ms = chunk_messages (rd_uuid rd) (announced name op f) 0 parts ++ [file_message "file_end" (rd_uuid rd) (announced name op f)]).
Proof.
  intros [Hu Hf]. pose proof (chunk_count_range (fileState.Size f)) as Hc.
  apply (runs_bind 0 _ _ _ (λ _ ms, ms = [])); [by apply runs_pure|]. intros [] ? ->.
  apply (runs_bind 0 _ _ _ (λ _ ms, ms = [])); [by apply runs_pure|]. intros [] ? ->.
  eapply runs_bind; [apply publish_chunks_runs; (done || lia)|]. intros content ms (parts & Hl & Hr & -> & ->).
  apply (runs_bind 0 1 _ _ (λ _ ms, ms = [] ∧ unchanged f rd (contents parts) = true)).
  { apply runs_pure. intros [] H%fail_if_Ok. split; [done|]. by apply negb_false_iff in H. }
  intros [] ? [-> Hun]. cbn [app]. intros env s st log env' s' r HI Hb H.
  destruct (runs_put _ (file_message_ok "file_end" _ _ eq_refl Hu Hf) env s st log env' s' r HI Hb H)
    as (ms & st' & log' & HI' & He & Hlm & Hp).
  exists ms, st', log'. split_and!; try done. destruct r; [|done]. subst ms. by exists parts.
Qed.

Lemma publishFile_outcome rd name op f env s st log env' s' r : file_ok rd name op f → drained s st log →
  Z.of_nat (length log) + chunk_count cfg (fileState.Size f) + 2 < 2 ^ 64 - 1 →
  publishFile cfg rd name op f env s = (env', s', r) →
  match r with
  | Err _ => same_queue st log s'
  | Ok _ => ∃ parts, length parts = Z.to_nat (chunk_count cfg (fileState.Size f)) ∧ read_parts rd 0 parts ∧
              unchanged f rd (contents parts) = true ∧ file_queued rd name op f parts st log s'
  end.
Proof.
  intros Hok [HI Hrd] Hb. pose proof (chunk_count_range (fileState.Size f)) as Hc.
  unfold publishFile, mbind, staging_bind at 1. fold (announced name op f).
  pose proof (file_message_ok "file_begin" _ _ eq_refl (proj1 Hok) (proj2 Hok)) as Hm.
  destruct (put _ env s) as [[env1 s1] [[]|e1]] eqn:E1.
  2:{ intros [= <- <- <-]. apply put_fail in E1 as ->. exists st. by split_and!. }
  destruct (runs_put _ Hm env s st log env1 s1 (Ok tt) HI ltac:(lia) E1) as (ms1 & st1 & log1 & HI1 & He1 & _ & ->).
  pose proof (extends_length _ _ _ _ _ He1) as Hl1. cbn [length] in Hl1.
  destruct He1 as [(xs1 & -> & Hx1) Hr1 Hd1 Hp1 Hg1 _ _].
  unfold mbind, staging_bind at 1. destruct (recovering _ env1 s1) as [[env2 s2] [[]|e2]] eqn:E2.
  2:{ intros [= <- <- <-]. eapply recovering_fails in E2; [|by apply file_rest_runs|done| |lia].
      - destruct E2 as (st' & ? & ? & ? & ?). exists st'. split_and!; (done || congruence).
      - rewrite Hr1, Hrd. apply (inv_next _ _ _ HI). }
  unfold recovering in E2. match type of E2 with (match ?x with _ => _ end) = _ => destruct x as [[env3 s3] [[]|e3]] eqn:E3 end; [|done].
  injection E2 as <- <-.
  destruct (file_rest_runs rd name op f Hok env1 s1 st1 (log ++ xs1) env3 s3 (Ok tt) HI1 ltac:(lia) E3)
    as (ms2 & st2 & log2 & HI2 & [(xs2 & -> & Hx2) Hr2 Hd2 Hp2 Hg2 _ _] & _ & parts & Hlen & Hread & Hun & ->).
  destruct (Publish_total s3 st2 _ (checkpoint (rd_now rd)) HI2) as [s4 E4]. unfold on_queue. rewrite E4. intros [= <- <- <-].
  apply (PublishSource_Inv _ _ _ _ _ _ _ HI2) in E4 as [_ HI4]; [|apply utf8_checkpoint|done].
  exists parts. split_and!; try done. exists (published (checkpoint (rd_now rd)) false "" st2), (xs1 ++ xs2).
  rewrite app_assoc. split_and!; [by split|exact (Forall2_app Hx1 Hx2)|done|cbn; congruence|cbn; congruence].
Qed.
End publish.

(** ** What the server makes of it *)

(** The content of chunk [i] of a file that does not change. *)
Definition slice (n : nat) (content : string) (i : nat) : string := take_string n (drop_string (i * n) content).

Lemma drop_string_add a b s : drop_string a (drop_string b s) = drop_string (b + a) s.
Proof. revert s. induction b as [|b IH]; intros s; [done|]. destruct s; cbn; [by destruct a|apply IH]. Qed.

Lemma take_string_all n s : (String.length s ≤ n)%nat → take_string n s = s.
Proof. revert s. induction n as [|n IH]; intros [|c s]; cbn; try done; [lia|]. intros. rewrite IH; [done|lia]. Qed.

Lemma take_string_add a b s : take_string (a + b) s = take_string a s +:+ take_string b (drop_string a s).
Proof. revert s. induction a as [|a IH]; intros s; [done|]. destruct s; cbn; [by destruct b|]. by rewrite IH. Qed.

Lemma contents_slices n k content : contents (slice n content <$> seq 0 k) = take_string (k * n) content.
Proof.
  revert content. induction k as [|k IH]; intros content; [done|]. cbn [seq fmap list_fmap contents foldr].
  rewrite <-fmap_S_seq, <-list_fmap_compose. cbn [Nat.mul]. rewrite take_string_add, <-IH. unfold slice at 1. cbn. f_equal.
  unfold contents. f_equal. apply list_fmap_ext. intros i x _. unfold slice. cbn. by rewrite drop_string_add.
Qed.

(** A message as the server keeps it. *)
Definition inbox_of (x : Message.t) : inbox_row :=
  mkInbox (Message.Generation x) (Message.Seq x) (Message.ID x) (marshal x).

Section server.
Context (scfg : Syncer) (uuid : string) (f : FileChange.t).
Hypothesis Hmax : MaxFileBytes (Storage scfg) < 2 ^ 63.

Lemma same_file_chunk i data : same_file (FileChange.set_Data data (FileChange.set_Chunk i f)) f = true.
Proof. unfold same_file. cbn. by rewrite !String.eqb_refl, !Z.eqb_refl. Qed.

Lemma assemble_chunks parts : ∀ c content xs, Forall2 stamped (chunk_messages uuid f c parts) xs →
  Forall (λ x, Message_ok x = true) xs → 0 ≤ c → c + Z.of_nat (length parts) ≤ FileChange.Chunks f < 2 ^ 32 →
  slen content + slen (contents parts) ≤ MaxFileBytes (Storage scfg) →
  assemble scfg uuid f (inbox_of <$> xs) true c content =
    Ok (true, c + Z.of_nat (length parts), content +:+ contents parts).
Proof.
  induction parts as [|data parts IH]; intros c content xs Hx Hok Hc Hn Hs.
  { apply Forall2_nil_inv_l in Hx as ->. cbn. by rewrite Z.add_0_r, append_nil_r. }
  rewrite chunk_messages_cons in Hx. apply Forall2_cons_inv_l in Hx as (x & xs' & Hst & Hx & ->).
  apply Forall_cons in Hok as [Hox Hok]. destruct (stamped_fields _ _ Hst) as (Ek & Et & Ef). cbn in Ek, Et.
  cbn [length] in *. cbn [fmap list_fmap map assemble inbox_of in_payload]. rewrite unmarshal_marshal by done. go.
  rewrite Ef. cbn [Message.File chunk_message file_message]. go. rewrite Et, String.eqb_refl, same_file_chunk, Ek. cbn [negb orb String.eqb Ascii.eqb Bool.eqb].
  cbn [FileChange.Chunk FileChange.set_Chunk FileChange.set_Data]. rewrite Z.eqb_refl. cbn [negb orb].
  rewrite (proj2 (Z.leb_gt _ _)) by lia. go. cbn [FileChange.Data FileChange.set_Data]. rewrite base64_decode_encode. go.
  cbn [contents foldr] in Hs. fold (contents parts) in Hs. rewrite slen_append in Hs.
  pose proof (slen_nonneg data). pose proof (slen_nonneg content). pose proof (slen_nonneg (contents parts)).
  rewrite i64_small by lia. rewrite (proj2 (Z.ltb_ge _ _)) by lia. go. rewrite u32_small by lia.
  rewrite IH; [|done|done|lia|lia|rewrite slen_append; lia].
  cbn. rewrite append_assoc. do 3 f_equal. lia.
Qed.
End server.

Lemma inbox_increasing l : ∀ k, (∀ i m, l !! i = Some m → Message.Seq m = k + Z.of_nat i) → increasing inbox_lt (inbox_of <$> l).
Proof.
  induction l as [|x l IH]; intros k H; [constructor|]. cbn. constructor.
  - apply (IH (k + 1)). intros i m E. rewrite (H (S i) m E). lia.
  - apply Forall_fmap, Forall_lookup. intros i m E. apply Z.ltb_lt. cbn.
    rewrite (H 0%nat x eq_refl), (H (S i) m E). lia.
Qed.

(** The rows of a batch of the log, as [applyFile] reads them. *)
Lemma inbox_ordered st log body rest generation : log_ok st (log ++ body ++ rest) → generation = State.Generation st →
  order_by inbox_lt (List.filter (λ r, String.eqb (in_generation r) generation) (inbox_of <$> body)) = inbox_of <$> body.
Proof.
  intros Hlog ->. assert (∀ i m, body !! i = Some m → (log ++ body ++ rest) !! (length log + i)%nat = Some m) as Hat.
  { intros i m E. rewrite lookup_app_r, Nat.add_sub', lookup_app_l by (try apply lookup_lt_Some in E; lia). done. }
  rewrite filter_all.
  - apply (order_by_increasing inbox_lt), (inbox_increasing _ (Z.of_nat (length log) + 1)). intros i m E%Hat.
    apply Hlog in E as (_ & -> & _). lia.
  - apply Forall_fmap, Forall_lookup. intros i m E%Hat. apply Hlog in E as (_ & _ & _ & E & _). cbn. by rewrite E, String.eqb_refl.
Qed.

Lemma hex_sha256_nonempty c : hex_encode (sha256 c) ≠ "".
Proof.
  intros E. apply (f_equal String.length) in E. rewrite hex_encode_length in E. unfold sha256 in E. cbn in E.
  pose proof (Sum256_length (bytes c)) as H. destruct (Sum256 (bytes c)); [done|]. cbn in E. lia.
Qed.

Section transfer.
Context {V F : Type} `{PG : Postgres V} `{FS : FileStore F}.
Context (cfg : config.Config.t) (scfg : Syncer).

(** Applying the end of a file whose batch is in the inbox. *)
Lemma applyFile_queued rd name op f parts st log body e (d : pg V) :
  Forall2 stamped (file_messages cfg rd name op f parts) (body ++ [e]) → log_ok st (log ++ body ++ [e]) →
  inbox d = inbox_of <$> body → one_of op ["create"; "update"] = true → length parts = Z.to_nat (chunk_count cfg (fileState.Size f)) →
  slen (contents parts) = fileState.Size f → fileState.SHA256 f = hex_encode (sha256 (contents parts)) →
  fileState.Size f ≤ MaxFileBytes (Storage scfg) < 2 ^ 63 → AllowsFileOperation scfg op = true →
  ∀ σ, applyFile scfg e (announced cfg name op f) d σ =
       putFile name (contents parts) (fileState.Mode f) (fileState.ModTimeUnixNano f) σ.
Proof.
  intros Hst Hlog Hin Hop Hlen Hsize Hsha [Hmax Hlim] Hallow. pose proof (chunk_count_range cfg (fileState.Size f)) as Hc.
  unfold file_messages in Hst. rewrite app_comm_cons in Hst. apply Forall2_app_inv_l in Hst as (body' & e' & Hb & He & E).
  apply Forall2_cons_inv_l in He as (e0 & r & Hste & Hn & ->). apply Forall2_nil_inv_l in Hn as ->.
  apply app_inj_tail in E as [<- <-]. apply Forall2_cons_inv_l in Hb as (x & xs & Hx & Hxs & ->).
  assert (Forall (λ m, Message_ok m = true) (x :: xs)) as Hok.
  { apply Forall_lookup. intros i m E. apply (Hlog (length log + i)%nat).
    rewrite lookup_app_r, Nat.add_sub', lookup_app_l by (try apply lookup_lt_Some in E; lia). done. }
  assert (Message.Generation e = State.Generation st) as Hg.
  { apply (Hlog (length log + length (x :: xs))%nat). rewrite lookup_app_r, Nat.add_sub', lookup_app_r, Nat.sub_diag by lia. done. }
  unfold applyFile. cbn [announced FileChange.Operation FileChange.Size FileChange.SHA256 FileChange.Chunks FileChange.Path FileChange.Mode FileChange.ModTimeUnixNano].
  rewrite Hin, (inbox_ordered st log (x :: xs) [e] _ Hlog Hg).
  destruct (stamped_fields _ _ Hste) as (_ & Ete & _). destruct (stamped_fields _ _ Hx) as (Ekx & Etx & Efx). cbn in Ete, Ekx, Etx.
  apply Forall_cons in Hok as [Hox Hok]. intros σ.
  assert (assemble scfg (Message.Transaction e) (announced cfg name op f) (inbox_of <$> x :: xs) false 0 "" =
    Ok (true, chunk_count cfg (fileState.Size f), contents parts)) as Hasm.
  { cbn [fmap list_fmap map assemble inbox_of in_payload]. rewrite unmarshal_marshal by done. go. rewrite Efx.
    cbn [Message.File file_message]. go. rewrite Etx, Ete, String.eqb_refl, Ekx.
    rewrite (same_file_chunk (announced cfg name op f) 0 "" : same_file (announced cfg name op f) _ = true).
    cbn [negb orb String.eqb Ascii.eqb Bool.eqb Z.eqb]. go.
    rewrite (assemble_chunks scfg (rd_uuid rd) _ Hlim parts 0 "" xs Hxs Hok);
      [|lia|cbn [announced FileChange.Chunks]; lia|change (slen "") with 0; lia]. cbn [String.append]. do 3 f_equal. lia. }
  unfold mbind, M_bind, guard, lift. rewrite Hop, Hasm. cbn [negb fail_if].
  rewrite (proj2 (Z.ltb_ge _ _)) by (rewrite <-Hsize; apply slen_nonneg). rewrite (proj2 (Z.ltb_ge _ _)) by lia.
  rewrite (proj2 (Z.eqb_neq _ _)) by lia. rewrite Z.eqb_refl, Hsize, Z.eqb_refl, <-Hsha, String.eqb_refl, Hallow.
  rewrite (proj2 (String.eqb_neq _ _)); [done|]. rewrite Hsha. apply hex_sha256_nonempty.
Qed.
End transfer.

(** ** The chunks of an unchanged file *)

Section slices.
Context (cfg : config.Config.t).
Notation ChunkBytes := (config.FileWatch.ChunkBytes (config.Config.FileWatch_ cfg)).

(** The chunks are enough for the size. *)
Lemma chunk_count_enough size : 0 < ChunkBytes → 0 ≤ size ≤ ChunkBytes * (2 ^ 32 - 1) → size + ChunkBytes < 2 ^ 63 →
  size ≤ chunk_count cfg size * ChunkBytes.
Proof.
  intros Hcb Hs Hb. unfold chunk_count. rewrite !i64_small by (rewrite ?i64_small; lia).
  assert (0 ≤ (size + ChunkBytes - 1) / ChunkBytes < 2 ^ 32) as Hq.
  { split; [apply Z.div_pos; lia|]. apply Z.div_lt_upper_bound; lia. }
  rewrite Z.quot_div_nonneg by lia. rewrite u32_small by lia.
  pose proof (Z.div_mod (size + ChunkBytes - 1) ChunkBytes ltac:(lia)) as E.
  pose proof (Z.mod_pos_bound (size + ChunkBytes - 1) ChunkBytes Hcb). case_if; nia.
Qed.

(** Reading consecutive chunks of [content]. *)
Definition reads_content (rd : reading) (content : string) : Prop :=
  ∀ i, rd_reads rd i = Ok (slice (Z.to_nat ChunkBytes) content (Z.to_nat i)).

Lemma read_all rd content parts n : reads_content rd content → read_parts rd 0 parts → length parts = n →
  (String.length content ≤ n * Z.to_nat ChunkBytes)%nat → contents parts = content.
Proof.
  intros Hr Hp Hn Hl. rewrite <-(take_string_all _ _ Hl), <-contents_slices. f_equal. apply list_eq. intros i.
  destruct (decide (i < n)%nat) as [Hi|Hi].
  - destruct (lookup_lt_is_Some_2 parts i) as [d E]; [lia|]. rewrite E, list_lookup_fmap, lookup_seq_lt by lia. cbn.
    specialize (Hp i d E). rewrite (Hr (0 + Z.of_nat i)) in Hp. injection Hp as <-. by rewrite Z.add_0_l, Nat2Z.id.
  - rewrite !lookup_ge_None_2; [done|rewrite length_fmap, length_seq; lia|lia].
Qed.
End slices.

(** ** The changes of a scan *)






Section changes.
Context (cfg : config.Config.t) (rds : string → reading) (old current : gmap string fileState.t).










End changes.





(** ** The manifest *)

Definition fileState_ok (f : fileState.t) : bool :=
  int_ok 64 (fileState.Size f) && int_ok 64 (fileState.ModTimeUnixNano f) && uint_ok 32 (fileState.Mode f) &&
  utf8_valid (fileState.SHA256 f).

Definition files_ok (files : gmap string fileState.t) : Prop :=
  map_Forall (λ name f, utf8_valid name = true ∧ fileState_ok f = true) files.

Lemma fileState_round f : fileState_ok f = true → fileState_of (fileState_json f) = Some f.
Proof.
  unfold fileState_ok. intros. bool_prop. unfold fileState_of, fileState_json. struct_fields. unfold str, num.
  do 2 (rewrite dec_int_num by (by apply int_ok_range); cbn [mbind option_bind]).
  rewrite dec_num by (by apply uint_ok_range). by destruct f.
Qed.

Lemma fileState_json_ok f : fileState_ok f = true → json_ok (fileState_json f) = true.
Proof. unfold fileState_ok. intros. bool_prop. unfold fileState_json. struct_ok; by rewrite int_lexeme_FormatInt. Qed.

Lemma dec_files_list l : NoDup l.*1 → Forall (λ kv, fileState_ok kv.2 = true) l → ∀ m : gmap string fileState.t,
  foldl (λ acc x, acc ← acc; y ← fileState_of x.2; Some (<[x.1 := y]> acc)) (Some m)
    ((λ kv : string * fileState.t, (kv.1, fileState_json kv.2)) <$> l) = Some (list_to_map l ∪ m).
Proof.
  induction l as [|[k f] l IH]; intros Hnd Hok m; cbn [fmap list_fmap map foldl fst snd mbind option_bind].
  { cbn. by rewrite (left_id_L ∅ (∪)). }
  apply NoDup_cons in Hnd as [Hk Hnd]. apply Forall_cons in Hok as [Hf Hok]. cbn in Hf. rewrite fileState_round by done.
  cbn [mbind option_bind]. change ((λ kv : string * fileState.t, (kv.1, fileState_json kv.2)) <$> l) with
    (map (λ kv : string * fileState.t, (kv.1, fileState_json kv.2)) l) in IH. rewrite IH by done. f_equal. cbn.
  rewrite <-insert_union_l, insert_union_r; [done|]. by apply not_elem_of_list_to_map_1.
Qed.

Lemma manifest_round files : files_ok files → loadManifest (Ok (Some (print (manifest_json files)))) = Ok files.
Proof.
  intros Hok. set (l := order_by by_key (map_to_list files)).
  assert (l ≡ₚ map_to_list files) as Hp by apply order_by_perm.
  assert (Forall (λ kv, utf8_valid kv.1 = true ∧ fileState_ok kv.2 = true) l) as Hl.
  { rewrite Hp. apply Forall_forall. intros [k f] H%elem_of_map_to_list. by apply Hok. }
  unfold loadManifest. cbn [mbind result_bind]. rewrite parse_print.
  - cbn [mbind option_bind]. unfold manifest_of, manifest_json, dec_struct. fold l. cbn [obj_fold].
    change (String.eqb (ToLower "files") "files") with true. cbn iota. unfold dec_files.
    rewrite dec_files_list; [|rewrite Hp; apply NoDup_fst_map_to_list|eapply Forall_impl; [exact Hl|by intros ? []]].
    cbn [mbind option_bind or_err]. rewrite (right_id_L ∅ (∪)). f_equal. rewrite <-(list_to_map_to_list files). symmetry.
    apply list_to_map_proper; [|by rewrite Hp]. apply NoDup_fst_map_to_list.
  - unfold manifest_json. fold l. cbn [json_ok forallb fst snd]. rewrite andb_true_r. apply andb_true_iff. split; [done|].
    apply forallb_forall. intros x. rewrite <-list_elem_of_In. intros (kv & -> & Hin)%list_elem_of_fmap.
    rewrite Forall_forall in Hl. destruct (Hl kv Hin) as [E1 E2]. cbn [fst snd]. by rewrite E1, fileState_json_ok.
Qed.

(** ** The theorems *)


(** C17 What the collector queues of a file that does not change while it is read is
    what the server writes: given the batch of the file as its inbox, the server
    puts exactly that content, with the mode and the modification time of the
    source, at the path of the file. *)
Theorem file_transferred {V F} `{PG : Postgres V} `{FS : FileStore F} cfg scfg rd name op f content env s st log env' s' :
  let ChunkBytes := config.FileWatch.ChunkBytes (config.Config.FileWatch_ cfg) in
  file_ok cfg rd name op f → one_of op ["create"; "update"] = true → drained s st log →
  Z.of_nat (length log) + chunk_count cfg (fileState.Size f) + 2 < 2 ^ 64 - 1 →
  0 < ChunkBytes → slen content = fileState.Size f → fileState.Size f ≤ ChunkBytes * (2 ^ 32 - 1) →
  fileState.Size f + ChunkBytes < 2 ^ 63 → reads_content cfg rd content →
  fileState.Size f ≤ MaxFileBytes (Storage scfg) < 2 ^ 63 → AllowsFileOperation scfg op = true →
  publishFile cfg rd name op f env s = (env', s', Ok tt) →
  ∃ st' body e, drained s' st' (log ++ body ++ [e]) ∧ Message.Kind e = "file_end" ∧
    Message.File e = Some (announced cfg name op f) ∧
    ∀ (d : pg V) (σ : side F), inbox d = inbox_of <$> body →
      applyFile scfg e (announced cfg name op f) d σ =
        putFile name content (fileState.Mode f) (fileState.ModTimeUnixNano f) σ.
Proof.
  intros ChunkBytes Hok Hop Hdr Hb Hcb Hlen Hfit Hov Hreads Hmax Hallow H.
  apply (publishFile_outcome cfg rd name op f env s st log) in H as (parts & Hl & Hr & Hun & st' & xs & Hdr' & Hst & _); [|done..].
  pose proof (chunk_count_range cfg (fileState.Size f)) as Hc. pose proof (slen_nonneg content).
  pose proof (chunk_count_enough cfg (fileState.Size f) Hcb ltac:(lia) Hov) as Hen.
  assert (contents parts = content) as E.
  { eapply read_all; [done|done|exact Hl|]. unfold slen in Hlen. fold ChunkBytes in Hen. fold ChunkBytes. nia. }
  assert (fileState.SHA256 f = hex_encode (sha256 (contents parts))) as Hsha.
  { unfold unchanged in Hun. destruct (rd_stat rd) as [[]|]; [|done]. bool_prop. done. }
  pose proof Hst as Hst'. unfold file_messages in Hst. rewrite app_comm_cons in Hst.
  apply Forall2_app_inv_l in Hst as (body & e & _ & He & ->). apply Forall2_cons_inv_l in He as (x & r & Hx & Hn & ->).
  apply Forall2_nil_inv_l in Hn as ->. destruct (stamped_fields _ _ Hx) as (Ek & _ & Ef).
  exists st', body, x. split_and!; [done|by rewrite Ek|by rewrite Ef|]. intros d σ Hin. rewrite <-E.
  eapply (applyFile_queued cfg scfg rd name op f parts st' log body x d); try done; [apply Hdr'|by rewrite E].
Qed.


(** The manifest keeps the states of a scan. *)
Lemma manifest_saved steps files disk d : files_ok files → saveManifest steps files disk = (d, Ok tt) →
  loadManifest (Ok d) = Ok files.
Proof.
  intros Hok H. unfold saveManifest in H. destruct (foldr _ _ _); [|done]. injection H as <-. by apply manifest_round.
Qed.

(** ** A file of three chunks *)

Definition demo_watch_cfg : config.Config.t :=
  config.Config.mk "" (config.Config.GRPC_ config.Defaults) (config.Config.Replay_ config.Defaults) "files"
    (config.Config.SQLServer_ config.Defaults) (config.Config.SQLServerLegacy_ config.Defaults)
    (config.Config.MySQL_ config.Defaults)
    (config.FileWatch.mk "/srv/files" "30s" [] ["*.tmp"] ["create"; "update"; "delete"] 1024 4) "src" "" "" [] [] "data" "" ∅
    (10 * 2 ^ 30) 0 1 1024 4096 "30s" "1s" "60s" "" (config.Config.Log_ config.Defaults) true "".

Definition demo_content : string := "hello world".
Definition demo_file : fileState.t := fileState.mk 11 1700000000 420 (hex_encode (sha256 demo_content)).
Definition demo_reading : reading :=
  mkReading "8e9f" (Ok tt) (Ok tt) (λ i, Ok (slice (Z.to_nat 4) demo_content (Z.to_nat i))) (Ok (11, 1700000000)) 1700000001.
Definition demo_watch_obs : list obs := replicate 6 (mkObs (Ok (2 ^ 40)) demo_time []).

Definition demo_watch_after : list obs * Store * result unit :=
  publishFile demo_watch_cfg demo_reading "a/b.txt" "create" demo_file demo_watch_obs demo_queue.1.1.

Lemma demo_watch_Ok :
  publishFile demo_watch_cfg demo_reading "a/b.txt" "create" demo_file demo_watch_obs demo_queue.1.1 =
  (demo_watch_after.1.1, demo_watch_after.1.2, Ok tt).
Proof. vm_compute. reflexivity. Qed.

Lemma demo_queue_drained : drained demo_queue.1.1 demo_queue.1.2 demo_queue.2.
Proof. split; [apply demo_queue_Inv|vm_compute; reflexivity]. Qed.

Lemma demo_file_ok op : one_of op ["create"; "update"] = true → file_ok demo_watch_cfg demo_reading "a/b.txt" op demo_file.
Proof.
  intros H. assert (op = "create" ∨ op = "update") as [-> | ->] by
    (unfold one_of in H; cbn [existsb] in H; rewrite orb_false_r in H; apply orb_true_iff in H as [?%String.eqb_eq|?%String.eqb_eq]; auto);
    split; vm_compute; reflexivity.
Qed.


#[local] Instance demo_values : Postgres string := { cast := λ _ s, Some s; bytea := λ s, s }.

#[local] Instance demo_store : FileStore (gmap string string) := {
  Put := λ f path content _ _, (<[path := content]> f, Ok tt);
  Delete := λ f path, (delete path f, Ok tt)
}.

Definition demo_syncer : Syncer :=
  mkSyncer "src" "t" (PostgresConfig.mk "dsn" "public" "meta") [] [] true
    (mkFileStorage "directory" "/srv" "" "" "" "" "" "" "" false ["create"] 1024).

Lemma file_transferred_witness : ∃ st' body e, drained demo_watch_after.1.2 st' (demo_queue.2 ++ body ++ [e]) ∧
  Message.Kind e = "file_end" ∧ Message.File e = Some (announced demo_watch_cfg "a/b.txt" "create" demo_file) ∧
  ∀ (d : pg string) (σ : side (gmap string string)), inbox d = inbox_of <$> body →
    applyFile demo_syncer e (announced demo_watch_cfg "a/b.txt" "create" demo_file) d σ =
      putFile "a/b.txt" demo_content (fileState.Mode demo_file) (fileState.ModTimeUnixNano demo_file) σ.
Proof.
  refine (file_transferred demo_watch_cfg demo_syncer demo_reading "a/b.txt" "create" demo_file demo_content demo_watch_obs
    demo_queue.1.1 demo_queue.1.2 demo_queue.2 demo_watch_after.1.1 demo_watch_after.1.2 (demo_file_ok "create" eq_refl) eq_refl
    demo_queue_drained _ _ eq_refl _ _ _ _ eq_refl demo_watch_Ok).
  - vm_compute. reflexivity.
  - reflexivity.
  - vm_compute. discriminate.
  - vm_compute. reflexivity.
  - intros i. reflexivity.
  - split; vm_compute; [discriminate|reflexivity].
Defined.





