(* ===== verification/ServerReconcile.v ===== *)
(** * Scheduled reconciliation on the server (internal/server/reconcile.go)

    The digests of a target table, their comparison with the digests of the
    source, the daily schedule, and the audit table that bounds how often an
    automatic repair may start.  The text PostgreSQL gives a value in UTC and
    the float64 text of a JSON number are parameters. *)

From Stdlib Require Import Permutation.
From S2P Require Import Prelude Bytes Sorting Encoding GoTime GoClock Event Syncv1 Reconcile ServerConfig Target.

(** ** The digests of a target table *)

Section digests.
Context {V : Type}.
(** [value::text] with the time zone UTC *)
Context (text : V → string).
Context (float_text : string → option string).
Context (cfg : Syncer).

(** The row of a tuple, as the source describes the table. *)
Definition target_row (source : syncv1.ReconcileResult.t) (t : gmap string V) : Row.t :=
  let columns :=
    zip_with (λ name typ, Column.mk name typ (text <$> t !! name) "" None)
      (syncv1.ReconcileResult.Columns source) (syncv1.ReconcileResult.ColumnTypes source) in
  let keys := List.filter (λ c, existsb (String.eqb (Column.Name c)) (syncv1.ReconcileResult.PrimaryKeys source))
                columns in
  let schema := syncv1.ReconcileResult.SourceSchema source in
  let name := syncv1.ReconcileResult.Table source in
  if bool_decide (syncv1.ReconcileResult.PrimaryKeys source = [])
  then Row.mk "full_row" schema name "" columns [] columns 0
  else Row.mk "" schema name "" keys [] columns 0.

(** The rows of the SELECT, in the order PostgreSQL returns them. *)
Definition select_rows (d : pg V) (source : syncv1.ReconcileResult.t) : result (list Row.t) :=
  t ← get_table (tables d) (syncv1.ReconcileResult.Table source);
  _ ← fail_if (negb (forallb (λ n, existsb (λ c, String.eqb c.1 n) (cols t))
                       (syncv1.ReconcileResult.Columns source)))
        (errorf "column does not exist");
  Ok (target_row source <$> tuples t).

Definition reconcileDigests (d : pg V) (source : syncv1.ReconcileResult.t) (buckets : Z) :
    result (list Digest) :=
  _ ← fail_if (String.eqb (syncv1.ReconcileResult.SourceSchema source) "" ||
               String.eqb (syncv1.ReconcileResult.Table source) "" ||
               bool_decide (syncv1.ReconcileResult.Columns source = []))
        (errorf "source reconciliation schema is incomplete");
  _ ← fail_if (negb (Nat.eqb (length (syncv1.ReconcileResult.ColumnTypes source))
                      (length (syncv1.ReconcileResult.Columns source))))
        (errorf "source reconciliation column types are incomplete");
  _ ← fail_if (negb (existsb (λ t, String.eqb (SourceSchema t) (syncv1.ReconcileResult.SourceSchema source) &&
                                   String.eqb (Name t) (syncv1.ReconcileResult.Table source)) (Tables cfg)))
        (errorf "source reconciliation table is not configured");
  rows ← select_rows d source;
  Digests float_text rows buckets.
End digests.

(** Whether the digests agree, and the number of buckets that differ. *)
Definition same_bucket (s : syncv1.BucketDigest.t) (t : Digest) : bool :=
  (syncv1.BucketDigest.Bucket s =? dg_bucket t) && (syncv1.BucketDigest.Rows s =? dg_rows t) &&
  String.eqb (syncv1.BucketDigest.Digest s) (dg_hash t).

Fixpoint count_mismatches (source : list syncv1.BucketDigest.t) (target : list Digest) : Z :=
  match source, target with
  | s :: source', t :: target' => (if same_bucket s t then 0 else 1) + count_mismatches source' target'
  | _, _ => 0
  end.

Definition sameDigests (source : list syncv1.BucketDigest.t) (target : list Digest) : bool * Z :=
  if negb (Nat.eqb (length source) (length target)) then
    (false, Z.of_nat (Nat.max (length source) (length target)))
  else
    let mismatches := count_mismatches source target in
    (mismatches =? 0, mismatches).

(** ** The schedule *)

(** [reconcileNext] of a syncer: [None] is the zero time. *)
Definition reconcileDue (location : Location) (cfg : ReconcileConfig.t) (now : Z) (next : option Z) :
    option Z * bool :=
  if negb (ReconcileConfig.Enabled cfg) then (next, false)
  else if match next with Some n => now <? n | None => false end then (next, false)
  else
    let '(hour, minute) := default (0, 0) (ParseClock (ReconcileConfig.DailyAt cfg)) in
    let '(y, m, d) := local_date location now in
    let at_ := Date location y m d (hour * 3600 + minute * 60) 0 in
    if match next with None => now <? at_ | Some _ => false end then (Some at_, false)
    else
      let at_ := if at_ <=? now then AddDays location at_ 1 else at_ in
      (Some at_, true).

Definition retryReconcile (now : Z) : option Z := Some (now + 300 * second).

(** ** The audit table *)

Record audit_row := mkAudit {
  au_request : string;
  au_started : Z;
  au_finished : Z;
  au_result : string;
  au_mismatched : Z;
  au_detail : string
}.

(** The insert is best effort: [written] says whether it succeeded. *)
Definition recordReconcile (written : bool) (requestID : string) (started now : Z) (result : string)
    (mismatches : Z) (detail : string) (l : list audit_row) : list audit_row :=
  if written then l ++ [mkAudit requestID started now result mismatches detail] else l.

Definition repairAllowed (now minimum : Z) (l : list audit_row) : bool :=
  negb (existsb (λ r, String.eqb (au_result r) "repair" && (now - minimum <? au_finished r)) l).

(** ** Comparing digests *)

(** A digest as the collector sends it. *)
Definition wire (d : Digest) : syncv1.BucketDigest.t :=
  syncv1.BucketDigest.mk (dg_bucket d) (dg_rows d) (dg_hash d).

Lemma same_bucket_wire a b : same_bucket (wire a) b = true ↔ a = b.
Proof.
  destruct a as [i n h], b as [j m k]. unfold same_bucket, wire. cbn [syncv1.BucketDigest.Bucket
    syncv1.BucketDigest.Rows syncv1.BucketDigest.Digest dg_bucket dg_rows dg_hash].
  rewrite !andb_true_iff, !Z.eqb_eq, String.eqb_eq. naive_solver.
Qed.

(** The number of positions at which two lists differ. *)
Fixpoint differences (a b : list Digest) : nat :=
  match a, b with
  | x :: a', y :: b' => (if same_bucket (wire x) y then 0 else 1) + differences a' b'
  | _, _ => 0
  end%nat.

Lemma count_wire a b : count_mismatches (wire <$> a) b = Z.of_nat (differences a b).
Proof.
  revert b. induction a as [|x a IH]; intros [|y b]; cbn [fmap list_fmap count_mismatches differences]; [done..|].
  rewrite IH. destruct (same_bucket _ _); lia.
Qed.

Lemma differences_zero a b : length a = length b → differences a b = 0%nat ↔ a = b.
Proof.
  revert b. induction a as [|x a IH]; intros [|y b] Hl; cbn [differences]; [done..|].
  injection Hl as Hl. specialize (IH b Hl). destruct (same_bucket (wire x) y) eqn:E.
  - apply same_bucket_wire in E as ->. cbn. rewrite IH. split; [by intros ->|by intros [= ->]].
  - split; [done|]. intros [= -> ->]. by rewrite (proj2 (same_bucket_wire y y)) in E.
Qed.

Lemma sameDigests_equal a b : length a = length b →
  (sameDigests (wire <$> a) b).1 = true ↔ a = b.
Proof.
  intros Hl. unfold sameDigests. rewrite length_fmap, Hl, Nat.eqb_refl. cbn [negb fst].
  rewrite count_wire, Z.eqb_eq. rewrite <- (differences_zero a b Hl). lia.
Qed.

(** ** The daily schedule *)

Lemma reconcileDue_fixed o cfg now next n : time_ok now → - 86400 ≤ o ≤ 86400 →
  reconcileDue (FixedZone o) cfg now next = (Some n, true) →
  ∃ hour minute days, default (0, 0) (ParseClock (ReconcileConfig.DailyAt cfg)) = (hour, minute) ∧
    n = (days * 86400 + (hour * 3600 + minute * 60) - o) * second ∧ now < n ≤ now + day.
Proof.
  intros Ht Ho. unfold reconcileDue.
  destruct (negb (ReconcileConfig.Enabled cfg)); [done|].
  destruct (match next with Some n => now <? n | None => false end) eqn:Enext; [done|].
  destruct (default (0, 0) _) as [hour minute] eqn:Ec. pose proof (ParseClock_range _ _ _ Ec) as Hc.
  set (clk := hour * 3600 + minute * 60) in *. destruct (local_date _ now) as [[y m] d] eqn:Ed.
  apply local_date_fixed in Ed. pose proof (Z.div_mod now second ltac:(done)) as Hn.
  pose proof (Z.mod_pos_bound now second ltac:(done)) as Hm.
  pose proof (Z.div_mod (now / second + o) 86400 ltac:(done)) as Hd.
  pose proof (Z.mod_pos_bound (now / second + o) 86400 ltac:(done)) as Hdm.
  assert (0 ≤ now / second < 253402300800) as Hs.
  { unfold time_ok in Ht. split; [apply Z.div_pos; lia|apply Z.div_lt_upper_bound; lia]. }
  rewrite Date_fixed by lia. rewrite Ed, Z.add_0_r. set (days := (now / second + o) / 86400) in *.
  unfold day. assert (second = 1000000000) as Hsec by done.
  destruct (match next with Some _ => false | None => _ end); [done|].
  destruct (_ <=? now) eqn:Ele; intros [= <-].
  - rewrite AddDays_fixed by lia. exists hour, minute, (days + 1). split_and!; [done|done|nia..].
  - apply Z.leb_gt in Ele. exists hour, minute, days. split_and!; [done|done|nia..].
Qed.

(** In a location without transitions, a reconciliation that becomes due
    sets the next one at the configured time of a day, later than now and at
    most 24 hours later, and none is due before it. *)
Theorem reconcile_daily o cfg now next n : time_ok now → - 86400 ≤ o ≤ 86400 →
  reconcileDue (FixedZone o) cfg now next = (Some n, true) →
  now < n ≤ now + day ∧
  local_clock (FixedZone o) n =
    (let '(hour, minute) := default (0, 0) (ParseClock (ReconcileConfig.DailyAt cfg)) in hour * 3600 + minute * 60) ∧
  ∀ now', now' < n → reconcileDue (FixedZone o) cfg now' (Some n) = (Some n, false).
Proof.
  intros Ht Ho E. destruct (reconcileDue_fixed _ _ _ _ _ Ht Ho E) as (hour & minute & days & Ec & -> & Hn).
  split; [done|]. split.
  - rewrite Ec. unfold local_clock, offset, unix_seconds. cbn [FixedZone]. rewrite Z.div_mul by done.
    replace (_ - o + o) with (hour * 3600 + minute * 60 + days * 86400) by lia.
    rewrite Z.mod_add by done. apply Z.mod_small, (ParseClock_range _ _ _ Ec).
  - intros now' Hlt%Z.ltb_lt. unfold reconcileDue. rewrite Hlt. by destruct (negb _).
Qed.

(** C31. A table that holds the rows of the source, in any order and with their
    columns in any order, has no mismatched bucket; and the comparison of as many
    buckets succeeds exactly if every bucket has the same number of rows and the
    same digest. *)
Theorem reconcile_agreement {V} (text : V → string) float_text cfg (d : pg V) source n rows k rows' ds dt :
  0 ≤ n < 2 ^ 32 → select_rows text d source = Ok rows → rows ≡ₚ k → Forall2 same_row k rows' →
  reconcileDigests text float_text cfg d source n = Ok dt → Digests float_text rows' n = Ok ds →
  sameDigests (wire <$> ds) dt = (true, 0) ∧
  ∀ other, length other = length dt → (sameDigests (wire <$> other) dt).1 = true ↔ other = dt.
Proof.
  intros Hn Hs Hp Hk Hd Hds. split; [|by intros; apply sameDigests_equal].
  unfold reconcileDigests in Hd. result_inv Hd. rewrite Hs in *. simplify_eq.
  rewrite (Digests_same _ _ _ _ _ Hn Hp Hk), Hds in *. simplify_eq.
  unfold sameDigests. rewrite length_fmap, Nat.eqb_refl. cbn [negb]. rewrite count_wire.
  by rewrite (proj2 (differences_zero dt dt eq_refl)).
Qed.

(** ** The theorems at concrete inputs *)

Definition demo_schedule : ReconcileConfig.t :=
  ReconcileConfig.mk true "02:00" "Asia/Shanghai" 256 "30m" "24h" true false.

Definition demo_now : Z := 1700000000 * second.

(** Shanghai has been eight hours ahead of UTC since 1991. *)
Lemma reconcile_daily_witness :
  reconcileDue (FixedZone 28800) demo_schedule demo_now None = (Some (1700071200 * second), true) ∧
  reconcileDue (FixedZone 28800) demo_schedule (demo_now + second) (Some (1700071200 * second)) =
    (Some (1700071200 * second), false).
Proof.
  assert (reconcileDue (FixedZone 28800) demo_schedule demo_now None = (Some (1700071200 * second), true)) as E
    by (vm_compute; reflexivity).
  split; [exact E|].
  refine (proj2 (proj2 (reconcile_daily 28800 demo_schedule demo_now None _ _ _ E)) _ _);
    unfold time_ok, demo_now, second; lia.
Defined.

Definition demo_source : syncv1.ReconcileResult.t :=
  syncv1.ReconcileResult.mk "r1" "public" "users" ["id"; "name"] ["id"] [] "" "" ["int4"; "text"].

Definition demo_target : pg string :=
  migrate {[ "users" := mkPgTable [("id", "integer"); ("name", "text")]
    [ {[ "id" := "1"; "name" := "a" ]}; {[ "id" := "2" ]} ] ]}.

Definition demo_syncer : Syncer :=
  mkSyncer "s" "t" (PostgresConfig.mk "dsn" "public" "meta") [mkTable "public" "users"] [] true
    (mkFileStorage "" "" "" "" "" "" "" "" "" false [] 0).

Definition demo_rows : list Row.t :=
  [Row.mk "" "public" "users" "" [Column.mk "id" "int4" (Some "2") "" None] []
     [Column.mk "name" "text" None "" None; Column.mk "id" "int4" (Some "2") "" None] 0;
   Row.mk "" "public" "users" "" [Column.mk "id" "int4" (Some "1") "" None] []
     [Column.mk "id" "int4" (Some "1") "" None; Column.mk "name" "text" (Some "a") "" None] 0].

Lemma reconcile_agreement_witness : ∃ ds dt,
  Digests (λ _, None) demo_rows 4 = Ok ds ∧
  reconcileDigests id (λ _, None) demo_syncer demo_target demo_source 4 = Ok dt ∧
  sameDigests (wire <$> ds) dt = (true, 0).
Proof.
  eexists _, _. split; [vm_compute; reflexivity|]. split; [vm_compute; reflexivity|].
  refine (proj1 (reconcile_agreement id (λ _, None) demo_syncer demo_target demo_source 4
    (target_row id demo_source <$> [ {[ "id" := "1"; "name" := "a" ]}; {[ "id" := "2" ]} ])
    (target_row id demo_source <$> [ {[ "id" := "2" ]}; {[ "id" := "1"; "name" := "a" ]} ])
    demo_rows _ _ _ _ _ _ _ _)).
  - lia.
  - vm_compute. reflexivity.
  - apply perm_swap.
  - repeat constructor; cbn; try reflexivity; try apply perm_swap; set_solver.
  - vm_compute. reflexivity.
  - vm_compute. reflexivity.
Defined.
