(* ===== verification/ServerSession.v ===== *)
(** * The replication stream on the server (internal/server/server.go, Connect;
    internal/server/reconcile.go, runReconcile)

    One call of [Connect] as a state machine over the frames it receives:
    authentication, the lease and the choice of the first sequence number, then
    one transition per frame, with [runReconcile]'s waits for an answer as
    states of the stream.  What lies outside, the clock, the lease, the faults of
    the database connection, the UUID and whether the target is being retired,
    is what a transition observes. *)

From S2P Require Import Prelude Bytes Sorting Encoding GoTime GoClock Event Queue Syncv1 Reconcile ServerConfig Schema Target ServerReconcile.

(** ** Authentication *)

(** [bearerMatches]: the values of the authorization header and the token. *)
Definition bearerMatches (values : list string) (expected : string) : bool :=
  match values with
  | [v] => HasPrefix v "Bearer " && String.eqb (TrimPrefix v "Bearer ") expected
  | _ => false
  end.

(** ** State *)

(** What the server holds for a syncer: its target, the audit rows, and the
    entries of [reconcileNext], [lastErrors] and the collector metrics. *)
Record syncer_state (V F : Type) := mkSyncerState {
  sy_side : side F;
  sy_db : pg V;
  sy_audit : list audit_row;
  sy_next : option Z;
  sy_error : string;
  sy_metrics : string
}.
Arguments mkSyncerState {V F} _ _ _ _ _ _.
Arguments sy_side {V F} _.
Arguments sy_db {V F} _.
Arguments sy_audit {V F} _.
Arguments sy_next {V F} _.
Arguments sy_error {V F} _.
Arguments sy_metrics {V F} _.

(** The variables of [runReconcile]. *)
Record reconciliation := mkReconciliation {
  rc_id : string;
  rc_started : Z;
  rc_cfg : ReconcileConfig.t;
  rc_mismatch : Z
}.

(** What the stream waits for: a frame of the main loop, or the answer to a
    request of [runReconcile]. *)
Inductive mode :=
  | Streaming
  | AwaitDigests (r : reconciliation) (table : Table) (rest : list Table)
  | AwaitRepair (r : reconciliation)
  | AwaitResume (r : reconciliation).

(** The variables of [Connect]. *)
Record session := mkSession {
  se_id : string;
  se_generation : string;
  se_next : Z;
  se_openBatch : bool;
  se_supported : bool;
  se_mode : mode
}.

(** The end of a statement: done, not done, or done without the server knowing. *)
Inductive fault := NoFault | Failed | Unconfirmed.

Record observation := mkObservation {
  ob_now : Z;
  ob_retiring : bool;        (** [s.retiring(id, target)] *)
  ob_uuid : string;          (** [uuid.NewString()] *)
  ob_reconcile : ReconcileConfig.t;
  ob_location : Location;
  ob_maxBytes : Z;           (** [s.cfg.GRPC.MaxMessageBytes] *)
  ob_fault : fault;          (** the transaction that writes *)
  ob_read_fails : bool;      (** the query that reads the audit or the table *)
  ob_audit_written : bool
}.

(** Receive the next frame, or return. *)
Inductive verdict :=
  | Receive
  | Done (e : option error).

Definition code_name (c : code) : string :=
  match c with
  | OK => "OK"
  | Unknown => "Unknown"
  | InvalidArgument => "InvalidArgument"
  | AlreadyExists => "AlreadyExists"
  | PermissionDenied => "PermissionDenied"
  | ResourceExhausted => "ResourceExhausted"
  | FailedPrecondition => "FailedPrecondition"
  | Unavailable => "Unavailable"
  | Unauthenticated => "Unauthenticated"
  end.

(** [err.Error()] *)
Fixpoint error_text (e : error) : string :=
  match e with
  | ErrFull => "queue capacity reached"
  | ErrEmpty => "queue empty"
  | ErrNotDrained => "queue is not fully delivered"
  | ErrNoRows => "no rows in result set"
  | errSchemaMismatch => "row schema differs from captured schema"
  | errFileChanged => "file changed while being captured"
  | errRetentionGap => "sqlserver cdc retention gap; stop and explicitly reinitialize from a new snapshot"
  | errTargetLeaseHeld => "syncer is owned by another server instance"
  | ErrRepairRestart => "reconciliation repair requested a new snapshot"
  | ErrCanceled => "context canceled"
  | status_Error c text => "rpc error: code = " +:+ code_name c +:+ " desc = " +:+ text
  | databaseError (ServerError n) => "sqlserver error " +:+ FormatInt n +:+ "; inspect database logs"
  | databaseError _ => "sqlserver operation failed; verify connectivity, permissions and server logs"
  | wrapf prefix e => prefix +:+ error_text e
  | errors_Join a b => error_text a +:+ of_bytes [10] +:+ error_text b
  | errors_New text => text
  end.

Section connect.
Context {V F : Type} `{PG : Postgres V} `{FS : FileStore F}.
Context (constraints : gmap string (table V) → bool).
Context (text : V → string) (float_text : string → option string).
Context (cfg : Syncer).

Definition set_db (d : pg V) (y : syncer_state V F) : syncer_state V F :=
  mkSyncerState (sy_side y) d (sy_audit y) (sy_next y) (sy_error y) (sy_metrics y).
Definition set_next (n : option Z) (y : syncer_state V F) : syncer_state V F :=
  mkSyncerState (sy_side y) (sy_db y) (sy_audit y) n (sy_error y) (sy_metrics y).
Definition set_audit (l : list audit_row) (y : syncer_state V F) : syncer_state V F :=
  mkSyncerState (sy_side y) (sy_db y) l (sy_next y) (sy_error y) (sy_metrics y).
Definition setSyncerError (e : string) (y : syncer_state V F) : syncer_state V F :=
  mkSyncerState (sy_side y) (sy_db y) (sy_audit y) (sy_next y) e (sy_metrics y).
Definition setCollector (t : string) (y : syncer_state V F) : syncer_state V F :=
  mkSyncerState (sy_side y) (sy_db y) (sy_audit y) (sy_next y) (sy_error y) t.

Definition with_mode (m : mode) (s : session) : session :=
  mkSession (se_id s) (se_generation s) (se_next s) (se_openBatch s) (se_supported s) m.

Definition pull (s : session) : syncv1.ServerFrame :=
  syncv1.ServerFrame_Pull (syncv1.Pull.mk (se_generation s) (se_next s)).

(** ** The first frame *)

(** What the start of the stream observes. *)
Record start := mkStart {
  authorization : list string;
  lease : result unit;
  progress_fails : bool;
  consume_fault : fault
}.

Definition Connect (v : start) (token : string) (first : syncv1.CollectorFrame) (y : syncer_state V F) :
    syncer_state V F * result (session * list syncv1.ServerFrame) :=
  match first with
  | syncv1.CollectorFrame_Hello hello =>
      if negb (bearerMatches (authorization v) token) then
        (y, Err (status_Error Unauthenticated "invalid syncer credentials"))
      else
        match lease v with
        | Err errTargetLeaseHeld => (y, Err (status_Error AlreadyExists (error_text errTargetLeaseHeld)))
        | Err _ => (y, Err (status_Error Unavailable "target database lease is unavailable"))
        | Ok _ =>
            if progress_fails v then (y, Err (status_Error Unavailable "target database unavailable"))
            else
              let p := Progress (sy_db y) in
              let begin_ y next :=
                let s := mkSession (syncv1.Hello.SyncerId hello) (syncv1.Hello.Generation hello) next false
                           (syncv1.Hello.ReconcileSupported hello) Streaming in
                (y, Ok (s, [pull s])) in
              if negb (String.eqb (Generation p) "") &&
                 negb (String.eqb (Generation p) (syncv1.Hello.Generation hello)) then
                let '(d, allowed) := consumeRepairAuthorization (sy_db y) in
                match consume_fault v with
                | Failed => (y, Err (status_Error Unavailable "repair authorization is unavailable"))
                | Unconfirmed => (set_db d y, Err (status_Error Unavailable "repair authorization is unavailable"))
                | NoFault =>
                    if allowed then begin_ (set_db d y) 1
                    else (y, Err (status_Error FailedPrecondition
                                    "collector generation differs from target without an authorized repair"))
                end
              else begin_ y (u64 (Received p + 1))
        end
  | _ => (y, Err (status_Error InvalidArgument "first frame must be hello"))
  end.

(** ** Reconciliation *)

(** [runReconcile] returns an error: the deferred audit row, and what [Connect]
    does with it. *)
Definition fail_reconcile (v : observation) (r : reconciliation) (e : error) (s : session)
    (y : syncer_state V F) : syncer_state V F * session * list syncv1.ServerFrame * verdict :=
  let y := set_audit (recordReconcile (ob_audit_written v) (rc_id r) (rc_started r) (ob_now v) "error" 0
                        "reconciliation did not complete" (sy_audit y)) y in
  (setSyncerError (error_text e) (set_next (retryReconcile (ob_now v)) y), s, [],
   Done (Some (status_Error Unavailable "reconciliation failed"))).

(** The request for one table. *)
Definition reconcile_request (r : reconciliation) (t : Table) : syncv1.ServerFrame :=
  let timeout := default 0 (ParseDuration (ReconcileConfig.Timeout (rc_cfg r))) in
  syncv1.ServerFrame_Reconcile
    (syncv1.ReconcileRequest.mk (rc_id r) (SourceSchema t) (Name t) (u32 (ReconcileConfig.Buckets (rc_cfg r)))
       true 0 false (u32 (Z.quot timeout second))).

(** After the last table: ask for a repair or resume. *)
Definition decide_repair (v : observation) (r : reconciliation) (s : session) (y : syncer_state V F) :
    syncer_state V F * session * list syncv1.ServerFrame * verdict :=
  let resume := (y, with_mode (AwaitResume r) s,
                 [syncv1.ServerFrame_Resume (syncv1.ResumeRequest.mk (rc_id r))], Receive) in
  if (0 <? rc_mismatch r) && ReconcileConfig.AutoRepair (rc_cfg r) && negb (ReconcileConfig.DryRun (rc_cfg r)) then
    let minimum := default 0 (ParseDuration (ReconcileConfig.RepairMinInterval (rc_cfg r))) in
    if ob_read_fails v then fail_reconcile v r (errorf "query failed") s y
    else if repairAllowed (ob_now v) minimum (sy_audit y) then
      match ob_fault v with
      | Failed => fail_reconcile v r (errorf "update failed") s y
      | Unconfirmed => fail_reconcile v r (errorf "update failed") s (set_db (authorizeRepair (sy_db y)) y)
      | NoFault =>
          (set_db (authorizeRepair (sy_db y)) y, with_mode (AwaitRepair r) s,
           [syncv1.ServerFrame_Repair
              (syncv1.RepairRequest.mk (rc_id r) (FormatInt (rc_mismatch r) +:+ " mismatched hash buckets"))],
           Receive)
      end
    else resume
  else resume.

(** The next table of the loop. *)
Definition next_table (v : observation) (r : reconciliation) (l : list Table) (s : session) (y : syncer_state V F) :
    syncer_state V F * session * list syncv1.ServerFrame * verdict :=
  match l with
  | t :: rest => (y, with_mode (AwaitDigests r t rest) s, [reconcile_request r t], Receive)
  | [] => decide_repair v r s y
  end.

Definition runReconcile (v : observation) (s : session) (y : syncer_state V F) :
    syncer_state V F * session * list syncv1.ServerFrame * verdict :=
  next_table v (mkReconciliation (ob_uuid v) (ob_now v) (ob_reconcile v) 0) (Tables cfg) s y.

(** The answer for one table. *)
Definition digests_received (v : observation) (f : syncv1.CollectorFrame) (r : reconciliation) (t : Table)
    (rest : list Table) (s : session) (y : syncer_state V F) :
    syncer_state V F * session * list syncv1.ServerFrame * verdict :=
  let invalid := fail_reconcile v r (status_Error InvalidArgument "invalid reconciliation response") s y in
  match f with
  | syncv1.CollectorFrame_ReconcileResult result =>
      if negb (String.eqb (syncv1.ReconcileResult.RequestId result) (rc_id r)) ||
         negb (String.eqb (syncv1.ReconcileResult.SourceSchema result) (SourceSchema t)) ||
         negb (String.eqb (syncv1.ReconcileResult.Table result) (Name t)) then invalid
      else if negb (String.eqb (syncv1.ReconcileResult.Error result) "") then
        fail_reconcile v r (errorf "collector reconciliation failed") s y
      else if ob_read_fails v then fail_reconcile v r (errorf "query failed") s y
      else
        match reconcileDigests text float_text cfg (sy_db y) result (u32 (ReconcileConfig.Buckets (rc_cfg r))) with
        | Err e => fail_reconcile v r e s y
        | Ok digests =>
            let '(_, mismatches) := sameDigests (syncv1.ReconcileResult.Digests result) digests in
            next_table v (mkReconciliation (rc_id r) (rc_started r) (rc_cfg r) (rc_mismatch r + mismatches)) rest s y
        end
  | _ => invalid
  end.

Definition repair_received (v : observation) (f : syncv1.CollectorFrame) (r : reconciliation) (s : session)
    (y : syncer_state V F) : syncer_state V F * session * list syncv1.ServerFrame * verdict :=
  let invalid := fail_reconcile v r (status_Error InvalidArgument "invalid repair acknowledgement") s y in
  match f with
  | syncv1.CollectorFrame_RepairAccepted a =>
      if String.eqb (syncv1.RepairAccepted.RequestId a) (rc_id r) then
        (set_audit (recordReconcile (ob_audit_written v) (rc_id r) (rc_started r) (ob_now v) "repair"
                      (rc_mismatch r) "full snapshot requested" (sy_audit y)) y, s, [], Done None)
      else invalid
  | _ => invalid
  end.

Definition resume_received (v : observation) (f : syncv1.CollectorFrame) (r : reconciliation) (s : session)
    (y : syncer_state V F) : syncer_state V F * session * list syncv1.ServerFrame * verdict :=
  let invalid := fail_reconcile v r (status_Error InvalidArgument "invalid resume acknowledgement") s y in
  match f with
  | syncv1.CollectorFrame_ResumeAccepted a =>
      if String.eqb (syncv1.ResumeAccepted.RequestId a) (rc_id r) then
        let result := if 0 <? rc_mismatch r then "mismatch" else "match" in
        (set_audit (recordReconcile (ob_audit_written v) (rc_id r) (rc_started r) (ob_now v) result
                      (rc_mismatch r) "" (sy_audit y)) y,
         with_mode Streaming s, [pull s], Receive)
      else invalid
  | _ => invalid
  end.

(** ** The main loop *)

Definition idle_received (v : observation) (s : session) (y : syncer_state V F) :
    syncer_state V F * session * list syncv1.ServerFrame * verdict :=
  if ob_retiring v && negb (se_openBatch s) then (y, s, [], Done None)
  else if se_supported s && negb (se_openBatch s) then
    let '(next, due) := reconcileDue (ob_location v) (ob_reconcile v) (ob_now v) (sy_next y) in
    let y := set_next next y in
    if due then runReconcile v s y else (y, s, [pull s], Receive)
  else (y, s, [pull s], Receive).

(** [lease.Store] *)
Definition store_message (v : observation) (m : Message.t) (raw : string) (y : syncer_state V F) :
    syncer_state V F * result unit :=
  let '(σ, d, res) := store constraints cfg m raw (sy_side y) (sy_db y) in
  let stored d := mkSyncerState σ d (sy_audit y) (sy_next y) (sy_error y) (sy_metrics y) in
  match ob_fault v with
  | NoFault => (stored d, res)
  | Failed => (stored (sy_db y), Err (errorf "connection lost"))
  | Unconfirmed => (stored d, Err (errorf "connection lost"))
  end.

(** The open batch after a message. *)
Definition batch_after (kind : string) (openBatch : bool) : bool :=
  if one_of kind ["snapshot_begin"; "transaction_rows"; "file_begin"; "file_chunk"] then true
  else if one_of kind ["snapshot_end"; "transaction_end"; "file_end"] then false
  else openBatch.

Definition event_received (v : observation) (e : syncv1.Event.t) (s : session) (y : syncer_state V F) :
    syncer_state V F * session * list syncv1.ServerFrame * verdict :=
  match unmarshal (syncv1.Event.Json e) with
  | None => (y, s, [], Done (Some (status_Error InvalidArgument "event JSON is invalid")))
  | Some m =>
      let seq := syncv1.Event.Seq e in
      if negb (seq =? se_next s) || negb (Message.Seq m =? seq) ||
         negb (String.eqb (Message.ID m) (syncv1.Event.MessageId e)) ||
         negb (String.eqb (Message.SourceID m) (se_id s)) ||
         negb (String.eqb (Message.Generation m) (se_generation s)) then
        (y, s, [], Done (Some (status_Error InvalidArgument "event envelope does not match requested sequence")))
      else if negb (String.eqb (Message.ID m) (message_id (se_id s) (se_generation s) (se_next s))) then
        (y, s, [], Done (Some (status_Error InvalidArgument "event message_id is not canonical")))
      else
        match store_message v m (syncv1.Event.Json e) y with
        | (y, Err e) => (setSyncerError (error_text e) y, s, [],
                         Done (Some (status_Error FailedPrecondition "target apply failed")))
        | (y, Ok _) =>
            let y := setSyncerError "" y in
            let ack := syncv1.ServerFrame_Ack (syncv1.Ack.mk (se_generation s) (se_next s) (Message.ID m)) in
            let s := mkSession (se_id s) (se_generation s) (u64 (se_next s + 1))
                       (batch_after (Message.Kind m) (se_openBatch s)) (se_supported s) Streaming in
            if ob_retiring v && negb (se_openBatch s) then (y, s, [ack], Done None)
            else (y, s, [ack; pull s], Receive)
        end
  end.

Definition frame_received (v : observation) (f : syncv1.CollectorFrame) (s : session) (y : syncer_state V F) :
    syncer_state V F * session * list syncv1.ServerFrame * verdict :=
  match f with
  | syncv1.CollectorFrame_Metrics m =>
      if ob_maxBytes v <? slen (syncv1.Metrics.PrometheusText m) then
        (y, s, [], Done (Some (status_Error ResourceExhausted "metrics snapshot too large")))
      else (setCollector (syncv1.Metrics.PrometheusText m) y, s, [], Receive)
  | syncv1.CollectorFrame_Idle _ => idle_received v s y
  | syncv1.CollectorFrame_ReplayUnavailable r =>
      (setSyncerError ("replay sequence " +:+ FormatInt (syncv1.ReplayUnavailable.RequestedSeq r) +:+
                       " unavailable; earliest is " +:+ FormatInt (syncv1.ReplayUnavailable.EarliestSeq r)) y,
       s, [], Done (Some (status_Error FailedPrecondition
                       "collector replay history is insufficient; a new snapshot is required")))
  | syncv1.CollectorFrame_Event e => event_received v e s y
  | _ => (y, s, [], Done (Some (status_Error InvalidArgument "unexpected collector frame")))
  end.

(** One frame. *)
Definition receive (v : observation) (f : syncv1.CollectorFrame) (s : session) (y : syncer_state V F) :
    syncer_state V F * session * list syncv1.ServerFrame * verdict :=
  match se_mode s with
  | Streaming => frame_received v f s y
  | AwaitDigests r t rest => digests_received v f r t rest s y
  | AwaitRepair r => repair_received v f r s y
  | AwaitResume r => resume_received v f r s y
  end.

(** The stream breaks: [Recv] or [Send] returns an error. *)
Definition interrupted (v : observation) (s : session) (y : syncer_state V F) : syncer_state V F :=
  match se_mode s with
  | Streaming => y
  | AwaitDigests r _ _ | AwaitRepair r | AwaitResume r => (fail_reconcile v r ErrCanceled s y).1.1.1
  end.
End connect.
