(* ===== verification/Service.v ===== *)
(** * The service: connections and reloads (internal/server/server.go)

    The table of open targets shared by the streams and by the reloads of the
    configuration: opening, acquiring, releasing, replacing and closing targets.
    A target is a pointer, [handle]; the handles whose pool is open are part of
    the state, so that using a closed target and never closing one can be told
    apart.  A reload runs beside the streams: its parts between two uses of the
    lock are separate steps.  The theorem says that reloads one at a time never
    close a target in use; the examples at the end show what happens with two at
    once, and with two in a row during one long connection. *)

From S2P Require Import Prelude Bytes Sorting Encoding GoClock GoPath Event Syncv1 Config ServerConfig ServerValidate Schema Target ServerReconcile ServerSession.

Module service.
Import serverconfig.

(** ** State *)

Record target := mkTarget { handle : nat; t_cfg : Syncer }.

Record Service := mkService {
  cfg : Config;
  targets : gmap string target;
  connected : gmap string bool;
  lastErrors : gmap string string;
  reconcileNext : gmap string Z;
  reloadError : string;
  logLevel : option string;   (** [nil] before [WithLogLevel] *)
  allocated : nat;       (** the next pointer *)
  live : gset nat        (** the targets whose pool is open *)
}.

Definition set_live (n : nat) (l : gset nat) (s : Service) : Service :=
  mkService (cfg s) (targets s) (connected s) (lastErrors s) (reconcileNext s) (reloadError s) (logLevel s) n l.

(** [target.Close] *)
Definition Close_target (h : nat) (s : Service) : Service := set_live (allocated s) (live s ∖ {[h]}) s.

Definition handles (m : gmap string target) : gset nat := list_to_set (handle ∘ snd <$> map_to_list m).

Definition is_connected (s : Service) (id : string) : bool := default false (connected s !! id).

Definition set_connected (id : string) (b : bool) (s : Service) : Service :=
  mkService (cfg s) (targets s) (<[id := b]> (connected s)) (lastErrors s) (reconcileNext s) (reloadError s)
    (logLevel s) (allocated s) (live s).

Definition setSyncerError (id value : string) (s : Service) : Service :=
  mkService (cfg s) (targets s) (connected s) (<[id := value]> (lastErrors s)) (reconcileNext s) (reloadError s)
    (logLevel s) (allocated s) (live s).

Definition setReloadError (e : error) (s : Service) : Service :=
  mkService (cfg s) (targets s) (connected s) (lastErrors s) (reconcileNext s) (error_text e) (logLevel s)
    (allocated s) (live s).

Definition WithLogLevel (level : string) (s : Service) : Service :=
  mkService (cfg s) (targets s) (connected s) (lastErrors s) (reconcileNext s) (reloadError s) (Some level)
    (allocated s) (live s).

(** ** Streams *)

Definition token_of (c : Config) (id : string) : string :=
  default "" (Token <$> head (List.filter (λ y, String.eqb (ID y) id) (Syncers c))).

Definition acquire (id : string) (s : Service) : result (target * string * Service) :=
  match targets s !! id with
  | None => Err (status_Error PermissionDenied "unknown syncer")
  | Some t =>
      _ ← fail_if (is_connected s id) (status_Error AlreadyExists "syncer already connected");
      Ok (t, token_of (cfg s) id, set_connected id true s)
  end.

(** [s.targets[id] != used], by pointer *)
Definition retiring (s : Service) (id : string) (used : target) : bool :=
  negb (bool_decide (handle <$> targets s !! id = Some (handle used))).

Definition release (id : string) (used : target) (s : Service) : Service :=
  let s1 := set_connected id false s in
  if retiring s1 id used then Close_target (handle used) s1 else s1.

(** ** Opening *)

(** The table keys of an opened target. *)
Definition overlap_keys (instance : string) (t : target) : list string :=
  (λ x, target_key (PostgresConfig.mk instance (PostgresConfig.TargetSchema (Postgres_ (t_cfg t))) "") (Name x)) <$>
    Tables (t_cfg t).

Section open.
(** [openTarget] of a syncer, and [identity] of an opened target *)
Context (open : Syncer → result unit) (identity : target → result string).

(** [seen]: the keys with the id that has them. *)
Fixpoint overlap_loop (seen : gmap string string) (l : list (string * target)) : result unit :=
  match l with
  | [] => Ok tt
  | (id, t) :: l' =>
      instance ← identity t;
      let keys := overlap_keys instance t in
      _ ← fail_if (existsb (λ k, match seen !! k with Some p => negb (String.eqb p "") && negb (String.eqb p id) | None => false end) keys)
            (errorf "syncers %q and %q resolve to the same target table");
      overlap_loop (foldl (λ m k, <[k := id]> m) seen keys) l'
  end.

Definition validateTargetOverlap (m : gmap string target) : result unit := overlap_loop ∅ (map_to_list m).

(** The syncers are opened in order; one that [keep]s its target is not.  The
    targets opened so far are returned with the error. *)
Fixpoint open_syncers (format : string) (keep : Syncer → option target) (l : list Syncer) (n : nat) (lv : gset nat)
    (opened : gmap string target) : nat * gset nat * gmap string target * result unit :=
  match l with
  | [] => (n, lv, opened, Ok tt)
  | y :: l' =>
      match keep y with
      | Some t => open_syncers format keep l' n lv (<[ID y := t]> opened)
      | None =>
          match open y with
          | Err _ => (n, lv, opened, Err (errors_New format))
          | Ok _ => open_syncers format keep l' (S n) ({[n]} ∪ lv) (<[ID y := mkTarget n y]> opened)
          end
      end
  end.

Definition openTargets (c : Config) (s : Service) : Service * result unit :=
  let '(n, lv, opened, r) := open_syncers "open target for syncer %q: %w" (λ _, None) (Syncers c) (allocated s) (live s) ∅ in
  match (_ ← r; validateTargetOverlap opened) with
  | Ok _ =>
      (mkService (cfg s) opened (connected s) (lastErrors s) (reconcileNext s) (reloadError s) (logLevel s) n lv, Ok tt)
  | Err e => (set_live n (lv ∖ handles opened) s, Err e)
  end.

(** [New]: [key_pair] is [tls.LoadX509KeyPair]. *)
Definition New (key_pair : string → string → result unit) (c : Config) : Service * result unit :=
  let s := mkService c ∅ ∅ ∅ ∅ "" None 0 ∅ in
  match key_pair (GRPCConfig.TLSCertFile (GRPC c)) (GRPCConfig.TLSKeyFile (GRPC c)) with
  | Err e => (s, Err e)
  | Ok _ => openTargets c s
  end.

(** ** Reloading *)

(** The variables of a reload between its steps. *)
Record pending := mkPending {
  candidate : Config;
  current : Config;
  oldTargets : gmap string target;
  opened : gmap string target
}.

(** The target of a syncer whose configuration did not change; every syncer of the
    configuration in force has a target ([covered] below). *)
Definition unchanged (c : Config) (old : gmap string target) (y : Syncer) : option target :=
  match List.filter (λ o, String.eqb (ID o) (ID y)) (Syncers c) with
  | o :: _ => if bool_decide (o = y) then old !! ID y else None
  | [] => None
  end.

(** The targets a failed reload closes: those it opened itself. *)
Definition opened_new (old m : gmap string target) : gmap string target :=
  filter (λ kv, handle <$> old !! kv.1 ≠ Some (handle kv.2)) m.

(** From the start to the targets of the new configuration. *)
Definition reload_open (load : result Config) (key_pair : string → string → result unit) (s : Service) :
    Service * result pending :=
  let fail e s := (setReloadError e s, Err e) in
  match load with
  | Err e => fail e s
  | Ok c =>
      if negb (StaticEqual (cfg s) c) then
        fail (errorf "listener, metrics address and log output settings require restart") s
      else
        match key_pair (GRPCConfig.TLSCertFile (GRPC c)) (GRPCConfig.TLSKeyFile (GRPC c)) with
        | Err e => fail e s
        | Ok _ =>
            let '(n, lv, m, r) :=
              open_syncers "validate syncer %q: %w" (unchanged (cfg s) (targets s)) (Syncers c)
                (allocated s) (live s) ∅ in
            match (_ ← r; validateTargetOverlap m) with
            | Err e => fail e (set_live n (lv ∖ handles (opened_new (targets s) m)) s)
            | Ok _ => (set_live n lv s, Ok (mkPending c (cfg s) (targets s) m))
            end
        end
  end.
End open.

(** The swap under the lock, the certificate and the level of the log. *)
Definition reload_swap (p : pending) (s : Service) : Service :=
  mkService (candidate p) (opened p) (connected s) (lastErrors s)
    (if bool_decide (Reconcile (current p) = Reconcile (candidate p)) then reconcileNext s else ∅)
    ""
    (let l := ToLower (config.Log.Level (Log (candidate p))) in
     if existsb (String.eqb l) ["debug"; "info"; "warn"; "error"] then (λ _, l) <$> logLevel s else logLevel s)
    (allocated s) (live s).

(** One turn of the loop that closes the replaced targets. *)
Definition reload_close (p : pending) (id : string) (item : target) (s : Service) : Service :=
  if negb (bool_decide (handle <$> opened p !! id = Some (handle item))) && negb (is_connected s id)
  then Close_target (handle item) s else s.

Definition Close (s : Service) : Service :=
  mkService (cfg s) ∅ (connected s) (lastErrors s) (reconcileNext s) (reloadError s) (logLevel s)
    (allocated s) (live s ∖ handles (targets s)).

(** ** Administration *)

Definition admin (authorization : list string) (s : Service) : bool :=
  bearerMatches authorization (AdminToken (cfg s)).

Record SyncerStatus := mkStatus {
  Id : string;
  Connected : bool;
  Error : string;
  Generation : string;
  ReceivedSeq : Z;
  AppliedSeq : Z
}.

(** What is read under the lock: the syncers in order, each with its target, whether it
    is connected and its last error. *)
Definition listed (s : Service) : list (string * target * bool * string) :=
  (λ '(id, t), (id, t, is_connected s id, default "" (lastErrors s !! id))) <$>
    order_by (λ a b, String.ltb a.1 b.1) (map_to_list (targets s)).

(** The targets are asked one after the other when the lock has been released; [Progress]
    is what they answer then: the generation and the two sequence numbers. *)
Definition status_of (Progress : target → result (string * Z * Z)) (x : string * target * bool * string) : SyncerStatus :=
  let '(id, t, connected, e) := x in
  match Progress t with
  | Err _ => mkStatus id connected "target database unavailable" "" 0 0
  | Ok (g, r, a) => mkStatus id connected e g r a
  end.

Definition ListSyncers (Progress : target → result (string * Z * Z)) (authorization : list string) (s : Service) :
    result (string * string * list SyncerStatus) :=
  _ ← fail_if (negb (admin authorization s)) (status_Error Unauthenticated "invalid administrator credentials");
  let '(configHash, reloadError, entries) := (Hash (cfg s), reloadError s, listed s) in
  Ok (configHash, reloadError, status_of Progress <$> entries).

(** The answer of [ReloadConfig], after the authentication, for the outcome of the
    reload. *)
Definition ReloadConfig (authorization : list string) (reload : Service → Service * result unit) (s : Service) :
    Service * result string :=
  if negb (admin authorization s) then (s, Err (status_Error Unauthenticated "invalid administrator credentials"))
  else
    match reload s with
    | (s', Ok _) => (s', Ok (Hash (cfg s')))
    | (s', Err e) => (s', Err (status_Error FailedPrecondition (error_text e)))
    end.

(** A reload with nothing beside it: the loop visits the replaced targets. *)
Definition reload (open : Syncer → result unit) (identity : target → result string) (load : result Config)
    (key_pair : string → string → result unit) (s : Service) : Service * result unit :=
  match reload_open open identity load key_pair s with
  | (s1, Err e) => (s1, Err e)
  | (s1, Ok p) =>
      (foldl (λ s kv, reload_close p kv.1 kv.2 s) (reload_swap p s1) (map_to_list (oldTargets p)), Ok tt)
  end.

(** ** Streams and reloads side by side *)

(** A reload under way: before its swap, or closing the targets that remain. *)
Inductive flight :=
  | Opened (p : pending)
  | Closing (p : pending) (rest : gmap string target).

(** [conns]: the target each stream that runs has acquired. *)
Record world := mkWorld {
  svc : Service;
  conns : gmap string target;
  flights : gmap nat flight
}.

Inductive step :=
  | Acquire (id : string)
  | Release (id : string)
  | ReloadOpen (k : nat) (load : result Config) (key_pair : string → string → result unit)
      (open : Syncer → result unit) (identity : target → result string)
  | ReloadSwap (k : nat)
  | ReloadClose (k : nat) (id : string).

(** One step; [serial] admits a reload only when no other is under way. *)
Definition take_step (serial : bool) (a : step) (w : world) : option world :=
  match a with
  | Acquire id =>
      match acquire id (svc w) with
      | Ok (t, _, s) => Some (mkWorld s (<[id := t]> (conns w)) (flights w))
      | Err _ => Some w
      end
  | Release id =>
      t ← conns w !! id;
      Some (mkWorld (release id t (svc w)) (delete id (conns w)) (flights w))
  | ReloadOpen k load key_pair open identity =>
      if (serial && negb (bool_decide (flights w = ∅))) || bool_decide (is_Some (flights w !! k)) then None
      else
        match reload_open open identity load key_pair (svc w) with
        | (s, Ok p) => Some (mkWorld s (conns w) (<[k := Opened p]> (flights w)))
        | (s, Err _) => Some (mkWorld s (conns w) (flights w))
        end
  | ReloadSwap k =>
      match flights w !! k with
      | Some (Opened p) =>
          Some (mkWorld (reload_swap p (svc w)) (conns w)
            (if bool_decide (oldTargets p = ∅) then delete k (flights w) else <[k := Closing p (oldTargets p)]> (flights w)))
      | _ => None
      end
  | ReloadClose k id =>
      match flights w !! k with
      | Some (Closing p rest) =>
          item ← rest !! id;
          let rest := delete id rest in
          Some (mkWorld (reload_close p id item (svc w)) (conns w)
            (if bool_decide (rest = ∅) then delete k (flights w) else <[k := Closing p rest]> (flights w)))
      | _ => None
      end
  end.

Fixpoint take_steps (serial : bool) (l : list step) (w : world) : option world :=
  match l with
  | [] => Some w
  | a :: l' => w' ← take_step serial a w; take_steps serial l' w'
  end.

(** ** No target in use is closed *)

Section invariant.
(** The syncer a target was opened for. *)
Variable owner : nat → string.

(** The targets of a table belong to their ids and are open. *)
Definition owned (s : Service) (m : gmap string target) : Prop :=
  ∀ id t, m !! id = Some t → owner (handle t) = id ∧ handle t ∈ live s.

(** A target no table uses. *)
Definition unused (h : nat) (m : gmap string target) : Prop :=
  ∀ t, m !! owner h = Some t → handle t ≠ h.

(** Every syncer of a configuration has a target. *)
Definition covered (c : Config) (m : gmap string target) : Prop := ∀ y, y ∈ Syncers c → is_Some (m !! ID y).

Definition flight_ok (w : world) (f : flight) : Prop :=
  match f with
  | Opened p =>
      oldTargets p = targets (svc w) ∧ owned (svc w) (opened p) ∧ covered (candidate p) (opened p) ∧
      ∀ id t u, opened p !! id = Some t → conns w !! id = Some u → handle t = handle u →
        handle <$> targets (svc w) !! id = Some (handle t)
  | Closing p rest =>
      targets (svc w) = opened p ∧ ∀ id t, rest !! id = Some t → owner (handle t) = id
  end.

Record Inv (w : world) : Prop := {
  inv_targets : owned (svc w) (targets (svc w));
  inv_conns : owned (svc w) (conns w);
  inv_covered : covered (cfg (svc w)) (targets (svc w));
  inv_connected : ∀ id, is_connected (svc w) id = true ↔ is_Some (conns w !! id);
  inv_fresh : ∀ h, h ∈ live (svc w) → (h < allocated (svc w))%nat;
  inv_one : ∀ k k' f f', flights w !! k = Some f → flights w !! k' = Some f' → k = k';
  inv_flights : ∀ k f, flights w !! k = Some f → flight_ok w f
}.

Lemma owned_close s m h : owned s m → unused h m → owned (Close_target h s) m.
Proof.
  intros Hm Hu id t Ht. destruct (Hm id t Ht) as [Ho Hl]. split; [done|].
  cbn. apply elem_of_difference. split; [done|]. intros E%elem_of_singleton. apply (Hu t); [|done].
  by rewrite <-E, Ho.
Qed.

Lemma is_connected_set s id b id' : is_connected (set_connected id b s) id' = if decide (id = id') then b else is_connected s id'.
Proof.
  unfold is_connected, set_connected. cbn. destruct (decide (id = id')) as [->|Hne].
  - by rewrite lookup_insert_eq.
  - by rewrite lookup_insert_ne.
Qed.

Lemma Acquire_Inv id w w' : Inv w → take_step true (Acquire id) w = Some w' → Inv w'.
Proof.
  intros [Ht Hc Hv Hn Hf Ho Hfl]. cbn [take_step]. unfold acquire.
  destruct (targets (svc w) !! id) as [t|] eqn:Et; [|by intros [= <-]; split].
  go. destruct (is_connected _ _) eqn:Ec; [by intros [= <-]; split|]. intros [= <-].
  destruct (Ht id t Et) as [How Hlv]. split; cbn; [done| |done| |done|done|].
  - intros i u [[<- <-]|[Hne Hu]]%lookup_insert_Some; [done|by apply Hc].
  - intros i. rewrite is_connected_set. destruct (decide (id = i)) as [->|Hne].
    + by rewrite lookup_insert_eq.
    + by rewrite lookup_insert_ne.
  - intros k f Hk. specialize (Hfl k f Hk). destruct f as [p|p rest]; [|done].
    destruct Hfl as (E1 & E2 & E3 & E4). split_and!; [done..|]. cbn. intros i u v Hu.
    intros [[<- <-]|[Hne Hv']]%lookup_insert_Some E; [by rewrite Et, E|by eapply E4].
Qed.

(** Closing a target that neither table uses. *)
Lemma Close_Inv w h : Inv w → unused h (targets (svc w)) → unused h (conns w) →
  (∀ k p, flights w !! k = Some (Opened p) → unused h (opened p)) →
  Inv (mkWorld (Close_target h (svc w)) (conns w) (flights w)).
Proof.
  intros [Ht Hc Hv Hn Hf Ho Hfl] Hut Huc Huo. split; cbn; [by apply owned_close|by apply owned_close|done|done| |done|].
  - intros x [Hx _]%elem_of_difference. by apply Hf.
  - intros k f Hk. specialize (Hfl k f Hk). destruct f as [p|p rest]; [|done].
    destruct Hfl as (E1 & E2 & E3 & E4). split_and!; [done| |done|done]. cbn. apply owned_close; [done|by eapply Huo].
Qed.

Lemma Release_Inv id w w' : Inv w → take_step true (Release id) w = Some w' → Inv w'.
Proof.
  intros HI. cbn [take_step]. destruct (conns w !! id) as [t|] eqn:Et; [|done]. intros [= <-].
  pose proof HI as [Ht Hc Hv Hn Hf Ho Hfl]. destruct (Hc id t Et) as [How Hlv].
  assert (Inv (mkWorld (set_connected id false (svc w)) (delete id (conns w)) (flights w))) as HI1.
  { split; cbn; [done| |done| |done|done|].
    - intros i u [_ Hu]%lookup_delete_Some. by apply Hc.
    - intros i. rewrite is_connected_set. destruct (decide (id = i)) as [->|Hne].
      + rewrite lookup_delete_eq. split; [done|by intros [? ?]].
      + by rewrite lookup_delete_ne.
    - intros k f Hk. specialize (Hfl k f Hk). destruct f as [p|p rest]; [|done].
      destruct Hfl as (E1 & E2 & E3 & E4). split_and!; [done..|]. cbn.
      intros i u v Hu [_ Hv']%lookup_delete_Some. by eapply E4. }
  unfold release. destruct (retiring _ id t) eqn:Er; [|done].
  unfold retiring in Er. apply negb_true_iff, bool_decide_eq_false in Er. cbn in Er.
  apply (Close_Inv _ (handle t) HI1); unfold unused; cbn; rewrite How.
  - intros u Hu E. apply Er. by rewrite Hu, <-E.
  - intros u. by rewrite lookup_delete_eq.
  - intros k p Hk u Hu E. destruct (Hfl k _ Hk) as (_ & _ & _ & E4). apply Er.
    rewrite (E4 id u t Hu Et E). by rewrite E.
Qed.

(** The one reload under way goes on as [g] or ends. *)
Lemma flights_update (fl : gmap nat flight) k f g (b : bool) :
  (∀ i j x y, fl !! i = Some x → fl !! j = Some y → i = j) → fl !! k = Some f →
  let fl' := if b then delete k fl else <[k := g]> fl in
  (∀ i j x y, fl' !! i = Some x → fl' !! j = Some y → i = j) ∧ (∀ i x, fl' !! i = Some x → x = g).
Proof.
  intros Ho Hk fl'. assert (∀ i x, fl' !! i = Some x → i = k ∧ x = g) as H.
  { unfold fl'. intros i x. destruct b.
    - intros [Hne Hi]%lookup_delete_Some. by destruct (Ho k i _ _ Hk Hi).
    - intros [[<- <-]|[Hne Hi]]%lookup_insert_Some; [done|]. by destruct (Ho k i _ _ Hk Hi). }
  split; [|by intros i x Hi; apply H in Hi as []]. intros i j x y Hi Hj. apply H in Hi as [-> _], Hj as [-> _]. done.
Qed.

Lemma ReloadSwap_Inv k w w' : Inv w → take_step true (ReloadSwap k) w = Some w' → Inv w'.
Proof.
  intros [Ht Hc Hv Hn Hf Ho Hfl]. cbn [take_step].
  destruct (flights w !! k) as [[p|]|] eqn:Ek; [|done..]. intros [= <-].
  destruct (Hfl k _ Ek) as (E1 & E2 & E3 & E4).
  destruct (flights_update _ k _ (Closing p (oldTargets p)) (bool_decide (oldTargets p = ∅)) Ho Ek) as [Hone Hall].
  split; cbn; [done..|]. intros i f Hi. apply Hall in Hi as ->.
  cbn. split; [done|]. rewrite E1. intros id t Htt. by apply Ht.
Qed.

Lemma ReloadClose_Inv k id w w' : Inv w → take_step true (ReloadClose k id) w = Some w' → Inv w'.
Proof.
  intros HI. cbn [take_step]. destruct (flights w !! k) as [[|p rest]|] eqn:Ek; [done| |done].
  destruct (rest !! id) as [item|] eqn:Ei; [|done]. intros [= <-].
  pose proof HI as [Ht Hc Hv Hn Hf Ho Hfl]. destruct (Hfl k _ Ek) as [E1 E2]. cbn [default from_option].
  destruct (flights_update _ k _ (Closing p (delete id rest)) (bool_decide (delete id rest = ∅)) Ho Ek) as [Hone Hall].
  set (fl := if bool_decide _ then _ else _) in *.
  assert (Inv (mkWorld (svc w) (conns w) fl)) as HI1.
  { split; cbn; [done..|]. intros i f Hi. apply Hall in Hi as ->. cbn. split; [done|].
    intros i' u [_ Hu]%lookup_delete_Some. by apply E2. }
  unfold reload_close. destruct (_ && _) eqn:Eb; [|done].
  apply andb_true_iff in Eb as [Eb%negb_true_iff%bool_decide_eq_false Ec%negb_true_iff].
  apply (Close_Inv _ (handle item) HI1); unfold unused; cbn; rewrite (E2 id item Ei).
  - rewrite E1. intros u Hu E. apply Eb. by rewrite Hu, <-E.
  - intros u Hu. exfalso. apply not_true_iff_false in Ec. apply Ec, Hn. by rewrite Hu.
  - intros i q Hq. by apply Hall in Hq.
Qed.
End invariant.

(** ** Opening targets for a new configuration *)

(** What the tables hold while a reload that began at [n0] opens targets: kept
    targets of [old], or new ones. *)
Definition opening (owner : nat → string) (old : gmap string target) (n0 n : nat) (lv : gset nat)
    (m : gmap string target) : Prop :=
  (n0 ≤ n)%nat ∧ (∀ h, h ∈ lv → (h < n)%nat) ∧
  (∀ id t, m !! id = Some t → owner (handle t) = id ∧ handle t ∈ lv ∧ (old !! id = Some t ∨ (n0 ≤ handle t)%nat)).

Lemma open_syncers_spec open format keep old n0 l n lv m n' lv' m' r owner :
  open_syncers open format keep l n lv m = (n', lv', m', r) →
  (∀ y t, keep y = Some t → old !! ID y = Some t) →
  (∀ id t, old !! id = Some t → owner (handle t) = id ∧ handle t ∈ lv) →
  opening owner old n0 n lv m →
  ∃ owner', (∀ h, (h < n)%nat → owner' h = owner h) ∧ lv ⊆ lv' ∧ opening owner' old n0 n' lv' m'.
Proof.
  intros E Hk. revert n lv m owner E. induction l as [|y l IH]; intros n lv m owner; cbn [open_syncers].
  { intros [= <- <- <- <-] _ Ho. by exists owner. }
  destruct (keep y) as [t|] eqn:Ek.
  { intros E Hold (H1 & H2 & H3). eapply IH; [done..|]. split_and!; [done..|].
    intros id u [[<- <-]|[Hne Hu]]%lookup_insert_Some; [|by apply H3].
    apply Hk in Ek. destruct (Hold _ _ Ek). split_and!; [done..|by left]. }
  destruct (open y); [|intros [= <- <- <- <-] _ Ho; by exists owner].
  intros E Hold (H1 & H2 & H3). set (owner1 h := if decide (h = n) then ID y else owner h).
  assert (∀ h, (h < n)%nat → owner1 h = owner h) as Hext by (intros h Hh; unfold owner1; case_decide; [lia|done]).
  destruct (IH _ _ _ owner1 E) as (owner' & Hx & Hs & Ho).
  - intros id t Ht. destruct (Hold id t Ht). rewrite Hext by auto. split; [done|set_solver].
  - split_and!; [lia| |].
    + intros h [->%elem_of_singleton|Hh]%elem_of_union; [lia|]. specialize (H2 h Hh). lia.
    + intros id t [[<- <-]|[Hne Ht]]%lookup_insert_Some; cbn.
      * unfold owner1. rewrite decide_True by done. split_and!; [done|set_solver|by right].
      * destruct (H3 id t Ht) as (Ha & Hb & Hc). rewrite Hext by auto. split_and!; [done|set_solver|done].
  - exists owner'. split_and!; [|set_solver|done]. intros h Hh. rewrite Hx by lia. by apply Hext.
Qed.

Lemma open_syncers_covers open format keep l n lv m n' lv' m' :
  open_syncers open format keep l n lv m = (n', lv', m', Ok tt) →
  (∀ id, is_Some (m !! id) → is_Some (m' !! id)) ∧ ∀ y, y ∈ l → is_Some (m' !! ID y).
Proof.
  revert n lv m. induction l as [|y l IH]; intros n lv m; cbn [open_syncers].
  { intros [= <- <- <-]. split; [done|]. set_solver. }
  assert (∀ n lv t, open_syncers open format keep l n lv (<[ID y := t]> m) = (n', lv', m', Ok tt) →
    (∀ id, is_Some (m !! id) → is_Some (m' !! id)) ∧ ∀ x, x ∈ y :: l → is_Some (m' !! ID x)) as H.
  { intros n1 lv1 t [Ha Hb]%IH. split.
    - intros id Hid. apply Ha. by rewrite lookup_insert_is_Some'; right.
    - intros x [->|Hx]%elem_of_cons; [|by apply Hb]. apply Ha. by rewrite lookup_insert_eq. }
  destruct (keep y); [by apply H|]. destruct (open y); [by apply H|done].
Qed.

Lemma unchanged_old c old y t : unchanged c old y = Some t → old !! ID y = Some t.
Proof. unfold unchanged. by destruct (List.filter _ _); [|destruct (bool_decide _)]. Qed.

(** The invariant with the owners of the handles used so far. *)
Definition safe (w : world) : Prop := ∃ owner, Inv owner w.

(** More targets are open, and the handles used before keep their owners. *)
Lemma Inv_extend owner owner' w s fl : Inv owner w →
  (∀ h, (h < allocated (svc w))%nat → owner' h = owner h) →
  cfg s = cfg (svc w) → targets s = targets (svc w) → connected s = connected (svc w) →
  live (svc w) ⊆ live s → (∀ h, h ∈ live s → (h < allocated s)%nat) →
  (∀ k k' f f', fl !! k = Some f → fl !! k' = Some f' → k = k') →
  (∀ k f, fl !! k = Some f → flight_ok owner' (mkWorld s (conns w) fl) f) →
  Inv owner' (mkWorld s (conns w) fl).
Proof.
  intros [Ht Hc Hv Hn Hf Ho Hfl] Hx Ecfg Et Ec Hl Hlt Hone Hfok.
  assert (∀ m, owned owner (svc w) m → owned owner' s m) as Hown.
  { intros m Hm id t Hid. destruct (Hm id t Hid). rewrite Hx by auto. split; [done|by apply Hl]. }
  split; cbn; [rewrite Et; by apply Hown|by apply Hown|by rewrite Ecfg, Et| |done|done|done].
  intros id. unfold is_connected. rewrite Ec. apply Hn.
Qed.

Lemma elem_of_handles h m : h ∈ handles m ↔ ∃ id t, m !! id = Some t ∧ handle t = h.
Proof.
  unfold handles. rewrite elem_of_list_to_set, list_elem_of_fmap. split.
  - intros ([id t] & -> & Hin%elem_of_map_to_list). eauto.
  - intros (id & t & Hm & <-). exists (id, t). split; [done|by apply elem_of_map_to_list].
Qed.

(** The targets of a failed reload are all new. *)
Lemma opened_new_handles owner old n0 n lv m h : opening owner old n0 n lv m →
  h ∈ handles (opened_new old m) → (n0 ≤ h)%nat.
Proof.
  intros (_ & _ & H3) (id & t & [Hm Hne]%map_lookup_filter_Some & <-)%elem_of_handles. cbn in Hne.
  destruct (H3 id t Hm) as (_ & _ & [E|]); [|done]. by rewrite E in Hne.
Qed.

Lemma ReloadOpen_safe k load kp open identity w w' : safe w →
  take_step true (ReloadOpen k load kp open identity) w = Some w' → safe w'.
Proof.
  intros [owner HI]. pose proof HI as [Ht Hc Hv Hn Hf Ho Hfl]. cbn [take_step].
  destruct (bool_decide_reflect (flights w = ∅)) as [Hfe|]; [|done]. cbn [negb andb orb].
  destruct (bool_decide _); [done|]. unfold reload_open.
  assert (∀ e, safe (mkWorld (setReloadError e (svc w)) (conns w) (flights w))) as Hfail.
  { intros e. exists owner. apply (Inv_extend owner owner w (setReloadError e (svc w)) (flights w)); done. }
  destruct load as [c|e]; [|intros [= <-]; apply Hfail].
  destruct (StaticEqual _ _); [|intros [= <-]; apply Hfail]. cbn [negb].
  destruct (kp _ _); [|intros [= <-]; apply Hfail].
  destruct (open_syncers _ _ _ _ _ _ _) as [[[n lv] m] r] eqn:Eo.
  destruct (open_syncers_spec _ _ _ (targets (svc w)) (allocated (svc w)) _ _ _ _ _ _ _ _ owner Eo)
    as (owner' & Hx & Hl & Hop); [apply unchanged_old|done|split_and!; [done|done|by intros ? ? [=]]|].
  assert (∀ e, safe (mkWorld (setReloadError e (set_live n (lv ∖ handles (opened_new (targets (svc w)) m)) (svc w)))
                (conns w) (flights w))) as Hfail2.
  { intros e. exists owner'. apply (Inv_extend owner owner' w); try done; cbn.
    - intros h Hh. apply elem_of_difference. split; [by apply Hl|]. intros Hin.
      apply (opened_new_handles _ _ _ _ _ _ _ Hop) in Hin. specialize (Hf h Hh). lia.
    - intros h [Hh _]%elem_of_difference. by apply Hop.
    - intros i f. by rewrite Hfe, lookup_empty. }
  destruct r as [[]|e]; [|intros [= <-]; apply Hfail2]. cbn [mbind result_bind].
  destruct (validateTargetOverlap _ _) as [|e]; intros [= <-]; [|apply Hfail2].
  exists owner'. apply (Inv_extend owner owner' w); try done; cbn; [by apply Hop| |].
  - intros i j f f'. rewrite Hfe. intros [-> _]%lookup_singleton_Some [-> _]%lookup_singleton_Some. done.
  - intros i f. rewrite Hfe. intros [_ <-]%lookup_singleton_Some. cbn. destruct Hop as (_ & _ & H3). split_and!; [done| | |].
    + intros id t Hid. by destruct (H3 id t Hid) as (? & ? & _).
    + apply open_syncers_covers in Eo as [_ Hcov]. exact Hcov.
    + intros id t u Hid Hu E. destruct (H3 id t Hid) as (_ & _ & [->|Hge]); [done|].
      destruct (Hc id u Hu) as [_ Hlu]. specialize (Hf _ Hlu). lia.
Qed.

Lemma take_step_safe a w w' : safe w → take_step true a w = Some w' → safe w'.
Proof.
  intros Hw E. destruct a; [| |by eapply ReloadOpen_safe| |]; destruct Hw as [owner HI]; exists owner.
  - by eapply Acquire_Inv.
  - by eapply Release_Inv.
  - by eapply ReloadSwap_Inv.
  - by eapply ReloadClose_Inv.
Qed.

Lemma take_steps_safe l w w' : safe w → take_steps true l w = Some w' → safe w'.
Proof.
  revert w. induction l as [|a l IH]; intros w Hw; cbn [take_steps]; [by intros [= <-]|].
  destruct (take_step _ _ _) as [w1|] eqn:E; [|done]. apply IH. by eapply take_step_safe.
Qed.

(** A service that has just started. *)
Lemma New_safe open identity kp c s : New open identity kp c = (s, Ok tt) → safe (mkWorld s ∅ ∅).
Proof.
  unfold New. destruct (kp _ _); [|done]. unfold openTargets. cbn.
  destruct (open_syncers _ _ _ _ _ _ _) as [[[n lv] m] r] eqn:Eo.
  destruct (open_syncers_spec _ _ _ ∅ 0 _ _ _ _ _ _ _ _ (λ _, "") Eo) as (owner & _ & _ & _ & Hlt & Hm);
    [done|by intros ? ? [=]|split_and!; [done|set_solver|by intros ? ? [=]]|].
  destruct r as [[]|]; [|done]. cbn. destruct (validateTargetOverlap _ _); intros [= <-].
  exists owner. split; cbn; [|by intros ? ? [=]| | |done|by intros ? ? ? ? [=]|by intros ? ? [=]].
  - intros id t Hid. by destruct (Hm id t Hid) as (? & ? & _).
  - apply open_syncers_covers in Eo as [_ Hcov]. exact Hcov.
  - intros id. rewrite lookup_empty. split; [done|by intros [? ?]].
Qed.

(** C32 While reloads run one at a time, beside any number of streams that start and
    end at any point, no target is used after it was closed: the targets the
    service hands out and those the running streams hold are open, every syncer of
    the configuration in force has a target, and an id has a stream exactly if it is
    marked connected. *)
Theorem no_use_after_close open identity kp c s l w :
  New open identity kp c = (s, Ok tt) → take_steps true l (mkWorld s ∅ ∅) = Some w →
  (∀ id t, targets (svc w) !! id = Some t → handle t ∈ live (svc w)) ∧
  (∀ id t, conns w !! id = Some t → handle t ∈ live (svc w)) ∧
  covered (cfg (svc w)) (targets (svc w)) ∧
  (∀ id, is_connected (svc w) id = true ↔ is_Some (conns w !! id)).
Proof.
  intros Hs%New_safe Hl. destruct (take_steps_safe _ _ _ Hs Hl) as [owner [Ht Hc Hv Hn _ _ _]].
  split_and!; [by intros id t [_ ?]%Ht|by intros id t [_ ?]%Hc|done|done].
Qed.

(** ** Runs *)

Definition demo_syncer (token : string) : Syncer :=
  mkSyncer "a" token (PostgresConfig.mk "postgres://target" "public" "go_sync_meta") [mkTable "public" "orders"] [] false
    FileStorage_zero.
Definition demo_cfg (token : string) : Config := demo_config [demo_syncer token].

Definition demo_open (_ : Syncer) : result unit := Ok tt.
Definition demo_identity (_ : target) : result string := Ok "instance".
Definition demo_service : Service := (New demo_open demo_identity demo_keys (demo_cfg "one")).1.
Definition demo_start : world := mkWorld demo_service ∅ ∅.

Definition reload_step (k : nat) (token : string) : step :=
  ReloadOpen k (Ok (demo_cfg token)) demo_keys demo_open demo_identity.

(** A stream that outlives a reload: its target is closed when it ends. *)
Definition demo_steps : list step :=
  [Acquire "a"; reload_step 0 "two"; ReloadSwap 0; ReloadClose 0 "a"; Release "a"; Acquire "a"].
Definition demo_end : world := default demo_start (take_steps true demo_steps demo_start).

Lemma no_use_after_close_witness :
  take_steps true demo_steps demo_start = Some demo_end ∧
  (∀ id t, targets (svc demo_end) !! id = Some t → handle t ∈ live (svc demo_end)).
Proof.
  assert (take_steps true demo_steps demo_start = Some demo_end) as E by (vm_compute; reflexivity).
  split; [exact E|].
  refine (proj1 (no_use_after_close demo_open demo_identity demo_keys (demo_cfg "one") demo_service demo_steps demo_end _ E)).
  vm_compute. reflexivity.
Defined.

Lemma demo_end_live : elements (live (svc demo_end)) = [1%nat].
Proof. vm_compute. reflexivity. Qed.

(** Two reloads at once: the second was read when the configuration had been
    changed back, and keeps the target the first one closes. *)
Definition race_steps : list step :=
  [reload_step 0 "two"; reload_step 1 "one"; ReloadSwap 0; ReloadClose 0 "a"; ReloadSwap 1; ReloadClose 1 "a"].
Definition race_end : world := default demo_start (take_steps false race_steps demo_start).

Lemma reload_race : take_steps false race_steps demo_start = Some race_end ∧
  handle <$> targets (svc race_end) !! "a" = Some 0%nat ∧ 0%nat ∉ live (svc race_end).
Proof. split_and!; [vm_compute; reflexivity|vm_compute; reflexivity|]. by apply (bool_decide_unpack _). Qed.

(** Two reloads in a row while a stream holds the first target: the second target
    is never used, and nothing closes it. *)
Definition leak_steps : list step :=
  [Acquire "a"; reload_step 0 "two"; ReloadSwap 0; ReloadClose 0 "a"; reload_step 0 "three"; ReloadSwap 0;
   ReloadClose 0 "a"; Release "a"].
Definition leak_end : world := default demo_start (take_steps true leak_steps demo_start).

Lemma reload_leak : take_steps true leak_steps demo_start = Some leak_end ∧
  elements (live (svc leak_end)) = [2; 1]%nat ∧ handle <$> targets (svc leak_end) !! "a" = Some 2%nat ∧
  conns leak_end = ∅ ∧ flights leak_end = ∅.
Proof. split_and!; vm_compute; reflexivity. Qed.

End service.
