(* ===== verification/Watch.v ===== *)
(** * Watching the configuration of the server (internal/server/server.go, watch)

    A change of the configuration file starts a timer; another change before it fires
    starts it again; when it fires the configuration is reloaded.  The timer is not
    stopped when the watch ends. *)

From S2P Require Import Prelude Bytes GoTime GoPath GoNet.

(** Operations of fsnotify *)
Definition op_Create : Z := 1.
Definition op_Write : Z := 2.
Definition op_Rename : Z := 8.

Definition quiet : Z := 500 * (second / 1000).

Inductive watched :=
  | Changed (name : string) (op : Z)
  | WatchError
  | WatchDone.

(** [filepath.Base] *)
Definition Base (path : string) : string :=
  let path' := rev_string (trim_left (Ascii.eqb slash) (rev_string path "")) "" in
  if String.eqb path "" then "."
  else if String.eqb path' "" then "/"
  else match cut_last slash path' with Some (_, b) => b | None => path' end.

(** A change of the configuration file. *)
Definition relevant (base : string) (x : watched) : bool :=
  match x with
  | Changed name op => String.eqb (Base name) base && negb (Z.land op (Z.lor op_Write (Z.lor op_Create op_Rename)) =? 0)
  | _ => false
  end.

(** The reloads that are started, by their times, for what happens at the given
    times; [timer] is when the timer fires. *)
Fixpoint watch (base : string) (timer : option Z) (l : list (Z * watched)) : list Z :=
  match l with
  | [] => option_list timer
  | (t, x) :: l' =>
      let fired := match timer with Some f => f <=? t | None => false end in
      let started := if fired then option_list timer else [] in
      let timer := if fired then None else timer in
      started ++
      match x with
      | WatchDone => option_list timer
      | _ => watch base (if relevant base x then Some (t + quiet) else timer) l'
      end
  end.

(** ** What is promised *)

(** The changes until the watch ends. *)
Fixpoint changes (base : string) (l : list (Z * watched)) : list Z :=
  match l with
  | [] => []
  | (_, WatchDone) :: _ => []
  | (t, x) :: l' => if relevant base x then t :: changes base l' else changes base l'
  end.

(** One reload for every run of changes without a quiet time, after the last of them. *)
Fixpoint debounce (ts : list Z) : list Z :=
  match ts with
  | [] => []
  | t :: ts' =>
      match ts' with
      | t' :: _ => if t + quiet <=? t' then t + quiet :: debounce ts' else debounce ts'
      | [] => [t + quiet]
      end
  end.

(** Times do not go back. *)
Definition in_order (l : list Z) : Prop := StronglySorted Z.le l.

Lemma changes_after base t l : Forall (Z.le t) l.*1 → Forall (Z.le t) (changes base l).
Proof.
  induction l as [|[t' x] l IH]; cbn; [done|]. intros [Ht Hl]%Forall_cons.
  destruct x; cbn; try case_if; auto; constructor; auto.
Qed.

Lemma changes_in_order base l : in_order l.*1 → in_order (changes base l).
Proof.
  induction l as [|[t x] l IH]; cbn; [constructor|]. intros [Hl Ht]%StronglySorted_inv.
  destruct x; cbn; try case_if; auto; [|constructor]. constructor; [by apply IH|by apply changes_after].
Qed.

(** A change that is followed by a quiet time. *)
Lemma debounce_quiet t ts : Forall (Z.le (t + quiet)) ts → debounce (t :: ts) = t + quiet :: debounce ts.
Proof. destruct ts as [|t' ts]; [done|]. intros [Ht _]%Forall_cons. cbn. by rewrite (proj2 (Z.leb_le _ _) Ht). Qed.

Lemma watch_debounce base l : in_order l.*1 →
  watch base None l = debounce (changes base l) ∧ ∀ t, watch base (Some (t + quiet)) l = debounce (t :: changes base l).
Proof.
  induction l as [|[t x] l IH]; cbn [watch changes fmap list_fmap fst]; [done|]. intros [Hl Ht]%StronglySorted_inv.
  destruct (IH Hl) as [IHn IHs]. split; [by destruct x; cbn; try case_if; rewrite ?IHn, ?IHs|]. intros t0.
  destruct (Z.leb_spec (t0 + quiet) t) as [Hf|Hf].
  - assert (Forall (Z.le (t0 + quiet)) (changes base l)) as Ha.
    { apply changes_after. eapply Forall_impl; [exact Ht|]. cbn. lia. }
    destruct x; cbn [relevant]; [case_if| |done]; rewrite ?IHn, ?IHs; cbn [option_list app]; [|by rewrite debounce_quiet..].
    rewrite (debounce_quiet t0); [done|]. constructor; [done|]. exact Ha.
  - destruct x; cbn [relevant]; [case_if| |done]; rewrite ?IHn, ?IHs; cbn [app]; [|done..].
    cbn [debounce]. by rewrite (proj2 (Z.leb_gt _ _)).
Qed.

Lemma debounce_covers ts t : in_order ts → t ∈ ts → ∃ f, f ∈ debounce ts ∧ t + quiet ≤ f.
Proof.
  revert t. induction ts as [|t0 ts IH]; intros t; [by intros _ ?%elem_of_nil|]. intros [Hs Hl]%StronglySorted_inv Ht.
  destruct ts as [|t1 ts]; [apply list_elem_of_singleton in Ht as ->; exists (t0 + quiet); split; [left|lia]|].
  assert (∀ f, f ∈ debounce (t1 :: ts) → f ∈ debounce (t0 :: t1 :: ts)) as Hin by (intros f Hf; cbn [debounce]; case_if; [by right|done]).
  apply elem_of_cons in Ht as [->|Ht].
  - apply Forall_cons in Hl as [Hl _]. destruct (IH t1 Hs) as (f & Hf & Hle); [left|]. exists f. split; [auto|lia].
  - destruct (IH t Hs Ht) as (f & Hf & Hle). exists f. auto.
Qed.

Lemma debounce_after t ts : in_order ts → Forall (Z.le t) ts → Forall (Z.le (t + quiet)) (debounce ts).
Proof.
  induction ts as [|t0 ts IH]; [done|]. intros [Hs Hl]%StronglySorted_inv [Ht Hts]%Forall_cons. specialize (IH Hs Hts).
  destruct ts as [|t1 ts]; [repeat constructor; lia|]. cbn [debounce] in *. case_if; [|done]. constructor; [lia|done].
Qed.

Lemma debounce_spaced ts : in_order ts → StronglySorted (λ a b, a + quiet ≤ b) (debounce ts).
Proof.
  induction ts as [|t0 ts IH]; [constructor|]. intros [Hs Hl]%StronglySorted_inv. specialize (IH Hs).
  destruct ts as [|t1 ts]; [repeat constructor|]. cbn [debounce]. case_if; [|done]. constructor; [done|].
  apply (debounce_after (t0 + quiet) (t1 :: ts)); [done|]. apply StronglySorted_inv in Hs as [_ Hs]. constructor; [done|].
  eapply Forall_impl; [exact Hs|]. cbn. lia.
Qed.

(** C40 Changes of the configuration are reloaded once they are quiet: there is one reload
    for every run of changes without a pause of half a second, half a second after the
    last of them; so every change is followed by a reload, and reloads start at least
    half a second apart. *)
Theorem watch_reloads base l : in_order l.*1 → let starts := watch base None l in
  starts = debounce (changes base l) ∧
  (∀ t, t ∈ changes base l → ∃ f, f ∈ starts ∧ t + quiet ≤ f) ∧
  StronglySorted (λ a b, a + quiet ≤ b) starts.
Proof.
  intros Hl starts. assert (starts = debounce (changes base l)) as -> by (by apply watch_debounce).
  pose proof (changes_in_order base l Hl). split_and!; [done| |by apply debounce_spaced]. intros t. by apply debounce_covers.
Qed.

(** An editor that writes a file twice. *)
Lemma watch_reloads_witness :
  watch "server.json" None [(0, Changed "/etc/server.json" 1); (1000, Changed "/etc/server.json" 2); (2000, Changed "/etc/other" 2)] = [1000 + quiet].
Proof.
  destruct (watch_reloads "server.json" [(0, Changed "/etc/server.json" 1); (1000, Changed "/etc/server.json" 2); (2000, Changed "/etc/other" 2)])
    as [H _]; [|exact H]. repeat constructor; discriminate.
Defined.
