(* ===== verification/App.v ===== *)
(** * The collector process (internal/app/app.go, errors.go)

    [Run] checks the configuration against the queue, starts the tasks of the
    collector, and writes its status to a file while it runs and when it ends.  What
    the tasks do is modelled elsewhere; here they are names, and how the group of
    them ends is an argument.  The data directory is a tree of files whose calls can
    fail. *)

From S2P Require Import Prelude Bytes Encoding Sha256 Json JsonStruct GoTime GoClock GoPath Config Event Queue QueueInv QueueSpec Disk ServerSession.

Module app.

Module Status.
Record t := mk {
  UpdatedAt : Z;
  Running : bool;
  State_ : State.t;
  FreeBytes : Z;
  QueueLimit : Z;
  OldestPendingAt : string;
  Error_ : string
}.
End Status.

(** ** Errors *)

(** [errors.As] for the errors of the PostgreSQL driver: the SQLSTATE of a
    [PgError], and whether there is a [ConnectError]. *)
Definition safeError (PgError : error → option string) (ConnectError : error → bool) (e : error) : string :=
  match PgError e with
  | Some code => "postgres error (sqlstate " +:+ code +:+ "); inspect database logs"
  | None =>
      if ConnectError e then "postgres connection failed; verify connectivity and credentials" else error_text e
  end.

(** [errors.Is(err, context.Canceled)] *)
Fixpoint is_canceled (e : error) : bool :=
  match e with
  | ErrCanceled => true
  | wrapf _ e => is_canceled e
  | errors_Join a b => is_canceled a || is_canceled b
  | _ => false
  end.

(** [errors.Join(result, err)] *)
Definition joined (r : result unit) (e : result unit) : result unit :=
  match r, e with
  | r, Ok _ => r
  | Ok _, Err e => Err e
  | Err a, Err b => Err (errors_Join a b)
  end.

(** ** The status file *)

Definition statusFile : list string := ["status.json"].
(** The name [os.CreateTemp] makes of the pattern. *)
Definition statusTemp (random : string) : list string := [".status-" +:+ random].

(** [text] is the status as indented JSON. *)
Definition writeStatus (random text : string) : disk unit :=
  let temp := statusTemp random in
  _ ← create temp 384;
  deferred (remove_if_exists temp) (
    _ ← on_error nothing (_ ← write temp text; nothing);
    _ ← nothing;
    Rename temp statusFile).

(** ** What is started *)

Inductive engine := Files | SQLServer | SQLServerLegacy | MySQL | Postgres.

(** [runCapture] *)
Definition runCapture (c : config.Config.t) : engine :=
  let e := config.Engine c in
  if String.eqb e "files" then Files
  else if String.eqb e "sqlserver" then SQLServer
  else if String.eqb e "sqlserver_legacy" then SQLServerLegacy
  else if String.eqb e "mysql" then MySQL
  else Postgres.

(** The engine whose tables can be scanned for a reconciliation. *)
Definition scanner (c : config.Config.t) : option engine :=
  let e := config.Engine c in
  if String.eqb e "postgres" then Some Postgres
  else if String.eqb e "mysql" then Some MySQL
  else if String.eqb e "sqlserver" then Some SQLServer
  else if String.eqb e "sqlserver_legacy" then Some SQLServerLegacy
  else None.

Inductive task := MetricsTask | CaptureTask (e : engine) (scan : option engine) | DeliveryTask (grpc : bool) | StatusTask.

Definition tasks (c : config.Config.t) : list task :=
  (if negb (String.eqb (config.Config.MetricsAddr c) "") then [MetricsTask] else []) ++
  [CaptureTask (runCapture c) (scanner c); DeliveryTask (String.eqb (config.DeliveryTransport c) "grpc"); StatusTask].

(** ** Watching the storage *)

Definition observed (c : config.Config.t) (q : Store) (free : result Z) (now : Z) : result Status.t :=
  st ← GetState q;
  free ← free;
  oldest ← match Peek q with
           | Ok (m, _) => Ok (Message.CreatedAt m)
           | Err ErrEmpty => Ok ""
           | Err e => Err e
           end;
  Ok (Status.mk now true st free (config.Config.QueueBytes c) oldest "").

(** [st.Bytes >= c.QueueBytes*8/10 || free < c.ReserveBytes*2] *)
Definition storage_low (c : config.Config.t) (s : Status.t) : bool :=
  (Z.quot (i64 (config.Config.QueueBytes c * 8)) 10 <=? State.Bytes (Status.State_ s)) ||
  (Status.FreeBytes s <? u64 (config.Config.ReserveBytes c * 2)).

Inductive log_line := NearingCapacity | CapacityRecovered.

(** The line that is logged, and the new [storageWarningAt]; [None] is the zero time. *)
Definition storage_line (low : bool) (now : Z) (warned : option Z) : option log_line * option Z :=
  if low then
    match warned with
    | None => (Some NearingCapacity, Some now)
    | Some t => if 60 * second <=? now - t then (Some NearingCapacity, Some now) else (None, warned)
    end
  else
    match warned with
    | None => (None, None)
    | Some _ => (Some CapacityRecovered, None)
    end.

(** What a round of the status task meets: the queue, the free space, the clock, and
    how writing the status ends. *)
Record round := mkRound { ro_queue : Store; ro_free : result Z; ro_now : Z; ro_written : result unit }.

(** The lines of the rounds with their times, and the error that ends the task. *)
Fixpoint monitor (c : config.Config.t) (l : list round) (warned : option Z) : list (Z * log_line) * result unit :=
  match l with
  | [] => ([], Err ErrCanceled)
  | r :: l' =>
      match observed c (ro_queue r) (ro_free r) (ro_now r), ro_written r with
      | Err e, _ | _, Err e => ([], Err e)
      | Ok s, Ok _ =>
          let '(line, warned') := storage_line (storage_low c s) (ro_now r) warned in
          let '(lines, res) := monitor c l' warned' in
          (match line with Some x => (ro_now r, x) :: lines | None => lines end, res)
      end
  end.

(** ** Running *)

(** What a run meets: opening the queue, listening for metrics, the queue when the
    tasks have ended, the first error of a task, whether the caller's context is
    done, the clock, the calls of the last status, and closing the queue. *)
Record run_io := mkRun {
  ru_open : result Store;
  ru_listen : result unit;
  ru_after : Store;
  ru_group : result unit;
  ru_done : bool;
  ru_now : Z;
  ru_random : string;
  ru_calls : list outcome;
  ru_close : result unit
}.

Section run.
Context (PgError : error → option string) (ConnectError : error → bool) (render : Status.t → string).

(** The deferred status. *)
Definition last_status (c : config.Config.t) (io : run_io) (r : result unit) : Status.t * result unit :=
  let '(st, r) := match GetState (ru_after io) with
                  | Ok st => (st, r)
                  | Err e => (State.zero, joined r (Err e))
                  end in
  let text := match r with
              | Err e => if is_canceled e then "" else safeError PgError ConnectError e
              | Ok _ => ""
              end in
  (Status.mk (ru_now io) false st 0 (config.Config.QueueBytes c) "" text, r).

(** The tasks that were started, the files of the data directory, and the result. *)
Definition Run (cwd : string) (c : config.Config.t) (io : run_io) (t : tree) : list task * tree * result unit :=
  match config.Validate cwd c, ru_open io with
  | Err e, _ => ([], t, Err e)
  | Ok _, Err e => ([], t, Err e)
  | Ok _, Ok q =>
      let age := default 0 (ParseDuration (config.Replay.MaxAge (config.Config.Replay_ c))) in
      let q := ConfigureReplay q age (config.Replay.MaxBytes (config.Config.Replay_ c)) in
      match GetState q with
      | Err e => ([], t, joined (Err e) (ru_close io))
      | Ok st =>
          if negb (String.eqb (State.Phase st) "") && negb (String.eqb (State.Fingerprint st) (config.Fingerprint c)) then
            ([], t, joined (Err (errors_New "configuration differs from persisted capture")) (ru_close io))
          else
            let '(started, r) :=
              match (if negb (String.eqb (config.Config.MetricsAddr c) "") then ru_listen io else Ok tt) with
              | Err e => ([], Err e)
              | Ok _ =>
                  (tasks c, match ru_group io with
                            | Err e => if ru_done io && is_canceled e then Ok tt else Err e
                            | Ok _ => Ok tt
                            end)
              end in
            let '(s, r) := last_status c io r in
            let '(_, t', w) := writeStatus (ru_random io) (render s) (ru_calls io) t in
            (started, t', joined (joined r w) (ru_close io))
      end
  end.
End run.

End app.
