(* ===== verification/AppProps.v ===== *)
(** * Correctness of the collector process

    The status file is always complete; a capture is not continued with another
    scope, but for what the fingerprint leaves out; and the warnings about storage are spaced. *)

From S2P Require Import Prelude Bytes Encoding Sha256 Json JsonStruct GoTime GoPath Config ConfigProps Event Queue QueueInv QueueSpec Disk ServerSession App.

Import app.

(** ** The status file *)

Lemma spec_writeStatus t0 random text : let temp := statusTemp random in let new := mkFile text 384 0 in
  spec (Disk.intact t0 statusFile new temp []) (λ t, t = t0) (writeStatus random text) (λ _, Disk.moved t0 statusFile new temp []).
Proof.
  intros temp new. assert (statusFile ≠ temp) as Hp by discriminate. assert (parent statusFile ≠ temp) as Hpp by discriminate.
  assert (statusFile ∉ [] ∧ temp ∉ []) as Hd by (split; by intros ?%elem_of_nil).
  apply (spec_weaken _ _ (Disk.before t0 statusFile temp []) _ _ (λ _, Disk.moved t0 statusFile new temp []));
    [|intros t ->; split; [|done]; by left|done].
  unfold writeStatus. fold temp. eapply spec_bind; [by apply spec_create|]. intros []. apply spec_replace; [done|done|].
  apply (spec_bind _ _ _ _ (λ _, Disk.staged t0 statusFile temp [] new)).
  { eapply spec_on_error; [|apply spec_nothing; done]. eapply spec_bind; [by apply spec_write|]. intros [].
    apply spec_nothing, staged_intact. }
  intros []. eapply spec_bind; [apply spec_nothing, staged_intact|]. intros []. by apply spec_Rename.
Qed.

(** ** Starting *)

(** What lets the tasks start. *)
Lemma Run_started PgError ConnectError render cwd c io t started t' r :
  Run PgError ConnectError render cwd c io t = (started, t', r) → started ≠ [] →
  config.Validate cwd c = Ok tt ∧ started = tasks c ∧ ∃ q st, ru_open io = Ok q ∧ GetState q = Ok st ∧
    (State.Phase st = "" ∨ State.Fingerprint st = config.Fingerprint c).
Proof.
  unfold Run. intros H Hne. destruct (config.Validate cwd c) as [[]|e]; [|by injection H as <-].
  destruct (ru_open io) as [q|e] eqn:Hq; [|by injection H as <-].
  change (GetState (ConfigureReplay q _ _)) with (GetState q) in H. destruct (GetState q) as [st|e] eqn:Hst; [|by injection H as <-].
  destruct (negb _ && negb _) eqn:Hg; [by injection H as <-|].
  assert (State.Phase st = "" ∨ State.Fingerprint st = config.Fingerprint c) as Hf.
  { apply andb_false_iff in Hg as [Hg|Hg]; bool_prop; auto. }
  destruct (if negb (String.eqb (config.Config.MetricsAddr c) "") then ru_listen io else Ok tt) as [u|e].
  - destruct (last_status _ _ _ _ _) as [s r'], (writeStatus _ _ _ _) as [[o w] r'']. injection H as <- <- <-.
    split_and!; [done|done|]. by exists q, st.
  - destruct (last_status _ _ _ _ _) as [s r'], (writeStatus _ _ _ _) as [[o w] r'']. by injection H as <-.
Qed.

(** ** Warnings *)

(** Two warnings without a recovery in between are a minute apart, and a recovery
    follows a warning. *)
Fixpoint spaced (warned : option Z) (l : list (Z * log_line)) : Prop :=
  match l with
  | [] => True
  | (t, NearingCapacity) :: l' => match warned with Some w => 60 * second ≤ t - w | None => True end ∧ spaced (Some t) l'
  | (t, CapacityRecovered) :: l' => warned ≠ None ∧ spaced None l'
  end.

(** ** The theorems *)

(** The status file is always whole: whatever calls fail, whatever write is torn, and
    wherever the process is killed, it is the one from before or has the complete new
    text; every other file of the data directory but the temporary one stays; and if
    writing succeeds the new text is there and no temporary file is left. *)
Theorem status_atomic random text o t o' t' r : writeStatus random text o t = (o', t', r) →
  (t' !! statusFile = t !! statusFile ∨ t' !! statusFile = Some (File (mkFile text 384 0))) ∧
  (∀ q, q ≠ statusFile → q ≠ statusTemp random → t' !! q = t !! q) ∧
  (r = Ok tt → t' !! statusFile = Some (File (mkFile text 384 0)) ∧ t' !! statusTemp random = None).
Proof.
  intros E. pose proof (spec_writeStatus t random text o t o' t' r eq_refl E) as H.
  assert (∀ t', Disk.kept t statusFile (statusTemp random) [] t' → ∀ q, q ≠ statusFile → q ≠ statusTemp random → t' !! q = t !! q) as Hk.
  { intros t1 H1 q Hq Hq'. destruct (H1 q Hq' Hq) as [?|(?%elem_of_nil & _)]; done. }
  destruct r as [[]|e].
  - destruct H as (H1 & H2 & H3 & _). split_and!; [by right|by apply Hk|done].
  - destruct H as [H1 H2]. split_and!; [done|by apply Hk|done].
Qed.

(** C37 A capture is not continued with another scope: if the tasks are started on a
    queue that holds a capture begun with an accepted configuration [a] (it has a phase
    and the fingerprint of [a], and the texts of both configurations are valid UTF-8),
    then the new configuration captures what [a] captures: the same engine, source id,
    tables and file columns up to their order, and the same slot, MySQL server id or
    watched tree.  There are two exceptions: a MySQL or files source with file columns,
    whose server id or watched tree may differ though all else agrees, and a SHA-256
    collision of the two hashed documents.  What is started is one capture, one
    delivery, the status task, and the metrics if they are configured. *)
Theorem run_scope PgError ConnectError render cwd a c io t started t' r q st :
  config.Validate cwd a = Ok tt → json_ok (config.fingerprint_document a) = true → json_ok (config.fingerprint_document c) = true →
  ru_open io = Ok q → GetState q = Ok st → State.Phase st ≠ "" → State.Fingerprint st = config.Fingerprint a →
  Run PgError ConnectError render cwd c io t = (started, t', r) → started ≠ [] →
  started = tasks c ∧
  (captures_alike a c ∨
   (same_scope a c ∧ config.Config.FileColumns c ≠ [] ∧ (config.Engine c = "mysql" ∨ config.Engine c = "files")) ∨
   print (config.fingerprint_document a) ≠ print (config.fingerprint_document c) ∧
     sha256 (print (config.fingerprint_document a)) = sha256 (print (config.fingerprint_document c))).
Proof.
  intros Ha Ja Jc Hq Hst Hph Hf H Hne. destruct (Run_started _ _ _ _ _ _ _ _ _ _ H Hne) as (Hc & -> & q' & st' & Hq' & Hst' & Hg).
  rewrite Hq in Hq'. injection Hq' as <-. rewrite Hst in Hst'. injection Hst' as <-. split; [done|].
  destruct Hg as [Hg|Hg]; [done|]. destruct (fingerprint_scope cwd a c) as [Hs|Hs]; [done..|congruence| |by right; right].
  destruct (same_scope_captures a c Hs) as [?|?]; [by left|right; by left].
Qed.

(** The warnings of the status task are spaced. *)
Lemma monitor_spaced c l warned : spaced warned (monitor c l warned).1.
Proof.
  revert warned. induction l as [|x l IH]; intros warned; [done|]. cbn [monitor].
  destruct (observed c (ro_queue x) (ro_free x) (ro_now x)) as [s|e]; [|done]. destruct (ro_written x) as [[]|e]; [|done].
  unfold storage_line. destruct (storage_low c s), warned as [w|]; try (case_if);
    match goal with |- context [monitor c l ?v] => specialize (IH v); destruct (monitor c l v) as [lines res] end; cbn in *; auto.
Qed.

(** ** Examples *)

(** The write of the status is torn. *)
Definition demo_status : list outcome * tree * result unit := writeStatus "1" "{}" [Disk.Done; Torn 1 "disk full"] ∅.

Lemma status_atomic_witness : demo_status.1.2 !! statusFile = None ∨ demo_status.1.2 !! statusFile = Some (File (mkFile "{}" 384 0)).
Proof.
  destruct (status_atomic "1" "{}" [Disk.Done; Torn 1 "disk full"] ∅ demo_status.1.1 demo_status.1.2 demo_status.2) as [H _].
  - exact (disk_outcome demo_status _ eq_refl).
  - exact H.
Defined.

(** A restart with the tables in another order. *)
Definition demo_persisted : Store * State.t * list Message.t :=
  let st := State.mk "v1" "orders" "g1" (config.Fingerprint ConfigProps.demo_order_1) "sys" 1 "db" "hash" "" "" "" "" "" 0 0 0 0 0 0 in
  let s := Open (mkDB None ∅) 100000 0 in default (s, State.zero, []) (exec [OInitialize st; OPublish "f:4" true ""] (s, State.zero, [])).

Definition demo_run_io : run_io :=
  mkRun (Ok demo_persisted.1.1) (Ok tt) demo_persisted.1.1 (Err ErrCanceled) true 0 "1" (replicate 8 Disk.Done) (Ok tt).
Notation demo_started := (Run (λ _, None) (λ _, false) (λ _, "{}") "/opt/sync" ConfigProps.demo_order_2 demo_run_io ∅) (only parsing).

Lemma run_outcome (x : list task * tree * result unit) : x = (x.1.1, x.1.2, x.2).
Proof. by destruct x as [[? ?] ?]. Qed.

Lemma run_scope_witness : demo_started.1.1 = tasks ConfigProps.demo_order_2 ∧
  (captures_alike ConfigProps.demo_order_1 ConfigProps.demo_order_2 ∨
   print (config.fingerprint_document ConfigProps.demo_order_1) ≠ print (config.fingerprint_document ConfigProps.demo_order_2) ∧
   sha256 (print (config.fingerprint_document ConfigProps.demo_order_1)) = sha256 (print (config.fingerprint_document ConfigProps.demo_order_2))).
Proof.
  destruct (run_scope (λ _, None) (λ _, false) (λ _, "{}") "/opt/sync" ConfigProps.demo_order_1 ConfigProps.demo_order_2 demo_run_io ∅
    demo_started.1.1 demo_started.1.2 demo_started.2 demo_persisted.1.1 demo_persisted.1.2) as [H1 H2].
  - vm_compute. reflexivity.
  - vm_compute. reflexivity.
  - vm_compute. reflexivity.
  - reflexivity.
  - vm_compute. reflexivity.
  - vm_compute. discriminate.
  - vm_compute. reflexivity.
  - apply run_outcome.
  - vm_compute. discriminate.
  - split; [exact H1|]. destruct H2 as [H2|[(_ & H2 & _)|H2]]; [left; exact H2|destruct H2; reflexivity|right; exact H2].
Defined.
