(* ===== verification/WinService.v ===== *)
(** * Windows services (internal/winservice, internal/serverwinservice)

    Both programs can run as a service of Windows: a handler that reports its state to
    the service manager and stops on request, and the commands that install, remove,
    start, stop and show the service.  The two packages differ in the names they
    accept, in what they run and in a few texts; what they share is modelled once.

    The service manager of Windows with its clock is an interface; the configuration,
    the paths, the executable and [svc.Run], which runs a handler as a service, are
    arguments. *)

From S2P Require Import Prelude Bytes Encoding GoTime GoNet Config App.

(** ** States and controls (package svc) *)

Definition Stopped : Z := 1.
Definition StartPending : Z := 2.
Definition StopPending : Z := 3.
Definition Running : Z := 4.
Definition ContinuePending : Z := 5.
Definition PausePending : Z := 6.
Definition Paused : Z := 7.

Definition cmd_Stop : Z := 1.
Definition cmd_Interrogate : Z := 4.
Definition cmd_Shutdown : Z := 5.

Definition stopTimeout : Z := 30 * second.
Definition poll_interval : Z := 250 * (second / 1000).

(** ** The handler *)

(** What the handler receives: the end of what it runs, a request with the current
    state, the end of the requests, or the end of the time to stop. *)
Inductive happening :=
  | Ended (r : result unit)
  | Request (cmd current : Z)
  | Closed
  | TimedOut.

Definition exit_code (r : result unit) : Z := match r with Ok _ => 0 | Err _ => 1 end.

(** After a request to stop: the end or the time-out, requests are not read. *)
Fixpoint stopping (l : list happening) : option Z :=
  match l with
  | [] => None
  | Ended r :: _ => Some (exit_code r)
  | TimedOut :: _ => Some 1
  | _ :: l' => stopping l'
  end.

(** The states that are reported and the exit code, if it came to an end.  [closed] is
    what the end of the requests means: the collector ends, the server does not test
    for it and receives requests without a command. *)
Fixpoint serve (closed : option Z) (l : list happening) : list Z * option Z :=
  match l with
  | [] => ([], None)
  | Ended r :: _ => ([], Some (exit_code r))
  | Closed :: l' => match closed with Some code => ([], Some code) | None => serve closed l' end
  | TimedOut :: l' => serve closed l'
  | Request cmd current :: l' =>
      if cmd =? cmd_Interrogate then let '(states, code) := serve closed l' in (current :: states, code)
      else if (cmd =? cmd_Stop) || (cmd =? cmd_Shutdown) then ([StopPending], stopping l')
      else serve closed l'
  end.

(** ** The service manager *)

(** A computation with the manager. *)
Definition call (M A : Type) := M → M * result A.
#[global] Instance call_ret M : MRet (call M) := λ A a m, (m, Ok a).
#[global] Instance call_bind M : MBind (call M) := λ A B f c m,
  match c m with (m', Ok a) => f a m' | (m', Err e) => (m', Err e) end.
Definition pure_call {M A : Type} (r : result A) : call M A := λ m, (m, r).

Record mgr_Config := mkMgr { DisplayName : string; Description : string; StartAutomatic : bool }.

(** A service is named by the handle that was opened. *)
Class ServiceManager (M : Type) := {
  mgr_Connect : call M unit;
  mgr_OpenService : string → call M unit;
  mgr_CreateService : string → string → mgr_Config → list string → call M unit;
  svc_Query : string → call M Z;
  svc_Control : string → Z → call M unit;
  svc_Start : string → call M unit;
  svc_Delete : string → call M unit;
  svc_Close : string → call M unit;
  time_Now : M → Z;
  time_Sleep : Z → M → M
}.

(** Time does not go backwards, and a sleep lasts as long as it should. *)
Class ServiceManagerLaws (M : Type) `{ServiceManager M} := {
  query_time name m : time_Now m ≤ time_Now (svc_Query name m).1;
  sleep_time d m : time_Now m + d ≤ time_Now (time_Sleep d m)
}.

Section manager.
Context {M : Type} `{ServiceManager M}.

(** [waitState]: the loop until the deadline. *)
Fixpoint wait_loop (fuel : nat) (name : string) (wanted deadline : Z) : call M unit := λ m,
  match fuel with
  | O => (m, Err (errors_New "fuel"))
  | S fuel' =>
      if time_Now m <? deadline then
        match svc_Query name m with
        | (m1, Err e) => (m1, Err e)
        | (m1, Ok state) =>
            if state =? wanted then (m1, Ok tt)
            else wait_loop fuel' name wanted deadline (time_Sleep poll_interval m1)
        end
      else (m, Err (errorf "timed out waiting for service state"))
  end.

Definition wait_fuel : nat := Z.to_nat (stopTimeout / poll_interval + 1).
Definition waitState (name : string) (wanted timeout : Z) : call M unit := λ m,
  wait_loop wait_fuel name wanted (time_Now m + timeout) m.

(** Opening a service whose name is accepted. *)
Definition open_service (valid : string → result unit) (name : string) : call M unit :=
  _ ← pure_call (valid name);
  _ ← mgr_Connect;
  mgr_OpenService name.

(** Stopping a service that is not stopped; an error of the control is passed through [wrap]. *)
Definition stop_service (wrap : error → error) (name : string) : call M unit := λ m,
  match svc_Control name cmd_Stop m with
  | (m1, Err e) => (m1, Err (wrap e))
  | (m1, Ok _) => waitState name Stopped stopTimeout m1
  end.

Definition uninstall_service (valid : string → result unit) (wrap : error → error) (name : string) : call M unit :=
  _ ← open_service valid name;
  state ← svc_Query name;
  _ ← (if state =? Stopped then mret tt else stop_service wrap name);
  svc_Delete name.

Definition start_service (valid : string → result unit) (name : string) : call M unit :=
  _ ← open_service valid name;
  svc_Start name.

Definition halt_service (valid : string → result unit) (name : string) : call M unit :=
  _ ← open_service valid name;
  state ← svc_Query name;
  if state =? Stopped then mret tt else stop_service id name.

Definition show_service (valid : string → result unit) (text : Z → string) (name : string) : call M string :=
  _ ← open_service valid name;
  state ← svc_Query name;
  mret (text state).

(** A service of that name must not exist. *)
Definition create_absent (name exe : string) (config : mgr_Config) (path : string) : call M unit := λ m,
  match mgr_OpenService name m with
  | (m1, Ok _) => ((svc_Close name m1).1, Err (errorf "service already exists"))
  | (m1, Err _) =>
      let create : call M unit :=
        _ ← mgr_CreateService name exe config ["service"; "run"; "--name"; name; "--config"; path];
        svc_Close name in
      create m1
  end.

Definition create_service (name exe : string) (config : mgr_Config) (path : string) : call M unit :=
  _ ← mgr_Connect;
  create_absent name exe config path.

(** Running as a service: the handler gets the absolute path of the configuration. *)
Definition run_service (Abs : string → result string) (svc_Run : string → string → call M unit) (name path : string) : call M unit :=
  absolute ← pure_call (Abs path);
  svc_Run name absolute.
End manager.

(** ** The collector (internal/winservice) *)

Module winservice.

(** [strings.ContainsAny] with a raw string: a backslash, an x and a 0 are characters
    of it, not the escape for nul. *)
Definition validateName (name : string) : result unit :=
  fail_if (String.eqb name "" || (256 <? slen name) || ContainsAny name "/\\\x00") (errorf "invalid service name").

(** The collector that was canceled ended without an error. *)
Definition runCollector (r : result unit) : result unit :=
  match r with Err e => if app.is_canceled e then Ok tt else Err e | Ok _ => Ok tt end.

Definition collector_end (h : happening) : happening :=
  match h with Ended r => Ended (runCollector r) | _ => h end.

(** The states, and the exit code if there is one; [Open] opens the log file. *)
Definition Execute (load : result config.Config.t) (Open : string → result unit) (l : list happening) : list Z * option Z :=
  match load with
  | Err _ => ([StartPending], Some 1)
  | Ok c =>
      let file := config.Log.File (config.Config.Log_ c) in
      match Open (if String.eqb file "" then "logs\go-sync.log" else file) with
      | Err _ => ([StartPending], Some 1)
      | Ok _ =>
          let '(states, code) := serve (Some 1) (collector_end <$> l) in ([StartPending; Running] ++ states, code)
      end
  end.

Section commands.
Context {M : Type} `{ServiceManager M}.
Context (IsAbs : string → bool) (Abs : string → result string) (Executable : result string).

Definition open (name : string) : call M unit := open_service validateName name.

Definition Run (svc_Run : string → string → call M unit) (name configPath : string) : call M unit := run_service Abs svc_Run name configPath.

Definition Install (Load : string → result config.Config.t) (name displayName configPath : string) : call M unit :=
  _ ← pure_call (validateName name);
  path ← pure_call (Abs configPath);
  c ← pure_call (match Load path with Ok c => Ok c | Err e => Err (wrapf "load service config: %w" e) end);
  _ ← pure_call (fail_if (negb (IsAbs (config.Config.DataDir c))) (errorf "service data_dir must be an absolute path"));
  exe ← pure_call Executable;
  exe ← pure_call (Abs exe);
  create_service name exe (mkMgr displayName "go-sync database change collector" true) path.

Definition Uninstall (name : string) : call M unit := uninstall_service validateName (wrapf "stop service: %w") name.
Definition Start (name : string) : call M unit := start_service validateName name.
Definition Stop (name : string) : call M unit := halt_service validateName name.

Definition state_text (state : Z) : string :=
  if state =? Stopped then "stopped"
  else if state =? StartPending then "start_pending"
  else if state =? StopPending then "stop_pending"
  else if state =? Running then "running"
  else if state =? PausePending then "pause_pending"
  else if state =? Paused then "paused"
  else if state =? ContinuePending then "continue_pending"
  else "unknown_" +:+ FormatInt state.

Definition Status (name : string) : call M string := show_service validateName state_text name.
End commands.
End winservice.

(** ** The server (internal/serverwinservice) *)

Module serverwinservice.

Definition validateName (name : string) : result unit := fail_if (negb (match_id name)) (errorf "invalid service name").

(** [New] opens the targets. *)
Definition Execute (load : result string) (Open : string → result unit) (New : result unit) (l : list happening) : list Z * option Z :=
  match load with
  | Err _ => ([StartPending], Some 1)
  | Ok file =>
      match Open (if String.eqb file "" then "logs\go-sync-server.log" else file), New with
      | Err _, _ | Ok _, Err _ => ([StartPending], Some 1)
      | Ok _, Ok _ => let '(states, code) := serve None l in ([StartPending; Running] ++ states, code)
      end
  end.

Section commands.
Context {M : Type} `{ServiceManager M}.
Context (Abs : string → result string) (Executable : result string).

Definition open (name : string) : call M unit := open_service validateName name.

Definition Run (svc_Run : string → string → call M unit) (name path : string) : call M unit := run_service Abs svc_Run name path.

Definition Install (Load : string → result unit) (name displayName path : string) : call M unit :=
  _ ← pure_call (validateName name);
  absolute ← pure_call (Abs path);
  _ ← pure_call (match Load absolute with Ok c => Ok c | Err e => Err (wrapf "load service config: %w" e) end);
  exe ← pure_call Executable;
  create_service name exe (mkMgr displayName "go-sync standard gRPC receiver" true) absolute.

Definition Uninstall (name : string) : call M unit := uninstall_service validateName id name.
Definition Start (name : string) : call M unit := start_service validateName name.
Definition Stop (name : string) : call M unit := halt_service validateName name.

Definition state_text (state : Z) : string :=
  if state =? Stopped then "stopped"
  else if state =? StartPending then "start_pending"
  else if state =? StopPending then "stop_pending"
  else if state =? Running then "running"
  else if state =? Paused then "paused"
  else "unknown_" +:+ FormatInt state.

Definition Status (name : string) : call M string := show_service validateName state_text name.
End commands.
End serverwinservice.
