(* ===== verification/WinServiceProps.v ===== *)
(** * Correctness of the Windows services

    Waiting for a state is bounded and decides; a service is removed only when it was
    seen stopped; the handler reports its states in order and ends after a request to
    stop; and which names the two programs accept. *)

From S2P Require Import Prelude Bytes Encoding GoTime GoNet Config App WinService.

Lemma stop_polls : stopTimeout = Z.of_nat 120 * poll_interval.
Proof. reflexivity. Qed.

Section waiting.
Context {M : Type} `{ServiceManagerLaws M}.

(** As many polls as fit before the deadline are enough. *)
Lemma wait_enough name wanted deadline k : ∀ m n, (S k ≤ n)%nat → deadline - time_Now m ≤ Z.of_nat k * poll_interval →
  wait_loop n name wanted deadline m = wait_loop (S k) name wanted deadline m.
Proof.
  induction k as [|k IH]; intros m [|n] Hn Ht; try lia; cbn [wait_loop]; destruct (Z.ltb_spec (time_Now m) deadline); try done; [lia|].
  destruct (svc_Query name m) as [m1 [state|e]] eqn:E; [|done]. destruct (state =? wanted); [done|]. apply IH; [lia|].
  pose proof (query_time name m) as Hq. rewrite E in Hq. pose proof (sleep_time poll_interval m1). cbn in Hq. lia.
Qed.

(** What waiting comes to. *)
Lemma wait_cases name wanted deadline k : ∀ m m' r, deadline - time_Now m ≤ Z.of_nat k * poll_interval →
  wait_loop (S k) name wanted deadline m = (m', r) →
  (r = Ok tt ∧ ∃ m1, time_Now m1 < deadline ∧ svc_Query name m1 = (m', Ok wanted)) ∨
  (∃ e m1, r = Err e ∧ svc_Query name m1 = (m', Err e)) ∨
  r = Err (errorf "timed out waiting for service state") ∧ deadline ≤ time_Now m'.
Proof.
  induction k as [|k IH]; intros m m' r Ht; cbn [wait_loop]; destruct (Z.ltb_spec (time_Now m) deadline);
    try (intros [= <- <-]; by right; right); [lia|].
  destruct (svc_Query name m) as [m1 [state|e]] eqn:E; [|intros [= <- <-]; right; left; by exists e, m].
  destruct (Z.eqb_spec state wanted) as [->|]; [intros [= <- <-]; left; split; [done|]; by exists m|]. apply IH.
  pose proof (query_time name m) as Hq. rewrite E in Hq. pose proof (sleep_time poll_interval m1). cbn in Hq. lia.
Qed.
End waiting.

(** ** Names *)

Lemma all_bytes_ext (A P Q : ascii → bool) s : (∀ c, A c = true → P c = Q c) → all_bytes A s = true → all_bytes P s = all_bytes Q s.
Proof. intros HPQ. induction s as [|c s IH]; cbn; [done|]. intros [? ?]%andb_true_iff. by rewrite HPQ, IH. Qed.

(** Of the characters of ordinary names the raw string has two. *)
Lemma raw_string c : is_alnum c || string_elem c "_.-" = true → string_elem c "/\\\x00" = string_elem c "x0".
Proof. destruct c as [[] [] [] [] [] [] [] []]; vm_compute; congruence. Qed.

(** ** The handler *)

Definition ends (h : happening) : bool := match h with Ended _ | TimedOut => true | _ => false end.

Lemma stopping_ends l : existsb ends l = true → stopping l ≠ None.
Proof. induction l as [|[] l IH]; cbn; auto. Qed.

Lemma stopping_zero l : stopping l = Some 0 → Ended (Ok tt) ∈ l.
Proof.
  induction l as [|[r| | |] l IH]; cbn; try done; [|intros; apply list_elem_of_further; auto..].
  destruct r as [[]|]; cbn; [left|discriminate].
Qed.

(** The states of the requests that ask for the state. *)
Definition asked (l : list happening) (currents : list Z) : Prop := Forall (λ s, Request cmd_Interrogate s ∈ l) currents.

Lemma asked_further h l currents : asked l currents → asked (h :: l) currents.
Proof. intros H. eapply Forall_impl; [exact H|]. intros s Hs. by right. Qed.

Lemma serve_states closed l : ∃ currents tail, (serve closed l).1 = currents ++ tail ∧ (tail = [] ∨ tail = [StopPending]) ∧ asked l currents.
Proof.
  assert (∀ l tail, tail = [] ∨ tail = [StopPending] → ∃ currents tail', tail = currents ++ tail' ∧ (tail' = [] ∨ tail' = [StopPending]) ∧ asked l currents) as Hend.
  { intros l' tail Ht. exists [], tail. split_and!; [done|done|constructor]. }
  induction l as [|h l (currents & tail & E & Ht & Hc)]; [by apply Hend; left|].
  assert (∃ currents tail, (serve closed l).1 = currents ++ tail ∧ (tail = [] ∨ tail = [StopPending]) ∧ asked (h :: l) currents) as Hfurther.
  { exists currents, tail. split_and!; [done|done|by apply asked_further]. }
  destruct h as [r|cmd current| |]; cbn [serve]; [by apply Hend; left| |destruct closed; [by apply Hend; left|done]|done].
  destruct (Z.eqb_spec cmd cmd_Interrogate) as [->|]; [|destruct (_ || _); [by apply Hend; right|done]].
  destruct (serve closed l) as [states code]. cbn in *. exists (current :: currents), tail. rewrite E. split_and!; [done|done|].
  constructor; [left|by apply asked_further].
Qed.

Lemma serve_zero closed l : closed ≠ Some 0 → (serve closed l).2 = Some 0 → Ended (Ok tt) ∈ l.
Proof.
  intros Hclosed. induction l as [|[r|cmd current| |] l IH]; cbn [serve]; try done.
  - destruct r as [[]|]; cbn; [left|discriminate].
  - destruct (_ =? _); [destruct (serve closed l); cbn in *; right; auto|].
    destruct (_ || _); [cbn; right; by apply stopping_zero|right; auto].
  - destruct closed; cbn; [congruence|right; auto].
  - right; auto.
Qed.

Lemma serve_ends closed l cmd current l' : (cmd = cmd_Stop ∨ cmd = cmd_Shutdown) → existsb ends l' = true →
  (serve closed (l ++ Request cmd current :: l')).2 ≠ None.
Proof.
  intros Hcmd Hl. assert (existsb ends (l ++ Request cmd current :: l') = true) as Hall.
  { rewrite existsb_app. cbn. rewrite Hl. apply orb_true_r. }
  induction l as [|[r|c s| |] l IH]; cbn [serve app] in *.
  - replace (cmd =? cmd_Interrogate) with false by (by destruct Hcmd; subst).
    replace ((cmd =? cmd_Stop) || (cmd =? cmd_Shutdown)) with true by (by destruct Hcmd; subst). by apply stopping_ends.
  - done.
  - destruct (_ =? _); [destruct (serve closed _); by apply IH|]. destruct (_ || _); [by apply stopping_ends|by apply IH].
  - destruct closed; [done|by apply IH].
  - apply IH. rewrite existsb_app. cbn. rewrite Hl. apply orb_true_r.
Qed.

(** ** The theorems *)

(** C38 Waiting for a state is bounded and decides: it polls at most as often as the
    interval fits into the time-out, 120 times, since more fuel makes no difference;
    it succeeds only when a poll before the deadline showed the state, and otherwise
    fails with the error of a poll or because the deadline is over. *)
Theorem wait_bounded {M : Type} `{ServiceManagerLaws M} name wanted m m' r : waitState name wanted stopTimeout m = (m', r) →
  let deadline := time_Now m + stopTimeout in
  (∀ n, (121 ≤ n)%nat → wait_loop n name wanted deadline m = (m', r)) ∧
  ((r = Ok tt ∧ ∃ m1, time_Now m1 < deadline ∧ svc_Query name m1 = (m', Ok wanted)) ∨
   (∃ e m1, r = Err e ∧ svc_Query name m1 = (m', Err e)) ∨
   r = Err (errorf "timed out waiting for service state") ∧ deadline ≤ time_Now m').
Proof.
  intros E deadline. assert (deadline - time_Now m ≤ Z.of_nat 120 * poll_interval) as Ht.
  { unfold deadline. rewrite <-stop_polls. lia. }
  split; [|by apply (wait_cases name wanted deadline 120 m)]. intros n Hn. rewrite (wait_enough _ _ _ 120); [exact E|lia|exact Ht].
Qed.

(** A service is removed only when it was seen stopped: if removing it succeeds, a
    poll showed the state Stopped, and nothing came between it and the deletion. *)
Theorem uninstall_stopped {M : Type} `{ServiceManagerLaws M} valid wrap name m m' : uninstall_service valid wrap name m = (m', Ok tt) →
  valid name = Ok tt ∧ ∃ m1 m2, svc_Query name m1 = (m2, Ok Stopped) ∧ svc_Delete name m2 = (m', Ok tt).
Proof.
  unfold uninstall_service, open_service, mbind, call_bind, pure_call. destruct (valid name) as [[]|]; [|discriminate].
  destruct (mgr_Connect m) as [m0 [[]|]]; [|discriminate]. destruct (mgr_OpenService name m0) as [m1 [[]|]]; [|discriminate].
  destruct (svc_Query name m1) as [m2 [state|]] eqn:E; [|discriminate]. destruct (Z.eqb_spec state Stopped) as [->|].
  { intros Hd. split; [done|]. by exists m1, m2. }
  unfold stop_service. destruct (svc_Control name cmd_Stop m2) as [m3 [[]|]]; [|discriminate].
  destruct (waitState name Stopped stopTimeout m3) as [m4 [[]|]] eqn:Ew; [|discriminate]. intros Hd. split; [done|].
  destruct (wait_cases name Stopped (time_Now m3 + stopTimeout) 120 m3 m4 (Ok tt)) as [(_ & m5 & _ & Hq)|[(e & m5 & ? & _)|[? _]]]; try done.
  { rewrite <-stop_polls. lia. }
  by exists m5, m4.
Qed.

(** C39 Among the names of letters, digits and [_.-] that the server accepts, the
    collector rejects exactly those with an x or a 0: installing, removing, starting,
    stopping and showing a service of such a name are refused without reaching the
    service manager.  Running as a service is not: with the absolute path of its
    configuration it goes on under any name, checked by neither program. *)
Theorem collector_names {M : Type} `{ServiceManager M} IsAbs Abs Executable Load svc_Run display path name m : match_id name = true →
  let invalid := errorf "invalid service name" in
  serverwinservice.validateName name = Ok tt ∧
  winservice.validateName name = (if ContainsAny name "x0" then Err invalid else Ok tt) ∧
  (ContainsAny name "x0" = true →
   winservice.Install IsAbs Abs Executable Load name display path m = (m, Err invalid) ∧ winservice.Uninstall name m = (m, Err invalid) ∧
   winservice.Start name m = (m, Err invalid) ∧ winservice.Stop name m = (m, Err invalid) ∧ winservice.Status name m = (m, Err invalid)) ∧
  (∀ any absolute, Abs path = Ok absolute →
   winservice.Run Abs svc_Run any path m = svc_Run any absolute m ∧ serverwinservice.Run Abs svc_Run any path m = svc_Run any absolute m).
Proof.
  intros Hm invalid. assert (winservice.validateName name = if ContainsAny name "x0" then Err invalid else Ok tt) as Hv; [|].
  2: { split_and!; [unfold serverwinservice.validateName; by rewrite Hm|done| |].
       2:{ intros any absolute Ha. unfold winservice.Run, serverwinservice.Run, run_service, mbind, call_bind, pure_call. by rewrite Ha. }
       intros Hx. rewrite Hx in Hv.
       unfold winservice.Install, winservice.Uninstall, winservice.Start, winservice.Stop, winservice.Status, uninstall_service, start_service,
         halt_service, show_service, open_service, mbind, call_bind, pure_call. by rewrite Hv. }
  unfold winservice.validateName, match_id in *.
  apply andb_true_iff in Hm as [Hl Hb]. unfold length_between in Hl. bool_prop.
  destruct (String.eqb_spec name "") as [->|]; [by cbn in *|]. replace (256 <? slen name) with false by lia. cbn [orb].
  replace (ContainsAny name "/\\\x00") with (ContainsAny name "x0"); [done|]. unfold ContainsAny. f_equal.
  apply (all_bytes_ext (λ c, is_alnum c || string_elem c "_.-")); [|done]. intros c Hc. by rewrite raw_string.
Qed.

(** The handler of the collector reports that it starts and runs, then the states it
    is asked for, then at most that it stops; it ends without an error only if the
    collector did; and after a request to stop it ends with the collector or when the
    time for it is over. *)
Theorem handler_stops c Open l : (∀ f, Open f = Ok tt) →
  let '(states, code) := winservice.Execute (Ok c) Open l in
  (∃ currents tail, states = [StartPending; Running] ++ currents ++ tail ∧ (tail = [] ∨ tail = [StopPending]) ∧ asked l currents) ∧
  (code = Some 0 → ∃ r, Ended r ∈ l ∧ winservice.runCollector r = Ok tt) ∧
  (∀ l1 cmd current l2, l = l1 ++ Request cmd current :: l2 → cmd = cmd_Stop ∨ cmd = cmd_Shutdown → existsb ends l2 = true → code ≠ None).
Proof.
  intros Ho. unfold winservice.Execute. rewrite Ho.
  pose proof (serve_states (Some 1) (winservice.collector_end <$> l)) as (currents & tail & E & Ht & Hc).
  pose proof (serve_zero (Some 1) (winservice.collector_end <$> l) ltac:(discriminate)) as Hz.
  assert (∀ l1 cmd cur l2, l = l1 ++ Request cmd cur :: l2 → cmd = cmd_Stop ∨ cmd = cmd_Shutdown → existsb ends l2 = true →
    (serve (Some 1) (winservice.collector_end <$> l)).2 ≠ None) as He.
  { intros l1 cmd cur l2 -> Hcmd Hl. rewrite fmap_app, fmap_cons. apply serve_ends; [done|]. rewrite <-Hl.
    clear. induction l2 as [|[] l2 IH]; cbn; congruence. }
  destruct (serve (Some 1) _) as [states code]. cbn [fst snd] in *. split_and!; [|intros Hcode|exact He].
  - exists currents, tail. subst. split_and!; [done|done|]. eapply Forall_impl; [exact Hc|].
    intros s ([r| | |] & E & Hs)%list_elem_of_fmap; [discriminate E| |discriminate E..]. by injection E as -> ->.
  - apply Hz in Hcode. apply list_elem_of_fmap in Hcode as ([r| | |] & E' & Hs); [|discriminate E'..]. injection E' as E'. by exists r.
Qed.

(** ** Examples *)

(** A manager with one service that stops after three polls; a poll takes a millisecond. *)
Record demo_manager := mkDemo { d_now : Z; d_polls : Z; d_deleted : bool }.
#[global] Instance demo_manager_ops : ServiceManager demo_manager := {|
  mgr_Connect := λ m, (m, Ok tt);
  mgr_OpenService := λ _ m, (m, Ok tt);
  mgr_CreateService := λ _ _ _ _ m, (m, Ok tt);
  svc_Query := λ _ m, (mkDemo (d_now m + second / 1000) (d_polls m + 1) (d_deleted m), Ok (if d_polls m <? 3 then Running else Stopped));
  svc_Control := λ _ _ m, (m, Ok tt);
  svc_Start := λ _ m, (m, Ok tt);
  svc_Delete := λ _ m, (mkDemo (d_now m) (d_polls m) true, Ok tt);
  svc_Close := λ _ m, (m, Ok tt);
  time_Now := d_now;
  time_Sleep := λ d m, mkDemo (d_now m + d) (d_polls m) (d_deleted m)
|}.

#[global] Instance demo_manager_laws : ServiceManagerLaws demo_manager.
Proof. split; intros; cbn; [|lia]. assert (0 ≤ second / 1000) by (vm_compute; discriminate). lia. Qed.

Definition demo_idle : demo_manager := mkDemo 0 0 false.

Lemma wait_bounded_witness : ∃ m1, svc_Query "go-sync" m1 = ((waitState "go-sync" Stopped stopTimeout demo_idle).1, Ok Stopped).
Proof.
  destruct (wait_bounded "go-sync" Stopped demo_idle (waitState "go-sync" Stopped stopTimeout demo_idle).1 (Ok tt)) as [_ [H|[H|H]]].
  - vm_compute. reflexivity.
  - destruct H as (_ & m1 & _ & H). exists m1. exact H.
  - destruct H as (e & m1 & H & _). discriminate H.
  - destruct H as [H _]. discriminate H.
Defined.

Notation demo_removed := (uninstall_service winservice.validateName id "go-sync" demo_idle) (only parsing).

Lemma uninstall_stopped_witness : ∃ m1 m2, svc_Query "go-sync" m1 = (m2, Ok Stopped) ∧ svc_Delete "go-sync" m2 = (demo_removed.1, Ok tt).
Proof.
  destruct (uninstall_stopped winservice.validateName id "go-sync" demo_idle demo_removed.1) as [_ H].
  - vm_compute. reflexivity.
  - exact H.
Defined.

Lemma collector_names_witness : winservice.Start "go-sync-x64" demo_idle = (demo_idle, Err (errorf "invalid service name")).
Proof.
  destruct (collector_names (λ _, true) Ok (Ok "go-sync.exe") (λ _, Ok config.Config.zero) (λ _ _ m, (m, Ok tt)) "" "" "go-sync-x64" demo_idle) as (_ & _ & H & _).
  - reflexivity.
  - destruct H as (_ & _ & H & _); [reflexivity|]. exact H.
Defined.

Lemma handler_stops_witness : (winservice.Execute (Ok config.Config.zero) (λ _, Ok tt)
  [Request cmd_Interrogate Running; Request cmd_Stop Running; TimedOut]).2 ≠ None.
Proof.
  pose proof (handler_stops config.Config.zero (λ _, Ok tt) [Request cmd_Interrogate Running; Request cmd_Stop Running; TimedOut]
    (λ _, eq_refl)) as (_ & _ & H).
  exact (H [Request cmd_Interrogate Running] cmd_Stop Running [TimedOut] eq_refl (or_introl eq_refl) eq_refl).
Defined.
