(* ===== verification/Commands.v ===== *)
(** * The two programs (cmd/go-sync, cmd/go-sync-server, internal/logging)

    From the arguments of the command line to the exit code: the flags as package flag
    parses them, the log output, the commands of the collector and of the server, and
    the commands of their Windows services.  What a command calls is modelled in its
    own component; its result is an argument. *)

From S2P Require Import Prelude Bytes Encoding Json GoPath GoNet Config App ServerConfig ServerValidate WinService.

(** ** Flags (package flag): string flags only *)

Module flag.

Inductive parsed :=
  | Help
  | Bad (text : string)
  | Values (flags : gmap string string) (args : list string).

(** The value behind an equals sign that is not the first character. *)
Definition split_value (name : string) : string * option string :=
  match name with
  | String c r => match cut "=" r with Some (a, b) => (String c a, Some b) | None => (name, None) end
  | "" => ("", None)
  end.

(** One argument that starts with minus signs: its name, and whether it ends the flags. *)
Inductive argument := Positional | Terminator | Flag (name : string) | BadSyntax.

Definition classify (s : string) : argument :=
  match s with
  | String "-" (String "-" "") => Terminator
  | String "-" (String c r) =>
      let name := if Ascii.eqb c "-" then r else String c r in
      match name with
      | "" => BadSyntax
      | String d _ => if Ascii.eqb d "-" || Ascii.eqb d "=" then BadSyntax else Flag name
      end
  | _ => Positional
  end.

(** [FlagSet.Parse] *)
Fixpoint Parse (flags : gmap string string) (args : list string) : parsed :=
  match args with
  | [] => Values flags []
  | s :: args' =>
      match classify s with
      | Positional => Values flags args
      | Terminator => Values flags args'
      | BadSyntax => Bad "bad flag syntax: %s"
      | Flag name =>
          let '(name, value) := split_value name in
          match flags !! name with
          | None => if String.eqb name "help" || String.eqb name "h" then Help else Bad "flag provided but not defined: -%s"
          | Some _ =>
              match value, args' with
              | Some v, _ => Parse (<[name := v]> flags) args'
              | None, v :: args'' => Parse (<[name := v]> flags) args''
              | None, [] => Bad "flag needs an argument: -%s"
              end
          end
      end
  end.

End flag.

(** ** The log output (internal/logging) *)

Module logging.

(** [filepath.Dir] *)
Definition Dir (path : string) : string :=
  match cut_last "/" path with Some (a, _) => Clean (a +:+ "/") | None => "." end.

Inductive level := LevelDebug | LevelInfo | LevelWarn | LevelError.
Inductive writer := Console | Rotator (path : string) (log : config.Log.t).

Definition level_of (text : string) : option level :=
  let s := ToLower text in
  if String.eqb s "debug" then Some LevelDebug
  else if String.eqb s "info" then Some LevelInfo
  else if String.eqb s "warn" then Some LevelWarn
  else if String.eqb s "error" then Some LevelError
  else None.

(** [MkdirAll] makes the directory of the file. *)
Definition OpenDynamic (MkdirAll : string → result unit) (log : config.Log.t) (configDir : string) (console : bool) :
    result (level * list writer) :=
  level ← or_err (level_of (config.Log.Level log)) (errorf "invalid log level");
  let writers := if console then [Console] else [] in
  let file := config.Log.File log in
  writers ← (if String.eqb file "" then Ok writers
             else
               let path := Clean (if IsAbs file then file else Join2 configDir file) in
               _ ← MkdirAll (Dir path);
               Ok (writers ++ [Rotator path log]));
  _ ← fail_if (bool_decide (writers = [])) (errorf "no log output configured");
  Ok (level, writers).

End logging.

(** ** The commands *)

(** What a command does, in order. *)
Inductive effect :=
  | Usage
  | Printed (text : string)
  | Complained (text : string)
  | Reported (e : error)
  | FlagsUsed
  | Inspected (e : app.engine)
  | Collected (c : config.Config.t)
  | Opened
  | Served.

(** The exit code of a service command. *)
Definition service_end {M : Type} (done : string → list effect) (x : M * result string) : M * (list effect * Z) :=
  match x with
  | (m, Err e) => (m, ([Reported e], 1))
  | (m, Ok text) => (m, (done text, 0))
  end.

Definition silent {M : Type} (x : M * result unit) : M * result string :=
  match x with (m, Ok _) => (m, Ok "") | (m, Err e) => (m, Err e) end.

Definition flag_or (flags : gmap string string) (name : string) : string := default "" (flags !! name).

Section commands.
Context {M : Type} `{ServiceManager M}.
(** The build's version; the paths and the executable; running as a service. *)
Context (version : string) (WinAbs : string → bool) (Abs : string → result string) (Executable : result string).
Context (svc_Run : string → string → call M unit).

(** *** The collector (cmd/go-sync) *)

(** The configuration files, the working directory and the environment; inspecting a
    source, reading the status, and running the collector. *)
Record collector_io := mkCollector {
  c_file : string → result string;
  c_cwd : string;
  c_env : string → string;
  c_Inspect : app.engine → result string;
  c_status : string → result string;
  c_MkdirAll : string → result unit;
  c_Run : config.Config.t → result unit }.

Definition service_flags (name display path : string) : gmap string string :=
  <["name" := name]> (<["config" := path]> {["display-name" := display]}).

Definition service_actions : list string := ["install"; "uninstall"; "start"; "stop"; "status"; "run"].

Definition executeService (io : collector_io) (args : list string) : M → M * (list effect * Z) := λ m,
  match args with
  | [] => (m, ([Complained "service action is required"], 2))
  | action :: args' =>
      if bool_decide (action ∉ service_actions) then (m, ([Complained "unknown service action"], 2))
      else
        match flag.Parse (service_flags "go-sync" "Go Sync" "config.json") args' with
        | flag.Help => (m, ([FlagsUsed], 0))
        | flag.Bad text => (m, ([Complained text; FlagsUsed], 2))
        | flag.Values flags (_ :: _) => (m, ([Complained "unexpected positional arguments"], 2))
        | flag.Values flags [] =>
            let name := flag_or flags "name" in
            let path := flag_or flags "config" in
            let done (_ : string) := [Printed ("service " +:+ name +:+ ": " +:+ action)] in
            let Load p := config.Load (c_cwd io) (c_env io) (c_file io p) in
            if String.eqb action "install" then
              service_end done (silent (winservice.Install WinAbs Abs Executable Load name (flag_or flags "display-name") path m))
            else if String.eqb action "uninstall" then service_end done (silent (winservice.Uninstall name m))
            else if String.eqb action "start" then service_end done (silent (winservice.Start name m))
            else if String.eqb action "stop" then service_end done (silent (winservice.Stop name m))
            else if String.eqb action "status" then service_end (λ s, [Printed s]) (winservice.Status name m)
            else service_end (λ _, []) (silent (winservice.Run Abs svc_Run name path m))
        end
  end.

(** The source that [check] inspects. *)
Definition check_engine (c : config.Config.t) : app.engine :=
  let e := config.Engine c in
  if String.eqb e "sqlserver" then app.SQLServer
  else if String.eqb e "sqlserver_legacy" then app.SQLServerLegacy
  else if String.eqb e "mysql" then app.MySQL
  else if String.eqb e "files" then app.Files
  else app.Postgres.

(** The end of [check] and [status]. *)
Definition finish (before : list effect) (r : result string) : list effect * Z :=
  match r with
  | Ok text => (before ++ [Printed text], 0)
  | Err e => if app.is_canceled e then (before, 0) else (before ++ [Reported e], 1)
  end.

Definition run_collector (io : collector_io) (c : config.Config.t) (path : string) : list effect * Z :=
  match Abs path with
  | Err e => ([Complained "resolve config path:"; Reported e], 1)
  | Ok p =>
      match logging.OpenDynamic (c_MkdirAll io) (config.Config.Log_ c) (logging.Dir p) true with
      | Err e => ([Complained "open log output:"; Reported e], 1)
      | Ok _ =>
          match c_Run io c with
          | Err e => if app.is_canceled e then ([Collected c], 0) else ([Collected c; Reported e], 1)
          | Ok _ => ([Collected c], 0)
          end
      end
  end.

Definition execute (io : collector_io) (args : list string) : M → M * (list effect * Z) := λ m,
  match args with
  | [] => (m, ([Usage], 0))
  | command :: args' =>
      if String.eqb command "help" || String.eqb command "--help" then (m, ([Usage], 0))
      else if String.eqb command "version" then (m, ([Printed version], 0))
      else if String.eqb command "service" then executeService io args' m
      else if bool_decide (command ∉ ["check"; "run"; "status"]) then (m, ([Complained "unknown command"], 2))
      else
        match flag.Parse {["config" := "config.json"]} args' with
        | flag.Help => (m, ([FlagsUsed], 0))
        | flag.Bad text => (m, ([Complained text; FlagsUsed], 2))
        | flag.Values flags (_ :: _) => (m, ([Complained "unexpected positional arguments"], 2))
        | flag.Values flags [] =>
            let path := flag_or flags "config" in
            match config.Load (c_cwd io) (c_env io) (c_file io path) with
            | Err e => (m, ([Reported e], 2))
            | Ok c =>
                (m, if String.eqb command "check" then finish [Inspected (check_engine c)] (c_Inspect io (check_engine c))
                    else if String.eqb command "status" then finish [] (c_status io (config.Config.DataDir c))
                    else run_collector io c path)
            end
        end
  end.

(** *** The server (cmd/go-sync-server) *)

(** Loading the configuration, opening the targets with it, and serving. *)
Record server_io := mkServer {
  s_Load : string → result serverconfig.Config;
  s_MkdirAll : string → result unit;
  s_New : serverconfig.Config → result unit;
  s_Run : serverconfig.Config → result unit }.

Definition server_executeService (io : server_io) (args : list string) : M → M * (list effect * Z) := λ m,
  match args with
  | [] => (m, ([Complained "service action is required"], 2))
  | action :: args' =>
      match flag.Parse (service_flags "go-sync-server" "Go Sync Server" "server.config.json") args' with
      | flag.Help => (m, ([FlagsUsed], 2))
      | flag.Bad text => (m, ([Complained text; FlagsUsed], 2))
      | flag.Values flags _ =>
          let name := flag_or flags "name" in
          let path := flag_or flags "config" in
          let done (_ : string) := [] in
          let Load p := (_ ← s_Load io p; Ok tt) in
          if String.eqb action "install" then
            service_end done (silent (serverwinservice.Install Abs Executable Load name (flag_or flags "display-name") path m))
          else if String.eqb action "uninstall" then service_end done (silent (serverwinservice.Uninstall name m))
          else if String.eqb action "start" then service_end done (silent (serverwinservice.Start name m))
          else if String.eqb action "stop" then service_end done (silent (serverwinservice.Stop name m))
          else if String.eqb action "status" then service_end (λ s, [Printed s]) (serverwinservice.Status name m)
          else if String.eqb action "run" then
            service_end done (silent (serverwinservice.Run Abs svc_Run name path m))
          else (m, ([Complained "unknown service action"], 2))
      end
  end.

Definition check_line (cfg : serverconfig.Config) : string :=
  print (JObj [("config_hash", JStr (serverconfig.Hash cfg)); ("status", JStr "ok");
               ("syncers", JNum (FormatInt (Z.of_nat (length (serverconfig.Syncers cfg)))))]).

(** The configuration is checked by opening its targets; [check] stops there. *)
Definition open_and_run (io : server_io) (check : bool) (path : string) : list effect * Z :=
  match Abs path with
  | Err e => ([Reported e], 1)
  | Ok absolute =>
      match s_Load io absolute with
      | Err e => ([Reported e], 1)
      | Ok cfg =>
          match logging.OpenDynamic (s_MkdirAll io) (serverconfig.Log cfg) (logging.Dir absolute) true with
          | Err e => ([Reported e], 1)
          | Ok _ =>
              match s_New io cfg with
              | Err e => ([Reported e], 1)
              | Ok _ =>
                  if check then ([Opened; Printed (check_line cfg)], 0)
                  else
                    match s_Run io cfg with
                    | Err e => if app.is_canceled e then ([Opened; Served], 0) else ([Opened; Served; Reported e], 1)
                    | Ok _ => ([Opened; Served], 0)
                    end
              end
          end
      end
  end.

(** Positional arguments are not looked at. *)
Definition server_execute (io : server_io) (args : list string) : M → M * (list effect * Z) := λ m,
  match args with
  | [] => (m, ([Usage], 0))
  | command :: args' =>
      if String.eqb command "help" || String.eqb command "--help" then (m, ([Usage], 0))
      else if String.eqb command "version" then (m, ([Printed version], 0))
      else if String.eqb command "service" then server_executeService io args' m
      else if bool_decide (command ∉ ["check"; "run"]) then (m, ([Complained "unknown command"], 2))
      else
        match flag.Parse {["config" := "server.config.json"]} args' with
        | flag.Help => (m, ([FlagsUsed], 2))
        | flag.Bad text => (m, ([Complained text; FlagsUsed], 2))
        | flag.Values flags _ => (m, open_and_run io (String.eqb command "check") (flag_or flags "config"))
        end
  end.
End commands.
