(* ===== verification/CommandsProps.v ===== *)
(** * Correctness of the command line

    An accepted configuration has a log output; exit codes say what happened; and the
    collector is run only with an accepted configuration. *)

From S2P Require Import Prelude Bytes Encoding GoPath GoNet Config App WinService Commands.

(** The log of an accepted configuration opens on the console if its directory can be
    made. *)
Lemma log_opens MkdirAll log dir : config.Log_validate log = Ok tt → (∀ p, MkdirAll p = Ok tt) →
  ∃ level writers, logging.OpenDynamic MkdirAll log dir true = Ok (level, logging.Console :: writers).
Proof.
  intros Hv Hm. unfold config.Log_validate in Hv. result_inv Hv. bool_prop.
  assert (∃ level, logging.level_of (config.Log.Level log) = Some level) as [level Hl].
  { match goal with H : existsb _ _ = true |- _ => revert H end. unfold logging.level_of. cbn [existsb].
    repeat (destruct (_ =? _)%string; [by eexists|]). done. }
  unfold logging.OpenDynamic. rewrite Hl. go. destruct (String.eqb _ ""); go; [by eexists level, []|].
  rewrite Hm. go. by eexists level, [_].
Qed.

Lemma config_Load_Validate cwd env file c : config.Load cwd env file = Ok c → config.Validate cwd c = Ok tt.
Proof. unfold config.Load. intros H. result_inv H. by match goal with u : unit |- _ => destruct u end. Qed.

(** ** Exit codes *)

Section exit.
Context (io : collector_io).

(** What is known of the effects and the exit code of a command, [same] if it did not
    touch the service manager. *)
Definition sound (same : Prop) (x : list effect * Z) : Prop :=
  (x.2 = 0 ∨ x.2 = 1 ∨ x.2 = 2) ∧
  (x.2 = 2 → same ∧ ∀ c e, Collected c ∉ x.1 ∧ Inspected e ∉ x.1) ∧
  (∀ c, Collected c ∈ x.1 → same ∧ config.Validate (c_cwd io) c = Ok tt ∧
     x.2 = match c_Run io c with Ok _ => 0 | Err e => if app.is_canceled e then 0 else 1 end).

(** A command that does neither. *)
Lemma sound_idle (same : Prop) effects code : (code = 0 ∨ code = 1 ∨ code = 2 ∧ same) → Forall (λ e, ∀ c i, e ≠ Collected c ∧ e ≠ Inspected i) effects →
  sound same (effects, code).
Proof.
  intros Hc He. rewrite Forall_forall in He. split_and!; cbn; [naive_solver| |].
  - intros ->. split; [naive_solver|]. intros c e. split; intros Hin; by destruct (He _ Hin c e).
  - intros c Hin. by destruct (He _ Hin c app.Files) as [? _].
Qed.

Lemma sound_run Abs c path : config.Validate (c_cwd io) c = Ok tt → ∀ same : Prop, same → sound same (run_collector Abs io c path).
Proof.
  intros Hv same Hs. unfold run_collector. destruct (Abs path) as [p|e]; [|apply sound_idle; [auto|by repeat constructor]].
  destruct (logging.OpenDynamic _ _ _ _) as [l|e]; [|apply sound_idle; [auto|by repeat constructor]].
  destruct (c_Run io c) as [[]|e] eqn:Hr; [|destruct (app.is_canceled e) eqn:Hc].
  all: split_and!; cbn; [auto|lia|]; intros c' Hin; assert (c' = c) as -> by set_solver; by rewrite ?Hr, ?Hc.
Qed.
Context {M : Type} `{ServiceManager M}.
Context (WinAbs : string → bool) (Abs : string → result string) (Executable : result string) (svc_Run : string → string → call M unit).

Lemma sound_service done x : (∀ text, Forall (λ e, ∀ c i, e ≠ Collected c ∧ e ≠ Inspected i) (done text)) →
  ∀ m : M, sound ((service_end done x).1 = m) (service_end done x).2.
Proof. intros Hd m. destruct x as [m' [text|e]]; (apply sound_idle; [auto|]); [apply Hd|by repeat constructor]. Qed.

Lemma sound_executeService args m : let x := executeService WinAbs Abs Executable svc_Run io args m in sound (x.1 = m) x.2.
Proof.
  unfold executeService. cbn zeta. destruct args as [|action args]; [apply sound_idle; [auto|by repeat constructor]|].
  case_bool_decide; [apply sound_idle; [auto|by repeat constructor]|].
  destruct (flag.Parse _ args) as [|text|flags [|]]; try (apply sound_idle; [auto|by repeat constructor]).
  repeat (destruct (String.eqb action _)); apply sound_service; intros text; by repeat constructor.
Qed.

End exit.

(** ** The theorem *)

(** The exit codes of the collector's program: they are 0, 1 or 2; with 2, for a wrong
    command line or configuration, nothing was collected or inspected and the service
    manager was not touched; and the collector is run only with an accepted
    configuration, and then 0 says that it ended without an error or was canceled. *)
Theorem exit_codes {M : Type} `{ServiceManager M} version WinAbs Abs Executable svc_Run io args (m m' : M) effects code :
  execute version WinAbs Abs Executable svc_Run io args m = (m', (effects, code)) →
  (code = 0 ∨ code = 1 ∨ code = 2) ∧
  (code = 2 → m' = m ∧ ∀ c e, Collected c ∉ effects ∧ Inspected e ∉ effects) ∧
  (∀ c, Collected c ∈ effects → m' = m ∧ config.Validate (c_cwd io) c = Ok tt ∧
     code = match c_Run io c with Ok _ => 0 | Err e => if app.is_canceled e then 0 else 1 end).
Proof.
  intros E. enough (let x := execute version WinAbs Abs Executable svc_Run io args m in sound io (x.1 = m) x.2) as Hx by (by rewrite E in Hx).
  clear E. cbn zeta. unfold execute. destruct args as [|command args]; [apply sound_idle; [auto|by repeat constructor]|].
  do 2 (case_if; [apply sound_idle; [auto|by repeat constructor]|]). case_if; [apply sound_executeService|].
  case_if; [apply sound_idle; [auto|by repeat constructor]|].
  destruct (flag.Parse _ args) as [|text|flags [|]]; try (apply sound_idle; [auto|by repeat constructor]).
  destruct (config.Load _ _ _) as [c|e] eqn:Hl; [|apply sound_idle; [auto|by repeat constructor]]. apply config_Load_Validate in Hl. cbn [fst snd].
  assert (∀ before r, (∀ c, Collected c ∉ before) → sound io (m = m) (finish before r)) as Hf.
  { intros before r Hb. unfold finish. destruct r as [text|e]; [|destruct (app.is_canceled e)]; (split_and!; cbn; [auto|lia|]); set_solver. }
  destruct (String.eqb command "check"); [apply Hf; set_solver|]. destruct (String.eqb command "status"); [apply Hf; set_solver|].
  by apply sound_run.
Qed.

(** ** Examples *)

(** A run with a file that is not a configuration. *)
Definition demo_collector : collector_io :=
  mkCollector (λ _, Ok "{}") "/" (λ _, "") (λ _, Ok "") (λ _, Ok "") (λ _, Ok tt) (λ _, Ok tt).

#[global] Instance demo_unit_manager : ServiceManager unit := {|
  mgr_Connect := λ m, (m, Ok tt); mgr_OpenService := λ _ m, (m, Ok tt); mgr_CreateService := λ _ _ _ _ m, (m, Ok tt);
  svc_Query := λ _ m, (m, Ok Stopped); svc_Control := λ _ _ m, (m, Ok tt); svc_Start := λ _ m, (m, Ok tt);
  svc_Delete := λ _ m, (m, Ok tt); svc_Close := λ _ m, (m, Ok tt); time_Now := λ _, 0; time_Sleep := λ _ m, m |}.

Notation demo_execute := (execute "dev" (λ _, true) Ok (Ok "go-sync") (λ _ _ m, (m, Ok tt)) demo_collector ["run"; "--config"; "a.json"] tt) (only parsing).

Lemma exit_codes_witness : ∀ c, Collected c ∉ demo_execute.2.1.
Proof.
  destruct (exit_codes "dev" (λ _, true) Ok (Ok "go-sync") (λ _ _ m, (m, Ok tt)) demo_collector ["run"; "--config"; "a.json"] tt
    demo_execute.1 demo_execute.2.1 demo_execute.2.2) as (_ & H & _).
  - destruct demo_execute as [m [l c]]. reflexivity.
  - destruct H as [_ H]; [vm_compute; reflexivity|]. intros c. exact (proj1 (H c app.Files)).
Defined.
