(* ===== verification/WalPlugin.v ===== *)
(** * The wal2json plugin on Windows (internal/walplugin)

    The collector can install the logical decoding plugin of a PostgreSQL on the same
    Windows machine: a release embedded in the program is checked against its
    checksums and its manifest, the server is shown to be the local one, and the file
    is published under a name that must be free.

    The assets, the reader of zip archives, what follows the header of an executable,
    the path functions of Windows and the answers of the server and of the system are
    arguments. *)

From S2P Require Import Prelude Bytes Encoding Sha256 Json JsonStruct GoTime GoGlob Config Disk.

Module walplugin.

Definition upstreamTag : string := "wal2json_2_6".
Definition upstreamCommit : string := "75629c2e1e81a12350cc9d63782fc53252185d8d".

Module manifest.
Record t := mk { Tag : string; Commit : string; Version : string; Arch : string; DLLHash : string; Test : string }.

Definition zero : t := mk "" "" "" "" "" "".

Definition decode (v : json) : option t :=
  dec_struct zero (λ ms,
    tag ← obj_fold "upstream_tag" dec_str "" ms;
    commit ← obj_fold "upstream_commit" dec_str "" ms;
    version ← obj_fold "postgresql_version" dec_str "" ms;
    arch ← obj_fold "architecture" dec_str "" ms;
    hash ← obj_fold "dll_sha256" dec_str "" ms;
    test ← obj_fold "smoke_test" dec_str "" ms;
    Some (mk tag commit version arch hash test)) v.
End manifest.

(** [fmt.Errorf(prefix, err)] *)
Definition wrap_error {A : Type} (prefix : string) (r : result A) : result A :=
  match r with Ok a => Ok a | Err e => Err (wrapf prefix e) end.

(** The patch releases a plugin was built for. *)
Definition versionName (version : Z) : result string :=
  let is94 := (90400 <=? version) && (version <=? 90426) in
  let is95 := (90500 <=? version) && (version <=? 90525) in
  let is96 := (90600 <=? version) && (version <=? 90624) in
  if is94 || is95 || is96 then
    Ok ("9." +:+ FormatInt (Z.rem (Z.quot version 100) 100) +:+ "." +:+ FormatInt (Z.rem version 100))
  else Err (errors_New ("no verified embedded wal2json for server_version_num " +:+ FormatInt version +:+
                        "; install a matching plugin manually")).

Definition digest (b : string) : string := hex_encode (sha256 b).

(** ** Executables (debug/pe) *)

Record FileHeader := mkHeader { Machine : Z; Characteristics : Z }.

Definition IMAGE_FILE_MACHINE_I386 : Z := 332.
Definition IMAGE_FILE_MACHINE_AMD64 : Z := 34404.
Definition IMAGE_FILE_DLL : Z := 8192.

(** The machines [pe.NewFile] accepts: unknown, I386, ARMNT, RISCV32, RISCV64,
    RISCV128, AMD64 and ARM64. *)
Definition pe_machines : list Z := [0; 332; 452; 20530; 20580; 20776; 34404; 43620].

(** [n] bytes from the offset [off] *)
Definition bytes_at (off : Z) (n : nat) (b : string) : option (list Z) :=
  if slen b <? off + Z.of_nat n then None else Some (take n (drop (Z.to_nat off) (bytes b))).

Definition little_endian (l : list Z) : Z := from_big_endian (rev l).

(** [pe.NewFile]: the header behind the DOS stub, if there is one; [tables] reads the
    symbols and sections that follow. *)
Definition pe_NewFile (tables : string → result unit) (b : string) : result FileHeader :=
  dos ← or_err (bytes_at 0 96 b) (errorf "EOF");
  base ← (if bool_decide (take 2 dos = [77; 90]) then
            let signoff := little_endian (take 4 (drop 60 dos)) in
            if bool_decide (bytes_at signoff 4 b = Some [80; 69; 0; 0]) then Ok (signoff + 4)
            else Err (errorf "invalid PE file signature: % x")
          else Ok 0);
  h ← or_err (bytes_at base 20 b) (errorf "EOF");
  let header := mkHeader (little_endian (take 2 h)) (little_endian (drop 18 h)) in
  _ ← fail_if (bool_decide (Machine header ∉ pe_machines)) (errorf "unrecognized PE machine: %#x");
  _ ← tables b;
  Ok header.

Definition machineArch (machine : Z) : result string :=
  if machine =? IMAGE_FILE_MACHINE_I386 then Ok "x86"
  else if machine =? IMAGE_FILE_MACHINE_AMD64 then Ok "x64"
  else Err (errorf "postgres executable must be x86 or x64").

(** ** The embedded release *)

(** An entry of an archive: what its header says, and what opening and reading it
    gives, an error of the reader included (a wrong checksum). *)
Record zip_file := mkZip { Name : string; UncompressedSize64 : Z; f_Open : result unit; f_data : string; f_end : option error }.

(** [io.ReadAll(io.LimitReader(r, n))]: the error at the end of the data is met only
    within the limit. *)
Definition read_limited (n : Z) (f : zip_file) : result string :=
  match f_end f with
  | Some e => if slen (f_data f) <? n then Err e else Ok (limit_string n (f_data f))
  | None => Ok (limit_string n (f_data f))
  end.

Definition max_entry : Z := Z.shiftl 4 20.

(** The two entries that are read, and nothing twice. *)
Fixpoint entries (l : list zip_file) (files : gmap string string) : result (gmap string string) :=
  match l with
  | [] => Ok files
  | f :: l' =>
      if negb (String.eqb (Name f) "wal2json.dll") && negb (String.eqb (Name f) "manifest.json") then entries l' files
      else
        _ ← fail_if (bool_decide (is_Some (files !! Name f))) (errorf "duplicate embedded zip entry");
        _ ← fail_if (max_entry <? UncompressedSize64 f) (errorf "embedded zip entry exceeds size limit");
        _ ← wrap_error "open embedded entry: %w" (f_Open f);
        b ← wrap_error "read embedded entry: %w" (read_limited (max_entry + 1) f);
        _ ← fail_if (max_entry <? slen b) (errorf "embedded zip entry exceeds size limit");
        entries l' (<[Name f := b]> files)
  end.

Definition bom : string := of_bytes [239; 187; 191].

Section release.
Context (zip_NewReader : string → result (list zip_file)) (tables : string → result unit).

Definition unpackDLL (archive : string) (expected : manifest.t) : result string :=
  z ← wrap_error "open embedded zip: %w" (zip_NewReader archive);
  files ← entries z ∅;
  m ← or_err (parse (TrimPrefix (default "" (files !! "manifest.json")) bom) ≫= manifest.decode)
        (errorf "decode embedded manifest: %w");
  let identityMatches := String.eqb (manifest.Tag m) (manifest.Tag expected) &&
                         String.eqb (manifest.Commit m) (manifest.Commit expected) in
  let targetMatches := String.eqb (manifest.Version m) (manifest.Version expected) &&
                       String.eqb (manifest.Arch m) (manifest.Arch expected) in
  _ ← fail_if (negb identityMatches || negb targetMatches || negb (String.eqb (manifest.Test m) "passed"))
        (errorf "embedded manifest target or provenance mismatch");
  let dll := default "" (files !! "wal2json.dll") in
  _ ← fail_if ((slen dll =? 0) || negb (String.eqb (digest dll) (manifest.DLLHash m)))
        (errorf "embedded dll checksum mismatch");
  p ← wrap_error "inspect embedded dll: %w" (pe_NewFile tables dll);
  arch ← machineArch (Machine p);
  _ ← fail_if (negb (String.eqb arch (manifest.Arch expected)) || (Z.land (Characteristics p) IMAGE_FILE_DLL =? 0))
        (errorf "embedded dll pe target mismatch");
  Ok dll.

(** ** The assets ([embed.FS]) by path, in the order of the paths *)

Context (assets : list (string * string)).

Definition ReadFile (path : string) : option string := snd <$> head (filter (λ a, a.1 = path) assets).

Definition Glob (pattern : string) : list string :=
  List.filter (λ p, bool_decide (Match pattern p = Some true)) assets.*1.

(** A target of [coverage.json]: version, architecture, status *)
Definition coverage_entry (v : json) : option (string * string * string) :=
  dec_struct ("", "", "") (λ ms,
    pg ← obj_fold "pg" dec_str "" ms;
    arch ← obj_fold "arch" dec_str "" ms;
    status ← obj_fold "status" dec_str "" ms;
    Some (pg, arch, status)) v.
(** The lines of a list of checksums that name the package. *)
Fixpoint scan_lines (name : string) (lines : list string) (expected : string) : result string :=
  match lines with
  | [] => Ok expected
  | line :: lines' =>
      match Fields line with
      | [sum; file] =>
          if String.eqb file name then
            _ ← fail_if (negb (String.eqb expected "") && negb (String.eqb expected sum))
                  (errorf "conflicting embedded release checksums");
            scan_lines name lines' sum
          else scan_lines name lines' expected
      | _ => scan_lines name lines' expected
      end
  end.

Definition newline : ascii := "010"%char.

Fixpoint scan_lists (name : string) (paths : list string) (expected : string) : result string :=
  match paths with
  | [] => Ok expected
  | path :: paths' =>
      list ← or_err (ReadFile path) (errorf "read embedded checksums: %w");
      expected ← scan_lines name (Split list newline) expected;
      scan_lists name paths' expected
  end.

Definition package (pgVersion arch : string) : string :=
  upstreamTag +:+ "-pg" +:+ pgVersion +:+ "-windows-" +:+ arch +:+ ".zip".

Definition bundledDLL (version : Z) (arch : string) : result string :=
  pgVersion ← versionName version;
  _ ← fail_if (negb (String.eqb arch "x86") && negb (String.eqb arch "x64"))
        (errorf "unsupported postgres executable architecture");
  coverage ← or_err (ReadFile "assets/coverage.json") (errorf "read embedded coverage: %w");
  targets ← or_err (parse coverage ≫= dec_list coverage_entry []) (errorf "read embedded coverage: %w");
  _ ← fail_if (bool_decide ((pgVersion, arch, "verified") ∉ targets))
        (errorf "target was not verified in the embedded release coverage");
  let name := package pgVersion arch in
  b ← or_err (ReadFile ("assets/" +:+ name)) (errorf "read embedded package: %w");
  expected ← scan_lists name (Glob "assets/SHA256SUMS*") "";
  _ ← fail_if (String.eqb expected "" || negb (String.eqb (digest b) expected))
        (errorf "embedded release checksum mismatch");
  unpackDLL b (manifest.mk upstreamTag upstreamCommit pgVersion arch "" "").
End release.

(** ** Publishing the file *)

Definition plugin : list string := ["wal2json.dll"].
Definition plugin_temp (random : string) : list string := [".go-sync-wal2json-" +:+ hex_encode random].

(** [fmt.Errorf(prefix, err)] for the error of a call *)
Definition wrapping {A : Type} (prefix : string) (c : disk A) : disk A :=
  catch (λ e, dpure (Err (wrapf prefix e))) c.

(** Meanwhile another process may put something where the plugin goes. *)
Definition meanwhile (others : option node) : disk unit := λ o t,
  (o, match others, t !! plugin with Some n, None => <[plugin := n]> t | _, _ => t end, Ok tt).

(** Without overwriting: whether the file was published.  A second name for the
    complete file is made only if there is nothing of that name. *)
Definition installAbsent (others : option node) (random dll : string) : disk bool :=
  _ ← wrapping "open postgres library directory: %w" nothing;
  deferred nothing (
    there ← wrapping "inspect existing plugin: %w" (exists_at plugin);
    if (there : bool) then mret false
    else
      let name := plugin_temp random in
      _ ← wrapping "create temporary plugin (check directory permissions): %w" (create name 420);
      deferred (Remove name) (
        _ ← wrapping "write plugin: %w" (deferred nothing (deferred nothing (write name dll)));
        _ ← meanwhile others;
        catch (λ e, if bool_decide (e = ErrExist) then mret false
                    else dpure (Err (wrapf "publish plugin without overwrite (requires hard-link support): %w" e)))
          (_ ← Link name plugin; mret true))).

(** ** The connected server is the local one *)

(** [net.IP.IsLoopback]: 127.0.0.0/8, also inside IPv6, and ::1 *)
Definition To4 (ip : list Z) : option (list Z) :=
  if (length ip =? 4)%nat then Some ip
  else if bool_decide (length ip = 16%nat ∧ take 12 ip = replicate 10 0 ++ [255; 255]) then Some (drop 12 ip) else None.
Definition IsLoopback (ip : list Z) : bool :=
  match To4 ip with
  | Some ip4 => default 0 (ip4 !! 0%nat) =? 127
  | None => bool_decide (ip = replicate 15 0 ++ [1])
  end.

(** [errors.Join(err, d)] for what is deferred *)
Definition join_close {A : Type} (d : result unit) (r : result A) : result A :=
  match r, d with
  | _, Ok _ => r
  | Ok _, Err e => Err e
  | Err e, Err e' => Err (errors_Join e e')
  end.

Definition backslashes : string := of_bytes [92; 92].

(** [time.Time.Sub]: the difference saturates. *)
Definition time_Sub (a b : Z) : Z := Z.max (- 2 ^ 63) (Z.min (2 ^ 63 - 1) (a - b)).

Section windows.
(** package filepath on Windows *)
Context (IsAbs : string → bool) (Dir Base : string → string) (Join : string → string → string).

(** What the system says of a process: opening it, when it was created, its image,
    the image with its links resolved, the machine of an executable, and closing the
    executable and the process. *)
Record process := mkProcess {
  OpenProcess : result unit; GetProcessTimes : result Z; QueryFullProcessImageName : result string;
  EvalSymlinks : string → result string; pe_Open : string → result Z; pe_Close : result unit; CloseHandle : result unit }.

Definition localExecutable (p : process) (backendStart : Z) : result (string * string) :=
  _ ← wrap_error "open local postgres backend process: %w" (OpenProcess p);
  join_close (CloseHandle p) (
    created ← wrap_error "identify local backend creation time: %w" (GetProcessTimes p);
    let delta := time_Sub backendStart created in
    _ ← fail_if ((delta <? - second) || (30 * second <? delta))
          (errorf "local process creation time does not match connected backend");
    image ← wrap_error "identify postgres executable: %w" (QueryFullProcessImageName p);
    path ← wrap_error "resolve postgres executable: %w" (EvalSymlinks p image);
    _ ← fail_if (negb (EqualFold (Base path) "postgres.exe") || HasPrefix path backslashes)
          (errorf "backend must be a local postgres.exe, not a network executable");
    machine ← wrap_error "inspect postgres executable architecture: %w" (pe_Open p path);
    join_close (pe_Close p) (arch ← machineArch machine; Ok (Dir path, arch))).

(** A file with a secret is put into the data directory the server names; the server
    must be able to read it there.  [answer] is what the server answers when it is
    asked for the first 64 bytes of a file of its data directory. *)
Definition probe_file (random : string) : list string := [".go-sync-plugin-probe-" +:+ random].

Definition proveLocalData (answer : tree → list string → result string) (dir nonce random : string) : disk unit :=
  if negb (IsAbs dir) || HasPrefix dir backslashes then
    dpure (Err (errorf "postgres data_directory must be an absolute local path"))
  else
    let value := hex_encode nonce in
    let f := probe_file random in
    _ ← wrapping "prove local data directory (requires temporary-file permission): %w" (create f 384);
    deferred (Remove f) (
      _ ← wrapping "write local instance challenge: %w" (deferred nothing (write f value));
      actual ← wrapping "verify local instance challenge: %w" (step (λ t, (t, answer t f)));
      if negb (String.eqb actual value) then
        dpure (Err (errorf "database does not share the verified local data directory"))
      else mret tt).

(** ** Installing what is missing *)

(** What [Ensure] meets: the parsed DSN, the connection, the two attempts to load the
    plugin, the address of the server, its identity (process, data directory,
    version, start), the processes and directories of the machine, the answers of
    the server and the outcomes of the calls on the two directories. *)
Record environment := mkEnvironment {
  e_ParseConfig : bool;
  e_Connect : result unit;
  e_Close : result unit;
  e_Load : result unit;
  e_Reload : result unit;
  e_RemoteAddr : option (list Z);
  e_Identify : result (Z * string * Z * Z);
  e_process : Z → process;
  e_Stat : string → result (bool * Z);
  e_answer : tree → list string → result string;
  e_nonce : string;
  e_probe : string;
  e_data_calls : list outcome;
  e_random : string;
  e_others : option node;
  e_lib_calls : list outcome }.

(** What is below a directory, and calls on it. *)
Definition dir_at (dirs : gmap string tree) (path : string) : tree := default ∅ (dirs !! path).
Definition within {A : Type} (path : string) (calls : list outcome) (c : disk A) (dirs : gmap string tree) : gmap string tree * result A :=
  let '(_, t, r) := c calls (dir_at dirs path) in (<[path := t]> dirs, r).

(** The directory of the configuration is the one of the running server. *)
Definition same_directory (Stat : string → result (bool * Z)) (configured binDir : string) : result unit :=
  if String.eqb configured "" then Ok tt
  else
    _ ← fail_if (negb (IsAbs configured)) (errorf "postgres_bin_dir must be absolute");
    expected ← wrap_error "resolve configured postgres_bin_dir: %w" (Stat configured);
    actual ← wrap_error "inspect connected postgres directory: %w" (Stat binDir);
    fail_if (negb expected.1 || negb (expected.2 =? actual.2))
      (errorf "connected postgres executable does not match postgres_bin_dir").

(** The data directory, the version, the directory of the executable and the
    architecture of the local server. *)
Definition identify (c : config.Config.t) (e : environment) : result (string * Z * string * string) :=
  _ ← fail_if (match e_RemoteAddr e with Some ip => negb (IsLoopback ip) | None => true end)
        (errorf "automatic plugin installation requires a loopback connection to the local postgres instance");
  '(pid, dataDir, version, backendStart) ← wrap_error "identify local postgres: %w" (e_Identify e);
  _ ← versionName version;
  '(binDir, arch) ← localExecutable (e_process e pid) backendStart;
  _ ← same_directory (e_Stat e) (config.Config.PostgresBinDir c) binDir;
  Ok (dataDir, version, binDir, arch).

Context (PgCode : error → option string).
Context (zip_NewReader : string → result (list zip_file)) (tables : string → result unit) (assets : list (string * string)).

(** In the library directory: whether the plugin was published *)
Definition install (e : environment) (loadErr : error) (version : Z) (arch : string) : disk bool :=
  there ← wrapping "inspect plugin destination: %w" (exists_at plugin);
  if (there : bool) then
    dpure (Err (wrapf "existing wal2json.dll cannot load; refusing to overwrite it (check ABI and dependencies): %w" loadErr))
  else
    dll ← dpure (bundledDLL zip_NewReader tables assets version arch);
    installed ← installAbsent (e_others e) (e_random e) dll;
    _ ← dpure (wrap_error "plugin installed at %q but cannot load; retained for diagnosis, no configuration changed: %w" (e_Reload e));
    mret installed.

(** In the library directory beside the one of the executable. *)
Definition libDir (binDir : string) : string := Join (Dir binDir) "lib".

(** The directories of the machine by their paths, and the result. *)
Definition Ensure (c : config.Config.t) (e : environment) (dirs : gmap string tree) : gmap string tree * result unit :=
  if negb (config.Config.Wal2JSONAutoInstall c) then (dirs, Ok tt)
  else if negb (e_ParseConfig e) then (dirs, Err (errorf "invalid postgres dsn"))
  else
    match e_Connect e with
    | Err err => (dirs, Err (wrapf "connect for plugin check: %w" err))
    | Ok _ =>
        match e_Load e with
        | Ok _ => (dirs, join_close (e_Close e) (Ok tt))
        | Err loadErr =>
            if bool_decide (PgCode loadErr = Some "58P01") then
              match identify c e with
              | Err err => (dirs, join_close (e_Close e) (Err err))
              | Ok (dataDir, version, binDir, arch) =>
                  match within dataDir (e_data_calls e) (proveLocalData (e_answer e) dataDir (e_nonce e) (e_probe e)) dirs with
                  | (dirs, Err err) => (dirs, join_close (e_Close e) (Err err))
                  | (dirs, Ok _) =>
                      let '(dirs, r) := within (libDir binDir) (e_lib_calls e) (install e loadErr version arch) dirs in
                      (dirs, join_close (e_Close e) (_ ← r; Ok tt))
                  end
              end
            else (dirs, join_close (e_Close e) (Err (wrapf
              "load wal2json (automatic installation requires superuser; disable it for a manually managed plugin): %w" loadErr)))
        end
    end.
End windows.

(** On the other systems the plugin is the administrator's. *)
Definition Ensure_other (dirs : gmap string tree) : gmap string tree * result unit := (dirs, Ok tt).

End walplugin.
