(* ===== verification/WalPluginProps.v ===== *)
(** * Correctness of the installation of the plugin

    What is taken from the embedded release is what its checksums and its manifest
    say; the file is published whole or not at all and replaces nothing; and nothing
    is installed unless the server was shown to be the local one. *)

From S2P Require Import Prelude Bytes Encoding Sha256 Json JsonStruct GoTime Config Disk WalPlugin.

Import walplugin.

Lemma wrap_error_Ok {A : Type} prefix (r : result A) a : wrap_error prefix r = Ok a → r = Ok a.
Proof. destruct r; [|discriminate]. by intros [= ->]. Qed.

Lemma join_close_Ok {A : Type} d (r : result A) a : join_close d r = Ok a → r = Ok a.
Proof. destruct r, d; try discriminate. by intros [= ->]. Qed.

(** The steps of a computation that succeeded. *)
Ltac steps_inv H :=
  result_inv H; repeat match goal with
  | E : wrap_error _ _ = Ok _ |- _ => apply wrap_error_Ok in E; result_inv E
  | E : join_close _ _ = Ok _ |- _ => apply join_close_Ok in E; result_inv E
  end; bool_prop.

(** ** The release *)

Lemma read_limited_Ok f b : read_limited (max_entry + 1) f = Ok b → slen b ≤ max_entry → f_end f = None ∧ b = f_data f.
Proof.
  unfold read_limited. intros H Hb. assert (b = limit_string (max_entry + 1) (f_data f)) as ->.
  { destruct (f_end f); [destruct (_ <? _); [done|]|]; by injection H. }
  assert (limit_string (max_entry + 1) (f_data f) = f_data f) as E by (apply limit_string_short; lia).
  rewrite E in *. split; [|done]. destruct (f_end f); [|done]. destruct (Z.ltb_spec (slen (f_data f)) (max_entry + 1)); [done|lia].
Qed.

(** The entries of a name: at most one, read to its end. *)
Lemma entries_unique name l : name = "wal2json.dll" ∨ name = "manifest.json" → ∀ files files', entries l files = Ok files' →
  match filter (λ f, Name f = name) l with
  | [] => files' !! name = files !! name
  | [f] => files !! name = None ∧ files' !! name = Some (f_data f) ∧ slen (f_data f) ≤ max_entry ∧ f_end f = None
  | _ => False
  end.
Proof.
  intros Hn. induction l as [|f l IH]; intros files files'; cbn [entries]; [by intros [= ->]|].
  destruct (negb _ && negb _) eqn:Hskip.
  { intros H. rewrite filter_cons_False; [by apply IH|]. intros E. bool_prop. naive_solver. }
  intros H. steps_inv H. match goal with H : read_limited _ _ = Ok ?b |- _ => destruct (read_limited_Ok f b H) as [Hend ->]; [done|] end.
  match goal with H : entries l _ = _ |- _ => specialize (IH _ _ H) end.
  destruct (decide (Name f = name)) as [<-|Hne].
  - rewrite filter_cons_True by done. destruct (filter _ l) as [|g [|g' l']]; [| |done].
    + rewrite lookup_insert_eq in IH. split_and!; [by apply eq_None_not_Some|done|done|done].
    + rewrite lookup_insert_eq in IH. by destruct IH.
  - rewrite filter_cons_False by done. by rewrite lookup_insert_ne in IH by done.
Qed.

(** ** The checksums *)

Section checksums.
Context (assets : list (string * string)) (name : string).

(** A line of a list of checksums gives the package this sum. *)
Definition listed_in (lines : list string) (sum : string) : Prop := ∃ line, line ∈ lines ∧ Fields line = [sum; name].
Definition listed (paths : list string) (sum : string) : Prop :=
  ∃ path text, path ∈ paths ∧ ReadFile assets path = Some text ∧ listed_in (Split text newline) sum.

(** Every sum that is listed is the one that is found. *)
Definition settles (all : string → Prop) (expected sum : string) : Prop :=
  (∀ s, all s → s = sum) ∧ (expected ≠ "" → sum = expected) ∧ (sum ≠ expected → all sum).

Lemma settles_trans (A B C : string → Prop) x y z : settles A x y → settles B y z → (∀ s, C s ↔ A s ∨ B s) → (∀ s, A s → s ≠ "") → settles C x z.
Proof.
  intros (A1 & A2 & A3) (B1 & B2 & B3) HC Hne. split_and!.
  - intros s [H|H]%HC; [|by apply B1]. pose proof (A1 s H) as ->. symmetry. by apply B2, Hne.
  - intros Hx. rewrite (B2 ltac:(by rewrite (A2 Hx))). by apply A2.
  - intros Hz. apply HC. destruct (decide (z = y)) as [->|Hzy]; [left|right]; auto.
Qed.

Lemma settles_none (A : string → Prop) x : (∀ s, ¬ A s) → settles A x x.
Proof. intros H. split_and!; [|done|done]. by intros s ?%H. Qed.

Lemma listed_in_nonempty lines s : listed_in lines s → s ≠ "".
Proof. intros (line & _ & E). apply (Fields_nonempty line). rewrite E. set_solver. Qed.

Lemma scan_lines_settles lines : ∀ expected sum, scan_lines name lines expected = Ok sum → settles (listed_in lines) expected sum.
Proof.
  induction lines as [|line lines IH]; intros expected sum; cbn [scan_lines].
  { intros [= ->]. apply settles_none. by intros s (? & ?%elem_of_nil & _). }
  intros H. enough (∃ x, settles (listed_in [line]) expected x ∧ scan_lines name lines x = Ok sum) as (x & Hx & Hs).
  { apply (settles_trans _ (listed_in lines) _ _ x _ Hx (IH _ _ Hs)); [|apply listed_in_nonempty].
    intros s. unfold listed_in. set_solver. }
  assert ((∀ s, Fields line ≠ [s; name]) → settles (listed_in [line]) expected expected) as Hnone.
  { intros Hf. apply settles_none. intros s (? & ->%list_elem_of_singleton & E). by apply (Hf s). }
  destruct (Fields line) as [|s0 [|file [|]]] eqn:E; try (exists expected; split; [by apply Hnone|done]).
  destruct (String.eqb_spec file name) as [->|Hne]; [|exists expected; split; [apply Hnone; congruence|done]].
  exists s0. result_inv H. split; [|done]. split_and!.
  - intros s (? & ->%list_elem_of_singleton & Es). congruence.
  - intros He. match goal with H : negb _ && negb _ = false |- _ => apply andb_false_iff in H as [H|H] end; bool_prop; congruence.
  - intros _. exists line. split; [set_solver|done].
Qed.

Lemma scan_lists_settles paths : ∀ expected sum, scan_lists assets name paths expected = Ok sum → settles (listed paths) expected sum.
Proof.
  induction paths as [|path paths IH]; intros expected sum; cbn [scan_lists].
  { intros [= ->]. apply settles_none. by intros s (? & ? & ?%elem_of_nil & _). }
  intros H. result_inv H. rename a into text. match goal with H : scan_lines _ _ _ = Ok ?x |- _ => apply scan_lines_settles in H; rename H into Hx; rename x into y end.
  apply (settles_trans _ (listed paths) _ _ y _ Hx); [by apply IH| |apply listed_in_nonempty].
  intros s. unfold listed. split.
  - intros (p & t & [->|Hp]%elem_of_cons & Ht & Hl); [left; congruence|right; eauto].
  - intros [Hl|(p & t & Hp & Ht & Hl)]; [exists path, text|exists p, t]; split_and!; try done; set_solver.
Qed.
End checksums.

(** ** The plugin of the release *)

(** What is known of a plugin taken from the assets: the package is the one of the
    version and the architecture, the target was verified, its sum is listed and no
    other is, and it has exactly one plugin and one manifest; the plugin is the one of
    the manifest, whose origin, target and test are the expected ones, and a library
    for that machine. *)
Definition verified zip_NewReader tables assets (version : Z) (arch dll : string) : Prop :=
  ∃ pg coverage targets archive z f g h, versionName version = Ok pg ∧ (arch = "x86" ∨ arch = "x64") ∧
    ReadFile assets "assets/coverage.json" = Some coverage ∧ parse coverage ≫= dec_list coverage_entry [] = Some targets ∧
    (pg, arch, "verified") ∈ targets ∧
    let name := package pg arch in
    let sums := listed assets name (Glob assets "assets/SHA256SUMS*") in
    ReadFile assets ("assets/" +:+ name) = Some archive ∧
    sums (digest archive) ∧ (∀ sum, sums sum → sum = digest archive) ∧
    zip_NewReader archive = Ok z ∧
    filter (λ f, Name f = "wal2json.dll") z = [f] ∧ f_data f = dll ∧ f_end f = None ∧ dll ≠ "" ∧ slen dll ≤ max_entry ∧
    filter (λ f, Name f = "manifest.json") z = [g] ∧
    parse (TrimPrefix (f_data g) bom) ≫= manifest.decode =
      Some (manifest.mk upstreamTag upstreamCommit pg arch (digest dll) "passed") ∧
    pe_NewFile tables dll = Ok h ∧ machineArch (Machine h) = Ok arch ∧ Z.land (Characteristics h) IMAGE_FILE_DLL ≠ 0.

Lemma unpackDLL_Ok zip_NewReader tables archive expected dll : unpackDLL zip_NewReader tables archive expected = Ok dll →
  ∃ z f g h, zip_NewReader archive = Ok z ∧
    filter (λ f, Name f = "wal2json.dll") z = [f] ∧ f_data f = dll ∧ f_end f = None ∧ dll ≠ "" ∧ slen dll ≤ max_entry ∧
    filter (λ f, Name f = "manifest.json") z = [g] ∧
    parse (TrimPrefix (f_data g) bom) ≫= manifest.decode =
      Some (manifest.mk (manifest.Tag expected) (manifest.Commit expected) (manifest.Version expected) (manifest.Arch expected) (digest dll) "passed") ∧
    pe_NewFile tables dll = Ok h ∧ machineArch (Machine h) = Ok (manifest.Arch expected) ∧ Z.land (Characteristics h) IMAGE_FILE_DLL ≠ 0.
Proof.
  intros H. unfold unpackDLL in H. steps_inv H.
  match goal with H : zip_NewReader _ = Ok ?x |- _ => rename x into z end.
  match goal with H : entries _ _ = Ok ?x |- _ => rename x into files; rename H into Hf end.
  match goal with H : _ = Some ?x |- _ => rename x into m; rename H into Hm end.
  pose proof (entries_unique "wal2json.dll" z (or_introl eq_refl) _ _ Hf) as Hd.
  pose proof (entries_unique "manifest.json" z (or_intror eq_refl) _ _ Hf) as Hj.
  destruct (filter (λ f, Name f = "wal2json.dll") z) as [|f [|]] eqn:Ef; [rewrite Hd in *; done| |done].
  destruct (filter (λ f, Name f = "manifest.json") z) as [|g [|]] eqn:Eg; [rewrite Hj in Hm; discriminate Hm| |done].
  destruct Hd as (_ & Hd & Hlen & Hend), Hj as (_ & Hj & _). rewrite Hd in *. rewrite Hj in Hm. cbn [default] in *.
  destruct m as [tag commit ver arch hash test]. cbn in *. subst.
  eexists _, f, g, _. split_and!; try done. by intros E0; rewrite E0 in *.
Qed.

Lemma bundledDLL_Ok zip_NewReader tables assets version arch dll :
  bundledDLL zip_NewReader tables assets version arch = Ok dll → verified zip_NewReader tables assets version arch dll.
Proof.
  unfold bundledDLL. intros H. steps_inv H.
  match goal with H : unpackDLL _ _ _ _ = Ok _ |- _ => apply unpackDLL_Ok in H as (z & f & g & h & Hz & Hf & Hdata & Hend & Hne & Hlen & Hg & Hm & Hh & Harch & Hdll) end.
  match goal with H : scan_lists _ _ _ _ = Ok _ |- _ => apply scan_lists_settles in H as (Hall & _ & Hone) end.
  match goal with H : negb _ && negb _ = false |- _ => apply andb_false_iff in H; rename H into Ha end.
  eexists _, _, _, _, z, f, g, h. cbn zeta. subst. split_and!; try done.
  - by destruct Ha; bool_prop; [left|right].
  - by apply dec_stable.
  - by apply Hone.
Qed.

(** ** Publishing *)

Lemma spec_wrapping {A : Type} I P prefix (c : disk A) Q : spec I P c Q → spec I P (wrapping prefix c) Q.
Proof. intros H. apply spec_catch; [done|]. intros e o t o' t' r HI [= <- <- <-]. done. Qed.

Section publish.
Context (t0 : tree) (others : option node) (random dll : string).
Notation temp := (plugin_temp random).
Notation new := (mkFile dll 420 0).
Notation before := (Disk.before t0 plugin temp []).
Notation staged := (Disk.staged t0 plugin temp []).
Notation kept := (Disk.kept t0 plugin temp []).

Lemma plugin_apart : plugin ≠ temp.
Proof. discriminate. Qed.

(** At every moment. *)
Definition unbroken (t : tree) : Prop := kept t ∧ (t !! plugin = t0 !! plugin ∨
  t0 !! plugin = None ∧ (t !! plugin = others ∨ others = None ∧ t !! plugin = Some (File new))).

(** At the end: it was published; or there was something, before or meanwhile. *)
Definition ended (b : bool) (t : tree) : Prop := kept t ∧
  if b then t0 !! plugin = None ∧ others = None ∧ t !! plugin = Some (File new)
  else t0 !! plugin ≠ None ∧ t !! plugin = t0 !! plugin ∨ t0 !! plugin = None ∧ others ≠ None ∧ t !! plugin = others.

Lemma before_unbroken t : before t → unbroken t.
Proof. intros [H1 H2]. split; auto. Qed.

Lemma ended_unbroken b t : ended b t → unbroken t.
Proof. intros [H1 H2]. split; [done|]. destruct b; [|destruct H2 as [[_ H2]|(H2 & _ & H3)]; auto]. destruct H2 as (H2 & -> & H3). auto. Qed.

Lemma unbroken_temp t t' : unbroken t → (∀ q, q ≠ temp → t' !! q = t !! q) → unbroken t'.
Proof. intros [H1 H2] E. split; [by eapply kept_temp|]. by rewrite (E plugin plugin_apart). Qed.

Lemma ended_temp b t t' : ended b t → (∀ q, q ≠ temp → t' !! q = t !! q) → ended b t'.
Proof. intros [H1 H2] E. split; [by eapply kept_temp|]. destruct b; by rewrite (E plugin plugin_apart). Qed.

Lemma spec_meanwhile f : t0 !! plugin = None → spec unbroken (staged f) (meanwhile others)
  (λ _ t, kept t ∧ t !! plugin = others ∧ t !! temp = Some (File f)).
Proof.
  intros H0 o t o' t' r [[H1 H2] H3]. unfold meanwhile. intros [= <- <- <-]. rewrite H2, H0. destruct others as [n|]; [|by rewrite H2, H0].
  split_and!; [|by rewrite lookup_insert_eq|by rewrite lookup_insert_ne].
  intros q Hq Hq'. rewrite lookup_insert_ne by done. auto.
Qed.

Lemma Link_cases o t o' t' r f : Link temp plugin o t = (o', t', r) → t !! temp = Some (File f) →
  r = Ok tt ∧ t !! plugin = None ∧ t' = <[plugin := File f]> t ∨
  t' = t ∧ (r = Err ErrExist ∧ t !! plugin ≠ None ∨ ∃ e, r = Err e ∧ e ≠ ErrExist).
Proof.
  unfold Link, rooted. change (escapes temp) with false. change (escapes plugin) with false. unfold step, sys. intros H Ht.
  destruct o as [|x o1]; [injection H as <- <- <-; right; split; [done|]; right; by eexists|].
  destruct x; try (injection H as <- <- <-; right; split; [done|]; right; by eexists);
    (rewrite Ht in H; unfold is_dir in H; cbn [parent plugin removelast negb] in H;
     destruct (t !! plugin) as [[|g]|] eqn:E; injection H as <- <- <-; [right; split; [done|]; by left|right; split; [done|]; by left|by left]).
Qed.

Lemma spec_link : t0 !! plugin = None → spec unbroken (λ t, kept t ∧ t !! plugin = others ∧ t !! temp = Some (File new))
  (catch (λ e, if bool_decide (e = ErrExist) then mret false
               else dpure (Err (wrapf "publish plugin without overwrite (requires hard-link support): %w" e)))
    (_ ← Link temp plugin; mret true))
  (λ b t, ended b t).
Proof.
  intros H0 o t o' t' r (H1 & H2 & H3). assert (unbroken t) as Hu by (split; auto).
  unfold catch, mbind, disk_bind. destruct (Link temp plugin o t) as [[o1 t1] r1] eqn:E.
  apply (Link_cases _ _ _ _ _ _ E) in H3 as [(-> & Hn & ->)|(-> & [(-> & Hn)|(e & -> & He)])].
  - intros [= <- <- <-]. split; [|rewrite lookup_insert_eq; split_and!; congruence].
    intros q Hq Hq'. rewrite lookup_insert_ne by done. auto.
  - rewrite bool_decide_true by done. intros [= <- <- <-]. split; [done|]. right. split_and!; congruence.
  - rewrite bool_decide_false by done. by intros [= <- <- <-].
Qed.

Lemma spec_installAbsent : spec unbroken (λ t, t = t0) (installAbsent others random dll) (λ b t, ended b t ∧ (t !! temp = t0 !! temp)).
Proof.
  assert (∀ t, t = t0 → unbroken t) as Hstart by (intros t ->; split; [by left|by left]).
  unfold installAbsent. eapply spec_bind; [apply spec_wrapping, spec_nothing, Hstart|]. intros [].
  eapply spec_deferred; [|apply spec_nothing; done|intros b; apply spec_nothing; intros t [H _]; by eapply ended_unbroken].
  apply (spec_bind _ _ _ _ (λ (b : bool) t, t = t0 ∧ if b then t0 !! plugin ≠ None else t0 !! plugin = None)).
  { apply spec_wrapping, spec_rooted; [done|]. apply spec_step; [done|]. intros t t' r -> [= <- <-].
    split; [done|]. unfold is_dir, plugin. by destruct (t0 !! ["wal2json.dll"]) as [[]|]. }
  intros [].
  { apply spec_ret. intros t [-> H]. split; [|done]. split; [by left|]. by left. }
  apply (spec_weaken _ _ (λ t, t0 !! plugin = None ∧ t = t0) _ _ (λ b t, ended b t ∧ t !! temp = t0 !! temp)); [|naive_solver|done].
  apply spec_fact. intros H0. apply (spec_bind _ _ _ _ (λ _ t, t0 !! temp = None ∧ staged (mkFile "" 420 0) t)).
  { apply spec_wrapping. intros o t o' t' r -> E. pose proof (spec_create_before t0 plugin temp [] plugin_apart 420 o t0 o' t' r) as H.
    specialize (H (conj (λ q _ _, or_introl eq_refl) eq_refl) E). destruct r; [|by apply before_unbroken]. split; [by eapply create_fresh|done]. }
  intros []. apply spec_fact. intros Htemp.
  apply (spec_deferred _ _ _ _ ended); [|apply spec_Remove; [done|]; intros; by eapply unbroken_temp|].
  - apply (spec_bind _ _ _ _ (λ _, staged new)).
    { apply spec_wrapping. assert (∀ t, staged new t → unbroken t) as Hs by (intros t []; by apply before_unbroken).
      do 2 (apply (spec_deferred _ _ _ _ (λ _, staged new)); [|by apply spec_nothing|intros []; by apply spec_nothing]).
      eapply spec_mono; [apply (spec_write_before t0 plugin temp [] plugin_apart (mkFile "" 420 0))|apply before_unbroken]. }
    intros []. eapply spec_bind; [by apply spec_meanwhile|]. intros []. by apply spec_link.
  - intros b. apply spec_Remove; [apply ended_unbroken|]. intros t t' H E Et. split; [by eapply ended_temp|congruence].
Qed.
End publish.

(** ** The local server *)

Section local.
Context (IsAbs : string → bool) (Dir Base : string → string).

(** The process of the backend: it started with the backend, and it is a local
    postgres.exe for the architecture. *)
Definition local_backend (p : process) (backendStart : Z) (binDir arch : string) : Prop :=
  ∃ created image path machine, binDir = Dir path ∧ GetProcessTimes p = Ok created ∧
    - second ≤ time_Sub backendStart created ≤ 30 * second ∧
    QueryFullProcessImageName p = Ok image ∧ EvalSymlinks p image = Ok path ∧
    EqualFold (Base path) "postgres.exe" = true ∧ HasPrefix path backslashes = false ∧
    pe_Open p path = Ok machine ∧ machineArch machine = Ok arch.

Lemma localExecutable_Ok p start bin arch : localExecutable Dir Base p start = Ok (bin, arch) → local_backend p start bin arch.
Proof. unfold localExecutable. intros H. steps_inv H. simplify_eq. by eexists _, _, _, _. Qed.

(** The file with the secret, as it is when the server is asked. *)
Definition challenged (answer : tree → list string → result string) (nonce random : string) (data : tree) : Prop :=
  ∃ t, besides (probe_file random) data (mkFile (hex_encode nonce) 384 0) t ∧ answer t (probe_file random) = Ok (hex_encode nonce).

Lemma before_root data temp t : temp ≠ [] → Disk.before data [] temp [] t ↔ ∀ q, q ≠ temp → t !! q = data !! q.
Proof.
  intros Hn. split.
  - intros [H1 H2] q Hq. destruct (decide (q = [])) as [->|Hne]; [done|]. destruct (H1 q Hq Hne) as [?|(?%elem_of_nil & _)]; done.
  - intros H. split; [intros q Hq _; left; auto|by apply H].
Qed.

Lemma spec_proveLocalData answer dir nonce random data : let f := probe_file random in
  spec (λ t, ∀ q, q ≠ f → t !! q = data !! q) (λ t, t = data) (proveLocalData IsAbs answer dir nonce random)
    (λ _ t, (∀ q, q ≠ f → t !! q = data !! q) ∧ t !! f = None ∧ IsAbs dir = true ∧ challenged answer nonce random data).
Proof.
  intros f. unfold proveLocalData. fold f. destruct (negb (IsAbs dir) || _) eqn:Hd.
  { intros o t o' t' r -> [= <- <- <-]. done. }
  apply orb_false_iff in Hd as [Hd%negb_false_iff _]. assert ([] ≠ f) as Hp by discriminate. set (before := Disk.before data [] f []). set (staged := Disk.staged data [] f []).
  assert (∀ t, before t → ∀ q, q ≠ f → t !! q = data !! q) as Hb by (intros t; by apply before_root).
  assert (∀ x t, staged x t → ∀ q, q ≠ f → t !! q = data !! q) as Hs by (intros x t [H' _]; by apply Hb).
  apply (spec_bind _ _ _ _ (λ _, staged (mkFile "" 384 0))).
  { apply spec_wrapping. eapply spec_weaken; [eapply spec_mono; [by apply spec_create_before|exact Hb]| |done].
    intros t ->. split; [by left|done]. }
  intros []. apply (spec_deferred _ _ _ _ (λ _ t, (∀ q, q ≠ f → t !! q = data !! q) ∧ challenged answer nonce random data)).
  - apply (spec_bind _ _ _ _ (λ _, staged (mkFile (hex_encode nonce) 384 0))).
    { apply spec_wrapping. apply (spec_deferred _ _ _ _ (λ _, staged (mkFile (hex_encode nonce) 384 0)));
        [|by apply spec_nothing|intros []; apply spec_nothing, Hs].
      eapply spec_mono; [by apply (spec_write_before data [] f [] Hp (mkFile "" 384 0))|exact Hb]. }
    intros []. apply (spec_bind _ _ _ _ (λ actual t, answer t f = Ok actual ∧ staged (mkFile (hex_encode nonce) 384 0) t)).
    { apply spec_wrapping, spec_step; [apply Hs|]. intros t t' r H [= <- Er]. destruct r; [done|by eapply Hs]. }
    intros actual. destruct (String.eqb_spec actual (hex_encode nonce)) as [->|Hne]; cbn [negb].
    + apply spec_ret. intros t [Ha H]. split; [by eapply Hs|]. exists t. split; [|done]. split; [apply H|by eapply Hs].
    + intros o t o' t' r [_ H] [= <- <- <-]. by eapply Hs.
  - apply spec_Remove; [done|]. intros t t' H E _ q Hq. rewrite E; auto.
  - intros []. apply spec_Remove; [by intros t []|]. intros t t' [H Hc] E En. split_and!; [|done|done|done].
    intros q Hq. rewrite E; auto.
Qed.
End local.

(** ** What [Ensure] went through *)

Section ensure.
Context (IsAbs : string → bool) (Dir Base : string → string) (Join : string → string → string) (PgCode : error → option string).
Context (zip_NewReader : string → result (list zip_file)) (tables : string → result unit) (assets : list (string * string)).

(** The server that is asked for the plugin is the local one, and [lib] is its library
    directory. *)
Definition shown_local (e : environment) (dirs : gmap string tree) (version : Z) (arch lib : string) : Prop :=
  (∃ ip, e_RemoteAddr e = Some ip ∧ IsLoopback ip = true) ∧
  ∃ pid dir start binDir, e_Identify e = Ok (pid, dir, version, start) ∧ local_backend Dir Base (e_process e pid) start binDir arch ∧
    IsAbs dir = true ∧ challenged (e_answer e) (e_nonce e) (e_probe e) (dir_at dirs dir) ∧ lib = libDir Dir Join binDir.

Lemma identify_Ok c e dir version binDir arch : identify IsAbs Dir Base c e = Ok (dir, version, binDir, arch) →
  (∃ ip, e_RemoteAddr e = Some ip ∧ IsLoopback ip = true) ∧
  ∃ pid start, e_Identify e = Ok (pid, dir, version, start) ∧ local_backend Dir Base (e_process e pid) start binDir arch.
Proof.
  unfold identify. intros H. steps_inv H. split.
  - destruct (e_RemoteAddr e) as [ip|]; [|discriminate]. exists ip. split; [done|]. by bool_prop.
  - simplify_eq. eexists _, _. split; [done|]. by eapply localExecutable_Ok.
Qed.

Lemma dir_at_insert (dirs : gmap string tree) p q t : dir_at (<[p := t]> dirs) q = if decide (q = p) then t else dir_at dirs q.
Proof. unfold dir_at. destruct (decide (q = p)) as [->|]; [by rewrite lookup_insert_eq|by rewrite lookup_insert_ne]. Qed.

Lemma exists_at_cases prefix o t o' t' r : wrapping prefix (exists_at plugin) o t = (o', t', r) → t' = t ∧ (r = Ok false → t !! plugin = None).
Proof.
  unfold wrapping, catch, exists_at, rooted. change (escapes plugin) with false. unfold step, sys, is_dir.
  destruct o as [|[] o1]; intros [= <- <- <-]; (split; [done|]); try done; cbn; by destruct (t !! plugin) as [[]|].
Qed.

Lemma install_cases e loadErr version arch o lib o' lib' r :
  install zip_NewReader tables assets e loadErr version arch o lib = (o', lib', r) →
  lib' = lib ∧ r ≠ Ok true ∨
  lib !! plugin = None ∧ ∃ dll o1 o2 r1, bundledDLL zip_NewReader tables assets version arch = Ok dll ∧
    installAbsent (e_others e) (e_random e) dll o1 lib = (o2, lib', r1) ∧ (∀ b, r = Ok b → r1 = Ok b).
Proof.
  unfold install, mbind, disk_bind. destruct (wrapping _ (exists_at plugin) o lib) as [[o1 t1] r1] eqn:E.
  apply exists_at_cases in E as [-> Hno]. destruct r1 as [[]|err]; [intros [= <- <- <-]; by left| |intros [= <- <- <-]; by left].
  unfold dpure at 1. destruct (bundledDLL _ _ _ _ _) as [dll|err]; [|intros [= <- <- <-]; by left].
  destruct (installAbsent _ _ dll o1 lib) as [[o2 t2] r2] eqn:E2. intros H. right. split; [by apply Hno|]. exists dll, o1, o2, r2.
  destruct r2 as [b|err]; [|by injection H as <- <- <-].
  unfold dpure in H. destruct (wrap_error _ _); injection H as <- <- <-; split_and!; try done.
Qed.

(** The directories agree but for the file of the challenge. *)
Definition alike (e : environment) (dirs dirs' : gmap string tree) : Prop :=
  ∀ p q, q ≠ probe_file (e_probe e) → dir_at dirs' p !! q = dir_at dirs p !! q.

(** What the call comes to: nothing is touched but the file of the challenge; or the
    server was shown to be local and the plugin of its version is put where none was. *)
Lemma Ensure_cases c e dirs dirs' r :
  Ensure IsAbs Dir Base Join PgCode zip_NewReader tables assets c e dirs = (dirs', r) →
  alike e dirs dirs' ∨
  config.Config.Wal2JSONAutoInstall c = true ∧ (∃ err, e_Load e = Err err ∧ PgCode err = Some "58P01") ∧
  ∃ version arch lib dirs1 dll o o' t r1, shown_local e dirs version arch lib ∧ alike e dirs dirs1 ∧ dir_at dirs1 lib !! plugin = None ∧
    bundledDLL zip_NewReader tables assets version arch = Ok dll ∧
    installAbsent (e_others e) (e_random e) dll o (dir_at dirs1 lib) = (o', t, r1) ∧ dirs' = <[lib := t]> dirs1.
Proof.
  assert (alike e dirs dirs) as Hrefl by done.
  unfold Ensure. destruct (config.Config.Wal2JSONAutoInstall c); cbn [negb]; [|intros [= <- <-]; by left].
  destruct (e_ParseConfig e); cbn [negb]; [|intros [= <- <-]; by left].
  destruct (e_Connect e); [|intros [= <- <-]; by left]. destruct (e_Load e) as [|err] eqn:Hload; [intros [= <- <-]; by left|].
  case_bool_decide as Hcode; [|intros [= <- <-]; by left].
  destruct (identify _ _ _ c e) as [[[[dir version] binDir] arch]|err'] eqn:Hid; [|intros [= <- <-]; by left].
  apply identify_Ok in Hid as (Hip & pid & start & Hid & Hlocal). unfold within at 1.
  destruct (proveLocalData _ _ _ _ _ _ _) as [[o1 data1] r1] eqn:Hp.
  apply (spec_proveLocalData IsAbs _ _ _ _ (dir_at dirs dir)) in Hp; [|done].
  assert (alike e dirs (<[dir := data1]> dirs)) as Hal.
  { intros p q Hq. rewrite dir_at_insert. destruct (decide (p = dir)) as [->|]; [|done]. destruct r1 as [[]|]; [by apply Hp|by apply Hp]. }
  destruct r1 as [[]|err']; [|intros [= <- <-]; by left]. destruct Hp as (_ & _ & Habs & Hch). unfold within.
  destruct (install _ _ _ _ _ _ _ _ _) as [[o2 lib1] r1] eqn:Hi. intros [= <- _].
  apply install_cases in Hi as [[-> _]|(Hno & dll & oa & ob & ra & Hb & Hins & _)].
  { left. intros p q Hq. rewrite dir_at_insert. destruct (decide (p = _)) as [->|]; by apply Hal. }
  right. split_and!; [done|by exists err|]. exists version, arch, (libDir Dir Join binDir), (<[dir := data1]> dirs), dll, oa, ob, lib1, ra.
  split_and!; try done. split; [done|]. by exists pid, dir, start, binDir.
Qed.
End ensure.

(** ** The theorems *)

(** C27 The plugin is published whole or not at all and replaces nothing: whatever
    calls fail, whatever write is torn, wherever the process is killed and whatever
    another process puts there meanwhile, what was in place stays; otherwise there is
    nothing, what the other process put, or the complete plugin.  It is reported as
    published exactly if it is; no other file changes, and no temporary file is left
    by a call that returns without an error. *)
Theorem plugin_published others random dll o t o' t' r : installAbsent others random dll o t = (o', t', r) →
  let new := Some (File (mkFile dll 420 0)) in
  (∀ q, q ≠ plugin → q ≠ plugin_temp random → t' !! q = t !! q) ∧
  (t !! plugin ≠ None → t' !! plugin = t !! plugin) ∧
  (t !! plugin = None → t' !! plugin = None ∨ t' !! plugin = others ∨ others = None ∧ t' !! plugin = new) ∧
  match r with
  | Ok true => t !! plugin = None ∧ others = None ∧ t' !! plugin = new ∧ t' !! plugin_temp random = t !! plugin_temp random
  | Ok false => (t !! plugin ≠ None ∨ others ≠ None) ∧ t' !! plugin_temp random = t !! plugin_temp random
  | Err _ => True
  end.
Proof.
  intros E new. pose proof (spec_installAbsent t others random dll o t o' t' r eq_refl E) as H.
  assert (unbroken t others random dll t') as [Hk Hu].
  { destruct r as [b|]; [destruct H as [H _]; by eapply ended_unbroken|done]. }
  split_and!.
  - intros q Hq Hq'. destruct (Hk q Hq' Hq) as [?|(?%elem_of_nil & _)]; done.
  - intros Hn. by destruct Hu as [?|[? _]].
  - intros Hn. destruct Hu as [Hu|[_ [Hu|Hu]]]; [left; congruence|by right; left|by right; right].
  - destruct r as [[]|]; [|destruct H as [[_ [[H _]|(_ & H & _)]] Ht]; auto|done]. destruct H as [[_ (H1 & H2 & H3)] H4]. done.
Qed.

(** C26 Only a verified plugin is installed, only for the local server, and only where
    none is: if [Ensure] changes what is in place of the plugin in a directory, then it
    was asked to install, the server could not find its plugin, it answered over the
    loopback address, its backend is a local postgres.exe that started with it, it read
    back the secret that was written into its data directory, the directory is the
    library directory beside the one of that executable, there was no plugin, and
    the new one is, byte for byte, the one of the embedded release for that version
    and architecture, with the checksums, the origin and the test of the release. *)
Theorem ensure_verified IsAbs Dir Base Join PgCode zip_NewReader tables assets c e dirs dirs' r lib :
  Ensure IsAbs Dir Base Join PgCode zip_NewReader tables assets c e dirs = (dirs', r) →
  e_others e = None → dir_at dirs' lib !! plugin ≠ dir_at dirs lib !! plugin →
  config.Config.Wal2JSONAutoInstall c = true ∧ (∃ err, e_Load e = Err err ∧ PgCode err = Some "58P01") ∧ dir_at dirs lib !! plugin = None ∧
  ∃ version arch dll, shown_local IsAbs Dir Base Join e dirs version arch lib ∧ verified zip_NewReader tables assets version arch dll ∧
    dir_at dirs' lib !! plugin = Some (File (mkFile dll 420 0)).
Proof.
  assert (plugin ≠ probe_file (e_probe e)) as Hpp by discriminate.
  intros H Ho Hne. apply Ensure_cases in H as [H|(Ha & Hl & version & arch & lib' & dirs1 & dll & o & o' & t & r1 & Hs & Hal & Hno & Hb & Hi & ->)];
    [by destruct Hne; apply H|].
  rewrite dir_at_insert in Hne |- *. destruct (decide (lib = lib')) as [->|]; [|by destruct Hne; apply Hal].
  rewrite (Hal lib' plugin Hpp) in Hno. split_and!; [done|done|done|]. exists version, arch, dll. split_and!; [done|by apply bundledDLL_Ok|].
  pose proof (spec_installAbsent (dir_at dirs1 lib') (e_others e) (e_random e) dll o _ o' t r1 eq_refl Hi) as H.
  rewrite <-(Hal lib' plugin Hpp) in Hne, Hno.
  assert (unbroken (dir_at dirs1 lib') (e_others e) (e_random e) dll t) as [_ [Hu|[_ [Hu|[_ Hu]]]]]; [|congruence|congruence|done].
  destruct r1 as [b|]; [destruct H as [H _]; by eapply ended_unbroken|done].
Qed.

(** A server with another data directory gets nothing: if it answers from files that
    do not have the secret, nothing changes but the file of the challenge. *)
Theorem remote_untouched IsAbs Dir Base Join PgCode zip_NewReader tables assets c e dirs dirs' r (remote : tree) :
  (∀ t f v, e_answer e t f = Ok v → ∃ x, remote !! f = Some (File x) ∧ v = take_string 64 (f_content x)) →
  (∀ x, remote !! probe_file (e_probe e) = Some (File x) → take_string 64 (f_content x) ≠ hex_encode (e_nonce e)) →
  Ensure IsAbs Dir Base Join PgCode zip_NewReader tables assets c e dirs = (dirs', r) → alike e dirs dirs'.
Proof.
  intros Hans Hno H. apply Ensure_cases in H as [?|(_ & _ & version & arch & lib & dirs1 & dll & o & o' & t & r1 & Hs & _)]; [done|exfalso].
  destruct Hs as (_ & pid & dir & start & bin & _ & _ & _ & (t1 & _ & Ha) & _). apply Hans in Ha as (x & Hx & Hv). by apply (Hno x).
Qed.

(** ** Examples *)

(** The write of the plugin is torn. *)
Definition demo_torn : list outcome * tree * result bool :=
  installAbsent None "r" "DLL" [Done; Done; Done; Torn 2 "disk full"] ∅.

Lemma plugin_published_witness : demo_torn.1.2 !! plugin = None.
Proof.
  destruct (plugin_published None "r" "DLL" [Done; Done; Done; Torn 2 "disk full"] ∅ demo_torn.1.1 demo_torn.1.2 demo_torn.2) as (_ & _ & H & _).
  - exact (disk_outcome demo_torn _ eq_refl).
  - destruct H as [H|[H|[_ H]]]; [reflexivity|exact H|exact H|]. vm_compute in H. discriminate H.
Defined.

(** A small release for PostgreSQL 9.6.0: a library of 96 bytes, its manifest, the
    package, the coverage and the checksums. *)
Definition demo_dll : string :=
  of_bytes ([77; 90] ++ replicate 58 0 ++ [64; 0; 0; 0] ++ [80; 69; 0; 0] ++ [100; 134] ++ replicate 16 0 ++ [0; 32] ++ replicate 8 0).
Definition demo_manifest : string := print (JObj [("upstream_tag", JStr upstreamTag); ("upstream_commit", JStr upstreamCommit);
  ("postgresql_version", JStr "9.6.0"); ("architecture", JStr "x64"); ("dll_sha256", JStr (digest demo_dll)); ("smoke_test", JStr "passed")]).
Definition demo_reader (archive : string) : result (list zip_file) :=
  if String.eqb archive "zip" then Ok [mkZip "wal2json.dll" 96 (Ok tt) demo_dll None; mkZip "manifest.json" 200 (Ok tt) demo_manifest None]
  else Err (errorf "not a zip archive").
Definition demo_assets : list (string * string) := [
  ("assets/SHA256SUMS", digest "zip" +:+ "  " +:+ package "9.6.0" "x64" +:+ String newline "");
  ("assets/coverage.json", print (JArr [JObj [("pg", JStr "9.6.0"); ("arch", JStr "x64"); ("status", JStr "verified")]]));
  ("assets/" +:+ package "9.6.0" "x64", "zip")].

(** A local server that reads its data directory. *)
Definition demo_reads (t : tree) (f : list string) : result string :=
  match t !! f with Some (File x) => Ok (take_string 64 (f_content x)) | _ => Err (errorf "no such file") end.
Definition demo_backend : process :=
  mkProcess (Ok tt) (Ok 0) (Ok "c:/pg/bin/postgres.exe") Ok (λ _, Ok 34404) (Ok tt) (Ok tt).
Definition demo_environment : environment :=
  mkEnvironment true (Ok tt) (Ok tt) (Err (errorf "no such file")) (Ok tt) (Some [127; 0; 0; 1]) (Ok (7, "c:/data", 90600, second))
    (λ _, demo_backend) (λ _, Ok (true, 1)) demo_reads "nonce" "1" (replicate 9 Done) "r" None (replicate 12 Done).
Definition demo_auto : config.Config.t :=
  config.Config.mk "" config.GRPC.zero config.Replay.zero "" config.SQLServer.zero config.SQLServerLegacy.zero config.MySQL.zero
    config.FileWatch.zero "" "" "" [] [] "" "" ∅ 0 0 0 0 0 "" "" "" "" config.Log.zero true "".
Notation demo_ensure := (Ensure (λ _, true) (λ p, p) (λ _, "postgres.exe") (λ a b, a +:+ "/" +:+ b) (λ _, Some "58P01") demo_reader (λ _, Ok tt) demo_assets
  demo_auto demo_environment ∅) (only parsing).

Lemma ensure_outcome (x : gmap string tree * result unit) : x = (x.1, x.2).
Proof. by destruct x. Qed.

Lemma ensure_verified_witness : ∃ lib, dir_at demo_ensure.1 lib !! plugin ≠ None ∧
  ∃ version arch dll, shown_local (λ _, true) (λ p, p) (λ _, "postgres.exe") (λ a b, a +:+ "/" +:+ b) demo_environment ∅ version arch lib ∧
    verified demo_reader (λ _, Ok tt) demo_assets version arch dll ∧ dir_at demo_ensure.1 lib !! plugin = Some (File (mkFile dll 420 0)).
Proof.
  exists "c:/pg/bin/postgres.exe/lib".
  assert (dir_at demo_ensure.1 "c:/pg/bin/postgres.exe/lib" !! plugin ≠ None) as Hne by (vm_compute; discriminate).
  split; [exact Hne|].
  destruct (ensure_verified (λ _, true) (λ p, p) (λ _, "postgres.exe") (λ a b, a +:+ "/" +:+ b) (λ _, Some "58P01") demo_reader (λ _, Ok tt) demo_assets
    demo_auto demo_environment ∅ demo_ensure.1 demo_ensure.2 "c:/pg/bin/postgres.exe/lib") as (_ & _ & _ & H).
  - apply ensure_outcome.
  - reflexivity.
  - exact Hne.
  - exact H.
Defined.
