(* ===== verification/System.v ===== *)
(** * The system: collector and server connected by a stream

    The composition of the durable queue, the capture controller, the sender of
    delivery/grpc.go and the server's Connect over two channels of frames.  A
    step is one action of one party: the capture side uses the queue, the
    collector connects, either end handles the next frame or breaks.  Frames that
    are in flight when an end breaks are lost with the stream.

    The theorems show that the target applies exactly the messages the collector
    published, each once and in order; that a fault-free round delivers the next
    message; and that an acknowledgement lost with the stream is never made up
    for. *)

From S2P Require Import Prelude Bytes Sorting Encoding Sha256 GoTime GoClock Json Event Queue QueueInv QueueSpec Syncv1 GrpcDelivery CaptureController Reconcile ServerConfig Schema Target TargetInv TargetProps ServerReconcile ServerSession.

#[local] Opaque marshal unmarshal store.

(** ** What the sender relies on *)

(** A controller uses the queue only to retire a drained generation. *)
Class ControllerLaws (C E : Type) `{ReconcileController C E} := {
  reconcile_queue v r qc : (Reconcile v r qc).1.1 = qc.1;
  resume_queue id qc : (Resume id qc).1.1 = qc.1;
  repair_queue id qc : (Repair id qc).1.1 = qc.1 ∨ ResetForSnapshot qc.1 = ((Repair id qc).1.1, Ok tt)
}.

#[global] Instance capture_controller_laws : ControllerLaws captureController scan_env.
Proof.
  split.
  - intros v r [q c]. cbn. unfold CaptureController.reconcile. repeat (case_match; try done).
  - done.
  - intros id [q c]. cbn. unfold CaptureController.repair. destruct (_ || _); [by left|].
    destruct (ResetForSnapshot q) as [q' [[]|e]] eqn:E; cbn; [by right|].
    left. unfold ResetForSnapshot in E. by apply Update_atomic in E.
Qed.

(** ** The state of the system *)

Record system (V F C : Type) := mkSystem {
  ys_queue : Store;
  ys_controller : C;
  ys_client : option (string * Z);  (** [activeReconcile] and [lastMetrics] of an open stream *)
  ys_server : option session;
  ys_down : list syncv1.ServerFrame;
  ys_up : list syncv1.CollectorFrame;
  ys_syncer : syncer_state V F;
  ys_used : list string;            (** the generations started so far *)
  ys_log : list Message.t           (** what was appended to the current generation *)
}.
Arguments mkSystem {V F C} _ _ _ _ _ _ _ _ _.
Arguments ys_queue {V F C} _.
Arguments ys_controller {V F C} _.
Arguments ys_client {V F C} _.
Arguments ys_server {V F C} _.
Arguments ys_down {V F C} _.
Arguments ys_up {V F C} _.
Arguments ys_syncer {V F C} _.
Arguments ys_used {V F C} _.
Arguments ys_log {V F C} _.

Inductive action (E C : Type) :=
  | ACapture (o : Op)
  | AController (c : C)       (** the goroutines of the capture side *)
  | AConnect (v : start)
  | AClient (v : Env E)
  | AClientBreak
  | AServer (v : observation)
  | AServerBreak (v : observation).
Arguments ACapture {E C} _.
Arguments AController {E C} _.
Arguments AConnect {E C} _.
Arguments AClient {E C} _.
Arguments AClientBreak {E C}.
Arguments AServer {E C} _.
Arguments AServerBreak {E C} _.

Section system.
Context {V F C E : Type} `{PG : Postgres V} `{FS : FileStore F} `{CL : ControllerLaws C E}.
Context (constraints : gmap string (table V) → bool).
Context (text : V → string) (float_text : string → option string).
Context (cfg : Syncer) (sender : GRPCSender).

(** A generation is started under a name that was never used. *)
Definition op_fresh (o : Op) (used : list string) : bool :=
  match o with
  | OInitialize st => negb (String.eqb (State.Generation st) "") &&
                      negb (existsb (String.eqb (State.Generation st)) used)
  | _ => true
  end.

Definition op_allowed (o : Op) (st : State.t) : bool :=
  match o with
  | OInitialize st => State_ok st
  | OSnapshotPoint lsn | OFinalize lsn => utf8_valid lsn
  | OAppend _ _ m => Message_ok m && (State.NextSeq st + 1 <? 2 ^ 64 - 1)
  | OPublish lsn _ cleanup => utf8_valid lsn && utf8_valid cleanup
  | OPublishSchema lsn hash => utf8_valid lsn && utf8_valid hash
  | _ => true
  end.

Definition generation_of (o : Op) (used : list string) : list string :=
  match o with OInitialize st => State.Generation st :: used | _ => used end.

(** The log starts anew with the generation. *)
Definition log_kept (q q' : Store) (log : list Message.t) : list Message.t :=
  match GetState q, GetState q' with
  | Ok a, Ok b => if String.eqb (State.Generation a) (State.Generation b) then log else []
  | _, _ => log
  end.

(** One action; [None] when it is not enabled. *)
Definition act (a : action E C) (y : system V F C) : option (system V F C) :=
  match a with
  | ACapture o =>
      match GetState (ys_queue y) with
      | Ok st =>
          if capture_op o && op_allowed o st && op_fresh o (ys_used y) then
            Some (mkSystem (run o (ys_queue y)).1 (ys_controller y) (ys_client y) (ys_server y) (ys_down y)
                    (ys_up y) (ys_syncer y) (generation_of o (ys_used y))
                    (if is_ok (run o (ys_queue y)).2 then log_after o st (ys_log y) else ys_log y))
          else None
      | Err _ => None
      end
  | AController c =>
      Some (mkSystem (ys_queue y) c (ys_client y) (ys_server y) (ys_down y) (ys_up y) (ys_syncer y) (ys_used y)
              (ys_log y))
  | AConnect v =>
      match ys_client y, ys_server y, hello sender (ys_queue y) with
      | None, None, Ok first =>
          if negb (String.eqb (SourceID sender) (ID cfg)) then None else
          match Connect v (Token cfg) first (ys_syncer y) with
          | (z, Ok (s, frames)) =>
              Some (mkSystem (ys_queue y) (ys_controller y) (Some ("", zero_time)) (Some s) frames [] z (ys_used y)
                      (ys_log y))
          | (z, Err _) =>
              Some (mkSystem (ys_queue y) (ys_controller y) None None [] [] z (ys_used y) (ys_log y))
          end
      | _, _, _ => None
      end
  | AClient v =>
      match ys_client y, ys_down y with
      | Some (active, last), f :: down =>
          let '(c, sent, out) := handle_frame sender v f (mkStream (ys_queue y) (ys_controller y) active last) in
          match out with
          | Continue =>
              Some (mkSystem (queue c) (controller c) (Some (activeReconcile c, lastMetrics c)) (ys_server y) down
                      (ys_up y ++ sent) (ys_syncer y) (ys_used y) (log_kept (ys_queue y) (queue c) (ys_log y)))
          | Return _ =>
              let '(q, k) := disconnect sender c in
              Some (mkSystem q k None (ys_server y) down (ys_up y ++ sent) (ys_syncer y) (ys_used y)
                      (log_kept (ys_queue y) q (ys_log y)))
          end
      | _, _ => None
      end
  | AClientBreak =>
      match ys_client y with
      | Some (active, last) =>
          let '(q, k) := disconnect sender (mkStream (ys_queue y) (ys_controller y) active last) in
          Some (mkSystem q k None (ys_server y) (ys_down y) (ys_up y) (ys_syncer y) (ys_used y) (ys_log y))
      | None => None
      end
  | AServer v =>
      match ys_server y, ys_up y with
      | Some s, f :: up =>
          let '(z, s', sent, verdict) := receive constraints text float_text cfg v f s (ys_syncer y) in
          Some (mkSystem (ys_queue y) (ys_controller y) (ys_client y)
                  (match verdict with Receive => Some s' | Done _ => None end)
                  (ys_down y ++ sent) up z (ys_used y) (ys_log y))
      | _, _ => None
      end
  | AServerBreak v =>
      match ys_server y with
      | Some s =>
          Some (mkSystem (ys_queue y) (ys_controller y) (ys_client y) None (ys_down y) (ys_up y)
                  (interrupted v s (ys_syncer y)) (ys_used y) (ys_log y))
      | None => None
      end
  end.

Fixpoint acts (l : list (action E C)) (y : system V F C) : option (system V F C) :=
  match l with
  | [] => Some y
  | a :: l' => y' ← act a y; acts l' y'
  end.

Definition initial (maxB res : Z) (c : C) (σ : side F) (m : gmap string (table V)) : system V F C :=
  mkSystem (Open (mkDB None ∅) maxB res) c None None [] [] (mkSyncerState σ (migrate m) [] None "" "") [] [].

(** ** What the target has applied *)

(** [d] is the database after the messages [l] of generation [g] were stored,
    one after the other; only the repair flag may change in between. *)
Inductive stored (g : string) : list Message.t → pg V → Prop :=
  | stored_first m σ d σ' d' :
      sync_state.generation (sync d) ≠ g → Message.Generation m = g →
      store constraints cfg m (marshal m) σ d = (σ', d', Ok tt) → stored g [m] d'
  | stored_next l m σ d σ' d' :
      stored g l d → Message.Generation m = g → Message.Seq m = Z.of_nat (length l) + 1 →
      store constraints cfg m (marshal m) σ d = (σ', d', Ok tt) → stored g (l ++ [m]) d'
  | stored_repair l b d :
      stored g l d → stored g l (set_sync (sync_state.set_repair b (sync d)) d).

Notation generation d := (sync_state.generation (sync d)).
Notation received d := (sync_state.received_seq (sync d)).

Lemma stored_progress g l d : stored g l d → generation d = g ∧ received d = Z.of_nat (length l).
Proof.
  induction 1 as [m σ d σ' d' Hg Hm Hst|l m σ d σ' d' _ [IHg IHr] Hm Hs Hst|l b d _ IH].
  - apply store_cases in Hst as [(-> & ? & _)|[(? & _)|(_ & H1 & _ & Hp)]]; [congruence..|].
    injection Hp as -> -> _ _. done.
  - rewrite length_app. cbn [length]. apply store_cases in Hst as [(-> & ? & ?)|[(_ & _ & Hp)|(? & _)]]; [lia| |congruence].
    injection Hp as -> -> _. split; [done|]. lia.
  - done.
Qed.

(** ** The invariant *)

(** An event in flight carries a message of the collector's log. *)
Definition event_ok (st : State.t) (log : list Message.t) (used : list string) (e : syncv1.Event.t) : Prop :=
  ∃ m, syncv1.Event.Json e = marshal m ∧ Message_ok m = true ∧ Message.Generation m ∈ used ∧
    (Message.Generation m = State.Generation st →
       at_seq log (Message.Seq m) = Some m ∧ Message.Seq m ≤ State.ReadySeq st).

(** An acknowledgement in flight is for a message the target has received. *)
Definition frame_ok (st : State.t) (d : pg V) (used : list string) (f : syncv1.ServerFrame) : Prop :=
  match f with
  | syncv1.ServerFrame_Pull p => syncv1.Pull.Generation p ∈ used
  | syncv1.ServerFrame_Ack a => syncv1.Ack.Generation a ∈ used ∧
      (syncv1.Ack.Generation a = State.Generation st →
         generation d = State.Generation st ∧ syncv1.Ack.Seq a ≤ received d)
  | _ => True
  end.

Record SInv (y : system V F C) (st : State.t) (log : list Message.t) : Prop := {
  si_queue : Inv (ys_queue y) st log;
  si_log : ys_log y = log;
  si_used : "" ∉ ys_used y;
  si_generation : State.Generation st = "" ∨ State.Generation st ∈ ys_used y;
  si_db : generation (sy_db (ys_syncer y)) = "" ∨ generation (sy_db (ys_syncer y)) ∈ ys_used y;
  si_target : State.Generation st ≠ "" → generation (sy_db (ys_syncer y)) = State.Generation st →
    State.DeliveredSeq st ≤ received (sy_db (ys_syncer y)) ≤ State.ReadySeq st ∧
    stored (State.Generation st) (take (Z.to_nat (received (sy_db (ys_syncer y)))) log) (sy_db (ys_syncer y));
  si_other : State.Generation st = "" ∨ generation (sy_db (ys_syncer y)) ≠ State.Generation st →
    State.DeliveredSeq st = 0;
  si_up : ∀ e, syncv1.CollectorFrame_Event e ∈ ys_up y → event_ok st log (ys_used y) e;
  si_down : Forall (frame_ok st (sy_db (ys_syncer y)) (ys_used y)) (ys_down y);
  si_session : ∀ s, ys_server y = Some s → se_generation s ∈ ys_used y ∧
    (se_generation s = State.Generation st ∨ State.Generation st = "" ∨
     generation (sy_db (ys_syncer y)) ≠ State.Generation st)
}.

Lemma initial_SInv maxB res c σ m : SInv (initial maxB res c σ m) State.zero [].
Proof.
  split; cbn; try done; try (by left).
  - apply Inv_open.
  - apply not_elem_of_nil.
  - by intros e ?%elem_of_nil.
Qed.

(** ** The capture side *)

Lemma op_allowed_ok o st log : State.NextSeq st = Z.of_nat (length log) →
  op_allowed o st = true → op_ok o log.
Proof. intros Hn. destruct o; cbn; rewrite ?andb_true_iff, ?Z.ltb_lt; intuition lia. Qed.

Lemma event_keep st st' log log' used used' e : event_ok st log used e →
  State.Generation st' = State.Generation st → State.ReadySeq st ≤ State.ReadySeq st' →
  take (Z.to_nat (State.ReadySeq st)) log' = take (Z.to_nat (State.ReadySeq st)) log → used ⊆ used' →
  event_ok st' log' used' e.
Proof.
  intros (m & Hj & Hok & Hu & Hm) Hg Hr Ht Hs. exists m. split_and!; [done..|by apply Hs|].
  rewrite Hg. intros [Ha Hle]%Hm. split; [|lia]. unfold at_seq in *. destruct (1 <=? Message.Seq m) eqn:E1; [|done].
  apply Z.leb_le in E1. rewrite <- (lookup_take_lt log' (Z.to_nat (State.ReadySeq st))) by lia.
  rewrite Ht, lookup_take_lt by lia. done.
Qed.

Lemma frame_keep st st' d used used' f : frame_ok st d used f →
  State.Generation st' = State.Generation st → used ⊆ used' → frame_ok st' d used' f.
Proof. intros Hf Hg Hs. destruct f; cbn in *; rewrite ?Hg; naive_solver. Qed.

Lemma take_published (n r : Z) (l : list Message.t) : n ≤ r →
  take (Z.to_nat n) l = take (Z.to_nat n) (take (Z.to_nat r) l).
Proof. intros. rewrite take_take. f_equal. lia. Qed.

Lemma capture_SInv o y y' st log : SInv y st log → act (ACapture o) y = Some y' →
  ∃ st' log', SInv y' st' log'.
Proof.
  intros HI Ha. pose proof (si_queue _ _ _ HI) as HQ. cbn [act] in Ha.
  unfold GetState in Ha. rewrite (inv_read _ _ _ HQ) in Ha.
  destruct (capture_op o && op_allowed o st && op_fresh o (ys_used y)) eqn:Eg; [|done].
  apply andb_true_iff in Eg as [[Ec Eo]%andb_true_iff Ef]. injection Ha as <-.
  apply (op_allowed_ok _ _ log (inv_next _ _ _ HQ)) in Eo.
  assert (ys_used y ⊆ generation_of o (ys_used y)) as Hsub by (destruct o; cbn; set_solver).
  destruct (run o (ys_queue y)) as [q [[]|e]] eqn:Er; cbn [fst].
  2: { apply run_fail in Er as ->. exists st, log. destruct HI. split; cbn [ys_queue ys_used ys_syncer ys_up ys_down ys_server ys_log is_ok snd]; try done.
       - destruct o; cbn in *; try done. apply andb_true_iff in Ef as [Ef _]. bool_prop. set_solver.
       - destruct si_generation0; [by left|right; by apply Hsub].
       - destruct si_db0; [by left|right; by apply Hsub].
       - intros e' He'. eapply event_keep; [by apply si_up0|done..].
       - eapply Forall_impl; [exact si_down0|]. intros f Hf. by eapply frame_keep.
       - intros s Hs. destruct (si_session0 s Hs). auto. }
  destruct (capture_counters _ _ _ _ _ HQ Eo Ec Er) as (st' & HQ' & Hst).
  exists st', (log_after o st log).
  assert ((∃ st0, o = OInitialize st0) ∨
    (State.Generation st' = State.Generation st ∧ State.DeliveredSeq st' = State.DeliveredSeq st ∧
     State.ReadySeq st ≤ State.ReadySeq st' ∧
     take (Z.to_nat (State.ReadySeq st)) (log_after o st log) = take (Z.to_nat (State.ReadySeq st)) log))
    as [[st0 ->]|(Hg & Hd & Hr & Ht)] by (destruct o; naive_solver).
  - destruct Hst as (Hg & Hd & _). cbn in Ef. apply andb_true_iff in Ef as [Ef1 Ef2]. bool_prop.
    assert (State.Generation st' ∉ ys_used y) as Hn.
    { rewrite Hg. intros Hin%list_elem_of_In. apply not_true_iff_false in Ef2. apply Ef2, existsb_exists.
      eexists. split; [exact Hin|]. apply String.eqb_refl. }
    assert (generation (sy_db (ys_syncer y)) ≠ State.Generation st') as Hdb.
    { intros Hdb. destruct (si_db _ _ _ HI) as [He|He]; [congruence|]. by rewrite Hdb in He. }
    destruct HI. split; cbn [ys_queue ys_used ys_syncer ys_up ys_down ys_server ys_log is_ok snd generation_of]; try done.
    + set_solver.
    + right. rewrite Hg. set_solver.
    + destruct si_db0; [by left|right; set_solver].
    + intros e (m & ? & ? & ? & _)%si_up0. exists m. split_and!; try done; [set_solver|]. congruence.
    + eapply Forall_impl; [exact si_down0|]. intros f Hf. destruct f; cbn in *; try done; [set_solver|].
      split; [set_solver|]. intros Heq. destruct Hf. congruence.
    + intros s Hs. apply si_session0 in Hs as [Hs _]. split; [set_solver|]. by right; right.
  - destruct HI. split; cbn [ys_queue ys_used ys_syncer ys_up ys_down ys_server ys_log is_ok snd]; rewrite ?Hg, ?Hd; try done.
    + by rewrite si_log0.
    + destruct o; cbn in *; try done. apply andb_true_iff in Ef as [Ef _]. bool_prop. set_solver.
    + destruct si_generation0; [by left|right; by apply Hsub].
    + destruct si_db0; [by left|right; by apply Hsub].
    + intros Hne Hdb. destruct (si_target0 Hne Hdb) as [? Hst0]. split; [lia|].
      by rewrite (take_published _ (State.ReadySeq st)), Ht, <- take_published by lia.
    + intros e He. eapply event_keep; [by apply si_up0|done..].
    + eapply Forall_impl; [exact si_down0|]. intros f Hf. by eapply frame_keep.
    + intros s Hs. destruct (si_session0 s Hs). auto.
Qed.

(** ** Steps that change at most the repair flag of the target *)

Definition flagged (d d' : pg V) : Prop :=
  d' = d ∨ ∃ b, d' = set_sync (sync_state.set_repair b (sync d)) d.

Lemma flagged_progress d d' : flagged d d' → generation d' = generation d ∧ received d' = received d.
Proof. by intros [->|[b ->]]. Qed.

Lemma flagged_stored g l d d' : flagged d d' → stored g l d → stored g l d'.
Proof. intros [->|[b ->]]; [done|]. apply stored_repair. Qed.

Lemma frame_ok_progress st d d' used f : generation d' = generation d → received d ≤ received d' →
  frame_ok st d used f → frame_ok st d' used f.
Proof.
  intros Hg Hr Hf. destruct f; cbn in *; try done. rewrite Hg. destruct Hf as [? Hf]. split; [done|].
  intros ?%Hf. intuition lia.
Qed.

Lemma SInv_update y y' st log : SInv y st log →
  ys_queue y' = ys_queue y → ys_log y' = ys_log y → ys_used y' = ys_used y → flagged (sy_db (ys_syncer y)) (sy_db (ys_syncer y')) →
  (∀ e, syncv1.CollectorFrame_Event e ∈ ys_up y' → event_ok st log (ys_used y) e) →
  Forall (frame_ok st (sy_db (ys_syncer y)) (ys_used y)) (ys_down y') →
  (∀ s, ys_server y' = Some s → se_generation s ∈ ys_used y ∧
    (se_generation s = State.Generation st ∨ State.Generation st = "" ∨
     generation (sy_db (ys_syncer y)) ≠ State.Generation st)) →
  SInv y' st log.
Proof.
  intros HI Hq Hl Hu Hf Hup Hdown Hs. destruct (flagged_progress _ _ Hf) as [Hg Hr]. destruct HI.
  split; rewrite ?Hq, ?Hl, ?Hu, ?Hg, ?Hr; try done.
  - intros Hne Hdb. destruct (si_target0 Hne Hdb). split; [done|]. by eapply flagged_stored.
  - eapply Forall_impl; [exact Hdown|]. intros f. apply frame_ok_progress; [done|lia].
Qed.

Lemma controller_SInv c y y' st log : SInv y st log → act (AController c) y = Some y' → SInv y' st log.
Proof.
  intros HI [= <-]. eapply SInv_update; try done; cbn; [by left|apply HI..].
Qed.

(** ** Connecting *)

Lemma Connect_flagged v token first (z z' : syncer_state V F) res : Connect v token first z = (z', res) →
  flagged (sy_db z) (sy_db z') ∧
  ∀ s frames, res = Ok (s, frames) → se_mode s = Streaming ∧ frames = [pull s] ∧
    (∃ h, first = syncv1.CollectorFrame_Hello h ∧ se_generation s = syncv1.Hello.Generation h) ∧
    (se_next s = 1 ∧ generation (sy_db z) ≠ "" ∧ generation (sy_db z) ≠ se_generation s ∨
     se_next s = u64 (received (sy_db z) + 1)).
Proof.
  unfold Connect. destruct first as [h| | | | | | | |]; try (intros [= <- <-]; split; [by left|done]).
  destruct (negb (bearerMatches _ _)); [intros [= <- <-]; split; [by left|done]|].
  destruct (lease v) as [[]|e]; [|intros Hc; assert (z' = z ∧ ∃ e', res = Err e') as [-> [e' ->]]
    by (destruct e; simplify_eq; eauto); split; [by left|done]].
  destruct (progress_fails v); [intros [= <- <-]; split; [by left|done]|].
  destruct (negb _ && negb _) eqn:Eg; cbn [Generation Progress] in Eg.
  - apply andb_true_iff in Eg as [Eg1 Eg2]. bool_prop.
    destruct (consumeRepairAuthorization (sy_db z)) as [d allowed] eqn:Ec.
    assert (flagged (sy_db z) d) as Hf.
    { unfold consumeRepairAuthorization in Ec. destruct (sync_state.repair_authorized _); simplify_eq; [right; eauto|by left]. }
    destruct (consume_fault v); [|intros [= <- <-]; split; [by left|done]|intros [= <- <-]; split; [done|done]].
    destruct allowed; intros [= <- <-]; [|split; [by left|done]]. split; [done|].
    intros s frames [= <- <-]. cbn. split_and!; [done|done|by eexists|]. left. split_and!; [done|done|].
    intros Heq. by rewrite Heq in Eg2.
  - intros [= <- <-]. split; [by left|]. intros s frames [= <- <-]. cbn. split_and!; [done|done|by eexists|by right].
Qed.

Lemma hello_generation q st log first : Inv q st log → hello sender q = Ok first →
  ∃ h, first = syncv1.CollectorFrame_Hello h ∧ syncv1.Hello.Generation h = State.Generation st ∧
    State.Generation st ≠ "".
Proof.
  intros HI. unfold hello, Bounds. rewrite (inv_read _ _ _ HI). go.
  destruct (String.eqb (State.Generation st) "") eqn:Eg; [done|]. intros [= <-]. eexists. split; [done|].
  split; [done|]. by apply String.eqb_neq.
Qed.

Lemma connect_SInv v y y' st log : SInv y st log → act (AConnect v) y = Some y' → SInv y' st log.
Proof.
  intros HI Ha. cbn [act] in Ha. destruct (ys_client y); [done|]. destruct (ys_server y) eqn:Es; [done|].
  destruct (hello sender (ys_queue y)) as [first|] eqn:Eh; [|done]. destruct (negb _); [done|].
  destruct (hello_generation _ _ _ _ (si_queue _ _ _ HI) Eh) as (h & -> & Hg & Hne).
  destruct (Connect v _ _ (ys_syncer y)) as [z res] eqn:Ec. apply Connect_flagged in Ec as [Hf Hres].
  assert (State.Generation st ∈ ys_used y) as Hin by (destruct (si_generation _ _ _ HI); done).
  destruct res as [[s frames]|e]; injection Ha as <-.
  - destruct (Hres s frames eq_refl) as (_ & -> & (h' & [= <-] & Hs) & _).
    eapply SInv_update; try done; cbn.
    + by intros e ?%elem_of_nil.
    + constructor; [|constructor]. cbn. by rewrite Hs, Hg.
    + intros s' [= <-]. rewrite Hs, Hg. auto.
  - eapply SInv_update; try done; cbn. by intros e' ?%elem_of_nil.
Qed.

(** ** The collector *)

Lemma log_kept_eq q q' st st' log log' l : Inv q st log → Inv q' st' log' →
  log_kept q q' l = if String.eqb (State.Generation st) (State.Generation st') then l else [].
Proof. intros HI HI'. unfold log_kept, GetState. by rewrite (inv_read _ _ _ HI), (inv_read _ _ _ HI'). Qed.

Lemma Get_log q st log seq m raw : Inv q st log → Get q seq = Ok (m, raw) →
  at_seq log seq = Some m ∧ raw = marshal m ∧ seq ≤ State.ReadySeq st ∧ Message_ok m = true ∧
  Message.Generation m = State.Generation st ∧ Message.Seq m = seq.
Proof.
  intros HI Hg. rewrite (Get_published _ _ _ _ HI) in Hg. destruct (_ && _) eqn:Eb; [|done].
  apply andb_true_iff in Eb as [Eb1 Eb2]. bool_prop. destruct (at_seq log seq) as [m'|] eqn:Em; [|done].
  injection Hg as <- <-. split_and!; try done; unfold at_seq in Em; destruct (1 <=? seq) eqn:E1; try done;
    apply (inv_log _ _ _ HI) in Em as (? & ? & ? & ? & ?); try done. bool_prop. lia.
Qed.

Definition is_event (f : syncv1.CollectorFrame) : bool :=
  match f with syncv1.CollectorFrame_Event _ => true | _ => false end.

Lemma no_event l e : forallb (λ f, negb (is_event f)) l = true → syncv1.CollectorFrame_Event e ∉ l.
Proof. rewrite forallb_forall. intros Hl Hin%list_elem_of_In%Hl. done. Qed.

Lemma then_metrics_queue v (c c' : stream_state C) rest sent out : then_metrics (E:=E) sender v c rest = (c', sent, out) →
  queue c' = queue c ∧ (forallb (λ f, negb (is_event f)) rest = true → forallb (λ f, negb (is_event f)) sent = true).
Proof.
  unfold then_metrics, sendMetrics. destruct (_ || _); [|destruct (GatherText v)]; intros [= <- <- <-]; by split.
Qed.

(** What handling a frame does to the queue, and the events it sends. *)
Lemma handle_frame_cases v f (c c' : stream_state C) sent out : handle_frame (E:=E) sender v f c = (c', sent, out) →
  (queue c' = queue c ∧ forallb (λ f, negb (is_event f)) sent = true) ∨
  (queue c' = queue c ∧ ∃ p m raw g e r, f = syncv1.ServerFrame_Pull p ∧
     Bounds (queue c) = Ok (g, e, r) ∧ (syncv1.Pull.Generation p = "" ∨ syncv1.Pull.Generation p = g) ∧
     Get (queue c) (syncv1.Pull.Seq p) = Ok (m, raw) ∧
     sent = [syncv1.CollectorFrame_Event (syncv1.Event.mk (Message.Seq m) (Message.ID m) raw)]) ∨
  (forallb (λ f, negb (is_event f)) sent = true ∧ ∃ a st, f = syncv1.ServerFrame_Ack a ∧
     GetState (queue c) = Ok st ∧ syncv1.Ack.Generation a = State.Generation st ∧
     Ack (queue c) (now v) (syncv1.Ack.Seq a) (syncv1.Ack.MessageId a) = (queue c', Ok tt)) ∨
  (forallb (λ f, negb (is_event f)) sent = true ∧ ResetForSnapshot (queue c) = (queue c', Ok tt)).
Proof.
  intros Ef. destruct f as [p|a|r|r|r|]; cbn [handle_frame] in Ef.
  - unfold handle_pull in Ef. destruct (Bounds (queue c)) as [[[g e] r]|] eqn:Eb; [|simplify_eq; by left].
    destruct (negb _ && negb _) eqn:Eg; [simplify_eq; by left|]. destruct (_ <? e); [simplify_eq; by left|].
    destruct (r <? _).
    { apply then_metrics_queue in Ef as [? Hs]. left. split; [done|by apply Hs]. }
    destruct (Get _ _) as [[m raw]|] eqn:Em; simplify_eq; [|by left]. right; left. split; [done|].
    eexists p, m, raw, g, e, r. split_and!; try done.
    apply andb_false_iff in Eg as [Eg|Eg]; bool_prop; auto.
  - unfold handle_ack in Ef. destruct (GetState (queue c)) as [st|] eqn:Est; [|simplify_eq; by left].
    destruct (_ || _) eqn:Eo; [simplify_eq; by left|]. apply orb_false_iff in Eo as [Eo _]. bool_prop.
    destruct (_ =? _) eqn:En.
    + destruct (Ack _ _ _ _) as [q [[]|e]] eqn:Ea.
      * apply then_metrics_queue in Ef as [Hq Hs]. right; right; left. split; [by apply Hs|].
        exists a, st. cbn in Hq. by rewrite Hq.
      * simplify_eq. unfold Ack in Ea. apply Update_atomic in Ea as ->. left. by destruct c.
    + apply then_metrics_queue in Ef as [? Hs]. left. split; [done|by apply Hs].
  - unfold handle_reconcile in Ef. destruct (negb _); [simplify_eq; by left|].
    pose proof (reconcile_queue (observed v) r (queue c, controller c)) as Hq.
    destruct (Reconcile _ _ _) as [[q k] res]. cbn in Hq. simplify_eq. by left.
  - unfold handle_repair in Ef. destruct (negb _); [simplify_eq; by left|].
    pose proof (repair_queue (syncv1.RepairRequest.RequestId r) (queue c, controller c)) as Hq.
    destruct (Repair _ _) as [[q k] [[]|e]]; cbn in Hq; simplify_eq; cbn;
      (destruct Hq as [->|Hq]; [by left|right; right; right; done]).
  - unfold handle_resume in Ef. destruct (negb _); [simplify_eq; by left|].
    pose proof (resume_queue (syncv1.ResumeRequest.RequestId r) (queue c, controller c)) as Hq.
    destruct (Resume _ _) as [[q k] [[]|e]]; cbn in Hq; simplify_eq; by left.
  - simplify_eq. by left.
Qed.

Lemma disconnect_queue (c : stream_state C) q k : disconnect (E:=E) sender c = (q, k) → q = queue c.
Proof.
  unfold disconnect. destruct (_ && _); [|by intros [= <- <-]].
  pose proof (resume_queue (activeReconcile c) (queue c, controller c)) as Hq.
  intros Er. by rewrite Er in Hq.
Qed.

Lemma client_shape v y y' : act (AClient v) y = Some y' →
  ∃ active last f c' sent out, ys_client y = Some (active, last) ∧ ys_down y = f :: ys_down y' ∧
    handle_frame sender v f (mkStream (ys_queue y) (ys_controller y) active last) = (c', sent, out) ∧
    ys_queue y' = queue c' ∧ ys_up y' = ys_up y ++ sent ∧ ys_server y' = ys_server y ∧
    ys_syncer y' = ys_syncer y ∧ ys_used y' = ys_used y ∧
    ys_log y' = log_kept (ys_queue y) (ys_queue y') (ys_log y).
Proof.
  cbn [act]. intros Ha. destruct (ys_client y) as [[active last]|]; [|done].
  destruct (ys_down y) as [|f down]; [done|].
  destruct (handle_frame _ _ _ _) as [[c' sent] out] eqn:Eh.
  exists active, last, f, c', sent, out. destruct out as [|e].
  - injection Ha as <-. done.
  - destruct (disconnect sender c') as [q k] eqn:Ed. apply disconnect_queue in Ed as ->.
    injection Ha as <-. done.
Qed.

(** The counters of the queue after an acknowledgement or a reset. *)
Lemma ack_SInv y y' st log a now : SInv y st log → ys_down y = syncv1.ServerFrame_Ack a :: ys_down y' →
  syncv1.Ack.Generation a = State.Generation st →
  Ack (ys_queue y) now (syncv1.Ack.Seq a) (syncv1.Ack.MessageId a) = (ys_queue y', Ok tt) →
  (∀ e, syncv1.CollectorFrame_Event e ∈ ys_up y' → syncv1.CollectorFrame_Event e ∈ ys_up y) →
  ys_server y' = ys_server y → ys_syncer y' = ys_syncer y → ys_used y' = ys_used y →
  ys_log y' = log_kept (ys_queue y) (ys_queue y') (ys_log y) →
  ∃ st', SInv y' st' log ∧ State.DeliveredSeq st' = State.DeliveredSeq st + 1.
Proof.
  intros HI Hd Hg Ha Hup Hsv Hsy Hu Hl. pose proof (si_queue _ _ _ HI) as HQ.
  destruct (Ack_Inv _ _ _ _ _ _ _ HQ Ha) as (Hs & Hle & _ & st' & HQ' & Hd' & Hr' & _ & _ & _ & _ & _ & _ & Hg').
  exists st'. rewrite Hd'. split; [|done]. destruct HI. rewrite Hd in si_down0.
  apply Forall_cons in si_down0 as [[Hin Hf] Hrest]. destruct (Hf Hg) as [Hdb Hrec].
  assert (State.Generation st ≠ "") as Hne by (intros He; apply si_used0; congruence).
  split; rewrite ?Hsy, ?Hu, ?Hsv, ?Hg', ?Hr', ?Hd'; try done.
  - rewrite Hl, (log_kept_eq _ _ _ _ _ _ _ HQ HQ'), Hg', String.eqb_refl. done.
  - intros _ _. destruct (si_target0 Hne Hdb) as [? ?]. split; [lia|done].
  - by intros [|].
  - intros e He%Hup. eapply event_keep; [by apply si_up0|done|lia|done|done].
  - eapply Forall_impl; [exact Hrest|]. intros f Hf'. by eapply frame_keep.
Qed.

Lemma reset_SInv y y' st log : SInv y st log → ResetForSnapshot (ys_queue y) = (ys_queue y', Ok tt) →
  (∀ e, syncv1.CollectorFrame_Event e ∈ ys_up y' → syncv1.CollectorFrame_Event e ∈ ys_up y) →
  (∃ f, ys_down y = f :: ys_down y') →
  ys_server y' = ys_server y → ys_syncer y' = ys_syncer y → ys_used y' = ys_used y →
  ys_log y' = log_kept (ys_queue y) (ys_queue y') (ys_log y) →
  ∃ st', SInv y' st' [].
Proof.
  intros HI Hq Hup [f Hd] Hsv Hsy Hu Hl. pose proof (si_queue _ _ _ HI) as HQ.
  destruct (ResetForSnapshot_Inv _ _ _ _ HQ Hq) as (_ & Hnext & st' & HQ' & _ & _ & _ & _ & _ & Hg & Hd0).
  exists st'. destruct HI. rewrite Hd in si_down0. apply Forall_cons in si_down0 as [_ Hrest].
  split; rewrite ?Hsy, ?Hu, ?Hsv, ?Hg; try done.
  - rewrite Hl, (log_kept_eq _ _ _ _ _ _ _ HQ HQ'), Hg.
    destruct (String.eqb_spec (State.Generation st) "") as [He|]; [|done]. rewrite si_log0.
    rewrite (si_other0 (or_introl He)), (inv_next _ _ _ HQ) in Hnext. destruct log; [done|]. cbn in Hnext. lia.
  - by left.
  - intros e (m & ? & ? & Hin & _)%Hup%si_up0. exists m. split_and!; try done. rewrite Hg. intros He. by rewrite He in Hin.
  - eapply Forall_impl; [exact Hrest|]. intros g Hf'. destruct g; cbn in *; try done. destruct Hf' as [Hin _].
    split; [done|]. rewrite Hg. intros He. by rewrite He in Hin.
  - intros s Hs. destruct (si_session0 s Hs). auto.
Qed.

Lemma client_SInv v y y' st log : SInv y st log → act (AClient v) y = Some y' → ∃ st' log', SInv y' st' log'.
Proof.
  intros HI (active & last & f & c' & sent & out & _ & Hd & Hf & Hq & Hu & Hsv & Hsy & Hus & Hl)%client_shape.
  pose proof (si_queue _ _ _ HI) as HQ. pose proof (si_down _ _ _ HI) as Hdown. rewrite Hd in Hdown.
  apply Forall_cons in Hdown as [Hf0 Hrest].
  assert (forallb (λ f, negb (is_event f)) sent = true → ∀ e, syncv1.CollectorFrame_Event e ∈ ys_up y' →
    syncv1.CollectorFrame_Event e ∈ ys_up y) as Hup.
  { intros Hs e. rewrite Hu. intros [|Hin]%elem_of_app; [done|]. by apply no_event in Hin. }
  assert (ys_queue y' = ys_queue y → ys_log y' = ys_log y) as Hkeep.
  { intros Hqq. rewrite Hl, Hqq, (log_kept_eq _ _ _ _ _ _ _ HQ HQ). by rewrite String.eqb_refl. }
  apply handle_frame_cases in Hf as [[Hq' Hs]|[(Hq' & p & m & raw & g & e & r & -> & Hb & Hg & Hget & ->)|
    [(Hs & a & st1 & -> & Hst & Hg & Ha)|(Hs & Hr)]]]; cbn [queue] in *.
  - exists st, log. apply (SInv_update y); rewrite ?Hsy, ?Hsv; try done; [congruence|by apply Hkeep; congruence|by left| |apply HI].
    intros e He%(Hup Hs). by apply HI.
  - exists st, log. apply (SInv_update y); rewrite ?Hsy, ?Hsv; try done; [congruence|by apply Hkeep; congruence|by left| |apply HI].
    intros e'. rewrite Hu. intros [He|He%list_elem_of_singleton]%elem_of_app; [by apply HI|]. injection He as ->.
    destruct (Get_log _ _ _ _ _ _ HQ Hget) as (Hm & -> & Hr & Hok & Hgen & Hseq). exists m.
    unfold Bounds in Hb. rewrite (inv_read _ _ _ HQ) in Hb. injection Hb as <- _ _.
    split_and!; [done|done| |by rewrite Hseq]. rewrite Hgen. cbn in Hf0. destruct Hg as [Hg|Hg].
    + rewrite Hg in Hf0. by destruct (si_used _ _ _ HI).
    + by rewrite <- Hg.
  - unfold GetState in Hst. rewrite (inv_read _ _ _ HQ) in Hst. injection Hst as <-.
    rewrite <- Hq in Ha. edestruct ack_SInv as (st' & ? & _); [done|done|done|exact Ha|by apply Hup|done..|]. eauto.
  - rewrite <- Hq in Hr. edestruct reset_SInv as (st' & ?); [done|done|by apply Hup|eauto|done..|]. eauto.
Qed.

(** ** The server *)

(** The frames the server sends: pulls of its generation, and the
    acknowledgement of [ack] if any. *)
Definition sent_ok (g : string) (ack : option Z) (f : syncv1.ServerFrame) : Prop :=
  match f with
  | syncv1.ServerFrame_Pull p => syncv1.Pull.Generation p = g
  | syncv1.ServerFrame_Ack a => syncv1.Ack.Generation a = g ∧ ack = Some (syncv1.Ack.Seq a)
  | _ => True
  end.

Definition quiet (s : session) (z : syncer_state V F)
    (r : syncer_state V F * session * list syncv1.ServerFrame * verdict) : Prop :=
  let '(z', s', sent, _) := r in
  flagged (sy_db z) (sy_db z') ∧ se_generation s' = se_generation s ∧ se_next s' = se_next s ∧
  Forall (sent_ok (se_generation s) None) sent.

Lemma quiet_same s z z' s' sent vd : sy_db z' = sy_db z → se_generation s' = se_generation s →
  se_next s' = se_next s → Forall (sent_ok (se_generation s) None) sent → quiet s z (z', s', sent, vd).
Proof. intros Hz ???. unfold quiet. split_and!; try done. by left. Qed.

Lemma fail_reconcile_quiet v r e s (z : syncer_state V F) : quiet s z (fail_reconcile v r e s z).
Proof. by apply quiet_same. Qed.

Lemma flagged_authorize d : flagged d (authorizeRepair d).
Proof. right. by exists true. Qed.

Lemma decide_repair_quiet v r s (z : syncer_state V F) : quiet s z (decide_repair v r s z).
Proof.
  unfold decide_repair. destruct (_ && _ && _); [|by apply quiet_same; [..|repeat constructor]].
  destruct (ob_read_fails v); [by apply quiet_same|].
  destruct (repairAllowed _ _ _); [|by apply quiet_same; [..|repeat constructor]].
  destruct (ob_fault v); [|by apply quiet_same|]; unfold quiet; cbn; split_and!; try done; try apply flagged_authorize.
  by repeat constructor.
Qed.

Lemma next_table_quiet v r l s (z : syncer_state V F) : quiet s z (next_table v r l s z).
Proof. destruct l; [apply decide_repair_quiet|]. apply quiet_same; try done. by repeat constructor. Qed.

Lemma digests_received_quiet v f r t rest s (z : syncer_state V F) :
  quiet s z (digests_received text float_text cfg v f r t rest s z).
Proof.
  unfold digests_received. destruct f; try apply fail_reconcile_quiet.
  destruct (_ || _); [apply fail_reconcile_quiet|]. destruct (negb _); [apply fail_reconcile_quiet|].
  destruct (ob_read_fails v); [apply fail_reconcile_quiet|].
  destruct (reconcileDigests _ _ _ _ _ _); [|apply fail_reconcile_quiet].
  destruct (sameDigests _ _). apply next_table_quiet.
Qed.

Lemma idle_received_quiet v s (z : syncer_state V F) : quiet s z (idle_received cfg v s z).
Proof.
  unfold idle_received. destruct (_ && _); [by apply quiet_same|].
  destruct (_ && _); [|by apply quiet_same; [..|repeat constructor]].
  destruct (reconcileDue _ _ _ _) as [next due]. destruct due; [|by apply quiet_same; [..|repeat constructor]].
  exact (next_table_quiet v _ (Tables cfg) s (set_next next z)).
Qed.

Lemma answer_quiet v f r s (z : syncer_state V F) :
  quiet s z (repair_received v f r s z) ∧ quiet s z (resume_received v f r s z).
Proof.
  unfold repair_received, resume_received.
  split; destruct f; try apply fail_reconcile_quiet; destruct (String.eqb _ _); try apply fail_reconcile_quiet;
    apply quiet_same; try done; by repeat constructor.
Qed.

(** A frame is quiet unless it is an event that was stored. *)
Lemma receive_cases v f s (z z' : syncer_state V F) s' sent vd :
  receive constraints text float_text cfg v f s z = (z', s', sent, vd) →
  quiet s z (z', s', sent, vd) ∨
  ∃ e m, f = syncv1.CollectorFrame_Event e ∧ unmarshal (syncv1.Event.Json e) = Some m ∧
    Message.Seq m = se_next s ∧ Message.Generation m = se_generation s ∧
    store constraints cfg m (syncv1.Event.Json e) (sy_side z) (sy_db z) = (sy_side z', sy_db z', Ok tt) ∧
    se_generation s' = se_generation s ∧
    (sent = [] ∧ (∃ e, vd = Done e) ∨ se_next s' = u64 (se_next s + 1)) ∧
    Forall (sent_ok (se_generation s) (Some (se_next s))) sent.
Proof.
  intros Hr. unfold receive in Hr. destruct (se_mode s).
  2: { left. rewrite <- Hr. apply digests_received_quiet. }
  2-3: left; rewrite <- Hr; apply answer_quiet.
  unfold frame_received in Hr. destruct f as [h|e|r|m|i|r|r|r|]; try (left; simplify_eq; by apply quiet_same).
  2: { left. destruct (_ <? _); simplify_eq; by apply quiet_same. }
  2: { left. rewrite <- Hr. apply idle_received_quiet. }
  unfold event_received in Hr. destruct (unmarshal _) as [m|] eqn:Em; [|left; simplify_eq; by apply quiet_same].
  destruct (_ || _) eqn:Eo; [left; simplify_eq; by apply quiet_same|].
  repeat apply orb_false_iff in Eo as [Eo ?]. bool_prop.
  destruct (negb _); [left; simplify_eq; by apply quiet_same|].
  unfold store_message in Hr. destruct (store _ _ _ _ _ _) as [[σ d] res] eqn:Est.
  assert (res ≠ Ok tt → d = sy_db z) as Hd.
  { intros Hres. destruct res as [[]|e']; [done|]. by apply store_Err in Est. }
  destruct (ob_fault v); [|left; simplify_eq; by apply quiet_same|].
  - destruct res as [[]|e']; [|left; simplify_eq; apply quiet_same; try done; by apply Hd].
    right. exists e, m. destruct (_ && _); simplify_eq; cbn; split_and!; try done; try congruence; auto; by repeat constructor.
  - destruct res as [[]|e']; [|left; simplify_eq; apply quiet_same; try done; by apply Hd].
    right. exists e, m. simplify_eq. cbn. split_and!; try done; try congruence. left. eauto.
Qed.

Lemma store_generation m raw σ d σ' d' : store constraints cfg m raw σ d = (σ', d', Ok tt) →
  generation d' = Message.Generation m.
Proof.
  intros [(-> & -> & _)|[(_ & _ & Hp)|(_ & _ & _ & Hp)]]%store_cases; [done|by injection Hp..].
Qed.

(** Storing the message of the collector's log at its position. *)
Lemma store_log m σ (d : pg V) σ' d' st log :
  Message.Generation m = State.Generation st → State.Generation st ≠ "" →
  at_seq log (Message.Seq m) = Some m → Message.Seq m ≤ State.ReadySeq st → State.ReadySeq st ≤ Z.of_nat (length log) →
  Z.of_nat (length log) < 2 ^ 64 - 1 →
  (generation d = State.Generation st → 0 ≤ received d ≤ State.ReadySeq st ∧
     stored (State.Generation st) (take (Z.to_nat (received d)) log) d) →
  store constraints cfg m (marshal m) σ d = (σ', d', Ok tt) →
  Message.Seq m ≤ received d' ≤ State.ReadySeq st ∧ (generation d = State.Generation st → received d ≤ received d') ∧
  stored (State.Generation st) (take (Z.to_nat (received d')) log) d'.
Proof.
  intros Hg Hne Ha Hr Hlen Hmax Ht Hst. pose proof Hst as Hst'.
  pose proof (at_seq_lt _ _ _ Ha) as Hs. unfold at_seq in Ha. rewrite (proj2 (Z.leb_le _ _)) in Ha by lia.
  apply store_cases in Hst as [(-> & Hd & Hle)|[(Hd & Hseq & Hp)|(Hd & Hseq & _ & Hp)]].
  - destruct Ht; [congruence|]. split_and!; try done; lia.
  - destruct Ht as [Hb Ht]; [congruence|]. injection Hp as _ Hrec _.
    rewrite u64_small in Hseq by lia. rewrite Hrec. split_and!; [lia|lia|lia|].
    rewrite Hseq. replace (Z.to_nat (received d + 1)) with (S (Z.to_nat (received d))) by lia.
    rewrite (take_S_r log _ m) by (rewrite <- Ha; f_equal; lia).
    eapply stored_next; [done|done| |done]. rewrite length_take. lia.
  - injection Hp as _ Hrec _. rewrite Hrec, Hseq. split_and!; [lia|lia|intros; congruence|].
    destruct log as [|x log]; [done|]. rewrite Hseq in Ha. cbn in Ha. injection Ha as ->. cbn.
    eapply stored_first; [|done|done]. congruence.
Qed.

Lemma server_frames g ack used st (d : pg V) sent : g ∈ used → Forall (sent_ok g ack) sent →
  (∀ seq, ack = Some seq → g = State.Generation st → generation d = g ∧ seq ≤ received d) →
  Forall (frame_ok st d used) sent.
Proof.
  intros Hg Hs Ha. eapply Forall_impl; [exact Hs|]. intros f Hf. destruct f; cbn in *; try done; [congruence|].
  destruct Hf as [Hf1 Hf2]. rewrite Hf1. split; [done|]. intros Hst. destruct (Ha _ Hf2 Hst). split; [congruence|done].
Qed.

Lemma event_SInv y y' st log s e m : SInv y st log → ys_server y = Some s →
  syncv1.CollectorFrame_Event e ∈ ys_up y → unmarshal (syncv1.Event.Json e) = Some m →
  Message.Seq m = se_next s → Message.Generation m = se_generation s →
  store constraints cfg m (syncv1.Event.Json e) (sy_side (ys_syncer y)) (sy_db (ys_syncer y)) =
    (sy_side (ys_syncer y'), sy_db (ys_syncer y'), Ok tt) →
  (∃ sent, ys_down y' = ys_down y ++ sent ∧ Forall (sent_ok (se_generation s) (Some (se_next s))) sent) →
  (∀ f, f ∈ ys_up y' → f ∈ ys_up y) → ys_queue y' = ys_queue y → ys_used y' = ys_used y →
  ys_log y' = ys_log y → (∀ s', ys_server y' = Some s' → se_generation s' = se_generation s) → SInv y' st log.
Proof.
  intros HI Hs He Hm Hseq Hgen Hst (sent & Hdown & Hsent) Hup Hq Hu Hl Hs'.
  pose proof (si_up _ _ _ HI e He) as (m' & Hj & Hok & Hin & Hlog).
  rewrite Hj, unmarshal_marshal in Hm by done. injection Hm as ->. rewrite Hj in Hst.
  destruct (si_session _ _ _ HI s Hs) as [Hsu Hsg]. pose proof (store_generation _ _ _ _ _ _ Hst) as Hg'.
  pose proof (si_queue _ _ _ HI) as HQ. pose proof (inv_ready _ _ _ HQ). pose proof (inv_next _ _ _ HQ).
  pose proof (inv_bound _ _ _ HQ). pose proof (inv_delivered _ _ _ HQ) as Hdel.
  destruct (decide (Message.Generation m = State.Generation st)) as [Hg|Hg].
  - assert (State.Generation st ≠ "") as Hne.
    { intros Hz. rewrite Hg, Hz in Hin. by apply (si_used _ _ _ HI). }
    destruct (Hlog Hg) as [Ha Hr]. pose proof (at_seq_lt _ _ _ Ha).
    eapply store_log in Hst as (Hrec & Hmono & Hst'); [|done|exact Hne|exact Ha|exact Hr|lia|lia|].
    2: { intros Hdb. destruct (si_target _ _ _ HI Hne Hdb). split; [lia|done]. }
    destruct HI. split; rewrite ?Hq, ?Hu, ?Hl; try done.
    + right. by rewrite Hg'.
    + intros _ _. split; [|done]. split; [|lia].
      destruct (decide (generation (sy_db (ys_syncer y)) = State.Generation st)) as [Hd|Hd].
      * destruct (si_target0 Hne Hd). specialize (Hmono Hd). lia.
      * rewrite (si_other0 (or_intror Hd)). lia.
    + intros [|Hd]; congruence.
    + intros e' He'%Hup. by apply si_up0.
    + rewrite Hdown. apply Forall_app. split.
      * eapply Forall_impl; [exact si_down0|]. intros f Hf. destruct f; cbn in *; try done.
        destruct Hf as [? Hf]. split; [done|]. intros Heq. destruct (Hf Heq) as [Hd ?].
        specialize (Hmono Hd). split; [congruence|lia].
      * eapply server_frames; [exact Hsu|exact Hsent|]. intros seq [= <-] _. rewrite Hg'. split; [done|]. lia.
    + intros s1 Hs1. rewrite (Hs' s1 Hs1). split; [done|]. left. congruence.
  - assert (State.Generation st = "" ∨ generation (sy_db (ys_syncer y)) ≠ State.Generation st) as Ho.
    { destruct Hsg as [|]; [congruence|done]. }
    destruct HI. split; rewrite ?Hq, ?Hu, ?Hl; try done.
    + right. by rewrite Hg'.
    + intros _ Hd. congruence.
    + intros _. by apply si_other0.
    + intros e' He'%Hup. by apply si_up0.
    + rewrite Hdown. apply Forall_app. split.
      * eapply Forall_impl; [exact si_down0|]. intros f Hf. destruct f; cbn in *; try done.
        destruct Hf as [Hf1 Hf2]. split; [done|]. intros Heq. destruct (Hf2 Heq) as [Hd _].
        destruct Ho as [Ho|Ho]; [|done]. rewrite Heq, Ho in Hf1. done.
      * eapply server_frames; [exact Hsu|exact Hsent|]. intros seq _ Hd. congruence.
    + intros s1 Hs1. rewrite (Hs' s1 Hs1). split; [done|]. right. right. congruence.
Qed.

Lemma server_shape v y y' : act (AServer v) y = Some y' →
  ∃ s f s' sent vd, ys_server y = Some s ∧ ys_up y = f :: ys_up y' ∧
    receive constraints text float_text cfg v f s (ys_syncer y) = (ys_syncer y', s', sent, vd) ∧
    ys_server y' = match vd with Receive => Some s' | Done _ => None end ∧ ys_down y' = ys_down y ++ sent ∧
    ys_queue y' = ys_queue y ∧ ys_used y' = ys_used y ∧ ys_log y' = ys_log y.
Proof.
  cbn [act]. intros Ha. destruct (ys_server y) as [s|]; [|done]. destruct (ys_up y) as [|f up]; [done|].
  destruct (receive _ _ _ _ _ _ _ _) as [[[z s'] sent] vd] eqn:Er. injection Ha as <-.
  exists s, f, s', sent, vd. done.
Qed.

Lemma server_SInv v y y' st log : SInv y st log → act (AServer v) y = Some y' → SInv y' st log.
Proof.
  intros HI (s & f & s' & sent & vd & Hs & Hup & Hr & Hs' & Hd & Hq & Hu & Hl)%server_shape.
  assert (∀ f', f' ∈ ys_up y' → f' ∈ ys_up y) as Hsub by (rewrite Hup; set_solver).
  assert (∀ g, se_generation s' = g → ∀ s1, ys_server y' = Some s1 → se_generation s1 = g) as Hs1.
  { intros g Hg s1. rewrite Hs'. destruct vd; [|done]. by intros [= <-]. }
  apply receive_cases in Hr as [(Hf & Hg & _ & Hsent)|(e & m & -> & Hm & Hseq & Hgen & Hst & Hg & _ & Hsent)].
  - destruct (si_session _ _ _ HI s Hs) as [Hin Hgen]. apply (SInv_update y); try done.
    + intros e He. by apply HI, Hsub.
    + rewrite Hd. apply Forall_app. split; [apply HI|]. by eapply server_frames.
    + intros s1 Hs1'. by rewrite (Hs1 _ Hg s1 Hs1').
  - eapply event_SInv; try done; [|by exists sent|by apply Hs1]. rewrite Hup. set_solver.
Qed.

(** ** Breaks *)

Lemma client_break_SInv y y' st log : SInv y st log → act AClientBreak y = Some y' → SInv y' st log.
Proof.
  intros HI Ha. cbn [act] in Ha. destruct (ys_client y) as [[active last]|]; [|done].
  destruct (disconnect _ _) as [q k] eqn:Ed. apply disconnect_queue in Ed as ->. injection Ha as <-.
  apply (SInv_update y); try done; cbn; [by left|apply HI..].
Qed.

Lemma interrupted_db v s (z : syncer_state V F) : sy_db (interrupted v s z) = sy_db z.
Proof. unfold interrupted. by destruct (se_mode s). Qed.

Lemma server_break_SInv v y y' st log : SInv y st log → act (AServerBreak v) y = Some y' → SInv y' st log.
Proof.
  intros HI Ha. cbn [act] in Ha. destruct (ys_server y) as [s|]; [|done]. injection Ha as <-.
  apply (SInv_update y); try done; cbn; try apply HI. left. apply interrupted_db.
Qed.

Lemma act_SInv a y y' st log : SInv y st log → act a y = Some y' → ∃ st' log', SInv y' st' log'.
Proof.
  intros HI Ha. destruct a.
  - by eapply capture_SInv.
  - eexists _, _. by eapply controller_SInv.
  - eexists _, _. by eapply connect_SInv.
  - by eapply client_SInv.
  - eexists _, _. by eapply client_break_SInv.
  - eexists _, _. by eapply server_SInv.
  - eexists _, _. by eapply server_break_SInv.
Qed.

Lemma acts_SInv l y y' st log : SInv y st log → acts l y = Some y' → ∃ st' log', SInv y' st' log'.
Proof.
  revert y st log. induction l as [|a l IH]; intros y st log HI Ha; cbn in Ha; [simplify_eq; eauto|].
  destruct (act a y) as [y1|] eqn:E1; [|done]. destruct (act_SInv _ _ _ _ _ HI E1) as (st1 & log1 & HI1). eauto.
Qed.

(** ** A lost acknowledgement *)

Lemma Inv_state q st st' log log' : Inv q st log → Inv q st' log' → st' = st.
Proof. intros HI HI'. apply inv_read in HI, HI'. congruence. Qed.

(** The target is ahead of the acknowledged messages, and no acknowledgement of
    the next one is or will be in flight. *)
Record behind (y : system V F C) (st : State.t) (log : list Message.t) : Prop := {
  be_inv : SInv y st log;
  be_phase : State.Phase st = "stream";
  be_generation : generation (sy_db (ys_syncer y)) = State.Generation st ∧ State.Generation st ≠ "";
  be_received : State.DeliveredSeq st < received (sy_db (ys_syncer y));
  be_down : ys_client y ≠ None → ∀ a, syncv1.ServerFrame_Ack a ∈ ys_down y →
    syncv1.Ack.Generation a = State.Generation st → State.DeliveredSeq st + 1 < syncv1.Ack.Seq a;
  be_session : ∀ s, ys_server y = Some s → State.DeliveredSeq st + 1 < se_next s
}.

Lemma capture_behind o y y' st log : behind y st log → act (ACapture o) y = Some y' →
  ∃ st' log', behind y' st' log' ∧ State.DeliveredSeq st' = State.DeliveredSeq st.
Proof.
  intros HB Ha. pose proof (be_inv _ _ _ HB) as HI. destruct (capture_SInv _ _ _ _ _ HI Ha) as (st1 & log1 & HI1).
  pose proof (si_queue _ _ _ HI) as HQ. pose proof (si_queue _ _ _ HI1) as HQ1.
  cbn [act] in Ha. unfold GetState in Ha. rewrite (inv_read _ _ _ HQ) in Ha.
  destruct (_ && _) eqn:Eg; [|done]. apply andb_true_iff in Eg as [[Ec Eo]%andb_true_iff _]. injection Ha as <-.
  apply (op_allowed_ok _ _ log (inv_next _ _ _ HQ)) in Eo.
  assert (State.Generation st1 = State.Generation st ∧ State.DeliveredSeq st1 = State.DeliveredSeq st ∧
    State.Phase st1 = "stream") as (Hg & Hd & Hp).
  { cbn [ys_queue] in HQ1. destruct (run o (ys_queue y)) as [q [[]|e]] eqn:Er; cbn [fst] in HQ1.
    - destruct (capture_counters _ _ _ _ _ HQ Eo Ec Er) as (st' & HQ' & Hst).
      rewrite (Inv_state _ _ _ _ _ HQ' HQ1). pose proof (be_phase _ _ _ HB). destruct o; naive_solver.
    - apply run_fail in Er as ->. rewrite (Inv_state _ _ _ _ _ HQ HQ1). split_and!; try done. apply HB. }
  exists st1, log1. split; [|done]. destruct HB. split; rewrite ?Hg, ?Hd; done.
Qed.

Lemma client_behind v y y' st log : behind y st log → act (AClient v) y = Some y' →
  ∃ st' log', behind y' st' log' ∧ State.DeliveredSeq st' = State.DeliveredSeq st.
Proof.
  intros HB Ha. pose proof (be_inv _ _ _ HB) as HI. destruct (client_SInv _ _ _ _ _ HI Ha) as (st1 & log1 & HI1).
  destruct (client_shape _ _ _ Ha) as (active & last & f & c' & sent & out & Hc & Hd & Hf & Hq & _ & Hsv & Hsy & _ & _).
  pose proof (si_queue _ _ _ HI) as HQ. pose proof (si_queue _ _ _ HI1) as HQ1.
  destruct (si_target _ _ _ HI (proj2 (be_generation _ _ _ HB)) (proj1 (be_generation _ _ _ HB))) as [Hr _].
  pose proof (be_received _ _ _ HB) as Hrec.
  assert (ys_queue y' = ys_queue y) as Hqq.
  { apply handle_frame_cases in Hf as [[Hq' _]|[(Hq' & _)|[(_ & a & st2 & -> & Hst & Hg & Hack)|(_ & Hreset)]]];
      cbn [queue] in *; [congruence..| |].
    - unfold GetState in Hst. rewrite (inv_read _ _ _ HQ) in Hst. injection Hst as <-.
      destruct (Ack_Inv _ _ _ _ _ _ _ HQ Hack) as (Hs & _).
      pose proof (be_down _ _ _ HB ltac:(by rewrite Hc) a ltac:(rewrite Hd; set_solver) Hg). lia.
    - destruct (ResetForSnapshot_Inv _ _ _ _ HQ Hreset) as (_ & Hn & _). pose proof (inv_ready _ _ _ HQ). lia. }
  rewrite Hqq in HQ1. rewrite (Inv_state _ _ _ _ _ HQ HQ1) in *.
  exists st, log1. split; [|done]. destruct HB. split; rewrite ?Hsy, ?Hsv; try done.
  intros _ a Hin. apply be_down0; [by rewrite Hc|]. rewrite Hd. set_solver.
Qed.

Lemma server_behind v y y' st log : behind y st log → act (AServer v) y = Some y' → behind y' st log.
Proof.
  intros HB Ha. pose proof (be_inv _ _ _ HB) as HI. pose proof (server_SInv _ _ _ _ _ HI Ha) as HI'.
  pose proof (server_shape _ _ _ Ha) as (s & f & s' & sent & vd & Hs & Hup & Hr & Hs' & Hd & Hq & Hu & Hl).
  pose proof (be_generation _ _ _ HB) as [Hg Hne]. pose proof (be_session _ _ _ HB s Hs) as Hn.
  assert (ys_client y' = ys_client y) as Hc.
  { cbn [act] in Ha. rewrite Hs, Hup, Hr in Ha. by injection Ha as <-. }
  apply receive_cases in Hr as [(Hf & Hg' & Hn' & Hsent)|(e & m & -> & Hm & Hseq & Hgen & Hst & Hg' & Hn' & Hsent)].
  - apply flagged_progress in Hf as [Hfg Hfr]. destruct HB. split; rewrite ?Hfg, ?Hfr, ?Hc; try done.
    + intros Hcl a. rewrite Hd. intros [Hin|Hin]%elem_of_app; [by apply be_down0|].
      eapply Forall_forall in Hsent; [|exact Hin]. destruct Hsent as [_ [=]].
    + intros s1. rewrite Hs'. destruct vd; [|done]. intros [= <-]. by rewrite Hn'.
  - destruct (si_session _ _ _ HI s Hs) as [_ Hsg]. assert (se_generation s = State.Generation st) as Hsg' by naive_solver.
    pose proof (si_up _ _ _ HI e ltac:(rewrite Hup; set_solver)) as (m' & Hj & Hok & Hin & Hlog).
    rewrite Hj, unmarshal_marshal in Hm by done. injection Hm as ->. rewrite Hj in Hst.
    destruct Hlog as [Hat Hready]; [congruence|]. pose proof (si_queue _ _ _ HI) as HQ.
    pose proof (inv_ready _ _ _ HQ). pose proof (inv_next _ _ _ HQ). pose proof (inv_bound _ _ _ HQ).
    pose proof (inv_delivered _ _ _ HQ). pose proof (store_generation _ _ _ _ _ _ Hst) as Hg1.
    eapply (store_log _ _ _ _ _ st log) in Hst as (Hrec & Hmono & _); [|congruence|exact Hne|exact Hat|exact Hready|lia|lia|].
    2: { intros Hdb. destruct (si_target _ _ _ HI Hne Hdb). split; [lia|done]. }
    specialize (Hmono Hg). destruct HB. split; rewrite ?Hc; try done.
    + split; [congruence|done].
    + lia.
    + intros Hcl a. rewrite Hd. intros [Hina|Hina]%elem_of_app; [by apply be_down0|].
      eapply Forall_forall in Hsent; [|exact Hina]. destruct Hsent as [_ [= Ha']]. lia.
    + intros s1. rewrite Hs'. destruct vd; [|done]. intros [= <-]. destruct Hn' as [(_ & e' & [=])|Hn'].
      rewrite Hn', u64_small; lia.
Qed.

Lemma connect_behind v y y' st log : behind y st log → act (AConnect v) y = Some y' → behind y' st log.
Proof.
  intros HB Ha. pose proof (be_inv _ _ _ HB) as HI. pose proof (connect_SInv _ _ _ _ _ HI Ha) as HI'.
  pose proof (be_generation _ _ _ HB) as [Hg Hne]. pose proof (si_queue _ _ _ HI) as HQ.
  destruct (si_target _ _ _ HI Hne Hg) as [Hr _]. pose proof (inv_ready _ _ _ HQ). pose proof (inv_bound _ _ _ HQ).
  pose proof (inv_delivered _ _ _ HQ). cbn [act] in Ha.
  destruct (ys_client y); [done|]. destruct (ys_server y) eqn:Es; [done|].
  destruct (hello sender (ys_queue y)) as [first|] eqn:Eh; [|done]. destruct (negb _); [done|].
  destruct (hello_generation _ _ _ _ HQ Eh) as (h & -> & Hh & _).
  destruct (Connect v _ _ (ys_syncer y)) as [z res] eqn:Ec. apply Connect_flagged in Ec as [Hf Hres].
  apply flagged_progress in Hf as [Hfg Hfr]. pose proof (be_received _ _ _ HB).
  destruct res as [[s frames]|e]; injection Ha as <-; destruct HB; split; cbn; rewrite ?Hfg, ?Hfr; try done.
  - destruct (Hres s frames eq_refl) as (_ & -> & _). intros _ a Hin%list_elem_of_singleton. done.
  - intros s1 [= <-]. destruct (Hres s frames eq_refl) as (_ & _ & (h' & [= <-] & Hsg) & [(_ & _ & Hd)|Hd]); [congruence|].
    rewrite Hd, u64_small; lia.
Qed.

Lemma act_behind a y y' st log : behind y st log → act a y = Some y' →
  ∃ st' log', behind y' st' log' ∧ State.DeliveredSeq st' = State.DeliveredSeq st.
Proof.
  intros HB Ha. destruct a as [o|c|v|v| |v|v].
  - by eapply capture_behind.
  - exists st, log. split; [|done]. pose proof (controller_SInv _ _ _ _ _ (be_inv _ _ _ HB) Ha).
    injection Ha as <-. destruct HB. by split.
  - exists st, log. split; [|done]. by eapply connect_behind.
  - by eapply client_behind.
  - exists st, log. split; [|done]. pose proof (client_break_SInv _ _ _ _ (be_inv _ _ _ HB) Ha).
    cbn [act] in Ha. destruct (ys_client y) as [[active last]|]; [|done].
    destruct (disconnect _ _) as [q k]. injection Ha as <-. destruct HB. by split.
  - exists st, log. split; [|done]. by eapply server_behind.
  - exists st, log. split; [|done]. pose proof (server_break_SInv _ _ _ _ _ (be_inv _ _ _ HB) Ha).
    cbn [act] in Ha. destruct (ys_server y) as [s|]; [|done]. injection Ha as <-. destruct HB.
    split; cbn; rewrite ?interrupted_db; done.
Qed.

Lemma acts_behind l y y' st log : behind y st log → acts l y = Some y' →
  ∃ st' log', behind y' st' log' ∧ State.DeliveredSeq st' = State.DeliveredSeq st.
Proof.
  revert y st log. induction l as [|a l IH]; intros y st log HB Ha; cbn in Ha; [simplify_eq; eauto|].
  destruct (act a y) as [y1|] eqn:E1; [|done]. destruct (act_behind _ _ _ _ _ HB E1) as (st1 & log1 & HB1 & Hd1).
  destruct (IH _ _ _ HB1 Ha) as (st2 & log2 & ? & ?). exists st2, log2. split; [done|congruence].
Qed.

(** ** Theorems *)

(** C3. Whatever the capture side does and wherever the stream breaks, the
    collector's queue holds a log, and while the target is in the generation of
    the collector its database is the result of storing exactly the first
    [received] messages of that log, each once and in order; everything stored was
    published, and everything acknowledged was stored. *)
Theorem exactly_once l maxB res c σ m y : acts l (initial maxB res c σ m) = Some y →
  ∃ st, Inv (ys_queue y) st (ys_log y) ∧
    let d := sy_db (ys_syncer y) in
    (State.Generation st ≠ "" → generation d = State.Generation st →
       State.DeliveredSeq st ≤ received d ≤ State.ReadySeq st ∧
       stored (State.Generation st) (take (Z.to_nat (received d)) (ys_log y)) d) ∧
    (generation d ≠ State.Generation st → State.DeliveredSeq st = 0).
Proof.
  intros Ha. destruct (acts_SInv _ _ _ _ _ (initial_SInv maxB res c σ m) Ha) as (st & log & HI).
  exists st. rewrite (si_log _ _ _ HI). split; [apply HI|]. split; [apply HI|]. intros Hd. apply HI. by right.
Qed.

(** C4. An acknowledgement that is lost with the stream is never made up for:
    from a reachable state in which the stream is down and the target has received
    more than the collector knows, no sequence of actions changes the delivered
    sequence number again. *)
Theorem lost_ack_stuck l0 maxB res c σ m y st l y' : acts l0 (initial maxB res c σ m) = Some y →
  ys_client y = None → ys_server y = None → GetState (ys_queue y) = Ok st → State.Phase st = "stream" →
  State.Generation st ≠ "" → generation (sy_db (ys_syncer y)) = State.Generation st →
  State.DeliveredSeq st < received (sy_db (ys_syncer y)) →
  acts l y = Some y' →
  ∃ st', GetState (ys_queue y') = Ok st' ∧ State.DeliveredSeq st' = State.DeliveredSeq st.
Proof.
  intros Hr Hc Hs Hq Hp Hne Hg Hd Ha.
  destruct (acts_SInv _ _ _ _ _ (initial_SInv maxB res c σ m) Hr) as (st1 & log & HI).
  unfold GetState in *. rewrite (inv_read _ _ _ (si_queue _ _ _ HI)) in Hq. injection Hq as ->.
  assert (behind y st log) as HB by (split; rewrite ?Hc, ?Hs; done).
  destruct (acts_behind _ _ _ _ _ HB Ha) as (st' & log' & HB' & Hd'). exists st'. split; [|done].
  apply inv_read with log', HB'.
Qed.

Lemma ack_next q st log m now : Inv q st log → at_seq log (State.DeliveredSeq st + 1) = Some m →
  State.DeliveredSeq st + 1 ≤ State.ReadySeq st →
  Message.Seq m = State.DeliveredSeq st + 1 ∧
  ∃ q', Ack q now (Message.Seq m) (Message.ID m) = (q', Ok tt) ∧
    ∃ st', Inv q' st' log ∧ State.DeliveredSeq st' = State.DeliveredSeq st + 1 ∧
      State.Generation st' = State.Generation st.
Proof.
  intros HI Hm Hr. pose proof (queued_lookup q st log 0 HI ltac:(lia)) as Hq.
  replace (State.DeliveredSeq st + 1 + Z.of_nat 0) with (State.DeliveredSeq st + 1) in Hq by lia. rewrite Hm in Hq.
  destruct (queued (outbox st log)) as [|m' l] eqn:El; [done|]. injection Hq as ->.
  pose proof (ack_complete _ _ _ now _ _ HI El) as Hok.
  destruct (queued_head _ _ _ _ _ HI El) as (_ & _ & _ & Hs & _). split; [done|].
  destruct (Ack q now _ _) as [q' r] eqn:Ea. cbn in Hok. subst r. exists q'. split; [done|].
  rewrite Hs in Ea. destruct (Ack_Inv _ _ _ _ _ _ _ HI Ea) as (_ & _ & _ & st' & HI' & Hd & _ & _ & _ & _ & _ & _ & _ & Hg).
  eauto.
Qed.

(** The collector answers a pull of a published, undelivered message. *)
Lemma pull_answered v (c : stream_state C) st log p m : Inv (queue c) st log →
  syncv1.Pull.Generation p = State.Generation st → syncv1.Pull.Seq p = State.DeliveredSeq st + 1 →
  State.DeliveredSeq st + 1 ≤ State.ReadySeq st → at_seq log (State.DeliveredSeq st + 1) = Some m →
  handle_frame (E:=E) sender v (syncv1.ServerFrame_Pull p) c =
    (c, [syncv1.CollectorFrame_Event (syncv1.Event.mk (Message.Seq m) (Message.ID m) (marshal m))], Continue).
Proof.
  intros HI Hg Hs Hr Hm. cbn [handle_frame]. unfold handle_pull, Bounds. rewrite (inv_read _ _ _ HI). go.
  pose proof (inv_first _ _ _ HI). rewrite Hg, String.eqb_refl, andb_false_r, Hs.
  rewrite (proj2 (Z.ltb_ge _ _)), (proj2 (Z.ltb_ge (State.ReadySeq st) _)) by lia.
  rewrite (Get_published _ _ _ _ HI), (proj2 (Z.leb_le _ _)), (proj2 (Z.leb_le (_ + 1) _)), Hm by lia. done.
Qed.

(** The server stores an event that is the one it asked for. *)
Lemma event_stored v s (z : syncer_state V F) m σ' d' : se_mode s = Streaming →
  Message_ok m = true → Message.Seq m = se_next s → Message.SourceID m = se_id s →
  Message.Generation m = se_generation s → Message.ID m = message_id (se_id s) (se_generation s) (se_next s) →
  ob_retiring v = false → ob_fault v = NoFault →
  store constraints cfg m (marshal m) (sy_side z) (sy_db z) = (σ', d', Ok tt) →
  ∃ z' s', receive constraints text float_text cfg v
    (syncv1.CollectorFrame_Event (syncv1.Event.mk (Message.Seq m) (Message.ID m) (marshal m))) s z =
    (z', s', [syncv1.ServerFrame_Ack (syncv1.Ack.mk (se_generation s) (se_next s) (Message.ID m)); pull s'], Receive) ∧
    sy_db z' = d' ∧ se_next s' = u64 (se_next s + 1) ∧ se_mode s' = Streaming.
Proof.
  intros Hmode Hok Hseq Hsrc Hgen Hid Hret Hft Hst. unfold receive. rewrite Hmode. cbn [frame_received].
  unfold event_received. cbn [syncv1.Event.Json syncv1.Event.Seq syncv1.Event.MessageId].
  rewrite unmarshal_marshal by done.
  rewrite Hseq, Hsrc, Hgen, !Z.eqb_refl, !String.eqb_refl, Hid, String.eqb_refl. cbn [negb orb].
  unfold store_message. rewrite Hst, Hft, Hret. cbn [andb]. eexists _, _. split; [reflexivity|]. done.
Qed.

(** Whether the metrics are to be sent with the next frame. *)
Definition metrics_due (v : Env E) (last : Z) : bool := metrics sender && negb (Since (now v) last <? metricsEvery sender).

(** The frame with the metrics, if they are due. *)
Definition metrics_frames (v : Env E) (last : Z) (prometheus : string) : list syncv1.CollectorFrame :=
  if metrics_due v last then [syncv1.CollectorFrame_Metrics (syncv1.Metrics.mk prometheus (now v / 1000000))] else [].

(** The collector takes the acknowledgement of the next message, and sends its metrics
    if they are due. *)
Lemma ack_taken v (c : stream_state C) st log m prometheus : Inv (queue c) st log →
  (metrics_due v (lastMetrics c) = true → GatherText v = Ok prometheus) →
  at_seq log (State.DeliveredSeq st + 1) = Some m → State.DeliveredSeq st + 1 ≤ State.ReadySeq st →
  ∃ q st', handle_frame (E:=E) sender v
    (syncv1.ServerFrame_Ack (syncv1.Ack.mk (State.Generation st) (State.DeliveredSeq st + 1) (Message.ID m))) c =
      (mkStream q (controller c) (activeReconcile c) (if metrics_due v (lastMetrics c) then now v else lastMetrics c),
       metrics_frames v (lastMetrics c) prometheus, Continue) ∧ Inv q st' log ∧ State.DeliveredSeq st' = State.DeliveredSeq st + 1.
Proof.
  intros HI Hmet Hm Hr. destruct (ack_next _ _ _ _ (now v) HI Hm Hr) as (Hs & q & Ha & st' & HI' & Hd & _).
  exists q, st'. split; [|done]. cbn [handle_frame]. unfold handle_ack, GetState. rewrite (inv_read _ _ _ HI).
  cbn [syncv1.Ack.Generation syncv1.Ack.Seq syncv1.Ack.MessageId].
  pose proof (inv_ready _ _ _ HI). pose proof (inv_bound _ _ _ HI). pose proof (inv_delivered _ _ _ HI).
  rewrite u64_small, String.eqb_refl, Z.ltb_irrefl, Z.eqb_refl by lia. cbn [negb orb].
  rewrite <- Hs, Ha. unfold then_metrics, sendMetrics, metrics_frames. cbn [with_queue queue controller activeReconcile lastMetrics].
  assert (negb (metrics sender) || (Since (now v) (lastMetrics c) <? metricsEvery sender) = negb (metrics_due v (lastMetrics c))) as ->.
  { unfold metrics_due. by rewrite negb_andb, negb_involutive. }
  destruct (metrics_due v (lastMetrics c)); cbn [negb]; [|by destruct c]. by rewrite Hmet.
Qed.

(** The server takes metrics that are not too large: nothing else changes. *)
Lemma metrics_taken v s (z : syncer_state V F) frame : se_mode s = Streaming →
  slen (syncv1.Metrics.PrometheusText frame) ≤ ob_maxBytes v →
  receive constraints text float_text cfg v (syncv1.CollectorFrame_Metrics frame) s z =
    (setCollector (syncv1.Metrics.PrometheusText frame) z, s, [], Receive).
Proof. intros Hmode Hmax. unfold receive. rewrite Hmode. cbn [frame_received]. by rewrite (proj2 (Z.ltb_ge _ _)). Qed.

(** C11. While nothing fails, every round of the stream delivers the next message:
    when the server's pull for the next undelivered message is in flight, nothing else
    is, and the target accepts that message, then the collector's answer, the server's
    handling of it and the collector's handling of the acknowledgement store the
    message, advance the delivered sequence number by one and leave the next pull in
    flight.  If the collector's metrics are due they follow the acknowledgement, and
    the server takes them (as long as their text can be gathered and is not larger
    than a message may be) without another effect on the round.  The target is not
    being retired and its transaction commits. *)
Theorem round_delivers y st log s m σ' d' active last prometheus v1 v2 v3 v4 : Inv (ys_queue y) st log →
  at_seq log (State.DeliveredSeq st + 1) = Some m → State.DeliveredSeq st + 1 ≤ State.ReadySeq st →
  ys_client y = Some (active, last) → ys_server y = Some s → ys_down y = [pull s] → ys_up y = [] →
  se_mode s = Streaming → se_id s = State.SourceID st → se_generation s = State.Generation st →
  se_next s = State.DeliveredSeq st + 1 → ob_retiring v2 = false → ob_fault v2 = NoFault →
  (metrics_due v3 last = true → GatherText v3 = Ok prometheus ∧ slen prometheus ≤ ob_maxBytes v4) →
  store constraints cfg m (marshal m) (sy_side (ys_syncer y)) (sy_db (ys_syncer y)) = (σ', d', Ok tt) →
  ∃ y' st' s', acts ([AClient v1; AServer v2; AClient v3] ++ (if metrics_due v3 last then [AServer v4] else [])) y = Some y' ∧
    Inv (ys_queue y') st' log ∧ State.DeliveredSeq st' = State.DeliveredSeq st + 1 ∧
    sy_db (ys_syncer y') = d' ∧ ys_client y' = Some (active, if metrics_due v3 last then now v3 else last) ∧
    ys_server y' = Some s' ∧ se_mode s' = Streaming ∧
    ys_down y' = [pull s'] ∧ ys_up y' = [] ∧ se_next s' = State.DeliveredSeq st' + 1.
Proof.
  intros HI Hm Hr Hc Hs Hdown Hup Hmode Hid Hg Hn Hret Hft Hmet Hst.
  pose proof (inv_log _ _ _ HI) as Hl. pose proof Hm as Hm'. unfold at_seq in Hm'.
  pose proof (inv_ready _ _ _ HI). pose proof (inv_bound _ _ _ HI). pose proof (inv_delivered _ _ _ HI).
  rewrite (proj2 (Z.leb_le _ _)) in Hm' by lia. apply Hl in Hm' as (Hok & Hseq & Hsrc & Hgen & Hmid).
  replace (Z.of_nat (Z.to_nat (State.DeliveredSeq st + 1 - 1)) + 1) with (State.DeliveredSeq st + 1) in * by lia.
  destruct (event_stored v2 s (ys_syncer y) m σ' d') as (z' & s' & Hrec & Hz & Hn' & Hmode'); try congruence.
  destruct (ack_taken v3 (mkStream (ys_queue y) (ys_controller y) active last) st log m prometheus HI (λ H, proj1 (Hmet H)) Hm Hr)
    as (q & st' & Hack & HI' & Hd'). cbn [lastMetrics controller activeReconcile] in Hack.
  assert (se_next s' = State.DeliveredSeq st' + 1) as Hnext by (rewrite Hn', Hd', Hn; apply u64_small; lia).
  unfold metrics_frames in Hack. destruct (metrics_due v3 last); eexists _, st', s'.
  all: split; [cbn [app acts act mbind option_bind]; rewrite Hc, Hdown; unfold pull at 1;
    rewrite (pull_answered v1 (mkStream (ys_queue y) (ys_controller y) active last) st log _ m HI) by done;
    cbn [mbind option_bind ys_server ys_up ys_syncer queue controller activeReconcile lastMetrics];
    rewrite Hs, Hup; cbn [app]; rewrite Hrec;
    cbn [mbind option_bind ys_client ys_down ys_queue ys_controller app]; rewrite Hg, Hn, Hack;
    cbn [mbind option_bind ys_server ys_up ys_syncer app]|].
  - rewrite metrics_taken by (done || by apply Hmet). reflexivity.
  - cbn. by split_and!.
  - reflexivity.
  - cbn. by split_and!.
Qed.

End system.

(** ** A run *)

#[local] Existing Instance demo_postgres.
#[local] Existing Instance demo_files.

Definition demo_sender : GRPCSender := mkGRPCSender "s" true (15 * second) true.

Definition demo_capture : State.t := State.mk "v2" "s" "g1" "fp" "" 0 "" "" "" "" "" "" "" 0 0 0 0 0 0.

Definition demo_kind (kind : string) (refs : list TableRef.t) : Message.t :=
  Message.mk "" "" "" "" 0 "" kind "" 0 "0/1" refs None [] None "".

Definition demo_initial : system string (gmap string string) captureController :=
  initial (2 ^ 20) 0 (newCaptureController true) demo_side demo_tables.

Definition demo_observation : observation :=
  mkObservation 0 false "r1" demo_schedule (FixedZone 0) (2 ^ 20) NoFault false true.

Definition demo_env : Env scan_env := mkEnv 0 (Ok "") demo_scan.

Definition demo_connect : action scan_env captureController :=
  AConnect (mkStart ["Bearer t"] (Ok tt) false NoFault).

(** The snapshot of an empty table is published, and its first message pulled. *)
Definition demo_pulled : list (action scan_env captureController) :=
  [ACapture (OInitialize demo_capture);
   ACapture (OAppend (2 ^ 40) 0 (demo_kind "snapshot_begin" [TableRef.mk "public" "users"]));
   ACapture (OAppend (2 ^ 40) 0 (demo_kind "snapshot_end" []));
   ACapture (OPublish "0/1" true ""); demo_connect].

(** The first message is stored, and the stream breaks before the collector reads
    its acknowledgement. *)
Definition demo_broken : list (action scan_env captureController) :=
  demo_pulled ++ [AClient demo_env; AServer demo_observation; AClientBreak; AServerBreak demo_observation].

(** The collector connects again, sends the next message and reads both
    frames of the server. *)
Definition demo_again : list (action scan_env captureController) :=
  [demo_connect; AClient demo_env; AServer demo_observation; AClient demo_env].

Notation demo_runs l y := (acts (λ _, true) id (λ _, None) demo_cfg demo_sender l y) (only parsing).

Definition after (l : list (action scan_env captureController)) (y : system string (gmap string string) captureController) :
    system string (gmap string string) captureController := default y (demo_runs l y).

Definition queue_state (y : system string (gmap string string) captureController) : State.t :=
  match GetState (ys_queue y) with Ok st => st | Err _ => State.zero end.

Lemma after_broken : demo_runs demo_broken demo_initial = Some (after demo_broken demo_initial).
Proof. vm_compute. reflexivity. Qed.

Lemma after_again : demo_runs demo_again (after demo_broken demo_initial) = Some (after demo_again (after demo_broken demo_initial)).
Proof. vm_compute. reflexivity. Qed.

Lemma exactly_once_witness : ∃ st, GetState (ys_queue (after demo_broken demo_initial)) = Ok st ∧
  stored (λ _, true) demo_cfg "g1" (take 1 (ys_log (after demo_broken demo_initial)))
    (sy_db (ys_syncer (after demo_broken demo_initial))).
Proof.
  destruct (exactly_once (λ _, true) id (λ _, None) demo_cfg demo_sender demo_broken (2 ^ 20) 0
    (newCaptureController true) demo_side demo_tables _ after_broken) as (st & HI & Ht & _).
  pose proof (inv_read _ _ _ HI) as Hr. exists st. split; [exact Hr|].
  assert (st = queue_state (after demo_broken demo_initial)) as -> by (unfold queue_state, GetState; by rewrite Hr).
  destruct Ht as [_ Hst]; [vm_compute; discriminate|vm_compute; reflexivity|]. exact Hst.
Defined.

Lemma lost_ack_witness : ∃ st',
  GetState (ys_queue (after demo_again (after demo_broken demo_initial))) = Ok st' ∧ State.DeliveredSeq st' = 0.
Proof.
  edestruct (lost_ack_stuck (λ _, true) id (λ _, None) demo_cfg demo_sender demo_broken (2 ^ 20) 0
    (newCaptureController true) demo_side demo_tables _ (queue_state (after demo_broken demo_initial))
    demo_again (after demo_again (after demo_broken demo_initial)) after_broken) as (st' & Hq & Hd);
    [vm_compute; reflexivity|vm_compute; reflexivity|vm_compute; reflexivity|vm_compute; reflexivity|
     vm_compute; discriminate|vm_compute; reflexivity|vm_compute; reflexivity|exact after_again|].
  exists st'. split; [exact Hq|]. rewrite Hd. vm_compute. reflexivity.
Defined.

Definition demo_round : system string (gmap string string) captureController := after demo_pulled demo_initial.

Definition demo_session : session := default (mkSession "" "" 0 false false Streaming) (ys_server demo_round).

Definition demo_first : Message.t := default Message.zero (at_seq (ys_log demo_round) 1).

Lemma after_pulled : demo_runs demo_pulled demo_initial = Some demo_round.
Proof. vm_compute. reflexivity. Qed.

Lemma round_delivers_witness : ∃ y', demo_runs [AClient demo_env; AServer demo_observation; AClient demo_env; AServer demo_observation] demo_round = Some y' ∧
  State.DeliveredSeq (queue_state y') = 1.
Proof.
  destruct (acts_SInv (λ _, true) id (λ _, None) demo_cfg demo_sender _ _ _ _ _
    (initial_SInv _ _ (2 ^ 20) 0 (newCaptureController true) demo_side demo_tables) after_pulled) as (st & log & HS).
  pose proof (si_queue _ _ _ _ _ HS) as HI. pose proof (si_log _ _ _ _ _ HS) as <-.
  assert (st = queue_state demo_round) as -> by (unfold queue_state, GetState; by rewrite (inv_read _ _ _ HI)).
  destruct (round_delivers (λ _, true) id (λ _, None) demo_cfg demo_sender demo_round _ _ demo_session demo_first
    (side_of (store (λ _, true) demo_cfg demo_first (marshal demo_first) (sy_side (ys_syncer demo_round)) (sy_db (ys_syncer demo_round))))
    (state_of (store (λ _, true) demo_cfg demo_first (marshal demo_first) (sy_side (ys_syncer demo_round)) (sy_db (ys_syncer demo_round))))
    "" zero_time "" demo_env demo_observation demo_env demo_observation HI) as (y' & st' & s' & Ha & HI' & Hd & _);
    [vm_compute; reflexivity|vm_compute; discriminate|vm_compute; reflexivity|vm_compute; reflexivity|
     vm_compute; reflexivity|vm_compute; reflexivity|vm_compute; reflexivity|vm_compute; reflexivity|
     vm_compute; reflexivity|vm_compute; reflexivity|reflexivity|reflexivity|
     intros _; split; [reflexivity|vm_compute; discriminate]| |].
  - refine (outcome_of (store (λ _, true) demo_cfg demo_first (marshal demo_first) (sy_side (ys_syncer demo_round))
      (sy_db (ys_syncer demo_round))) _). vm_compute. reflexivity.
  - exists y'. split; [exact Ha|]. unfold queue_state, GetState. rewrite (inv_read _ _ _ HI'), Hd. vm_compute. reflexivity.
Defined.
